(** * Verification of the literature-review pipeline of [utils.py]

    The development embeds the numeric core of [utils.py] (the pandas
    pipeline that loads a bibliographic export, scales the topic-model
    hyperparameters, integrates the topic distribution, scores and ranks the
    records and writes the round-trip export) and states the properties of
    the pipeline over that embedding.

    Numbers are the ones the program computes with: [int64] columns are
    integers with their wrap-around written out, [float64] values are the
    IEEE 754 binary64 numbers of the standard library's [SpecFloat]
    (53 bits of precision, exponents up to 1024, round to nearest even). *)

From Stdlib Require Import ZArith List String Ascii Bool Lia.
From Stdlib Require Import Permutation Sorted SpecFloat.
Import ListNotations.

Open Scope Z_scope.

(** ** Results of fallible code

    Python exceptions are values of [error]; a computation either returns or
    raises. *)

Inductive error : Type :=
| KeyError (key : string)
| ValueError (msg : string)
| TypeError (msg : string)
| AttributeError (msg : string)
| OverflowError (msg : string)
| ZeroDivisionError (msg : string).

Inductive result (A : Type) : Type :=
| Ok (a : A)
| Raise (e : error).

Arguments Ok {A} a.
Arguments Raise {A} e.

Definition bind {A B : Type} (r : result A) (k : A -> result B) : result B :=
  match r with
  | Ok a => k a
  | Raise e => Raise e
  end.

Notation "x <- r ;; k" := (bind r (fun x => k))
  (at level 61, r at next level, right associativity).
Notation "' p <- r ;; k" := (bind r (fun x => let p := x in k))
  (at level 61, p pattern, r at next level, right associativity).

Definition returns {A : Type} (r : result A) : Prop :=
  exists a, r = Ok a.

(** ** Binary64 arithmetic *)

Module Float64.

Definition prec : Z := 53.
Definition emax : Z := 1024.

Definition float : Type := spec_float.

Definition zero : float := S754_zero false.
Definition nan : float := S754_nan.

Definition add : float -> float -> float := SFadd prec emax.
Definition sub : float -> float -> float := SFsub prec emax.
Definition mul : float -> float -> float := SFmul prec emax.
Definition div : float -> float -> float := SFdiv prec emax.

Definition ltb : float -> float -> bool := SFltb.
Definition leb : float -> float -> bool := SFleb.
Definition eqb : float -> float -> bool := SFeqb.

(** Conversion of an integer to the nearest binary64 number. *)
Definition of_int (z : Z) : float := binary_normalize prec emax z 0 false.

Definition one : float := Eval vm_compute in of_int 1.

Definition is_nan (f : float) : bool :=
  match f with
  | S754_nan => true
  | _ => false
  end.

Definition is_finite (f : float) : bool :=
  match f with
  | S754_zero _ | S754_finite _ _ _ => true
  | _ => false
  end.

Definition is_zero (f : float) : bool :=
  match f with
  | S754_zero _ => true
  | _ => false
  end.

(** The numbers binary64 can hold: canonical mantissa and exponent. *)
Definition valid (f : float) : bool := valid_binary prec emax f.

(** An integer as the exact, unrounded pair of a mantissa and exponent 0. *)
Definition exact_int (z : Z) : float :=
  match z with
  | Z0 => S754_zero false
  | Zpos p => S754_finite false p 0
  | Zneg p => S754_finite true p 0
  end.

(** Python's [a / b] on two [int]s: the exact quotient rounded once to the
    nearest binary64 number. *)
Definition int_truediv (a b : Z) : result float :=
  if b =? 0 then Raise (ZeroDivisionError "division by zero")
  else
    match div (exact_int a) (exact_int b) with
    | S754_infinity _ => Raise (OverflowError "integer division result too large for a float")
    | q => Ok q
    end.

(** Python's [int(x)] on a [float]: truncation towards zero. *)
Definition to_int (f : float) : result Z :=
  match f with
  | S754_zero _ => Ok 0
  | S754_finite s m e =>
      let a := match e with
               | Zneg k => Z.shiftr (Zpos m) (Zpos k)
               | _ => Z.shiftl (Zpos m) e
               end in
      Ok (if s then - a else a)
  | S754_infinity _ => Raise (OverflowError "cannot convert float infinity to integer")
  | S754_nan => Raise (ValueError "cannot convert float NaN to integer")
  end.

End Float64.

(** ** Python strings

    [str.split(sep)], [str.replace(old, new)] and [int(s)] on ASCII text. *)

Module PyStr.

Open Scope string_scope.

(** [split_from sep s skip cur]: the pieces of [s] between the occurrences of
    [sep], scanning from the left; [cur] is the piece being read and [skip]
    counts the characters of a separator still to pass. *)
Fixpoint split_from (sep s : string) (skip : nat) (cur : string) : list string :=
  match s with
  | EmptyString => [cur]
  | String c s' =>
      match skip with
      | S k => split_from sep s' k cur
      | O =>
          if String.prefix sep s
          then cur :: split_from sep s' (String.length sep - 1) EmptyString
          else split_from sep s' O (cur ++ String c EmptyString)
      end
  end.

Definition split (sep s : string) : list string :=
  split_from sep s 0 EmptyString.

Fixpoint replace_from (old new s : string) (skip : nat) : string :=
  match s with
  | EmptyString => EmptyString
  | String c s' =>
      match skip with
      | S k => replace_from old new s' k
      | O =>
          if String.prefix old s
          then new ++ replace_from old new s' (String.length old - 1)
          else String c (replace_from old new s' O)
      end
  end.

Definition replace (old new s : string) : string :=
  replace_from old new s 0.

(** Does [sub] occur in [s]? *)
Fixpoint contains (sub s : string) : bool :=
  String.prefix sub s ||
  match s with
  | EmptyString => false
  | String _ s' => contains sub s'
  end.

(** The characters [int] and [str.strip] treat as blank. *)
Definition is_space (c : ascii) : bool :=
  let n := nat_of_ascii c in
  ((9 <=? n) && (n <=? 13) || (28 <=? n) && (n <=? 32))%nat.

Fixpoint lstrip (s : string) : string :=
  match s with
  | String c s' => if is_space c then lstrip s' else s
  | EmptyString => EmptyString
  end.

Definition reverse (s : string) : string :=
  string_of_list_ascii (rev (list_ascii_of_string s)).

Definition strip (s : string) : string :=
  reverse (lstrip (reverse (lstrip s))).

Definition digit_of (c : ascii) : option Z :=
  let n := nat_of_ascii c in
  if ((48 <=? n) && (n <=? 57))%nat then Some (Z.of_nat (n - 48)) else None.

(** Decimal digits, single underscores allowed between two digits. *)
Fixpoint parse_digits (s : string) (acc : Z) (after_digit : bool) : option Z :=
  match s with
  | EmptyString => if after_digit then Some acc else None
  | String c s' =>
      match digit_of c with
      | Some d => parse_digits s' (10 * acc + d)%Z true
      | None =>
          if Ascii.eqb c "_" && after_digit then parse_digits s' acc false
          else None
      end
  end.

(** [int(s)] in base 10: blanks around, an optional sign, digits. *)
Definition to_int (s : string) : option Z :=
  match strip s with
  | String "-" r => option_map Z.opp (parse_digits r 0 false)
  | String "+" r => parse_digits r 0 false
  | r => parse_digits r 0 false
  end.

End PyStr.

Example split_scopus_note :
  PyStr.split ";" "Export Date: 21 June 2023; Cited By: 5"
  = ["Export Date: 21 June 2023"; " Cited By: 5"]%string.
Proof. reflexivity. Qed.

Example replace_marker : PyStr.replace "Cited By: " "" " Cited By: 5" = " 5"%string.
Proof. reflexivity. Qed.

Example to_int_blank : PyStr.to_int " 5" = Some 5.
Proof. reflexivity. Qed.

Example to_int_rejects : PyStr.to_int "1__0" = None /\ PyStr.to_int "12 3" = None
                         /\ PyStr.to_int "-1_000" = Some (-1000).
Proof. repeat split. Qed.

(** ** [hyperP_scaler] *)

(** [hyperP_of_len n] is the body of [hyperP_scaler] at [len(corpus) = n]:
    [int(n / 2000 * 10) + 1] and [int(n / 2000 * 15) + 1]. *)
Definition hyperP_of_len (n : Z) : result (Z * Z) :=
  q1 <- Float64.int_truediv n 2000 ;;
  t <- Float64.to_int (Float64.mul q1 (Float64.of_int 10)) ;;
  q2 <- Float64.int_truediv n 2000 ;;
  u <- Float64.to_int (Float64.mul q2 (Float64.of_int 15)) ;;
  Ok (t + 1, u + 1).

Definition hyperP_scaler {A : Type} (corpus : list A) : result (Z * Z) :=
  hyperP_of_len (Z.of_nat (List.length corpus)).

Example hyperP_16400 : hyperP_of_len 16400 = Ok (83, 123).
Proof. vm_compute. reflexivity. Qed.

(** The scaler's formula in exact arithmetic:
    [floor(n / 2000 * 10) + 1] and [floor(n / 2000 * 15) + 1]. *)
Definition hyperP_exact (n : Z) : Z * Z :=
  (n * 10 / 2000 + 1, n * 15 / 2000 + 1).

(** ** Data frames

    A pandas [DataFrame] is a list of named columns over a row index
    [0 .. nrows - 1]; every column has a dtype. Row labels play no part in the
    pipeline (they are reset before the positional concatenation), so only
    the number of rows is kept. *)

Open Scope string_scope.

(** A cell of an [object] column, and a cell read out of any column. *)
Inductive obj : Type :=
| ONaN
| OStr (s : string)
| OList (l : list string)
| OInt (z : Z)
| OFloat (f : Float64.float).

Inductive column : Type :=
| IntCol (l : list Z)
| FloatCol (l : list Float64.float)
| ObjCol (l : list obj).

Record DataFrame : Type := mkDF {
  nrows : nat;
  columns : list (string * column)
}.

Definition col_length (c : column) : nat :=
  match c with
  | IntCol l => List.length l
  | FloatCol l => List.length l
  | ObjCol l => List.length l
  end.

(** Every column spans the whole index. *)
Definition wf_frame (df : DataFrame) : Prop :=
  Forall (fun nc => col_length (snd nc) = nrows df) (columns df).

Definition obj_isna (o : obj) : bool :=
  match o with
  | ONaN => true
  | OFloat f => Float64.is_nan f
  | _ => false
  end.

Definition cells (c : column) : list obj :=
  match c with
  | IntCol l => map OInt l
  | FloatCol l => map OFloat l
  | ObjCol l => l
  end.

Definition cell_at (c : column) (i : nat) : obj :=
  nth i (cells c) ONaN.

Definition column_names (df : DataFrame) : list string :=
  map fst (columns df).

Fixpoint lookup {A : Type} (key : string) (l : list (string * A)) : option A :=
  match l with
  | [] => None
  | (k, v) :: rest => if String.eqb k key then Some v else lookup key rest
  end.

(** [df[key]], for a label that names at most one column. *)
Definition df_get (df : DataFrame) (key : string) : result column :=
  match lookup key (columns df) with
  | Some c => Ok c
  | None => Raise (KeyError key)
  end.

Fixpoint replace_col (key : string) (c : column) (l : list (string * column))
  : list (string * column) :=
  match l with
  | [] => []
  | (k, v) :: rest =>
      if String.eqb k key then (k, c) :: rest else (k, v) :: replace_col key c rest
  end.

(** [df[key] = c]: an existing column is replaced in place, a new one is
    appended. *)
Definition df_set (df : DataFrame) (key : string) (c : column) : DataFrame :=
  match lookup key (columns df) with
  | Some _ => mkDF (nrows df) (replace_col key c (columns df))
  | None => mkDF (nrows df) (columns df ++ [(key, c)])
  end.

Fixpoint select_cols (keys : list string) (l : list (string * column))
  : result (list (string * column)) :=
  match keys with
  | [] => Ok []
  | k :: rest =>
      match lookup k l with
      | Some c => cs <- select_cols rest l ;; Ok ((k, c) :: cs)
      | None => Raise (KeyError k)
      end
  end.

(** [df[[k1, ..., kn]]] *)
Definition df_select (df : DataFrame) (keys : list string) : result DataFrame :=
  cs <- select_cols keys (columns df) ;;
  Ok (mkDF (nrows df) cs).

(** [df.rename(columns=mapping)] *)
Definition df_rename (df : DataFrame) (mapping : list (string * string)) : DataFrame :=
  mkDF (nrows df)
       (map (fun nc => (match lookup (fst nc) mapping with
                        | Some n' => n'
                        | None => fst nc
                        end, snd nc)) (columns df)).

Definition mem_string (k : string) (l : list string) : bool :=
  existsb (String.eqb k) l.

(** [df.drop(labels, axis=1)]: a label that names no column is a [KeyError]. *)
Definition df_drop (df : DataFrame) (labels : list string) : result DataFrame :=
  match find (fun k => negb (mem_string k (column_names df))) labels with
  | Some k => Raise (KeyError k)
  | None =>
      Ok (mkDF (nrows df)
               (filter (fun nc => negb (mem_string (fst nc) labels)) (columns df)))
  end.

Definition take {A : Type} (d : A) (l : list A) (indexer : list nat) : list A :=
  map (fun i => nth i l d) indexer.

Definition col_take (c : column) (indexer : list nat) : column :=
  match c with
  | IntCol l => IntCol (take 0%Z l indexer)
  | FloatCol l => FloatCol (take Float64.nan l indexer)
  | ObjCol l => ObjCol (take ONaN l indexer)
  end.

(** The rows of [df] at the positions [indexer], in that order. *)
Definition df_take (df : DataFrame) (indexer : list nat) : DataFrame :=
  mkDF (List.length indexer)
       (map (fun nc => (fst nc, col_take (snd nc) indexer)) (columns df)).

(** [df.head(n)]: the first [n] rows; all but the last [-n] for a negative [n]. *)
Definition df_head (df : DataFrame) (n : Z) : DataFrame :=
  let k := if (0 <=? n)%Z then Nat.min (Z.to_nat n) (nrows df)
           else (nrows df - Z.to_nat (- n))%nat in
  df_take df (seq 0 k).

(** One row as a record, and [df.to_dict('records')]. *)
Definition row_at (df : DataFrame) (i : nat) : list (string * obj) :=
  map (fun nc => (fst nc, cell_at (snd nc) i)) (columns df).

Definition to_dict_records (df : DataFrame) : list (list (string * obj)) :=
  map (row_at df) (seq 0 (nrows df)).

(** Padding of a column to [n] rows by missing values; an [int64] column that
    receives one becomes [float64]. *)
Definition pad_col (n : nat) (c : column) : column :=
  let k := (n - col_length c)%nat in
  match k, c with
  | O, _ => c
  | _, IntCol l => FloatCol (map Float64.of_int l ++ repeat Float64.nan k)
  | _, FloatCol l => FloatCol (l ++ repeat Float64.nan k)
  | _, ObjCol l => ObjCol (l ++ repeat ONaN k)
  end.

(** [pd.concat([a, b], axis=1)] of two frames indexed from 0: the columns of
    both side by side over the union of the two indexes. *)
Definition concat_axis1 (a b : DataFrame) : DataFrame :=
  let n := Nat.max (nrows a) (nrows b) in
  mkDF n (map (fun nc => (fst nc, pad_col n (snd nc))) (columns a ++ columns b)).

(** A two-dimensional [float64] array. *)
Record matrix : Type := mkMatrix {
  mat_width : nat;
  mat_rows : list (list Float64.float)
}.

(** [pd.DataFrame(m, columns=names)] *)
Definition DataFrame_of_matrix (m : matrix) (names : list string) : result DataFrame :=
  if Nat.eqb (mat_width m) (List.length names) then
    Ok (mkDF (List.length (mat_rows m))
             (map (fun jn => (snd jn,
                              FloatCol (map (fun r => nth (fst jn) r Float64.nan) (mat_rows m))))
                  (combine (seq 0 (List.length names)) names)))
  else Raise (ValueError "Shape of passed values does not match the columns").

(** [pd.DataFrame(entries)] for a list of dicts: one column per key, in order
    of first appearance; a key an entry lacks is a missing cell. *)
Fixpoint union_keys (seen : list string) (entries : list (list (string * obj)))
  : list string :=
  match entries with
  | [] => seen
  | e :: rest =>
      union_keys
        (fold_left (fun acc k => if mem_string k acc then acc else (acc ++ [k])%list)
                   (map fst e) seen)
        rest
  end.

Definition DataFrame_of_records (entries : list (list (string * obj))) : DataFrame :=
  mkDF (List.length entries)
       (map (fun k => (k, ObjCol (map (fun e => match lookup k e with
                                                | Some v => v
                                                | None => ONaN
                                                end) entries)))
            (union_keys [] entries)).

(** ** Column arithmetic *)

(** Two's-complement wrap-around of [int64] arithmetic. *)
Definition wrap64 (z : Z) : Z :=
  ((z + 2 ^ 63) mod 2 ^ 64 - 2 ^ 63)%Z.

(** The values an [int64] cell can hold. *)
Definition in_int64 (z : Z) : bool :=
  ((- 2 ^ 63 <=? z) && (z <? 2 ^ 63))%Z.

Definition int_min (x : Z) (l : list Z) : Z := fold_left Z.min l x.
Definition int_max (x : Z) (l : list Z) : Z := fold_left Z.max l x.

(** [Series.min()] and [Series.max()] of a [float64] column: missing values
    are skipped, and a column with nothing else has a missing extreme. *)
Definition nanmin (l : list Float64.float) : Float64.float :=
  match filter (fun x => negb (Float64.is_nan x)) l with
  | [] => Float64.nan
  | x :: rest => fold_left (fun m y => if Float64.ltb y m then y else m) rest x
  end.

Definition nanmax (l : list Float64.float) : Float64.float :=
  match filter (fun x => negb (Float64.is_nan x)) l with
  | [] => Float64.nan
  | x :: rest => fold_left (fun m y => if Float64.ltb m y then y else m) rest x
  end.

(** [(s - s.min()) / (s.max() - s.min())] on an [int64] column: the
    subtractions are [int64], the division is the true division of the two
    operands converted to [float64]. *)
Definition minmax_int (l : list Z) : list Float64.float :=
  match l with
  | [] => []
  | x :: rest =>
      let lo := int_min x rest in
      let hi := int_max x rest in
      let range := wrap64 (hi - lo) in
      map (fun c => Float64.div (Float64.of_int (wrap64 (c - lo)))
                                (Float64.of_int range)) l
  end.

(** The same expression on a [float64] column. *)
Definition minmax_float (l : list Float64.float) : list Float64.float :=
  let lo := nanmin l in
  let hi := nanmax l in
  let range := Float64.sub hi lo in
  map (fun c => Float64.div (Float64.sub c lo) range) l.

(** A cell as a number, for arithmetic on [object] columns. *)
Definition obj_number (o : obj) : result Float64.float :=
  match o with
  | ONaN => Ok Float64.nan
  | OInt z => Ok (Float64.of_int z)
  | OFloat f => Ok f
  | OStr _ => Raise (TypeError "unsupported operand type: str")
  | OList _ => Raise (TypeError "unsupported operand type: list")
  end.

Fixpoint mapM {A B : Type} (f : A -> result B) (l : list A) : result (list B) :=
  match l with
  | [] => Ok []
  | a :: rest => b <- f a ;; bs <- mapM f rest ;; Ok (b :: bs)
  end.

(** The values of a column as [float64]. On [int64] and [float64] columns
    this is the conversion pandas makes before a [float64] operation. The
    cells of an [object] column are read as the numbers they hold, and the
    operation is made on these binary64 values, where pandas applies
    Python's operator to each cell. *)
Definition col_floats (c : column) : result (list Float64.float) :=
  match c with
  | IntCol l => Ok (map Float64.of_int l)
  | FloatCol l => Ok l
  | ObjCol l => mapM obj_number l
  end.

Definition minmax (c : column) : result (list Float64.float) :=
  match c with
  | IntCol l => Ok (minmax_int l)
  | FloatCol l => Ok (minmax_float l)
  | ObjCol l => fs <- mapM obj_number l ;; Ok (minmax_float fs)
  end.

(** [s * w] for a [float] weight [w]. *)
Definition scale (w : Float64.float) (l : list Float64.float) : list Float64.float :=
  map (fun x => Float64.mul x w) l.

Definition col_mul (c : column) (w : Float64.float) : result column :=
  fs <- col_floats c ;; Ok (FloatCol (scale w fs)).

(** [a + b] on two columns over the same index. *)
Definition add_lists (a b : list Float64.float) : list Float64.float :=
  map (fun xy => Float64.add (fst xy) (snd xy)) (combine a b).

Definition col_add (a b : column) : result column :=
  x <- col_floats a ;; y <- col_floats b ;; Ok (FloatCol (add_lists x y)).

(** [df.sum(axis=1)]: the sum of each row over the columns of [df], missing
    values counted as zero, accumulated from the left; a frame without
    columns sums to zero on every row. *)
Definition nan_to_zero (f : Float64.float) : Float64.float :=
  if Float64.is_nan f then Float64.zero else f.

Definition row_sum (cols : list (list Float64.float)) (i : nat) : Float64.float :=
  match map (fun c => nan_to_zero (nth i c Float64.nan)) cols with
  | [] => Float64.zero
  | x :: rest => fold_left Float64.add rest x
  end.

Definition sum_axis1 (df : DataFrame) : result (list Float64.float) :=
  cols <- mapM (fun nc => col_floats (snd nc)) (columns df) ;;
  Ok (map (row_sum cols) (seq 0 (nrows df))).

(** ** Sorting

    [sort_values] is called with its default [kind='quicksort'], which is
    NumPy's unstable sort: what the program may rely on is that the indexer
    is a permutation that puts the keys in order. The interface below is
    that contract; the order of equal keys is the implementation's. *)

Class ArgSort : Type := {
  argsort : list Float64.float -> list nat;
  argsort_perm :
    forall l, Permutation (argsort l) (seq 0 (List.length l));
  argsort_sorted :
    forall l, forallb (fun x => negb (Float64.is_nan x)) l = true ->
      Sorted (fun i j => Float64.leb (nth i l Float64.nan) (nth j l Float64.nan) = true)
             (argsort l)
}.

(** The indexer of [sort_values(by=[key], ascending=...)] on one key: the
    rows whose key is present, in the order of the sort (taken on the
    reversed column and reversed again for a descending order), then the rows
    whose key is missing ([na_position='last']), in their own order. *)
Definition nargsort {S : ArgSort} (items : list Float64.float) (ascending : bool)
  : list nat :=
  let idx := seq 0 (List.length items) in
  let present := filter (fun i => negb (Float64.is_nan (nth i items Float64.nan))) idx in
  let missing := filter (fun i => Float64.is_nan (nth i items Float64.nan)) idx in
  let present := if ascending then present else rev present in
  let keys := map (fun i => nth i items Float64.nan) present in
  let indexer := map (fun k => nth k present O) (argsort keys) in
  let indexer := if ascending then indexer else rev indexer in
  (indexer ++ missing)%list.

Definition sort_values {S : ArgSort} (df : DataFrame) (by_ : string) (ascending : bool)
  : result DataFrame :=
  c <- df_get df by_ ;;
  keys <- col_floats c ;;
  Ok (df_take df (nargsort keys ascending)).

(** ** [file_loader] *)

(** The [.str] accessor exists on [object] columns only. *)
Definition str_accessor (c : column) : result (list obj) :=
  match c with
  | ObjCol l => Ok l
  | _ => Raise (AttributeError "Can only use .str accessor with string values")
  end.

(** [s.str[i]]: the [i]-th element of a list, the [i]-th character of a
    string, a missing value where there is none. *)
Definition str_item (i : nat) (o : obj) : obj :=
  match o with
  | OList l => match nth_error l i with Some s => OStr s | None => ONaN end
  | OStr s => match String.get i s with
              | Some c => OStr (String c EmptyString)
              | None => ONaN
              end
  | _ => ONaN
  end.

Definition str_split (sep : string) (o : obj) : obj :=
  match o with
  | OStr s => OList (PyStr.split sep s)
  | _ => ONaN
  end.

Definition str_replace (old new : string) (o : obj) : obj :=
  match o with
  | OStr s => OStr (PyStr.replace old new s)
  | _ => ONaN
  end.

(** One cell of [.astype(int)]. *)
Definition int_of_obj (o : obj) : result Z :=
  match o with
  | OStr s =>
      match PyStr.to_int s with
      | Some z =>
          if in_int64 z then Ok z
          else Raise (OverflowError "Python int too large to convert to C long")
      | None => Raise (ValueError "invalid literal for int() with base 10")
      end
  | OInt z => Ok z
  | OFloat f => Float64.to_int f
  | ONaN => Raise (ValueError "cannot convert float NaN to integer")
  | OList _ => Raise (TypeError "int() argument must be a string or a number, not list")
  end.

Definition astype_int (l : list obj) : result column :=
  zs <- mapM int_of_obj l ;; Ok (IntCol zs).



Definition ris_fields : list string :=
  ["doi"; "title"; "authors"; "year"; "secondary_title"; "volume";
   "start_page"; "end_page"; "abstract"; "notes"; "type_of_reference"].

Definition corpus_names : list (string * string) :=
  [("doi", "DOI"); ("title", "Title"); ("authors", "Authors"); ("year", "Year");
   ("secondary_title", "Source"); ("volume", "Volume"); ("start_page", "Start");
   ("end_page", "End"); ("abstract", "Abstract"); ("notes", "Citations");
   ("type_of_reference", "Type")].

Section Loader.

(** [pd.to_numeric] on an [object] column is the library's own parser of
    numbers; the loader is stated for any such parser. A column that is
    numeric already is returned as it is. *)
Variable parse_numeric : list obj -> result column.

Definition to_numeric (c : column) : result column :=
  match c with
  | ObjCol l => parse_numeric l
  | _ => Ok c
  end.

Definition extract_citations (corpus : DataFrame) (source : string) : result DataFrame :=
  if String.eqb source "scopus" then
    c <- df_get corpus "Citations" ;;
    notes <- str_accessor c ;;
    let corpus := df_set corpus "Citations"
                         (ObjCol (map (fun o => str_split ";" (str_item 0 o)) notes)) in
    c <- df_get corpus "Citations" ;;
    pieces <- str_accessor c ;;
    cites <- astype_int (map (fun o => str_replace "Cited By: " "" (str_item 1 o)) pieces) ;;
    Ok (df_set corpus "Citations" cites)
  else if String.eqb source "wos" then
    c <- df_get corpus "Citations" ;;
    notes <- str_accessor c ;;
    let corpus := df_set corpus "Citations"
                         (ObjCol (map (fun o => str_split ": " (str_item 1 o)) notes)) in
    c <- df_get corpus "Citations" ;;
    pieces <- str_accessor c ;;
    cites <- astype_int (map (str_item 1) pieces) ;;
    Ok (df_set corpus "Citations" cites)
  else Ok corpus.

Fixpoint numeric_columns (cols : list string) (corpus : DataFrame) : result DataFrame :=
  match cols with
  | [] => Ok corpus
  | col :: rest =>
      c <- df_get corpus col ;;
      c' <- to_numeric c ;;
      numeric_columns rest (df_set corpus col c')
  end.

(** [file_loader] on the entries [rispy.load] read from the file. *)
Definition file_loader (entries : list (list (string * obj))) (source : string)
  : result DataFrame :=
  let temp_df := DataFrame_of_records entries in
  corpus <- df_select temp_df ris_fields ;;
  let corpus := df_rename corpus corpus_names in
  corpus <- extract_citations corpus source ;;
  numeric_columns ["Year"; "Citations"] corpus.

End Loader.

(** ** The topic model

    BERTopic is used through three members: fitting on the documents, the
    approximate topic distribution of a list of documents, and the labels of
    the topics (the first one is the outlier topic's). *)
Record TopicModel : Type := mkModel {
  fit_transform : list obj -> list Z * list Float64.float;
  approximate_distribution : list obj -> matrix;
  topic_labels_ : list string
}.

(** ** [fit_topic_model] *)

(** [corpus.dropna(subset=[key])]: the positions of the rows whose cell in
    column [key] is present. *)
Definition present_rows (c : column) : list nat :=
  filter (fun i => negb (obj_isna (cell_at c i))) (seq 0 (col_length c)).

Definition dropna (df : DataFrame) (key : string) : result DataFrame :=
  c <- df_get df key ;;
  Ok (df_take df (present_rows c)).

Definition fit_topic_model (corpus : DataFrame) (topic_model : TopicModel)
  : result (DataFrame * list Z * list Float64.float) :=
  corpus <- dropna corpus "Abstract" ;;
  docs <- df_get corpus "Abstract" ;;
  let '(topics, probabilities) := fit_transform topic_model (cells docs) in
  Ok (corpus, topics, probabilities).

(** ** [inclusion_criteria] *)

(** Lines 657-666, shared with [topic_outputs]: the topic distribution of the
    abstracts as one column per topic label, set beside the corpus. *)
Definition integrate (corpus : DataFrame) (model : TopicModel) : result DataFrame :=
  docs <- df_get corpus "Abstract" ;;
  let topic_distr := approximate_distribution model (cells docs) in
  let col_names := topic_labels_ model in
  topics_df <- DataFrame_of_matrix topic_distr (tl col_names) ;;
  Ok (concat_axis1 corpus topics_df).

(** The loop over the keys of [weights]; [weights[key]] is the value the key
    is paired with. *)
Fixpoint weight_loop (weights : list (string * Float64.float)) (output : DataFrame)
         (score_list : list string) : result (DataFrame * list string) :=
  match weights with
  | [] => Ok (output, score_list)
  | (key, w) :: rest =>
      if String.eqb key "cites" then
        c <- df_get output "Citations" ;;
        n <- minmax c ;;
        let output := df_set output "cite_score" (FloatCol n) in
        c <- df_get output "cite_score" ;;
        s <- col_mul c w ;;
        weight_loop rest (df_set output "cite_score" s) score_list
      else if String.eqb key "recency" then
        c <- df_get output "Year" ;;
        n <- minmax c ;;
        let output := df_set output "recency_score" (FloatCol n) in
        c <- df_get output "recency_score" ;;
        s <- col_mul c w ;;
        weight_loop rest (df_set output "recency_score" s) score_list
      else if negb (String.eqb key "topics") then
        let field_name := key ++ "W" in
        c <- df_get output key ;;
        s <- col_mul c w ;;
        weight_loop rest (df_set output field_name s) (score_list ++ [field_name])%list
      else weight_loop rest output score_list
  end.

(** [weights[key]] *)
Definition dict_get {A : Type} (d : list (string * A)) (key : string) : result A :=
  match lookup key d with
  | Some v => Ok v
  | None => Raise (KeyError key)
  end.

(** Lines 668-693: the frame with its score columns, before it is sorted. *)
Definition score_frame (output : DataFrame) (weights : list (string * Float64.float))
  : result (DataFrame * list string) :=
  '(output, score_list) <- weight_loop weights output [] ;;
  selected <- df_select output score_list ;;
  total <- sum_axis1 selected ;;
  let output := df_set output "topic_score" (FloatCol total) in
  c <- df_get output "topic_score" ;;
  n <- minmax c ;;
  let output := df_set output "topic_score" (FloatCol n) in
  c <- df_get output "topic_score" ;;
  wt <- dict_get weights "topics" ;;
  s <- col_mul c wt ;;
  let output := df_set output "topic_score" s in
  cs <- df_get output "cite_score" ;;
  rs <- df_get output "recency_score" ;;
  ts <- df_get output "topic_score" ;;
  cr <- col_add cs rs ;;
  sc <- col_add cr ts ;;
  Ok (df_set output "score" sc, score_list).

Definition inclusion_criteria {S : ArgSort} (corpus : DataFrame) (model : TopicModel)
           (weights : list (string * Float64.float)) (include_scores : bool)
  : result DataFrame :=
  output <- integrate corpus model ;;
  '(output, score_list) <- score_frame output weights ;;
  output <- sort_values output "score" false ;;
  if include_scores then Ok output else df_drop output score_list.

(** ** [return_included_papers] *)

Definition obj_eqb (a b : obj) : bool :=
  match a, b with
  | ONaN, ONaN => true
  | OStr s, OStr t => String.eqb s t
  | OList l, OList m => if list_eq_dec string_dec l m then true else false
  | OInt x, OInt y => Z.eqb x y
  | OFloat x, OFloat y =>
      Float64.eqb x y || (Float64.is_nan x && Float64.is_nan y)
  | _, _ => false
  end.

(** The pairs (row of the left frame, row of the right frame) of a right
    join on the key columns: every right row in order, with each left row of
    the same key in order, or with no left row when there is none. *)
Definition join_pairs (lkeys rkeys : list column) (nleft nright : nat)
  : list (option nat * nat) :=
  flat_map
    (fun j =>
       match filter (fun i =>
                       forallb (fun lr => obj_eqb (cell_at (fst lr) i) (cell_at (snd lr) j))
                               (combine lkeys rkeys))
                    (seq 0 nleft) with
       | [] => [(None, j)]
       | matches => map (fun i => (Some i, j)) matches
       end)
    (seq 0 nright).

(** [left.merge(right, how='right', left_on=..., right_on=...)]: the columns
    of [left], missing on the rows without a match, then those of [right]. *)
Definition merge_right (left right : DataFrame) (left_on right_on : list string)
  : result DataFrame :=
  lkeys <- mapM (df_get left) left_on ;;
  rkeys <- mapM (df_get right) right_on ;;
  let pairs := join_pairs lkeys rkeys (nrows left) (nrows right) in
  Ok (mkDF (List.length pairs)
           (map (fun nc =>
                   (fst nc,
                    ObjCol (map (fun p => match fst p with
                                          | Some i => cell_at (snd nc) i
                                          | None => ONaN
                                          end) pairs)))
                (columns left)
            ++ map (fun nc => (fst nc, col_take (snd nc) (map snd pairs)))
                   (columns right))).

(** [df.fillna(value)]: every missing cell becomes [value]; a [float64]
    column that receives one becomes an [object] column. *)
Definition fill_obj (value : obj) (o : obj) : obj :=
  if obj_isna o then value else o.

Definition fillna_col (value : obj) (c : column) : column :=
  match c with
  | IntCol l => IntCol l
  | FloatCol l =>
      if existsb Float64.is_nan l then ObjCol (map (fun f => fill_obj value (OFloat f)) l)
      else FloatCol l
  | ObjCol l => ObjCol (map (fill_obj value) l)
  end.

Definition fillna (df : DataFrame) (value : obj) : DataFrame :=
  mkDF (nrows df) (map (fun nc => (fst nc, fillna_col value (snd nc))) (columns df)).

Definition score_fields : list string :=
  ["Title"; "Source"; "score"; "cite_score"; "recency_score"; "topic_score"].

Definition ris_custom_names : list (string * string) :=
  [("score", "custom1"); ("cite_score", "custom2"); ("recency_score", "custom3");
   ("topic_score", "custom4")].

(** Lines 749-769: the entries written to [export.ris]. *)
Definition roundtrip {S : ArgSort} (ranked_df : DataFrame)
           (entries : list (list (string * obj))) : result (list (list (string * obj))) :=
  let temp_df := DataFrame_of_records entries in
  scores <- df_select ranked_df score_fields ;;
  merged_df <- merge_right temp_df scores ["title"; "secondary_title"] ["Title"; "Source"] ;;
  merged_df <- sort_values merged_df "score" false ;;
  merged_df <- df_drop merged_df ["Title"; "Source"] ;;
  let merged_df := df_rename merged_df ris_custom_names in
  let merged_df := fillna merged_df (OStr "none") in
  Ok (to_dict_records merged_df).

(** [return_included_papers]: [n] is [None] for ['all']; [ris] holds the
    entries of the RIS file when one is given. The result is the ranked frame
    and, with a RIS file, the entries of the export. *)
Definition return_included_papers {S : ArgSort} (n : option Z) (corpus : DataFrame)
           (model : TopicModel) (topic_weights : list (string * Float64.float))
           (ris : option (list (list (string * obj))))
  : result (DataFrame * option (list (list (string * obj)))) :=
  ranked_df <- inclusion_criteria corpus model topic_weights false ;;
  let ranked_df := match n with
                   | None => ranked_df
                   | Some k => df_head ranked_df k
                   end in
  match ris with
  | None => Ok (ranked_df, None)
  | Some entries =>
      out <- roundtrip ranked_df entries ;;
      Ok (ranked_df, Some out)
  end.

(** ** Two sorts that meet the contract

    An insertion sort of the positions by their keys. With [Float64.leb] as
    the test a position goes before the first position whose key is not
    smaller, which keeps equal keys in order; with [Float64.ltb] it goes
    after every equal key. *)

Fixpoint insert_by (before : nat -> nat -> bool) (i : nat) (l : list nat) : list nat :=
  match l with
  | [] => [i]
  | j :: rest => if before i j then i :: l else j :: insert_by before i rest
  end.

Definition insertion_sort (before : nat -> nat -> bool) (l : list nat) : list nat :=
  fold_right (insert_by before) [] l.

Definition argsort_by (test : Float64.float -> Float64.float -> bool)
           (keys : list Float64.float) : list nat :=
  insertion_sort (fun i j => test (nth i keys Float64.nan) (nth j keys Float64.nan))
                 (seq 0 (List.length keys)).

Lemma insert_by_perm (before : nat -> nat -> bool) (i : nat) (l : list nat) :
  Permutation (insert_by before i l) (i :: l).
Proof.
  induction l as [|j rest IH]; simpl; [reflexivity|].
  destruct (before i j); [reflexivity|].
  rewrite IH. apply perm_swap.
Qed.

Lemma insertion_sort_perm (before : nat -> nat -> bool) (l : list nat) :
  Permutation (insertion_sort before l) l.
Proof.
  induction l as [|i rest IH]; simpl; [reflexivity|].
  rewrite insert_by_perm. now constructor.
Qed.

Section InsertionSorted.

Variable R : nat -> nat -> Prop.
Variable before : nat -> nat -> bool.
Variable dom : nat -> Prop.
Hypothesis before_sound : forall i j, dom i -> dom j -> before i j = true -> R i j.
Hypothesis before_total : forall i j, dom i -> dom j -> before i j = false -> R j i.

Lemma insert_by_sorted (i : nat) (l : list nat) :
  dom i -> Forall dom l -> Sorted R l -> Sorted R (insert_by before i l).
Proof.
  intros Hi Hl Hs. induction l as [|j rest IH]; simpl.
  - repeat constructor.
  - inversion Hl as [|? ? Hj Hrest]; subst.
    inversion Hs as [|? ? Hs' Hhd]; subst.
    destruct (before i j) eqn:E.
    + constructor; [assumption|]. constructor. now apply before_sound.
    + constructor; [now apply IH|].
      destruct rest as [|k rest']; simpl.
      * constructor. now apply before_total.
      * destruct (before i k); constructor.
        -- now apply before_total.
        -- now inversion Hhd.
Qed.

Lemma insertion_sort_sorted (l : list nat) :
  Forall dom l -> Sorted R (insertion_sort before l).
Proof.
  induction l as [|i rest IH]; simpl; intros Hl; [constructor|].
  inversion Hl; subst.
  apply insert_by_sorted; auto.
  eapply Permutation_Forall; [|eassumption].
  symmetry. apply insertion_sort_perm.
Qed.

End InsertionSorted.

(** The order of binary64 numbers is total away from NaN. *)
Lemma SFcompare_antisym (x y : spec_float) (c : comparison) :
  SFcompare x y = Some c -> SFcompare y x = Some (CompOpp c).
Proof.
  destruct x as [sx|sx| |sx mx ex], y as [sy|sy| |sy my ey]; simpl;
    try discriminate;
    try (destruct sx; intros H; injection H as <-; reflexivity);
    try (destruct sy; intros H; injection H as <-; reflexivity);
    try (intros H; injection H as <-; reflexivity).
  - destruct sx, sy; intros H; injection H as <-; reflexivity.
  - destruct sx, sy; intros H; injection H as <-; try reflexivity;
      rewrite (Z.compare_antisym ex ey);
      destruct (ex ?= ey)%Z; simpl; try reflexivity;
      rewrite (Pos.compare_cont_antisym mx my Eq); reflexivity.
Qed.

Lemma leb_total (x y : Float64.float) :
  Float64.is_nan x = false -> Float64.is_nan y = false ->
  Float64.leb x y = false -> Float64.leb y x = true.
Proof.
  unfold Float64.leb, SFleb. intros Hx Hy.
  destruct (SFcompare x y) as [c|] eqn:E.
  - rewrite (SFcompare_antisym _ _ _ E). destruct c; simpl; congruence.
  - destruct x, y; simpl in *; discriminate.
Qed.

Lemma ltb_leb (x y : Float64.float) :
  Float64.ltb x y = true -> Float64.leb x y = true.
Proof.
  unfold Float64.ltb, Float64.leb, SFltb, SFleb.
  destruct (SFcompare x y) as [[]|]; congruence.
Qed.

Lemma ltb_total (x y : Float64.float) :
  Float64.is_nan x = false -> Float64.is_nan y = false ->
  Float64.ltb x y = false -> Float64.leb y x = true.
Proof.
  unfold Float64.ltb, Float64.leb, SFltb, SFleb. intros Hx Hy.
  destruct (SFcompare x y) as [c|] eqn:E.
  - rewrite (SFcompare_antisym _ _ _ E). destruct c; simpl; congruence.
  - destruct x, y; simpl in *; discriminate.
Qed.

Lemma argsort_by_perm (test : Float64.float -> Float64.float -> bool)
      (keys : list Float64.float) :
  Permutation (argsort_by test keys) (seq 0 (List.length keys)).
Proof. apply insertion_sort_perm. Qed.

Lemma nth_not_nan (keys : list Float64.float) (i : nat) :
  forallb (fun x => negb (Float64.is_nan x)) keys = true ->
  (i < List.length keys)%nat ->
  Float64.is_nan (nth i keys Float64.nan) = false.
Proof.
  intros Hall Hi. rewrite forallb_forall in Hall.
  apply negb_true_iff, Hall, nth_In, Hi.
Qed.

Lemma argsort_by_sorted (test : Float64.float -> Float64.float -> bool)
      (keys : list Float64.float) :
  (forall x y, test x y = true -> Float64.leb x y = true) ->
  (forall x y, Float64.is_nan x = false -> Float64.is_nan y = false ->
               test x y = false -> Float64.leb y x = true) ->
  forallb (fun x => negb (Float64.is_nan x)) keys = true ->
  Sorted (fun i j => Float64.leb (nth i keys Float64.nan) (nth j keys Float64.nan) = true)
         (argsort_by test keys).
Proof.
  intros Hsound Htotal Hall. unfold argsort_by.
  apply insertion_sort_sorted with (dom := fun i => (i < List.length keys)%nat).
  - intros i j _ _. apply Hsound.
  - intros i j Hi Hj. apply Htotal; now apply nth_not_nan.
  - apply Forall_forall. intros i Hi. apply in_seq in Hi. lia.
Qed.

(** The sort that keeps equal keys in order. *)
#[export] Instance stable_sort : ArgSort := {
  argsort := argsort_by Float64.leb;
  argsort_perm := argsort_by_perm Float64.leb;
  argsort_sorted := fun keys =>
    argsort_by_sorted Float64.leb keys (fun x y H => H) leb_total
}.

(** A sort that meets the contract and reverses equal keys. *)
Definition reversing_sort : ArgSort := {|
  argsort := argsort_by Float64.ltb;
  argsort_perm := argsort_by_perm Float64.ltb;
  argsort_sorted := fun keys =>
    argsort_by_sorted Float64.ltb keys ltb_leb ltb_total
|}.

(** * Properties *)

(** ** Frames *)

Lemma lookup_map_snd {A B : Type} (f : A -> B) (key : string) (l : list (string * A)) :
  lookup key (map (fun nc => (fst nc, f (snd nc))) l) = option_map f (lookup key l).
Proof.
  induction l as [|[k v] rest IH]; simpl; [reflexivity|].
  destruct (String.eqb k key); [reflexivity|exact IH].
Qed.

Lemma lookup_In {A : Type} (key : string) (l : list (string * A)) (v : A) :
  lookup key l = Some v -> In (key, v) l.
Proof.
  induction l as [|[k w] rest IH]; simpl; [discriminate|].
  destruct (String.eqb k key) eqn:E.
  - apply String.eqb_eq in E. intros H; injection H as <-. left. now subst.
  - intros H. right. now apply IH.
Qed.

Lemma lookup_None {A : Type} (key : string) (l : list (string * A)) :
  lookup key l = None <-> ~ In key (map fst l).
Proof.
  induction l as [|[k w] rest IH]; simpl.
  - split; [intros _ []|reflexivity].
  - destruct (String.eqb k key) eqn:E.
    + apply String.eqb_eq in E. split; [discriminate|]. intros H. exfalso. apply H. now left.
    + apply String.eqb_neq in E. rewrite IH. split.
      * intros H [H'|H']; [contradiction|]. now apply H.
      * intros H H'. apply H. now right.
Qed.

Lemma df_get_take (df : DataFrame) (key : string) (c : column) (indexer : list nat) :
  df_get df key = Ok c ->
  df_get (df_take df indexer) key = Ok (col_take c indexer).
Proof.
  unfold df_get, df_take; simpl.
  rewrite (lookup_map_snd (fun c => col_take c indexer)).
  destruct (lookup key (columns df)); simpl; congruence.
Qed.

Lemma col_length_cells (c : column) : List.length (cells c) = col_length c.
Proof. destruct c; simpl; now rewrite ?length_map. Qed.

Lemma cells_col_take (c : column) (indexer : list nat) :
  Forall (fun i => (i < col_length c)%nat) indexer ->
  cells (col_take c indexer) = map (cell_at c) indexer.
Proof.
  intros H. destruct c as [l|l|l]; simpl in *; unfold take, cell_at; simpl;
    rewrite ?map_map; apply map_ext_in; intros i Hi;
    rewrite Forall_forall in H; specialize (H i Hi); try reflexivity.
  - rewrite (nth_indep _ ONaN (OInt 0)) by now rewrite length_map.
    symmetry. apply map_nth.
  - rewrite (nth_indep _ ONaN (OFloat Float64.nan)) by now rewrite length_map.
    symmetry. apply map_nth.
Qed.

Lemma cell_at_col_take (c : column) (indexer : list nat) (k : nat) :
  Forall (fun i => (i < col_length c)%nat) indexer ->
  (k < List.length indexer)%nat ->
  cell_at (col_take c indexer) k = cell_at c (nth k indexer O).
Proof.
  intros H Hk. unfold cell_at at 1. rewrite cells_col_take by assumption.
  rewrite (nth_indep _ ONaN (cell_at c O)) by now rewrite length_map.
  apply map_nth.
Qed.

(** The records of a frame after [df_take] are the records of the frame at
    the positions taken. *)
Lemma to_dict_records_take (df : DataFrame) (indexer : list nat) :
  wf_frame df ->
  Forall (fun i => (i < nrows df)%nat) indexer ->
  to_dict_records (df_take df indexer) = map (row_at df) indexer.
Proof.
  intros Hwf Hidx. unfold to_dict_records, df_take; simpl.
  apply nth_ext with (d := []) (d' := []).
  - now rewrite !length_map, length_seq.
  - intros k Hk. rewrite length_map, length_seq in Hk.
    rewrite (nth_indep _ [] (row_at (df_take df indexer) O))
      by now rewrite length_map, length_seq.
    rewrite map_nth, seq_nth by assumption. simpl.
    rewrite (nth_indep _ [] (row_at df O)) by now rewrite length_map.
    rewrite map_nth. unfold row_at; simpl. rewrite map_map; simpl.
    apply map_ext_in. intros [n c] Hin; simpl. f_equal.
    apply cell_at_col_take; [|assumption].
    unfold wf_frame in Hwf. rewrite Forall_forall in Hwf.
    specialize (Hwf _ Hin). simpl in Hwf. now rewrite Hwf.
Qed.

Lemma seq_strongly_sorted (a n : nat) : StronglySorted lt (seq a n).
Proof.
  revert a. induction n as [|n IH]; intros a; simpl; constructor; [apply IH|].
  apply Forall_forall. intros i Hi. apply in_seq in Hi. lia.
Qed.

Lemma filter_strongly_sorted {A : Type} (R : A -> A -> Prop) (f : A -> bool) (l : list A) :
  StronglySorted R l -> StronglySorted R (filter f l).
Proof.
  induction 1 as [|x l Hs IH Hall]; simpl; [constructor|].
  destruct (f x); [|exact IH]. constructor; [exact IH|].
  apply Forall_forall. intros y Hy. apply filter_In in Hy.
  rewrite Forall_forall in Hall. now apply Hall.
Qed.

Lemma present_rows_spec (c : column) (i : nat) :
  In i (present_rows c) <-> (i < col_length c)%nat /\ obj_isna (cell_at c i) = false.
Proof.
  unfold present_rows. rewrite filter_In, in_seq, negb_true_iff.
  intuition lia.
Qed.

Lemma present_rows_increasing (c : column) : StronglySorted lt (present_rows c).
Proof. apply filter_strongly_sorted, seq_strongly_sorted. Qed.

(** ** [fit_topic_model] *)

(** C10. [fit_topic_model] returns the rows of the corpus whose Abstract is
    present, and only those, in their order and with every field as it was;
    the documents it hands to the topic model are the abstracts of these rows
    in the same order. *)
Theorem fit_topic_model_keeps_abstract_rows
        (corpus : DataFrame) (topic_model : TopicModel) (abstracts : column) :
  wf_frame corpus ->
  df_get corpus "Abstract" = Ok abstracts ->
  let kept := present_rows abstracts in
  let docs := map (cell_at abstracts) kept in
  (forall i, In i kept <->
             (i < nrows corpus)%nat /\ obj_isna (cell_at abstracts i) = false) /\
  StronglySorted lt kept /\
  exists subset,
    fit_topic_model corpus topic_model
    = Ok (subset, fst (fit_transform topic_model docs),
          snd (fit_transform topic_model docs)) /\
    to_dict_records subset = map (row_at corpus) kept /\
    df_get subset "Abstract" = Ok (col_take abstracts kept) /\
    cells (col_take abstracts kept) = docs.
Proof.
  intros Hwf Hget kept docs.
  assert (Hlen : col_length abstracts = nrows corpus).
  { unfold df_get in Hget. destruct (lookup "Abstract" (columns corpus)) eqn:E; [|discriminate].
    injection Hget as <-. apply lookup_In in E.
    unfold wf_frame in Hwf. rewrite Forall_forall in Hwf. exact (Hwf _ E). }
  assert (Hrange : Forall (fun i => (i < col_length abstracts)%nat) kept).
  { apply Forall_forall. intros i Hi. now apply present_rows_spec in Hi. }
  split; [|split].
  - intros i. unfold kept. rewrite present_rows_spec, Hlen. reflexivity.
  - apply present_rows_increasing.
  - exists (df_take corpus kept).
    assert (Hcells : cells (col_take abstracts kept) = docs)
      by now apply cells_col_take.
    repeat split.
    + unfold fit_topic_model, dropna. rewrite Hget; simpl.
      rewrite (df_get_take _ _ _ _ Hget); simpl.
      fold kept. rewrite Hcells.
      now destruct (fit_transform topic_model docs).
    + apply to_dict_records_take; [assumption|]. now rewrite <- Hlen.
    + now apply df_get_take.
    + exact Hcells.
Qed.

(** ** Sample data *)

(** A corpus as [file_loader] leaves it, from its titles, years, abstracts
    and citation counts. *)
Definition sample_corpus (titles : list string) (years : list Z)
           (abstracts : list obj) (cites : list Z) : DataFrame :=
  mkDF (List.length titles)
       [("DOI", ObjCol (map (fun _ => ONaN) titles));
        ("Title", ObjCol (map OStr titles));
        ("Authors", ObjCol (map (fun _ => OList ["A. Author"]) titles));
        ("Year", IntCol years);
        ("Source", ObjCol (map (fun _ => OStr "Journal") titles));
        ("Volume", ObjCol (map (fun _ => OStr "1") titles));
        ("Start", ObjCol (map (fun _ => ONaN) titles));
        ("End", ObjCol (map (fun _ => ONaN) titles));
        ("Abstract", ObjCol abstracts);
        ("Citations", IntCol cites);
        ("Type", ObjCol (map (fun _ => OStr "JOUR") titles))].

(** The four records of the end-to-end scenario. *)
Definition corpus4 : DataFrame :=
  sample_corpus ["a"; "b"; "c"; "d"] [2020; 2019; 2021; 2021]%Z
                [OStr "text a"; OStr "text b"; OStr "text c"; OStr "text d"]
                [10; 0; 5; 5]%Z.

Definition half : Float64.float := Eval vm_compute in
  Float64.div (Float64.of_int 1) (Float64.of_int 2).
Definition quarter : Float64.float := Eval vm_compute in
  Float64.div (Float64.of_int 1) (Float64.of_int 4).

(** A fitted model with an outlier topic and two topics, whose distribution
    gives every document the same two weights. *)
Definition flat_model : TopicModel :=
  mkModel (fun docs => (map (fun _ => 0%Z) docs, map (fun _ => Float64.one) docs))
          (fun docs => mkMatrix 2 (map (fun _ => [half; quarter]) docs))
          ["-1_outlier"; "0_graphs"; "1_proofs"].

(** A fitted model whose distribution tells four documents apart. *)
Definition model4 : TopicModel :=
  mkModel (fun docs => (map (fun _ => 0%Z) docs, map (fun _ => Float64.one) docs))
          (fun _ => mkMatrix 2 [[half; quarter]; [quarter; half];
                                [quarter; quarter]; [half; half]])
          ["-1_outlier"; "0_graphs"; "1_proofs"].

(** The weight specification [{cites: 1, recency: 0, topics: 0}]. *)
Definition weights_cites_only : list (string * Float64.float) :=
  [("cites", Float64.of_int 1); ("recency", Float64.of_int 0);
   ("topics", Float64.of_int 0)].

Definition weights_with_topics : list (string * Float64.float) :=
  [("cites", Float64.of_int 1); ("recency", Float64.of_int 0);
   ("topics", Float64.of_int 0); ("0_graphs", half); ("1_proofs", Float64.one)].

Lemma corpus4_wf : wf_frame corpus4.
Proof. repeat constructor. Qed.

(** ** [integrate] *)

Lemma pad_col_length (n : nat) (c : column) :
  (col_length c <= n)%nat -> col_length (pad_col n c) = n.
Proof.
  intros H. unfold pad_col.
  destruct (n - col_length c)%nat eqn:E.
  - lia.
  - destruct c; cbn [col_length] in *;
      rewrite length_app, ?length_map, repeat_length; lia.
Qed.

(** The cells a padded column gains are missing values. *)
Lemma pad_col_missing (n : nat) (c : column) (i : nat) :
  (col_length c <= i < n)%nat -> obj_isna (cell_at (pad_col n c) i) = true.
Proof.
  intros H. unfold pad_col.
  destruct (n - col_length c)%nat as [|k] eqn:E; [lia|].
  unfold cell_at.
  destruct c as [l|l|l]; cbn [cells col_length] in *.
  - rewrite map_app, app_nth2 by (rewrite !length_map; lia).
    rewrite !length_map.
    rewrite (nth_indep _ ONaN (OFloat Float64.nan)) by (rewrite length_map, repeat_length; lia).
    rewrite map_nth. now rewrite nth_repeat.
  - rewrite map_app, app_nth2 by (rewrite !length_map; lia).
    rewrite !length_map.
    rewrite (nth_indep _ ONaN (OFloat Float64.nan)) by (rewrite length_map, repeat_length; lia).
    rewrite map_nth. now rewrite nth_repeat.
  - rewrite app_nth2 by lia. now rewrite nth_repeat.
Qed.

(** The cells a padded column had are kept. *)
Lemma pad_col_kept_float (n : nat) (l : list Float64.float) (i : nat) :
  (i < List.length l)%nat ->
  cell_at (pad_col n (FloatCol l)) i = OFloat (nth i l Float64.nan).
Proof.
  intros H. unfold pad_col, cell_at; cbn [cells col_length].
  destruct (n - List.length l)%nat; cbn [cells].
  - rewrite (nth_indep _ ONaN (OFloat Float64.nan)) by now rewrite length_map.
    apply map_nth.
  - rewrite map_app, app_nth1 by now rewrite length_map.
    rewrite (nth_indep _ ONaN (OFloat Float64.nan)) by now rewrite length_map.
    apply map_nth.
Qed.

Definition topic_frame (m : matrix) (names : list string) : DataFrame :=
  mkDF (List.length (mat_rows m))
       (map (fun jn => (snd jn,
                        FloatCol (map (fun r => nth (fst jn) r Float64.nan) (mat_rows m))))
            (combine (seq 0 (List.length names)) names)).

(** C3, as the code has it. [integrate] checks no row count: with an
    Abstract column in the corpus and one matrix column per label after the
    first it returns, whatever the two row counts are, both frames side by
    side over the longer index; the rows one side lacks are missing values
    there. *)
Theorem integrate_pads_row_mismatch
        (corpus : DataFrame) (model : TopicModel) (abstracts : column) :
  df_get corpus "Abstract" = Ok abstracts ->
  let m := approximate_distribution model (cells abstracts) in
  let labels := tl (topic_labels_ model) in
  mat_width m = List.length labels ->
  exists out,
    integrate corpus model = Ok out /\
    nrows out = Nat.max (nrows corpus) (List.length (mat_rows m)) /\
    column_names out = (column_names corpus ++ labels)%list /\
    columns out
    = map (fun nc => (fst nc, pad_col (nrows out) (snd nc)))
          (columns corpus ++ columns (topic_frame m labels)).
Proof.
  intros Hget m labels Hwidth.
  exists (concat_axis1 corpus (topic_frame m labels)).
  split; [|split; [|split]].
  - unfold integrate. rewrite Hget; simpl. fold m labels.
    unfold DataFrame_of_matrix. rewrite Hwidth, Nat.eqb_refl. reflexivity.
  - reflexivity.
  - unfold column_names, concat_axis1; simpl.
    rewrite map_map; simpl. rewrite map_app. f_equal.
    rewrite map_map; simpl.
    clear. generalize 0%nat. induction labels as [|n rest IH]; intros a; simpl;
      [reflexivity|]. f_equal. apply IH.
  - reflexivity.
Qed.

(** Six records with abstracts, and a model whose distribution has five rows. *)
Definition corpus6 : DataFrame :=
  sample_corpus ["a"; "b"; "c"; "d"; "e"; "f"]
                [2020; 2019; 2021; 2021; 2018; 2022]%Z
                [OStr "text a"; OStr "text b"; OStr "text c"; OStr "text d";
                 OStr "text e"; OStr "text f"]
                [10; 0; 5; 5; 3; 8]%Z.

Definition five_row_model : TopicModel :=
  mkModel (fun docs => (map (fun _ => 0%Z) docs, map (fun _ => Float64.one) docs))
          (fun _ => mkMatrix 2 [[half; quarter]; [quarter; half]; [quarter; quarter];
                                [half; half]; [half; quarter]])
          ["-1_outlier"; "0_graphs"; "1_proofs"].

(** A fitted model whose distribution has one row for each of the six
    records. *)
Definition model6 : TopicModel :=
  mkModel (fun docs => (map (fun _ => 0%Z) docs, map (fun _ => Float64.one) docs))
          (fun _ => mkMatrix 2 [[half; quarter]; [quarter; half]; [quarter; quarter];
                                [half; half]; [half; quarter]; [quarter; half]])
          ["-1_outlier"; "0_graphs"; "1_proofs"].

Definition three_tenths : Float64.float := Eval vm_compute in
  Float64.div (Float64.of_int 3) (Float64.of_int 10).
Definition eight_tenths : Float64.float := Eval vm_compute in
  Float64.div (Float64.of_int 8) (Float64.of_int 10).

(** C3, against the claim: a distribution of five rows is set beside a corpus
    of six abstract-bearing rows without any error; the sixth record gets
    missing topic values. *)
Lemma integrate_accepts_five_rows_for_six :
  exists out graphs,
    nrows corpus6 = 6%nat /\
    List.length (mat_rows (approximate_distribution five_row_model
                             (cells (ObjCol [OStr "text a"; OStr "text b"; OStr "text c";
                                             OStr "text d"; OStr "text e"; OStr "text f"]))))
    = 5%nat /\
    integrate corpus6 five_row_model = Ok out /\
    nrows out = 6%nat /\
    df_get out "0_graphs" = Ok (FloatCol graphs) /\
    nth 5 graphs Float64.zero = Float64.nan.
Proof.
  eexists. eexists.
  split; [reflexivity|]. split; [reflexivity|].
  split; [vm_compute; reflexivity|].
  split; [reflexivity|]. split; [vm_compute; reflexivity|]. reflexivity.
Qed.

Lemma integrate_pads_row_mismatch_witness :
  exists out,
    integrate corpus6 five_row_model = Ok out /\
    nrows out = 6%nat /\
    column_names out = (column_names corpus6 ++ ["0_graphs"; "1_proofs"])%list.
Proof.
  destruct (integrate_pads_row_mismatch corpus6 five_row_model
              (ObjCol [OStr "text a"; OStr "text b"; OStr "text c";
                       OStr "text d"; OStr "text e"; OStr "text f"])
              eq_refl eq_refl) as [out [H1 [H2 [H3 _]]]].
  exists out. split; [exact H1|]. split; [exact H2|exact H3].
Defined.

(** Three records, the second without an abstract. *)
Definition corpus_gap : DataFrame :=
  sample_corpus ["a"; "b"; "c"] [2020; 2019; 2021]%Z
                [OStr "text a"; ONaN; OStr "text c"] [10; 0; 5]%Z.

Lemma fit_topic_model_keeps_abstract_rows_witness :
  wf_frame corpus_gap /\
  present_rows (ObjCol [OStr "text a"; ONaN; OStr "text c"]) = [0; 2]%nat /\
  exists subset,
    fit_topic_model corpus_gap flat_model
    = Ok (subset, [0; 0]%Z, [Float64.one; Float64.one]) /\
    to_dict_records subset = [row_at corpus_gap 0; row_at corpus_gap 2].
Proof.
  assert (Hwf : wf_frame corpus_gap) by (repeat constructor).
  split; [exact Hwf|]. split; [reflexivity|].
  destruct (fit_topic_model_keeps_abstract_rows corpus_gap flat_model
              (ObjCol [OStr "text a"; ONaN; OStr "text c"]) Hwf eq_refl)
    as [_ [_ [subset [H1 [H2 _]]]]].
  exists subset. split; [exact H1|exact H2].
Defined.

(** ** Weight keys *)

Lemma weight_loop_app (pre rest : list (string * Float64.float)) (output : DataFrame)
      (score_list : list string) :
  weight_loop (pre ++ rest) output score_list
  = bind (weight_loop pre output score_list)
         (fun r => weight_loop rest (fst r) (snd r)).
Proof.
  revert output score_list.
  induction pre as [|[key w] pre IH]; intros output score_list; [reflexivity|].
  cbn [app weight_loop].
  destruct (String.eqb key "cites").
  { destruct (df_get output "Citations") as [c|e]; [|reflexivity]. cbn [bind].
    destruct (minmax c) as [n|e]; [|reflexivity]. cbn [bind].
    destruct (df_get (df_set output "cite_score" (FloatCol n)) "cite_score") as [c'|e];
      [|reflexivity]. cbn [bind].
    destruct (col_mul c' w) as [s|e]; [|reflexivity]. cbn [bind]. apply IH. }
  destruct (String.eqb key "recency").
  { destruct (df_get output "Year") as [c|e]; [|reflexivity]. cbn [bind].
    destruct (minmax c) as [n|e]; [|reflexivity]. cbn [bind].
    destruct (df_get (df_set output "recency_score" (FloatCol n)) "recency_score") as [c'|e];
      [|reflexivity]. cbn [bind].
    destruct (col_mul c' w) as [s|e]; [|reflexivity]. cbn [bind]. apply IH. }
  destruct (negb (String.eqb key "topics")).
  { destruct (df_get output key) as [c|e]; [|reflexivity]. cbn [bind].
    destruct (col_mul c w) as [s|e]; [|reflexivity]. cbn [bind]. apply IH. }
  apply IH.
Qed.

(** C9, as the code has it. A weight key other than [cites], [recency] and
    [topics] is looked up among the columns the frame has when the loop
    reaches it: the columns of the corpus, the topic columns and the columns
    added for the keys before it. When it names none of them, and the keys
    before it were processed, [inclusion_criteria] raises [KeyError] on that
    key. *)
Theorem unknown_weight_key_raises {S : ArgSort}
        (corpus : DataFrame) (model : TopicModel)
        (weights pre post : list (string * Float64.float)) (include_scores : bool)
        (key : string) (w : Float64.float)
        (output reached : DataFrame) (score_list : list string) :
  integrate corpus model = Ok output ->
  weights = (pre ++ (key, w) :: post)%list ->
  weight_loop pre output [] = Ok (reached, score_list) ->
  key <> "cites" -> key <> "recency" -> key <> "topics" ->
  ~ In key (column_names reached) ->
  inclusion_criteria corpus model weights include_scores = Raise (KeyError key).
Proof.
  intros Hint -> Hpre Hc Hr Ht Hcol.
  unfold inclusion_criteria. rewrite Hint. cbn [bind].
  unfold score_frame. rewrite weight_loop_app, Hpre. cbn [bind fst snd weight_loop].
  apply String.eqb_neq in Hc, Hr, Ht. rewrite Hc, Hr, Ht. cbn [negb].
  unfold df_get. apply lookup_None in Hcol. rewrite Hcol. reflexivity.
Qed.

Definition weights_typo : list (string * Float64.float) :=
  [("cites", Float64.of_int 1); ("recency", Float64.of_int 0);
   ("topics", Float64.one); ("0_graphs", half); ("1_prufs", Float64.one)].

Lemma unknown_weight_key_raises_witness :
  inclusion_criteria corpus4 model4 weights_typo false = Raise (KeyError "1_prufs").
Proof.
  eapply (unknown_weight_key_raises corpus4 model4 weights_typo
            [("cites", Float64.of_int 1); ("recency", Float64.of_int 0);
             ("topics", Float64.one); ("0_graphs", half)] [] false "1_prufs").
  - vm_compute. reflexivity.
  - reflexivity.
  - vm_compute. reflexivity.
  - discriminate.
  - discriminate.
  - discriminate.
  - vm_compute. intuition discriminate.
Defined.

(** A weight on [Year]: not a reserved key, not a topic column. *)
Definition weights_year : list (string * Float64.float) :=
  [("cites", Float64.of_int 1); ("recency", Float64.of_int 0);
   ("topics", Float64.one); ("Year", Float64.one)].

(** C9, against the claim: the key [Year] is neither reserved nor the name of
    a topic column, and [inclusion_criteria] raises nothing: the
    publication years are read as the values of a topic, weighted, and they
    make up the topic score. *)
Lemma year_weight_is_read_as_topic :
  In "Year" (map fst weights_year) /\
  ~ In "Year" ["cites"; "recency"; "topics"] /\
  ~ In "Year" (tl (topic_labels_ model4)) /\
  exists out,
    inclusion_criteria corpus4 model4 weights_year true = Ok out /\
    df_get out "YearW"
    = Ok (FloatCol (map Float64.of_int [2020; 2021; 2021; 2019]%Z)) /\
    df_get out "topic_score" = Ok (FloatCol [half; Float64.one; Float64.one; Float64.zero]).
Proof.
  split; [simpl; tauto|].
  split; [simpl; intuition discriminate|].
  split; [simpl; intuition discriminate|].
  eexists. split; [vm_compute; reflexivity|].
  split; vm_compute; reflexivity.
Qed.

(** ** Sorting by a key *)

(** A column in descending order with its missing values last. *)
Definition descending_nan_last (keys : list Float64.float) : Prop :=
  exists present missing,
    keys = (present ++ missing)%list /\
    Forall (fun x => Float64.is_nan x = false) present /\
    Sorted (fun x y => Float64.leb y x = true) present /\
    Forall (fun x => Float64.is_nan x = true) missing.

Lemma take_seq {A : Type} (d : A) (l : list A) : take d l (seq 0 (List.length l)) = l.
Proof.
  unfold take. apply nth_ext with (d := d) (d' := d).
  - now rewrite length_map, length_seq.
  - intros k Hk. rewrite length_map, length_seq in Hk.
    rewrite (nth_indep _ d (nth O l d)) by now rewrite length_map, length_seq.
    rewrite (map_nth (fun i => nth i l d)), seq_nth by assumption. reflexivity.
Qed.

Lemma take_perm {A : Type} (d : A) (l : list A) (indexer : list nat) :
  Permutation indexer (seq 0 (List.length l)) -> Permutation (take d l indexer) l.
Proof.
  intros H. rewrite <- (take_seq d l) at 2. unfold take. now apply Permutation_map.
Qed.

Lemma filter_split_perm {A : Type} (f g : A -> bool) (l : list A) :
  (forall x, g x = negb (f x)) ->
  Permutation (filter f l ++ filter g l) l.
Proof.
  intros Hg. induction l as [|x l IH]; simpl; [reflexivity|].
  rewrite Hg. destruct (f x); simpl.
  - now constructor.
  - rewrite <- Permutation_middle. now constructor.
Qed.

Lemma Sorted_snoc {A : Type} (R : A -> A -> Prop) (l : list A) (x : A) :
  Sorted R l ->
  match rev l with [] => True | y :: _ => R y x end ->
  Sorted R (l ++ [x]).
Proof.
  induction 1 as [|a l Hs IH Hhd]; simpl; intros Hlast.
  - repeat constructor.
  - constructor.
    + apply IH. destruct (rev l) eqn:E; [exact I|]. simpl in Hlast. exact Hlast.
    + destruct l as [|b l']; simpl.
      * constructor. exact Hlast.
      * constructor. now inversion Hhd.
Qed.

Lemma Sorted_rev {A : Type} (R : A -> A -> Prop) (l : list A) :
  Sorted R l -> Sorted (fun x y => R y x) (rev l).
Proof.
  induction 1 as [|a l Hs IH Hhd]; simpl; [constructor|].
  apply Sorted_snoc; [exact IH|].
  rewrite rev_involutive. destruct Hhd; [exact I|assumption].
Qed.

Lemma Sorted_map {A B : Type} (R : B -> B -> Prop) (f : A -> B) (l : list A) :
  Sorted (fun x y => R (f x) (f y)) l -> Sorted R (map f l).
Proof.
  induction 1 as [|a l Hs IH Hhd]; simpl; constructor; [exact IH|].
  destruct Hhd; simpl; constructor. assumption.
Qed.

Lemma if_rev_perm {A : Type} (b : bool) (l : list A) :
  Permutation (if b then l else rev l) l.
Proof. destruct b; [reflexivity|]. symmetry. apply Permutation_rev. Qed.

Section NargsortFacts.

Context {S : ArgSort}.
Variable items : list Float64.float.
Variable ascending : bool.

Let idx := seq 0 (List.length items).
Let present := filter (fun i => negb (Float64.is_nan (nth i items Float64.nan))) idx.
Let missing := filter (fun i => Float64.is_nan (nth i items Float64.nan)) idx.
Let ordered := if ascending then present else rev present.
Let keys := map (fun i => nth i items Float64.nan) ordered.
Let sorted_keys := map (fun k => nth k keys Float64.nan) (argsort keys).

Lemma argsort_in_range : Forall (fun k => (k < List.length ordered)%nat) (argsort keys).
Proof.
  apply Forall_forall. intros k Hk.
  apply (Permutation_in _ (argsort_perm keys)) in Hk.
  apply in_seq in Hk. unfold keys in Hk. rewrite length_map in Hk. lia.
Qed.

Lemma keys_present : forallb (fun x => negb (Float64.is_nan x)) keys = true.
Proof.
  apply forallb_forall. intros x Hx. unfold keys in Hx.
  apply in_map_iff in Hx. destruct Hx as [i [<- Hi]].
  assert (Hin : In i present).
  { apply (Permutation_in _ (if_rev_perm ascending present)). exact Hi. }
  unfold present in Hin. apply filter_In in Hin. tauto.
Qed.

Lemma sorted_keys_ascending :
  Sorted (fun x y => Float64.leb x y = true) sorted_keys.
Proof. apply Sorted_map. apply argsort_sorted. exact keys_present. Qed.

Lemma sorted_keys_present : Forall (fun x => Float64.is_nan x = false) sorted_keys.
Proof.
  apply Forall_forall. intros x Hx. unfold sorted_keys in Hx.
  apply in_map_iff in Hx. destruct Hx as [k [<- Hk]].
  pose proof argsort_in_range as Hr. rewrite Forall_forall in Hr.
  apply nth_not_nan; [exact keys_present|].
  unfold keys. rewrite length_map. now apply Hr.
Qed.

(** The keys at the positions of the sorted part are the sorted keys. *)
Lemma take_sorted_part :
  take Float64.nan items (map (fun k => nth k ordered O) (argsort keys)) = sorted_keys.
Proof.
  unfold take, sorted_keys. rewrite map_map. apply map_ext_in.
  intros k Hk. pose proof argsort_in_range as Hr. rewrite Forall_forall in Hr.
  specialize (Hr k Hk). unfold keys.
  rewrite (nth_indep (map (fun i => nth i items Float64.nan) ordered)
                     Float64.nan (nth O items Float64.nan))
    by now rewrite length_map.
  now rewrite (map_nth (fun i => nth i items Float64.nan)).
Qed.

Lemma take_missing_part :
  Forall (fun x => Float64.is_nan x = true) (take Float64.nan items missing).
Proof.
  apply Forall_forall. intros x Hx. unfold take in Hx.
  apply in_map_iff in Hx. destruct Hx as [i [<- Hi]].
  unfold missing in Hi. apply filter_In in Hi. tauto.
Qed.

Lemma sorted_part_perm :
  Permutation (map (fun k => nth k ordered O) (argsort keys)) present.
Proof.
  transitivity ordered.
  - assert (H : Permutation (argsort keys) (seq 0 (List.length ordered))).
    { pose proof (argsort_perm keys) as H. unfold keys in H.
      now rewrite length_map in H. }
    apply (Permutation_map (fun k => nth k ordered O)) in H.
    fold (take O ordered (seq 0 (List.length ordered))) in H.
    now rewrite take_seq in H.
  - apply if_rev_perm.
Qed.

(** The indexer is a permutation of the positions. *)
Lemma nargsort_perm : Permutation (nargsort items ascending) idx.
Proof.
  change (Permutation
            ((if ascending then map (fun k => nth k ordered O) (argsort keys)
              else rev (map (fun k => nth k ordered O) (argsort keys))) ++ missing)%list
            idx).
  transitivity (present ++ missing)%list.
  - apply Permutation_app_tail.
    rewrite if_rev_perm. apply sorted_part_perm.
  - apply filter_split_perm. intros i. now rewrite negb_involutive.
Qed.

End NargsortFacts.

(** Sorting in descending order leaves the keys descending, missing ones
    last. *)
Lemma nargsort_descending {S : ArgSort} (items : list Float64.float) :
  descending_nan_last (take Float64.nan items (nargsort items false)).
Proof.
  unfold nargsort.
  set (idx := seq 0 (List.length items)).
  set (present := filter (fun i => negb (Float64.is_nan (nth i items Float64.nan))) idx).
  set (missing := filter (fun i => Float64.is_nan (nth i items Float64.nan)) idx).
  set (keys := map (fun i => nth i items Float64.nan) (rev present)).
  exists (rev (map (fun k => nth k keys Float64.nan) (argsort keys))),
         (take Float64.nan items missing).
  split; [|split; [|split]].
  - unfold take at 1. rewrite map_app, map_rev. f_equal.
    f_equal. apply (take_sorted_part items false).
  - apply Forall_rev. apply (sorted_keys_present items false).
  - apply (Sorted_rev (fun x y => Float64.leb x y = true)).
    apply (sorted_keys_ascending items false).
  - apply take_missing_part.
Qed.

(** ** Reading and writing columns *)

Ltac invert_bind H :=
  match type of H with
  | bind ?r _ = Ok _ =>
      let E := fresh "E" in
      destruct r eqn:E; cbn [bind] in H; [|discriminate H]
  end.

Lemma lookup_replace_col (key : string) (c : column) (l : list (string * column)) (key' : string) :
  lookup key' (replace_col key c l)
  = if String.eqb key key'
    then match lookup key l with Some _ => Some c | None => None end
    else lookup key' l.
Proof.
  induction l as [|[k v] rest IH]; simpl.
  - now destruct (String.eqb key key').
  - destruct (String.eqb k key) eqn:E1; simpl.
    + apply String.eqb_eq in E1. subst k.
      destruct (String.eqb key key'); reflexivity.
    + destruct (String.eqb k key') eqn:E2.
      * apply String.eqb_eq in E2. subst k.
        apply String.eqb_neq in E1.
        assert (E3 : String.eqb key key' = false)
          by (apply String.eqb_neq; congruence).
        now rewrite E3.
      * exact IH.
Qed.

Lemma lookup_app {A : Type} (key : string) (l l' : list (string * A)) :
  lookup key (l ++ l') = match lookup key l with Some v => Some v | None => lookup key l' end.
Proof.
  induction l as [|[k v] rest IH]; simpl; [reflexivity|].
  destruct (String.eqb k key); [reflexivity|exact IH].
Qed.

Lemma df_get_set_same (df : DataFrame) (key : string) (c : column) :
  df_get (df_set df key c) key = Ok c.
Proof.
  unfold df_get, df_set. destruct (lookup key (columns df)) eqn:E; simpl.
  - now rewrite lookup_replace_col, String.eqb_refl, E.
  - rewrite lookup_app, E. simpl. now rewrite String.eqb_refl.
Qed.

Lemma df_get_set_other (df : DataFrame) (key key' : string) (c : column) :
  key <> key' -> df_get (df_set df key c) key' = df_get df key'.
Proof.
  intros Hne. apply String.eqb_neq in Hne.
  unfold df_get, df_set. destruct (lookup key (columns df)) eqn:E; simpl.
  - now rewrite lookup_replace_col, Hne.
  - rewrite lookup_app. simpl. rewrite Hne. now destruct (lookup key' (columns df)).
Qed.

Lemma lookup_filter_keep (keep : string -> bool) (key : string) (l : list (string * column)) :
  keep key = true ->
  lookup key (filter (fun nc => keep (fst nc)) l) = lookup key l.
Proof.
  intros Hk. induction l as [|[k v] rest IH]; simpl; [reflexivity|].
  destruct (keep k) eqn:E; simpl.
  - destruct (String.eqb k key); [reflexivity|exact IH].
  - destruct (String.eqb k key) eqn:E2; [|exact IH].
    apply String.eqb_eq in E2. congruence.
Qed.

Lemma mem_string_In (k : string) (l : list string) : mem_string k l = true <-> In k l.
Proof.
  unfold mem_string. rewrite existsb_exists. split.
  - intros [x [Hin Heq]]. apply String.eqb_eq in Heq. now subst.
  - intros Hin. exists k. split; [assumption|apply String.eqb_refl].
Qed.

Lemma df_get_drop (df dropped : DataFrame) (labels : list string) (key : string) :
  df_drop df labels = Ok dropped -> ~ In key labels ->
  df_get dropped key = df_get df key.
Proof.
  unfold df_drop. destruct (find _ labels); [discriminate|].
  intros H Hnot. injection H as <-. unfold df_get; simpl.
  rewrite (lookup_filter_keep (fun k => negb (mem_string k labels))); [reflexivity|].
  apply negb_true_iff. destruct (mem_string key labels) eqn:E; [|reflexivity].
  apply mem_string_In in E. contradiction.
Qed.

(** The names of the weighted topic columns end in [W]. *)
Definition weighted_name (name : string) : Prop :=
  exists key, name = key ++ "W".

Lemma weight_loop_names (weights : list (string * Float64.float)) (output reached : DataFrame)
      (score_list names : list string) :
  weight_loop weights output score_list = Ok (reached, names) ->
  Forall weighted_name score_list -> Forall weighted_name names.
Proof.
  revert output score_list.
  induction weights as [|[key w] rest IH]; intros output score_list; cbn [weight_loop].
  - intros H; injection H as <- <-. auto.
  - destruct (String.eqb key "cites").
    { intros H. repeat invert_bind H. eauto. }
    destruct (String.eqb key "recency").
    { intros H. repeat invert_bind H. eauto. }
    destruct (negb (String.eqb key "topics")).
    { intros H Hall. repeat invert_bind H. eapply IH; [exact H|].
      apply Forall_app. split; [assumption|]. constructor; [|constructor].
      now exists key. }
    eauto.
Qed.

Lemma weighted_name_last (key : string) :
  exists body, list_ascii_of_string (key ++ "W") = (body ++ ["W"%char])%list.
Proof.
  induction key as [|c key [body IH]]; simpl.
  - now exists [].
  - exists (c :: body). simpl. now rewrite IH.
Qed.

Lemma weighted_name_not (name : string) (body : list ascii) (c : ascii) :
  list_ascii_of_string name = (body ++ [c])%list -> c <> "W"%char ->
  ~ weighted_name name.
Proof.
  intros Hname Hc [key ->]. destruct (weighted_name_last key) as [body' Hb].
  rewrite Hb in Hname. apply app_inj_tail in Hname. destruct Hname as [_ Heq].
  congruence.
Qed.

Lemma score_not_weighted : ~ weighted_name "score".
Proof.
  apply (weighted_name_not "score" ["s"; "c"; "o"; "r"]%char "e"%char);
    [reflexivity|discriminate].
Qed.

(** What [score_frame] leaves in the frame: the composite score as a
    [float64] column, and the names the loop collected. *)
Lemma score_frame_score (output scored : DataFrame)
      (weights : list (string * Float64.float)) (score_list : list string) :
  score_frame output weights = Ok (scored, score_list) ->
  (exists unsorted, df_get scored "score" = Ok (FloatCol unsorted)) /\
  Forall weighted_name score_list.
Proof.
  unfold score_frame. intros H.
  invert_bind H. destruct a as [looped names].
  repeat invert_bind H.
  injection H as <- <-.
  split.
  - rewrite df_get_set_same.
    match goal with
    | Hc : col_add _ _ = Ok ?sc |- exists _, Ok ?sc = _ =>
        unfold col_add in Hc; repeat invert_bind Hc; injection Hc as <-
    end.
    eexists. reflexivity.
  - eapply weight_loop_names; [exact E|constructor].
Qed.

(** ** The order of the ranked frame *)

(** The stages of [inclusion_criteria] when it returns. *)
Lemma inclusion_criteria_unfold {S : ArgSort}
      (corpus : DataFrame) (model : TopicModel)
      (weights : list (string * Float64.float)) (include_scores : bool)
      (out : DataFrame) :
  inclusion_criteria corpus model weights include_scores = Ok out ->
  exists output scored score_list unsorted,
    integrate corpus model = Ok output /\
    score_frame output weights = Ok (scored, score_list) /\
    df_get scored "score" = Ok (FloatCol unsorted) /\
    (if include_scores then Ok (df_take scored (nargsort unsorted false))
     else df_drop (df_take scored (nargsort unsorted false)) score_list) = Ok out /\
    df_get out "score"
    = Ok (FloatCol (take Float64.nan unsorted (nargsort unsorted false))).
Proof.
  unfold inclusion_criteria. intros H.
  invert_bind H. rename a into output.
  invert_bind H. destruct a as [scored score_list].
  invert_bind H. rename a into sorted.
  destruct (score_frame_score _ _ _ _ E0) as [[unsorted Hscore] Hnames].
  unfold sort_values in E1. rewrite Hscore in E1. cbn [bind col_floats] in E1.
  injection E1 as <-.
  exists output, scored, score_list, unsorted.
  assert (Hsorted : df_get (df_take scored (nargsort unsorted false)) "score"
                    = Ok (FloatCol (take Float64.nan unsorted (nargsort unsorted false))))
    by apply (df_get_take _ _ _ _ Hscore).
  repeat split; try assumption; try reflexivity.
  destruct include_scores.
  - now injection H as <-.
  - rewrite (df_get_drop _ _ _ _ H); [exact Hsorted|].
    intros Hin. rewrite Forall_forall in Hnames.
    exact (score_not_weighted (Hnames _ Hin)).
Qed.

(** C4, as the code has it. The frame [inclusion_criteria] returns is the
    scored frame with its rows reordered by a permutation; its composite
    scores are in descending order, the missing (NaN) ones last. The order
    of records with equal scores is not fixed by this: it is that of the sort
    the program is run with. *)
Theorem inclusion_criteria_descending {S : ArgSort}
        (corpus : DataFrame) (model : TopicModel)
        (weights : list (string * Float64.float)) (include_scores : bool)
        (out : DataFrame) :
  inclusion_criteria corpus model weights include_scores = Ok out ->
  exists output scored score_list unsorted indexer,
    integrate corpus model = Ok output /\
    score_frame output weights = Ok (scored, score_list) /\
    df_get scored "score" = Ok (FloatCol unsorted) /\
    Permutation indexer (seq 0 (List.length unsorted)) /\
    (if include_scores then Ok (df_take scored indexer)
     else df_drop (df_take scored indexer) score_list) = Ok out /\
    df_get out "score" = Ok (FloatCol (take Float64.nan unsorted indexer)) /\
    descending_nan_last (take Float64.nan unsorted indexer).
Proof.
  intros H.
  destruct (inclusion_criteria_unfold _ _ _ _ _ H)
    as [output [scored [score_list [unsorted [H1 [H2 [H3 [H4 H5]]]]]]]].
  exists output, scored, score_list, unsorted, (nargsort unsorted false).
  repeat split; try assumption.
  - apply nargsort_perm.
  - apply nargsort_descending.
Qed.

Lemma inclusion_criteria_descending_witness :
  exists out,
    inclusion_criteria corpus4 model4 weights_with_topics false = Ok out /\
    df_get out "score"
    = Ok (FloatCol [Float64.one; half; half; Float64.zero]) /\
    descending_nan_last [Float64.one; half; half; Float64.zero].
Proof.
  assert (Hrun : exists out,
             inclusion_criteria corpus4 model4 weights_with_topics false = Ok out)
    by (eexists; vm_compute; reflexivity).
  destruct Hrun as [out Hout]. exists out.
  destruct (inclusion_criteria_descending corpus4 model4 weights_with_topics false out Hout)
    as [output [scored [names [unsorted [indexer [_ [_ [_ [_ [_ [Hget Hdesc]]]]]]]]]]].
  assert (Hval : df_get out "score"
                 = Ok (FloatCol [Float64.one; half; half; Float64.zero])).
  { revert Hout. vm_compute. intros H. injection H as <-. reflexivity. }
  split; [exact Hout|]. split; [exact Hval|].
  rewrite Hget in Hval. injection Hval as <-. exact Hdesc.
Defined.

(** C4, against the claim: records [c] and [d] of the six-record corpus get
    the same composite score and [c] stands before [d] in the corpus; the
    ranked frame has [d] before [c]. The order is that of a sort that meets
    the contract of [sort_values] and does not keep equal keys in place, as
    the default sort kind does not on this input. *)
Lemma equal_scores_may_swap :
  exists scored names out,
    (output <- integrate corpus6 model6 ;; score_frame output weights_with_topics)
    = Ok (scored, names) /\
    df_get scored "Title"
    = Ok (ObjCol [OStr "a"; OStr "b"; OStr "c"; OStr "d"; OStr "e"; OStr "f"]) /\
    df_get scored "score"
    = Ok (FloatCol [Float64.one; Float64.zero; half; half; three_tenths; eight_tenths]) /\
    inclusion_criteria (S := reversing_sort) corpus6 model6 weights_with_topics false
    = Ok out /\
    df_get out "Title"
    = Ok (ObjCol [OStr "a"; OStr "f"; OStr "d"; OStr "c"; OStr "e"; OStr "b"]) /\
    df_get out "score"
    = Ok (FloatCol [Float64.one; eight_tenths; half; half; three_tenths; Float64.zero]).
Proof.
  eexists. eexists. eexists.
  split; [vm_compute; reflexivity|].
  split; [vm_compute; reflexivity|].
  split; [vm_compute; reflexivity|].
  split; [vm_compute; reflexivity|].
  split; vm_compute; reflexivity.
Qed.

(** ** The round-trip export *)

Definition custom_fields : list string := ["custom1"; "custom2"; "custom3"; "custom4"].

(** The value of a key in a record written as a dict: the last binding. *)
Definition record_get (key : string) (record : list (string * obj)) : option obj :=
  lookup key (rev record).

Lemma col_take_length (c : column) (indexer : list nat) :
  col_length (col_take c indexer) = List.length indexer.
Proof. destruct c; simpl; unfold take; now rewrite length_map. Qed.

Lemma fillna_col_length (v : obj) (c : column) :
  col_length (fillna_col v c) = col_length c.
Proof.
  destruct c as [l|l|l]; simpl; [reflexivity| |now rewrite length_map].
  destruct (existsb Float64.is_nan l); simpl; now rewrite ?length_map.
Qed.

Lemma fill_obj_present (v o : obj) : obj_isna v = false -> obj_isna (fill_obj v o) = false.
Proof. intros Hv. unfold fill_obj. destruct (obj_isna o) eqn:E; assumption. Qed.

Lemma cells_fillna_col (v : obj) (c : column) :
  cells (fillna_col v c) = map (fill_obj v) (cells c).
Proof.
  destruct c as [l|l|l]; simpl.
  - rewrite map_map. apply map_ext. reflexivity.
  - destruct (existsb Float64.is_nan l) eqn:E; simpl.
    + now rewrite map_map.
    + rewrite map_map. apply map_ext_in. intros f Hf. unfold fill_obj; simpl.
      destruct (Float64.is_nan f) eqn:Ef; [|reflexivity].
      assert (existsb Float64.is_nan l = true) by (apply existsb_exists; eauto).
      congruence.
  - reflexivity.
Qed.

Lemma cell_at_fillna_take (v : obj) (c : column) (indexer : list nat) (k : nat) :
  (k < List.length indexer)%nat ->
  cell_at (fillna_col v (col_take c indexer)) k
  = fill_obj v (nth k (cells (col_take c indexer)) ONaN).
Proof.
  intros Hk. unfold cell_at. rewrite cells_fillna_col.
  rewrite (nth_indep _ ONaN (fill_obj v ONaN)).
  - apply map_nth.
  - now rewrite length_map, col_length_cells, col_take_length.
Qed.

Definition kept_column (nc : string * column) : bool :=
  negb (mem_string (fst nc) ["Title"; "Source"]).

Definition export_name (name : string) : string :=
  match lookup name ris_custom_names with
  | Some name' => name'
  | None => name
  end.

(** The columns of the exported frame, from those of the merged frame and
    the indexer of the sort. *)
Definition export_columns (merged : list (string * column)) (indexer : list nat)
  : list (string * column) :=
  map (fun nc => (export_name (fst nc),
                  fillna_col (OStr "none") (col_take (snd nc) indexer)))
      (filter kept_column merged).

Definition left_columns (left : DataFrame) (pairs : list (option nat * nat))
  : list (string * column) :=
  map (fun nc =>
         (fst nc,
          ObjCol (map (fun p => match fst p with
                                | Some i => cell_at (snd nc) i
                                | None => ONaN
                                end) pairs)))
      (columns left).

Lemma lookup_left_columns (left : DataFrame) (pairs : list (option nat * nat)) (key : string) :
  ~ In key (column_names left) -> lookup key (left_columns left pairs) = None.
Proof.
  intros H. apply lookup_None. unfold left_columns. rewrite map_map. exact H.
Qed.

Lemma roundtrip_unfold {S : ArgSort} (ranked_df : DataFrame)
      (entries : list (list (string * obj))) (out : list (list (string * obj)))
      (sv : list Float64.float) :
  let temp_df := DataFrame_of_records entries in
  (forall name, In name score_fields -> ~ In name (column_names temp_df)) ->
  df_get ranked_df "score" = Ok (FloatCol sv) ->
  roundtrip ranked_df entries = Ok out ->
  exists lkeys rkeys cT cS c2 c3 c4,
    mapM (df_get temp_df) ["title"; "secondary_title"] = Ok lkeys /\
    mapM (df_get ranked_df) ["Title"; "Source"] = Ok rkeys /\
    let pairs := join_pairs lkeys rkeys (nrows temp_df) (nrows ranked_df) in
    let rows := map snd pairs in
    let indexer := nargsort (take Float64.nan sv rows) false in
    out = to_dict_records
            (mkDF (List.length indexer)
                  (export_columns
                     (left_columns temp_df pairs ++
                      [("Title", col_take cT rows); ("Source", col_take cS rows);
                       ("score", FloatCol (take Float64.nan sv rows));
                       ("cite_score", col_take c2 rows);
                       ("recency_score", col_take c3 rows);
                       ("topic_score", col_take c4 rows)])
                     indexer)).
Proof.
  intros temp_df Hdisj Hscore H. unfold roundtrip in H. fold temp_df in H.
  clearbody temp_df.
  invert_bind H. rename a into scores.
  invert_bind H. rename a into merged.
  invert_bind H. rename a into sorted.
  invert_bind H. rename a into dropped.
  injection H as <-.
  (* the six selected columns *)
  unfold df_select, score_fields in E. cbn [select_cols] in E.
  unfold df_get in Hscore.
  destruct (lookup "Title" (columns ranked_df)) as [cT|] eqn:ET; [|discriminate].
  destruct (lookup "Source" (columns ranked_df)) as [cS|] eqn:ES; [|discriminate].
  destruct (lookup "score" (columns ranked_df)) as [c1|] eqn:E1'; [|discriminate].
  injection Hscore as ->.
  destruct (lookup "cite_score" (columns ranked_df)) as [c2|] eqn:EC; [|discriminate].
  destruct (lookup "recency_score" (columns ranked_df)) as [c3|] eqn:ER; [|discriminate].
  destruct (lookup "topic_score" (columns ranked_df)) as [c4|] eqn:ET'; [|discriminate].
  cbn [bind] in E. injection E as <-.
  (* the merge *)
  unfold merge_right in E0. invert_bind E0. rename a into lkeys.
  cbn [mapM df_get columns lookup String.eqb Ascii.eqb Bool.eqb bind] in E0.
  injection E0 as <-.
  exists lkeys, [cT; cS], cT, cS, c2, c3, c4.
  split; [first [exact E|reflexivity]|].
  split.
  { cbn [mapM]. unfold df_get. rewrite ?ET, ?ES. reflexivity. }
  cbn zeta. cbn [nrows] in *.
  fold (left_columns temp_df (join_pairs lkeys [cT; cS] (nrows temp_df) (nrows ranked_df))) in E1.
  set (pairs := join_pairs lkeys [cT; cS] (nrows temp_df) (nrows ranked_df)) in *.
  (* the sort *)
  unfold sort_values, df_get in E1. cbn [columns] in E1.
  rewrite lookup_app, lookup_left_columns in E1
    by (apply Hdisj; simpl; tauto).
  cbn [lookup String.eqb Ascii.eqb Bool.eqb bind col_floats] in E1.
  injection E1 as <-.
  (* the drop *)
  unfold df_drop in E2.
  match type of E2 with
  | match ?f with _ => _ end = _ => destruct f; [discriminate|]
  end.
  injection E2 as <-.
  unfold to_dict_records, fillna, df_rename, df_take, export_columns.
  cbn [nrows columns]. f_equal. f_equal. f_equal.
  rewrite filter_map_swap, !map_map. reflexivity.
Qed.

Lemma export_columns_app (l l' : list (string * column)) (indexer : list nat) :
  export_columns (l ++ l') indexer
  = (export_columns l indexer ++ export_columns l' indexer)%list.
Proof. unfold export_columns. now rewrite filter_app, map_app. Qed.

Lemma join_pairs_unmatched (lkeys rkeys : list column) (nleft nright : nat) (j : nat) :
  In (None, j) (join_pairs lkeys rkeys nleft nright) ->
  (j < nright)%nat /\
  forall i, (i < nleft)%nat ->
    forallb (fun lr => obj_eqb (cell_at (fst lr) i) (cell_at (snd lr) j))
            (combine lkeys rkeys) = false.
Proof.
  unfold join_pairs. rewrite in_flat_map. intros [j' [Hj' Hin]].
  apply in_seq in Hj'.
  destruct (filter _ (seq 0 nleft)) as [|i0 rest] eqn:E.
  - destruct Hin as [Heq|[]]. injection Heq as <-. split; [lia|].
    intros i Hi.
    destruct (forallb _ (combine lkeys rkeys)) eqn:Em; [|reflexivity].
    assert (Hf : In i (filter (fun i => forallb
              (fun lr => obj_eqb (cell_at (fst lr) i) (cell_at (snd lr) j'))
              (combine lkeys rkeys)) (seq 0 nleft))).
    { apply filter_In. split; [apply in_seq; lia|exact Em]. }
    rewrite E in Hf. destruct Hf.
  - apply in_map_iff in Hin. destruct Hin as [i [Heq _]]. discriminate.
Qed.

Lemma nth_take {A : Type} (d : A) (l : list A) (indexer : list nat) (k : nat) :
  (k < List.length indexer)%nat ->
  nth k (take d l indexer) d = nth (nth k indexer O) l d.
Proof.
  intros Hk. unfold take.
  rewrite (nth_indep _ d (nth O l d)) by now rewrite length_map.
  apply (map_nth (fun i => nth i l d)).
Qed.


Lemma export_record (cols : list (string * column)) (indexer : list nat) (k : nat) :
  (k < List.length indexer)%nat ->
  row_at (mkDF (List.length indexer) (export_columns cols indexer)) k
  = map (fun nc => (export_name (fst nc),
                    fill_obj (OStr "none") (nth k (cells (col_take (snd nc) indexer)) ONaN)))
        (filter kept_column cols).
Proof.
  intros Hk. unfold row_at, export_columns; cbn [columns].
  rewrite map_map. apply map_ext. intros [name c]; cbn [fst snd]. f_equal.
  now apply cell_at_fillna_take.
Qed.

Lemma to_dict_records_nth (df : DataFrame) (k : nat) :
  (k < nrows df)%nat -> nth k (to_dict_records df) [] = row_at df k.
Proof.
  intros Hk. unfold to_dict_records.
  rewrite (nth_indep _ [] (row_at df O)) by now rewrite length_map, length_seq.
  rewrite map_nth, seq_nth by assumption. reflexivity.
Qed.

Lemma left_cell_unmatched (left : DataFrame) (pairs : list (option nat * nat))
      (indexer : list nat) (k : nat) (name : string) (c : column) :
  In (name, c) (left_columns left pairs) ->
  (k < List.length indexer)%nat ->
  (nth k indexer O < List.length pairs)%nat ->
  fst (nth (nth k indexer O) pairs (None, O)) = None ->
  nth k (cells (col_take c indexer)) ONaN = ONaN.
Proof.
  intros Hin Hk Hm Hnone. unfold left_columns in Hin.
  apply in_map_iff in Hin. destruct Hin as [[name' c'] [Heq _]].
  injection Heq as _ <-. cbn [col_take cells].
  rewrite nth_take by assumption.
  set (f := fun p : option nat * nat =>
              match fst p with Some i => cell_at c' i | None => ONaN end).
  rewrite (nth_indep _ ONaN (f (None, O))) by now rewrite length_map.
  rewrite (map_nth f). unfold f. now rewrite Hnone.
Qed.

Lemma roundtrip_export {S : ArgSort} (ranked_df : DataFrame)
      (entries : list (list (string * obj))) (out : list (list (string * obj)))
      (sv : list Float64.float) :
  let temp_df := DataFrame_of_records entries in
  (forall name, In name score_fields -> ~ In name (column_names temp_df)) ->
  df_get ranked_df "score" = Ok (FloatCol sv) ->
  roundtrip ranked_df entries = Ok out ->
  exists lkeys rkeys indexer,
    mapM (df_get temp_df) ["title"; "secondary_title"] = Ok lkeys /\
    mapM (df_get ranked_df) ["Title"; "Source"] = Ok rkeys /\
    let pairs := join_pairs lkeys rkeys (nrows temp_df) (nrows ranked_df) in
    let scores := take Float64.nan (take Float64.nan sv (map snd pairs)) indexer in
    Permutation indexer (seq 0 (List.length pairs)) /\
    List.length out = List.length pairs /\
    Forall (Forall (fun kv => obj_isna (snd kv) = false)) out /\
    (forall k, (k < List.length out)%nat ->
               fst (nth (nth k indexer O) pairs (None, O)) = None ->
               forall field value,
                 In (field, value) (nth k out []) -> ~ In field custom_fields ->
                 value = OStr "none") /\
    map (record_get "custom1") out
    = map (fun f => Some (fill_obj (OStr "none") (OFloat f))) scores /\
    descending_nan_last scores.
Proof.
  intros temp_df Hdisj Hscore Hrun.
  destruct (roundtrip_unfold ranked_df entries out sv Hdisj Hscore Hrun)
    as [lkeys [rkeys [cT [cS [c2 [c3 [c4 [Hl [Hr Hout]]]]]]]]].
  fold temp_df in Hl, Hout. cbn zeta in Hout. clearbody temp_df.
  set (pairs := join_pairs lkeys rkeys (nrows temp_df) (nrows ranked_df)) in *.
  set (keys := take Float64.nan sv (map snd pairs)) in *.
  set (indexer := nargsort keys false) in *.
  exists lkeys, rkeys, indexer.
  split; [exact Hl|]. split; [exact Hr|]. cbn zeta. fold pairs keys.
  assert (Hperm : Permutation indexer (seq 0 (List.length pairs))).
  { pose proof (nargsort_perm keys false) as H. fold indexer in H.
    unfold keys, take in H. now rewrite !length_map in H. }
  assert (Hlen : List.length indexer = List.length pairs).
  { rewrite (Permutation_length Hperm). apply length_seq. }
  assert (Hrange : forall k, (k < List.length indexer)%nat ->
                             (nth k indexer O < List.length pairs)%nat).
  { intros k Hk. assert (Hin : In (nth k indexer O) indexer) by now apply nth_In.
    apply (Permutation_in _ Hperm) in Hin. apply in_seq in Hin. lia. }
  assert (Hlout : List.length out = List.length indexer).
  { rewrite Hout. unfold to_dict_records; cbn [nrows].
    now rewrite length_map, length_seq. }
  assert (Hrec : forall k, (k < List.length indexer)%nat ->
     nth k out []
     = (map (fun nc => (export_name (fst nc),
                        fill_obj (OStr "none")
                                 (nth k (cells (col_take (snd nc) indexer)) ONaN)))
            (filter kept_column (left_columns temp_df pairs))
        ++ [("custom1", fill_obj (OStr "none") (OFloat (nth k (take Float64.nan keys indexer) Float64.nan)));
            ("custom2", fill_obj (OStr "none") (nth k (cells (col_take (col_take c2 (map snd pairs)) indexer)) ONaN));
            ("custom3", fill_obj (OStr "none") (nth k (cells (col_take (col_take c3 (map snd pairs)) indexer)) ONaN));
            ("custom4", fill_obj (OStr "none") (nth k (cells (col_take (col_take c4 (map snd pairs)) indexer)) ONaN))])%list).
  { intros k Hk. rewrite Hout.
    rewrite to_dict_records_nth by (cbn [nrows]; assumption).
    rewrite export_record by assumption.
    rewrite filter_app, map_app. f_equal.
    cbn [filter kept_column mem_string existsb fst snd String.eqb Ascii.eqb Bool.eqb
         negb orb map export_name lookup ris_custom_names col_take cells].
    repeat f_equal.
    rewrite (nth_indep _ ONaN (OFloat Float64.nan))
      by (unfold take; now rewrite !length_map).
    apply map_nth. }
  split; [exact Hperm|]. split; [congruence|].
  split; [|split; [|split]].
  - (* every cell is present *)
    apply Forall_forall. intros record Hin.
    apply (In_nth _ _ []) in Hin. destruct Hin as [k [Hk <-]].
    rewrite Hlout in Hk. rewrite (Hrec k Hk).
    apply Forall_app. split.
    + apply Forall_forall. intros [field value] Hf.
      apply in_map_iff in Hf. destruct Hf as [nc [Heq _]].
      injection Heq as _ <-. now apply fill_obj_present.
    + repeat constructor; now apply fill_obj_present.
  - (* the rows without a raw entry *)
    intros k Hk Hnone field value Hin Hfield.
    rewrite Hlout in Hk. rewrite (Hrec k Hk) in Hin.
    apply in_app_or in Hin. destruct Hin as [Hin|Hin].
    + apply in_map_iff in Hin. destruct Hin as [[name c] [Heq Hnc]].
      injection Heq as _ <-. cbn [snd].
      apply filter_In in Hnc. destruct Hnc as [Hnc _].
      rewrite (left_cell_unmatched temp_df pairs indexer k name c); auto.
    + exfalso. apply Hfield. unfold custom_fields.
      simpl in Hin. simpl.
      repeat (destruct Hin as [Hin|Hin]; [injection Hin as <- _; tauto|]).
      destruct Hin.
  - (* the order of the scores *)
    apply nth_ext with (d := None) (d' := None).
    + rewrite !length_map. unfold take. now rewrite length_map.
    + intros k Hk. rewrite length_map, Hlout in Hk.
      rewrite (nth_indep _ None (record_get "custom1" [])) by (rewrite length_map; lia).
      rewrite map_nth, (Hrec k Hk).
      set (f := fun x => Some (fill_obj (OStr "none") (OFloat x))).
      rewrite (nth_indep _ None (f Float64.nan))
        by (unfold take; now rewrite !length_map).
      rewrite (map_nth f). unfold f, record_get.
      rewrite rev_app_distr. reflexivity.
  - apply nargsort_descending.
Qed.

(** C8. The entries [return_included_papers] writes to the export, when the
    raw entries use none of the six merged column names: no cell is left
    missing; an entry that stems from a ranked row without a raw entry of the
    same title and source holds ["none"] in every field but the four
    custom ones; and the [custom1] fields, read in the order of the export,
    are the composite scores in descending order (["none"] for the missing
    ones, last). *)
Theorem export_sentinel_and_order {S : ArgSort}
        (n : option Z) (corpus : DataFrame) (model : TopicModel)
        (topic_weights : list (string * Float64.float))
        (entries : list (list (string * obj)))
        (ranked_df : DataFrame) (out : list (list (string * obj))) :
  let temp_df := DataFrame_of_records entries in
  (forall name, In name score_fields -> ~ In name (column_names temp_df)) ->
  return_included_papers n corpus model topic_weights (Some entries)
  = Ok (ranked_df, Some out) ->
  exists sv lkeys rkeys indexer,
    df_get ranked_df "score" = Ok (FloatCol sv) /\
    mapM (df_get temp_df) ["title"; "secondary_title"] = Ok lkeys /\
    mapM (df_get ranked_df) ["Title"; "Source"] = Ok rkeys /\
    let pairs := join_pairs lkeys rkeys (nrows temp_df) (nrows ranked_df) in
    let scores := take Float64.nan (take Float64.nan sv (map snd pairs)) indexer in
    Permutation indexer (seq 0 (List.length pairs)) /\
    List.length out = List.length pairs /\
    Forall (Forall (fun kv => obj_isna (snd kv) = false)) out /\
    (forall k, (k < List.length out)%nat ->
               fst (nth (nth k indexer O) pairs (None, O)) = None ->
               forall field value,
                 In (field, value) (nth k out []) -> ~ In field custom_fields ->
                 value = OStr "none") /\
    map (record_get "custom1") out
    = map (fun f => Some (fill_obj (OStr "none") (OFloat f))) scores /\
    descending_nan_last scores.
Proof.
  intros temp_df Hdisj H. unfold return_included_papers in H.
  invert_bind H. rename a into ranked.
  invert_bind H. injection H as <- <-.
  destruct (inclusion_criteria_unfold _ _ _ _ _ E)
    as [output [scored [score_list [unsorted [_ [_ [_ [_ Hscore]]]]]]]].
  assert (Hsv : exists sv,
             df_get match n with Some k => df_head ranked k | None => ranked end "score"
             = Ok (FloatCol sv)).
  { destruct n as [k|].
    - eexists. unfold df_head. apply (df_get_take _ _ _ _ Hscore).
    - eexists. exact Hscore. }
  destruct Hsv as [sv Hsv]. exists sv.
  destruct (roundtrip_export _ entries a sv Hdisj Hsv E0)
    as [lkeys [rkeys [indexer Hrest]]].
  exists lkeys, rkeys, indexer. split; [exact Hsv|]. exact Hrest.
Qed.

(** Raw entries for the records [a] and [c], and one that is not ranked. *)
Definition raw_entry (title doi : string) : list (string * obj) :=
  [("type_of_reference", OStr "JOUR"); ("title", OStr title);
   ("secondary_title", OStr "Journal"); ("doi", OStr doi)].

Definition raw_entries : list (list (string * obj)) :=
  [raw_entry "c" "10.1/c"; raw_entry "z" "10.1/z"; raw_entry "a" "10.1/a"].

Lemma export_sentinel_and_order_witness :
  exists ranked_df out,
    return_included_papers None corpus4 model4 weights_with_topics (Some raw_entries)
    = Ok (ranked_df, Some out) /\
    Forall (Forall (fun kv => obj_isna (snd kv) = false)) out /\
    map (record_get "custom1") out
    = [Some (OFloat Float64.one); Some (OFloat half); Some (OFloat half);
       Some (OFloat Float64.zero)] /\
    map (record_get "doi") out
    = [Some (OStr "10.1/a"); Some (OStr "10.1/c"); Some (OStr "none");
       Some (OStr "none")].
Proof.
  assert (Hrun : exists ranked_df out,
             return_included_papers None corpus4 model4 weights_with_topics
                                    (Some raw_entries)
             = Ok (ranked_df, Some out))
    by (eexists; eexists; vm_compute; reflexivity).
  destruct Hrun as [ranked_df [out Hrun]]. exists ranked_df, out.
  assert (Hdisj : forall name, In name score_fields ->
                    ~ In name (column_names (DataFrame_of_records raw_entries)))
    by (simpl; intuition (subst; discriminate)).
  destruct (export_sentinel_and_order None corpus4 model4 weights_with_topics
              raw_entries ranked_df out Hdisj Hrun)
    as [sv [lkeys [rkeys [indexer [_ [_ [_ [_ [_ [Hfilled _]]]]]]]]]].
  split; [exact Hrun|]. split; [exact Hfilled|].
  revert Hrun. vm_compute. intros H. injection H as <- <-.
  split; reflexivity.
Defined.

(** ** Degenerate batches *)

(** A column whose keys are all missing is left in its order by the sort. *)
Lemma nargsort_all_nan {S : ArgSort} (items : list Float64.float) (ascending : bool) :
  forallb Float64.is_nan items = true ->
  nargsort items ascending = seq 0 (List.length items).
Proof.
  intros Hall. unfold nargsort.
  assert (Hnan : forall i, In i (seq 0 (List.length items)) ->
                           Float64.is_nan (nth i items Float64.nan) = true).
  { intros i Hi. apply in_seq in Hi. rewrite forallb_forall in Hall.
    apply Hall, nth_In. lia. }
  rewrite (filter_ext_in (fun i => negb (Float64.is_nan (nth i items Float64.nan)))
                         (fun _ => false))
    by (intros i Hi; now rewrite (Hnan i Hi)).
  rewrite (filter_ext_in (fun i => Float64.is_nan (nth i items Float64.nan))
                         (fun _ => true))
    by (intros i Hi; now rewrite (Hnan i Hi)).
  rewrite filter_false, filter_true.
  assert (Hnil : argsort (map (fun i => nth i items Float64.nan)
                              (if ascending then [] else rev [])) = []).
  { apply Permutation_nil. symmetry.
    pose proof (argsort_perm (map (fun i => nth i items Float64.nan)
                                  (if ascending then [] else rev []))) as H.
    now destruct ascending. }
  rewrite Hnil. now destruct ascending.
Qed.

(** [inclusion_criteria] from its stages. *)
Lemma inclusion_criteria_stages {S : ArgSort}
      (corpus : DataFrame) (model : TopicModel)
      (weights : list (string * Float64.float)) (include_scores : bool)
      (scored : DataFrame) (score_list : list string) (unsorted : list Float64.float) :
  (output <- integrate corpus model ;; score_frame output weights)
  = Ok (scored, score_list) ->
  df_get scored "score" = Ok (FloatCol unsorted) ->
  inclusion_criteria corpus model weights include_scores
  = if include_scores then Ok (df_take scored (nargsort unsorted false))
    else df_drop (df_take scored (nargsort unsorted false)) score_list.
Proof.
  intros Hstages Hscore. unfold inclusion_criteria.
  destruct (integrate corpus model) as [output|e]; [|discriminate].
  cbn [bind] in *. rewrite Hstages. cbn [bind].
  unfold sort_values. rewrite Hscore. reflexivity.
Qed.

Lemma fold_min_same (x : Z) (rest : list Z) :
  Forall (fun c => c = x) rest -> fold_left Z.min rest x = x.
Proof.
  induction 1 as [|c rest Hc _ IH]; cbn [fold_left]; [reflexivity|].
  subst c. now rewrite Z.min_id.
Qed.

Lemma fold_max_same (x : Z) (rest : list Z) :
  Forall (fun c => c = x) rest -> fold_left Z.max rest x = x.
Proof.
  induction 1 as [|c rest Hc _ IH]; cbn [fold_left]; [reflexivity|].
  subst c. now rewrite Z.max_id.
Qed.

(** With equal citation counts the normalised citations are all NaN. *)
Lemma minmax_int_degenerate (x : Z) (rest : list Z) :
  Forall (fun c => c = x) rest ->
  minmax_int (x :: rest) = repeat Float64.nan (S (List.length rest)).
Proof.
  intros Hall. unfold minmax_int, int_min, int_max.
  rewrite (fold_min_same x rest Hall), (fold_max_same x rest Hall), Z.sub_diag.
  change (repeat Float64.nan (S (List.length rest)))
    with (Float64.nan :: repeat Float64.nan (List.length rest)).
  cbn [map]. rewrite Z.sub_diag. f_equal.
  induction Hall as [|c rest Hc _ IH]; cbn [map List.length repeat]; [reflexivity|].
  subst c. rewrite Z.sub_diag. f_equal. exact IH.
Qed.

(** Three records with the same citation count. *)
Definition corpus_same_cites : DataFrame :=
  sample_corpus ["a"; "b"; "c"] [2020; 2019; 2021]%Z
                [OStr "text a"; OStr "text b"; OStr "text c"] [7; 7; 7]%Z.

Definition model3 : TopicModel :=
  mkModel (fun docs => (map (fun _ => 0%Z) docs, map (fun _ => Float64.one) docs))
          (fun _ => mkMatrix 2 [[half; quarter]; [quarter; half]; [quarter; quarter]])
          ["-1_outlier"; "0_graphs"; "1_proofs"].

(** C1, the code at a degenerate batch: with the citation counts [7, 7, 7]
    [inclusion_criteria] returns, under every sort, and the citation
    component of every record is NaN, as is the composite score; the claim
    asks for 0. *)
Theorem degenerate_citations_are_nan {S : ArgSort} :
  exists out,
    inclusion_criteria corpus_same_cites model3 weights_with_topics false = Ok out /\
    df_get out "Citations" = Ok (IntCol [7; 7; 7]%Z) /\
    df_get out "cite_score" = Ok (FloatCol [Float64.nan; Float64.nan; Float64.nan]) /\
    df_get out "score" = Ok (FloatCol [Float64.nan; Float64.nan; Float64.nan]).
Proof.
  eexists. split.
  - erewrite inclusion_criteria_stages;
      [|vm_compute; reflexivity|vm_compute; reflexivity].
    rewrite nargsort_all_nan by reflexivity.
    vm_compute. reflexivity.
  - repeat split; vm_compute; reflexivity.
Qed.

(** C2, the code at the end-to-end scenario: with the weights
    [{cites: 1, recency: 0, topics: 0}] no topic is weighted, every topic
    total is 0, the normalised topic score is 0/0 and every composite
    score is NaN; under every sort the four records come back in the order
    of the corpus, with citation counts 10, 0, 5, 5. *)
Theorem cites_only_ranking_is_input_order {S : ArgSort} :
  exists out,
    inclusion_criteria corpus4 flat_model weights_cites_only false = Ok out /\
    df_get out "Citations" = Ok (IntCol [10; 0; 5; 5]%Z) /\
    df_get out "Title" = Ok (ObjCol [OStr "a"; OStr "b"; OStr "c"; OStr "d"]) /\
    df_get out "topic_score"
    = Ok (FloatCol [Float64.nan; Float64.nan; Float64.nan; Float64.nan]) /\
    df_get out "score"
    = Ok (FloatCol [Float64.nan; Float64.nan; Float64.nan; Float64.nan]).
Proof.
  eexists. split.
  - erewrite inclusion_criteria_stages;
      [|vm_compute; reflexivity|vm_compute; reflexivity].
    rewrite nargsort_all_nan by reflexivity.
    vm_compute. reflexivity.
  - repeat split; vm_compute; reflexivity.
Qed.

(** ** [file_loader] *)










Lemma mapM_length {A B : Type} (f : A -> result B) (l : list A) (l' : list B) :
  mapM f l = Ok l' -> List.length l' = List.length l.
Proof.
  revert l'. induction l as [|a l IH]; intros l' H; cbn [mapM] in H.
  - now injection H as <-.
  - invert_bind H. invert_bind H. injection H as <-. simpl. f_equal. now apply IH.
Qed.

Lemma records_column_obj (entries : list (list (string * obj))) (key : string) (c : column) :
  df_get (DataFrame_of_records entries) key = Ok c -> exists cells, c = ObjCol cells.
Proof.
  unfold df_get, DataFrame_of_records; cbn [columns].
  generalize (union_keys [] entries). intros keys.
  induction keys as [|k keys IH]; cbn [map lookup]; [discriminate|].
  destruct (String.eqb k key); [|exact IH].
  intros H. injection H as <-. eauto.
Qed.

Section LoaderFacts.

Variable parse_numeric : list obj -> result column.




End LoaderFacts.

(** A raw entry as [rispy] reads one, with all the fields the loader asks for. *)
Definition ris_entry (title year : string) (notes : list string) : list (string * obj) :=
  [("type_of_reference", OStr "JOUR"); ("title", OStr title);
   ("authors", OList ["A. Author"]); ("year", OStr year);
   ("secondary_title", OStr "Journal"); ("volume", OStr "1");
   ("start_page", OStr "1"); ("end_page", OStr "9");
   ("doi", OStr "10.1/x"); ("abstract", OStr "text"); ("notes", OList notes)].

(** A parser of numbers that reads integer literals. *)
Definition parse_integers : list obj -> result column := astype_int.

Definition scopus_entries : list (list (string * obj)) :=
  [ris_entry "a" "2020" ["Export Date: 21 June 2023; Cited By: 5"];
   ris_entry "b" "2021" ["Export Date: 21 June 2023; 12"]].




(** * Binary64 arithmetic, in integers

    The rounding of [SpecFloat] is followed on whole numbers: a mantissa
    with its two guard bits is one number, a shift is a division, and
    rounding to nearest even reads the last two bits. *)

Open Scope Z_scope.

(** A mantissa with its round and sticky bits as one number: four times the
    mantissa, plus two for the round bit, plus one for the sticky bit. *)
Definition code (mrs : shr_record) : Z :=
  4 * shr_m mrs + 2 * Z.b2z (shr_r mrs) + Z.b2z (shr_s mrs).

(** One when [d] does not divide [t]. *)
Definition sticky (t d : Z) : Z := if t mod d =? 0 then 0 else 1.

(** The code after [k] shifts to the right. *)
Definition shift_code (k t : Z) : Z := 2 * (t / 2 ^ (k + 1)) + sticky t (2 ^ (k + 1)).

Lemma shift_code_1 (m b c : Z) :
  0 <= b <= 1 -> 0 <= c <= 1 ->
  shift_code 1 (4 * m + 2 * b + c)
  = 4 * (m / 2) + 2 * (m mod 2) + (if (b =? 0) && (c =? 0) then 0 else 1).
Proof.
  intros Hb Hc. unfold shift_code, sticky. change (2 ^ (1 + 1)) with 4.
  assert (H1 : (4 * m + 2 * b + c) / 4 = m) by (symmetry; apply (Z.div_unique _ 4 m (2 * b + c)); lia).
  assert (H2 : (4 * m + 2 * b + c) mod 4 = 2 * b + c) by (symmetry; apply (Z.mod_unique _ 4 m (2 * b + c)); lia).
  rewrite H1, H2.
  pose proof (Z.div_mod m 2 ltac:(lia)) as Hm.
  assert (E : (2 * b + c =? 0) = ((b =? 0) && (c =? 0))).
  { destruct (b =? 0) eqn:Eb, (c =? 0) eqn:Ec; cbn [andb];
      rewrite ?Z.eqb_eq, ?Z.eqb_neq in *; lia. }
  rewrite E. destruct ((b =? 0) && (c =? 0)); lia.
Qed.

Lemma shr_1_code (mrs : shr_record) :
  0 <= shr_m mrs ->
  code (shr_1 mrs) = shift_code 1 (code mrs) /\ 0 <= shr_m (shr_1 mrs).
Proof.
  destruct mrs as [m r s]. unfold code. cbn [shr_m shr_r shr_s].
  intros Hm.
  rewrite shift_code_1 by (destruct r, s; simpl; lia).
  destruct m as [|p|p]; [| |lia].
  - destruct r, s; vm_compute; (split; [reflexivity|discriminate]).
  - destruct p as [p|p|]; cbn [shr_1 shr_m shr_r shr_s].
    + rewrite (Pos2Z.inj_xI p).
      replace ((2 * Z.pos p + 1) / 2) with (Z.pos p) by (apply (Z.div_unique _ 2 _ 1); lia).
      replace ((2 * Z.pos p + 1) mod 2) with 1 by (apply (Z.mod_unique _ 2 (Z.pos p) 1); lia).
      destruct r, s; cbn [Z.b2z orb andb Z.eqb]; lia.
    + rewrite (Pos2Z.inj_xO p).
      replace ((2 * Z.pos p) / 2) with (Z.pos p) by (apply (Z.div_unique _ 2 _ 0); lia).
      replace ((2 * Z.pos p) mod 2) with 0 by (apply (Z.mod_unique _ 2 (Z.pos p) 0); lia).
      destruct r, s; cbn [Z.b2z orb andb Z.eqb]; lia.
    + destruct r, s; vm_compute; (split; [reflexivity|discriminate]).
Qed.

Lemma sticky_range (t d : Z) : 0 <= sticky t d <= 1.
Proof. unfold sticky. destruct (t mod d =? 0); lia. Qed.

Lemma shift_code_succ (k t : Z) :
  1 <= k -> shift_code 1 (shift_code k t) = shift_code (k + 1) t.
Proof.
  intros Hk. unfold shift_code at 2.
  set (P := 2 ^ (k + 1)).
  assert (HP : 0 < P) by (apply Z.pow_pos_nonneg; lia).
  replace (2 * (t / P) + sticky t P) with (4 * (t / P / 2) + 2 * (t / P mod 2) + sticky t P)
    by (pose proof (Z.div_mod (t / P) 2 ltac:(lia)); lia).
  rewrite shift_code_1
    by (try apply sticky_range; pose proof (Z.mod_pos_bound (t / P) 2 ltac:(lia)); lia).
  unfold shift_code.
  replace (2 ^ (k + 1 + 1)) with (P * 2)
    by (unfold P; rewrite (Z.pow_add_r 2 (k + 1) 1) by lia; reflexivity).
  rewrite <- (Z.div_div t P 2) by lia.
  assert (Hs : (if (t / P mod 2 =? 0) && (sticky t P =? 0) then 0 else 1) = sticky t (P * 2)).
  { unfold sticky. rewrite (Z.rem_mul_r t P 2) by lia.
    pose proof (Z.mod_pos_bound t P HP) as Hr.
    pose proof (Z.mod_pos_bound (t / P) 2 ltac:(lia)) as Ha.
    destruct (t / P mod 2 =? 0) eqn:E1; destruct (t mod P =? 0) eqn:E2;
      destruct (t mod P + P * (t / P mod 2) =? 0) eqn:E3; cbn [andb Z.eqb];
      rewrite ?Z.eqb_eq, ?Z.eqb_neq in *; try reflexivity; exfalso; nia. }
  rewrite Hs.
  pose proof (Z.div_mod (t / P / 2) 2 ltac:(lia)).
  pose proof (Z.div_mod (t / P) 2 ltac:(lia)).
  lia.
Qed.

Lemma iter_pos_nat {A : Type} (f : A -> A) (p : positive) (x : A) :
  iter_pos f p x = Nat.iter (Pos.to_nat p) f x.
Proof.
  revert x. induction p as [p IH|p IH|]; intros x; cbn [iter_pos].
  - rewrite !IH, Pos2Nat.inj_xI.
    replace (S (2 * Pos.to_nat p))%nat with (Pos.to_nat p + (Pos.to_nat p + 1))%nat by lia.
    now rewrite !Nat.iter_add.
  - rewrite !IH, Pos2Nat.inj_xO.
    replace (2 * Pos.to_nat p)%nat with (Pos.to_nat p + Pos.to_nat p)%nat by lia.
    now rewrite Nat.iter_add.
  - reflexivity.
Qed.

Lemma shr_iter_code (n : nat) (mrs : shr_record) :
  0 <= shr_m mrs ->
  code (Nat.iter (S n) shr_1 mrs) = shift_code (Z.of_nat (S n)) (code mrs) /\
  0 <= shr_m (Nat.iter (S n) shr_1 mrs).
Proof.
  intros Hm. induction n as [|n [IHc IHm]].
  - cbn [Nat.iter]. now apply shr_1_code.
  - change (Nat.iter (S (S n)) shr_1 mrs) with (shr_1 (Nat.iter (S n) shr_1 mrs)).
    destruct (shr_1_code _ IHm) as [Hc Hm']. split; [|exact Hm'].
    rewrite Hc, IHc, shift_code_succ by lia. f_equal. lia.
Qed.

Lemma code_mantissa (mrs : shr_record) : shr_m mrs = code mrs / 4.
Proof.
  unfold code. apply (Z.div_unique _ 4 _ (2 * Z.b2z (shr_r mrs) + Z.b2z (shr_s mrs))).
  - destruct (shr_r mrs), (shr_s mrs); cbn [Z.b2z]; lia.
  - lia.
Qed.

(** Rounding to nearest, ties to even, of a code. *)
Definition round_code (t : Z) : Z :=
  t / 4 + (if (t mod 4 =? 3) || ((t mod 4 =? 2) && Z.odd (t / 4)) then 1 else 0).

Lemma round_nearest_even_code (mrs : shr_record) :
  round_nearest_even (shr_m mrs) (loc_of_shr_record mrs) = round_code (code mrs).
Proof.
  unfold round_code. rewrite <- code_mantissa.
  assert (Hmod : code mrs mod 4 = 2 * Z.b2z (shr_r mrs) + Z.b2z (shr_s mrs)).
  { unfold code. symmetry. apply (Z.mod_unique _ 4 (shr_m mrs)).
    - destruct (shr_r mrs), (shr_s mrs); cbn [Z.b2z]; lia.
    - lia. }
  rewrite Hmod. destruct mrs as [m r s]; cbn [shr_m shr_r shr_s].
  destruct r, s; cbn [loc_of_shr_record round_nearest_even Z.b2z Z.mul Z.add Z.eqb
                      Pos.eqb Pos.mul Pos.add orb andb]; try lia.
  rewrite <- Z.negb_even. destruct (Z.even m); cbn [negb]; lia.
Qed.

Lemma code_of_loc (m : Z) (l : location) :
  code (shr_record_of_loc m l)
  = 4 * m + match l with
            | loc_Exact => 0
            | loc_Inexact Lt => 1
            | loc_Inexact Eq => 2
            | loc_Inexact Gt => 3
            end.
Proof. destruct l as [|[]]; unfold code; cbn; lia. Qed.

Definition fexp64 (k : Z) : Z := fexp 53 1024 k.

Lemma shr_code (mrs : shr_record) (e n : Z) :
  0 <= shr_m mrs ->
  code (fst (shr mrs e n)) = (if 0 <? n then shift_code n (code mrs) else code mrs) /\
  snd (shr mrs e n) = (if 0 <? n then e + n else e) /\
  0 <= shr_m (fst (shr mrs e n)).
Proof.
  intros Hm. destruct n as [|p|p]; cbn [shr fst snd Z.ltb Z.compare];
    [repeat split; auto| |repeat split; auto].
  rewrite iter_pos_nat.
  destruct (Pos2Nat.is_succ p) as [n Hn]. rewrite Hn.
  destruct (shr_iter_code n mrs Hm) as [Hc Hm'].
  rewrite Hc, <- Hn, positive_nat_Z. repeat split; auto.
  now rewrite Hn.
Qed.

Definition stage1 (t e : Z) : Z * Z :=
  let k := fexp64 (Zdigits2 (t / 4) + e) - e in
  if 0 <? k then (round_code (shift_code k t), e + k) else (round_code t, e).

Definition stage2 (me : Z * Z) : Z * Z :=
  let k := fexp64 (Zdigits2 (fst me) + snd me) - snd me in
  if 0 <? k then (fst me / 2 ^ k, snd me + k) else me.

Definition finish (s : bool) (me : Z * Z) : spec_float :=
  match fst me with
  | Z0 => S754_zero s
  | Zpos p => if snd me <=? 971 then S754_finite s p (snd me) else S754_infinity s
  | Zneg _ => S754_nan
  end.

Definition loc_code (l : location) : Z :=
  match l with
  | loc_Exact => 0
  | loc_Inexact Lt => 1
  | loc_Inexact Eq => 2
  | loc_Inexact Gt => 3
  end.

Lemma shift_code_exact (k m : Z) :
  0 < k -> shift_code k (4 * m) / 4 = m / 2 ^ k.
Proof.
  intros Hk. unfold shift_code.
  assert (HP : 0 < 2 ^ k) by (apply Z.pow_pos_nonneg; lia).
  replace (2 ^ (k + 1)) with (2 ^ k * 2) by (rewrite Z.pow_add_r by lia; reflexivity).
  pose proof (sticky_range (4 * m) (2 ^ k * 2)) as Hs.
  set (a := 4 * m / (2 ^ k * 2)) in *.
  assert (Ha : a / 2 = m / 2 ^ k).
  { unfold a. rewrite Z.div_div by lia.
    replace (2 ^ k * 2 * 2) with (4 * 2 ^ k) by lia.
    apply Z.div_mul_cancel_l; lia. }
  rewrite <- Ha. symmetry.
  apply Z.div_unique with (r := 2 * (a mod 2) + sticky (4 * m) (2 ^ k * 2)).
  - pose proof (Z.mod_pos_bound a 2 ltac:(lia)). lia.
  - pose proof (Z.div_mod a 2 ltac:(lia)). lia.
Qed.

Lemma div4 (m c : Z) : 0 <= c < 4 -> (4 * m + c) / 4 = m.
Proof. intros H. symmetry. apply Z.div_unique with (r := c); lia. Qed.

Lemma mod4 (m c : Z) : 0 <= c < 4 -> (4 * m + c) mod 4 = c.
Proof. intros H. symmetry. apply Z.mod_unique with (q := m); lia. Qed.

Lemma round_code_exact (m : Z) : round_code (4 * m) = m.
Proof.
  unfold round_code. replace (4 * m) with (4 * m + 0) by lia.
  rewrite div4, mod4 by lia. cbn. lia.
Qed.

Lemma round_code_nonneg (t : Z) : 0 <= t -> 0 <= round_code t.
Proof.
  intros Ht. unfold round_code.
  pose proof (Z.div_pos t 4 Ht ltac:(lia)).
  destruct (_ || _); lia.
Qed.

Lemma shift_code_nonneg (k t : Z) : 0 <= k -> 0 <= t -> 0 <= shift_code k t.
Proof.
  intros Hk Ht. unfold shift_code.
  pose proof (sticky_range t (2 ^ (k + 1))).
  assert (0 < 2 ^ (k + 1)) by (apply Z.pow_pos_nonneg; lia).
  pose proof (Z.div_pos t (2 ^ (k + 1)) Ht ltac:(lia)). lia.
Qed.

(** [binary_round_aux] on a mantissa that is not negative, in integers. *)
Lemma binary_round_aux_unfold (s : bool) (m e : Z) (l : location) :
  0 <= m ->
  binary_round_aux 53 1024 s m e l = finish s (stage2 (stage1 (4 * m + loc_code l) e)).
Proof.
  intros Hm. unfold binary_round_aux, shr_fexp.
  change (fexp 53 1024) with fexp64.
  assert (Hrec : 0 <= shr_m (shr_record_of_loc m l)) by (destruct l as [|[]]; exact Hm).
  pose proof (shr_code (shr_record_of_loc m l) e
                       (fexp64 (Zdigits2 m + e) - e) Hrec) as [Hc [He Hm1]].
  destruct (shr (shr_record_of_loc m l) e (fexp64 (Zdigits2 m + e) - e))
    as [mrs' e'] eqn:E1. cbn [fst snd] in *. cbv beta iota.
  rewrite round_nearest_even_code.
  assert (Hcode0 : code (shr_record_of_loc m l) = 4 * m + loc_code l) by apply code_of_loc.
  assert (Hdiv : (4 * m + loc_code l) / 4 = m)
    by (apply div4; destruct l as [|[]]; cbn; lia).
  assert (Hs1 : stage1 (4 * m + loc_code l) e = (round_code (code mrs'), e')).
  { unfold stage1. rewrite Hdiv, Hc, He, Hcode0.
    destruct (0 <? fexp64 (Zdigits2 m + e) - e); reflexivity. }
  rewrite Hs1.
  set (m1 := round_code (code mrs')).
  assert (Hm1' : 0 <= m1).
  { apply round_code_nonneg. unfold code.
    destruct (shr_r mrs'), (shr_s mrs'); cbn [Z.b2z]; lia. }
  assert (Hrec1 : 0 <= shr_m (shr_record_of_loc m1 loc_Exact)) by exact Hm1'.
  pose proof (shr_code (shr_record_of_loc m1 loc_Exact) e'
                       (fexp64 (Zdigits2 m1 + e') - e') Hrec1) as [Hc2 [He2 Hm2]].
  destruct (shr (shr_record_of_loc m1 loc_Exact) e' (fexp64 (Zdigits2 m1 + e') - e'))
    as [mrs'' e''] eqn:E2. cbn [fst snd] in *. cbv beta iota.
  assert (Hs2 : stage2 (m1, e') = (shr_m mrs'', e'')).
  { unfold stage2. cbn [fst snd]. rewrite He2, (code_mantissa mrs''), Hc2.
    assert (Hcode1 : code (shr_record_of_loc m1 loc_Exact) = 4 * m1)
      by (rewrite code_of_loc; cbn; lia).
    rewrite Hcode1.
    destruct (0 <? fexp64 (Zdigits2 m1 + e') - e') eqn:Ek.
    - apply Z.ltb_lt in Ek. now rewrite shift_code_exact.
    - f_equal. replace (4 * m1) with (4 * m1 + 0) by lia. symmetry. apply div4. lia. }
  rewrite Hs2. unfold finish. cbn [fst snd].
  destruct (shr_m mrs''); reflexivity.
Qed.

(** *** Digits *)

Lemma fexp64_eq (k : Z) : fexp64 k = Z.max (k - 53) (-1074).
Proof. reflexivity. Qed.

Lemma digits_pos_bounds (p : positive) :
  2 ^ (Z.pos (digits2_pos p) - 1) <= Z.pos p < 2 ^ Z.pos (digits2_pos p).
Proof.
  induction p as [p IH|p IH|]; cbn [digits2_pos].
  - rewrite Pos2Z.inj_succ, (Pos2Z.inj_xI p).
    replace (Z.succ (Z.pos (digits2_pos p)) - 1) with (Z.succ (Z.pos (digits2_pos p) - 1)) by lia.
    rewrite !Z.pow_succ_r by lia. lia.
  - rewrite Pos2Z.inj_succ, (Pos2Z.inj_xO p).
    replace (Z.succ (Z.pos (digits2_pos p)) - 1) with (Z.succ (Z.pos (digits2_pos p) - 1)) by lia.
    rewrite !Z.pow_succ_r by lia. lia.
  - cbn. lia.
Qed.

Lemma digits_bounds (m : Z) :
  0 < m -> 2 ^ (Zdigits2 m - 1) <= m < 2 ^ Zdigits2 m.
Proof. destruct m as [|p|p]; try lia. intros _. apply digits_pos_bounds. Qed.

Lemma digits_positive (m : Z) : 0 < m -> 1 <= Zdigits2 m.
Proof. destruct m as [|p|p]; try lia. intros _. cbn. lia. Qed.

Lemma digits_unique (m d : Z) :
  2 ^ (d - 1) <= m < 2 ^ d -> 0 < m -> Zdigits2 m = d.
Proof.
  intros [Hlo Hhi] Hm.
  pose proof (digits_bounds m Hm) as [Hlo' Hhi'].
  pose proof (digits_positive m Hm) as Hd.
  assert (Hd0 : 0 <= d).
  { destruct (Z.lt_ge_cases d 0) as [Hneg|]; [|assumption].
    rewrite (Z.pow_neg_r 2 d Hneg) in Hhi. lia. }
  destruct (Z.lt_trichotomy (Zdigits2 m) d) as [Hlt|[Heq|Hgt]]; [|exact Heq|].
  - assert (2 ^ Zdigits2 m <= 2 ^ (d - 1)) by (apply Z.pow_le_mono_r; lia). lia.
  - assert (2 ^ d <= 2 ^ (Zdigits2 m - 1)) by (apply Z.pow_le_mono_r; lia). lia.
Qed.

Lemma digits_mono (m m' : Z) : 0 < m -> m <= m' -> Zdigits2 m <= Zdigits2 m'.
Proof.
  intros Hm Hle.
  pose proof (digits_bounds m Hm) as [Hlo _].
  pose proof (digits_bounds m' ltac:(lia)) as [_ Hhi].
  pose proof (digits_positive m Hm).
  destruct (Z.le_gt_cases (Zdigits2 m) (Zdigits2 m')) as [|Hgt]; [assumption|].
  assert (2 ^ Zdigits2 m' <= 2 ^ (Zdigits2 m - 1)) by (apply Z.pow_le_mono_r; lia). lia.
Qed.

Lemma digits_shiftr (m k : Z) :
  0 < m -> 0 <= k < Zdigits2 m -> Zdigits2 (m / 2 ^ k) = Zdigits2 m - k.
Proof.
  intros Hm Hk.
  pose proof (digits_bounds m Hm) as [Hlo Hhi].
  assert (HP : 0 < 2 ^ k) by (apply Z.pow_pos_nonneg; lia).
  assert (Hlo' : 2 ^ (Zdigits2 m - k - 1) <= m / 2 ^ k).
  { apply Z.div_le_lower_bound; [assumption|].
    rewrite <- Z.pow_add_r by lia. replace (k + (Zdigits2 m - k - 1)) with (Zdigits2 m - 1) by lia.
    assumption. }
  assert (Hhi' : m / 2 ^ k < 2 ^ (Zdigits2 m - k)).
  { apply Z.div_lt_upper_bound; [assumption|].
    rewrite <- Z.pow_add_r by lia. replace (k + (Zdigits2 m - k)) with (Zdigits2 m) by lia.
    assumption. }
  apply digits_unique; [lia|].
  assert (0 < 2 ^ (Zdigits2 m - k - 1)) by (apply Z.pow_pos_nonneg; lia). lia.
Qed.

Lemma digits_shiftl (m k : Z) :
  0 < m -> 0 <= k -> Zdigits2 (m * 2 ^ k) = Zdigits2 m + k.
Proof.
  intros Hm Hk.
  pose proof (digits_bounds m Hm) as [Hlo Hhi].
  pose proof (digits_positive m Hm).
  assert (HP : 0 < 2 ^ k) by (apply Z.pow_pos_nonneg; lia).
  apply digits_unique; [|nia].
  replace (Zdigits2 m + k - 1) with (Zdigits2 m - 1 + k) by lia.
  rewrite !Z.pow_add_r by lia. nia.
Qed.

Lemma digits_pow2 (k : Z) : 0 <= k -> Zdigits2 (2 ^ k) = k + 1.
Proof.
  intros Hk. apply digits_unique.
  - replace (k + 1 - 1) with k by lia. split; [lia|].
    apply Z.pow_lt_mono_r; lia.
  - apply Z.pow_pos_nonneg; lia.
Qed.

(** *** The code of a quotient *)

(** The code of [N / D]: twice the integer part of [2 N / D], plus one when
    [2 N / D] is not an integer. *)
Definition ticks (N D : Z) : Z := 2 * (2 * N / D) + sticky (2 * N) D.

(** [N / B] rounded to the nearest integer, ties to even. *)
Definition rnd (N B : Z) : Z := round_code (ticks N B).

Lemma half_div (a s : Z) (P : Z) :
  0 < P -> 0 <= s <= 1 -> (2 * a + s) / (2 * P) = a / P.
Proof.
  intros HP Hs. rewrite <- Z.div_div by lia.
  replace ((2 * a + s) / 2) with a; [reflexivity|].
  apply Z.div_unique with (r := s); lia.
Qed.

Lemma half_mod (a s : Z) (P : Z) :
  0 < P -> 0 <= s <= 1 -> (2 * a + s) mod (2 * P) = s + 2 * (a mod P).
Proof.
  intros HP Hs. rewrite Z.rem_mul_r by lia.
  replace ((2 * a + s) mod 2) with s by (apply Z.mod_unique with (q := a); lia).
  replace ((2 * a + s) / 2) with a by (apply Z.div_unique with (r := s); lia).
  reflexivity.
Qed.

Lemma ticks_div4 (N D : Z) : 0 < D -> ticks N D / 4 = N / D.
Proof.
  intros HD. unfold ticks. change 4 with (2 * 2).
  rewrite half_div by (try apply sticky_range; lia).
  rewrite Z.div_div by lia. rewrite (Z.mul_comm D 2).
  apply Z.div_mul_cancel_l; lia.
Qed.

Lemma ticks_nonneg (N D : Z) : 0 <= N -> 0 < D -> 0 <= ticks N D.
Proof.
  intros HN HD. unfold ticks. pose proof (sticky_range (2 * N) D).
  pose proof (Z.div_pos (2 * N) D ltac:(lia) HD). lia.
Qed.

Lemma ticks_shift (N D k : Z) :
  0 < D -> 1 <= k -> shift_code k (ticks N D) = ticks N (D * 2 ^ k).
Proof.
  intros HD Hk. unfold shift_code, ticks.
  assert (HP : 0 < 2 ^ k) by (apply Z.pow_pos_nonneg; lia).
  replace (2 ^ (k + 1)) with (2 * 2 ^ k) by (rewrite Z.pow_add_r by lia; lia).
  pose proof (sticky_range (2 * N) D) as Hs.
  rewrite half_div by assumption. rewrite Z.div_div by lia. f_equal.
  unfold sticky at 1 3. rewrite half_mod by assumption.
  rewrite (Z.rem_mul_r (2 * N) D (2 ^ k)) by lia.
  pose proof (Z.mod_pos_bound (2 * N / D) (2 ^ k) HP) as Ha.
  pose proof (Z.mod_pos_bound (2 * N) D HD) as Hr.
  unfold sticky in *.
  destruct ((2 * N) mod D =? 0) eqn:E1;
    destruct (_ + 2 * _ =? 0) eqn:E2; destruct (_ + D * _ =? 0) eqn:E3;
    rewrite ?Z.eqb_eq, ?Z.eqb_neq in *; try reflexivity; exfalso; nia.
Qed.

Lemma ticks_of_loc (D q r : Z) :
  0 < D -> 0 <= r < D ->
  4 * q + loc_code (new_location D r) = ticks (D * q + r) D.
Proof.
  intros HD Hr. unfold ticks.
  replace (2 * (D * q + r)) with (2 * r + (2 * q) * D) by lia.
  unfold sticky at 1. rewrite Z.div_add, Z.mod_add by lia. fold (sticky (2 * r) D).
  assert (Hloc : loc_code (new_location D r) = 2 * (2 * r / D) + sticky (2 * r) D).
  { unfold sticky, new_location.
    assert (Hcases : r = 0 \/ (0 < r /\ 2 * r < D) \/ 2 * r = D \/ (D < 2 * r)) by lia.
    destruct Hcases as [->|[[H0 H1]|[H1|H1]]].
    - rewrite Z.div_0_l, Z.mod_0_l by lia.
      destruct (Z.even D); reflexivity.
    - rewrite (Z.div_small (2 * r) D), (Z.mod_small (2 * r) D) by lia.
      assert (E : (2 * r =? 0) = false) by (apply Z.eqb_neq; lia). rewrite E.
      assert (Er : (r =? 0) = false) by (apply Z.eqb_neq; lia).
      destruct (Z.even D) eqn:Ev; unfold new_location_even, new_location_odd; rewrite Er.
      + assert (Hc : (2 * r ?= D) = Lt) by (apply Z.compare_lt_iff; lia).
        rewrite Hc. reflexivity.
      + destruct (2 * r + 1 ?= D) eqn:Hc; try reflexivity.
        apply Z.compare_gt_iff in Hc. lia.
    - assert (Er : (r =? 0) = false) by (apply Z.eqb_neq; lia).
      replace (2 * r / D) with 1 by (apply Z.div_unique with (r := 0); lia).
      replace ((2 * r) mod D) with 0 by (apply Z.mod_unique with (q := 1); lia).
      assert (Ev : Z.even D = true) by (rewrite <- H1; apply Z.even_mul).
      rewrite Ev. unfold new_location_even. rewrite Er.
      assert (Hc : (2 * r ?= D) = Eq) by (apply Z.compare_eq_iff; lia).
      rewrite Hc. reflexivity.
    - assert (Er : (r =? 0) = false) by (apply Z.eqb_neq; lia).
      replace (2 * r / D) with 1 by (apply Z.div_unique with (r := 2 * r - D); lia).
      replace ((2 * r) mod D) with (2 * r - D) by (apply Z.mod_unique with (q := 1); lia).
      assert (E : (2 * r - D =? 0) = false) by (apply Z.eqb_neq; lia). rewrite E.
      destruct (Z.even D) eqn:Ev; unfold new_location_even, new_location_odd; rewrite Er.
      + assert (Hc : (2 * r ?= D) = Gt) by (apply Z.compare_gt_iff; lia).
        rewrite Hc. reflexivity.
      + assert (Hc : (2 * r + 1 ?= D) = Gt) by (apply Z.compare_gt_iff; lia).
        rewrite Hc. reflexivity. }
  rewrite Hloc. lia.
Qed.

Lemma round_code_bounds (t : Z) : t / 4 <= round_code t <= t / 4 + 1.
Proof. unfold round_code. destruct (_ || _); lia. Qed.

Lemma round_code_mono (t t' : Z) : t <= t' -> round_code t <= round_code t'.
Proof.
  intros Hle.
  pose proof (round_code_bounds t) as Hb. pose proof (round_code_bounds t') as Hb'.
  pose proof (Z.div_le_mono t t' 4 ltac:(lia) Hle) as Hd.
  destruct (Z.eq_dec (t / 4) (t' / 4)) as [Heq|Hne]; [|lia].
  unfold round_code. rewrite <- Heq.
  pose proof (Z.div_mod t 4 ltac:(lia)) as H1.
  pose proof (Z.div_mod t' 4 ltac:(lia)) as H2.
  pose proof (Z.mod_pos_bound t 4 ltac:(lia)) as H3.
  pose proof (Z.mod_pos_bound t' 4 ltac:(lia)) as H4.
  assert (Hm : t mod 4 <= t' mod 4) by lia.
  destruct (t mod 4 =? 3) eqn:E1; destruct (t mod 4 =? 2) eqn:E2;
    destruct (t' mod 4 =? 3) eqn:E3; destruct (t' mod 4 =? 2) eqn:E4;
    destruct (Z.odd (t / 4)); cbn [orb andb];
    rewrite ?Z.eqb_eq, ?Z.eqb_neq in *; lia.
Qed.

Lemma ticks_mono (N B N' B' : Z) :
  0 <= N -> 0 < B -> 0 < B' -> N * B' <= N' * B -> ticks N B <= ticks N' B'.
Proof.
  intros HN HB HB' Hle. unfold ticks.
  pose proof (sticky_range (2 * N) B) as Hs.
  pose proof (sticky_range (2 * N') B') as Hs'.
  pose proof (Z.div_mod (2 * N) B ltac:(lia)) as H1.
  pose proof (Z.mod_pos_bound (2 * N) B HB) as H2.
  pose proof (Z.div_mod (2 * N') B' ltac:(lia)) as H3.
  pose proof (Z.mod_pos_bound (2 * N') B' HB') as H4.
  assert (Ha : 2 * N / B <= 2 * N' / B').
  { apply Z.div_le_lower_bound; [assumption|]. nia. }
  destruct (Z.eq_dec (2 * N / B) (2 * N' / B')) as [Heq|Hne]; [|lia].
  rewrite <- Heq in *.
  enough (sticky (2 * N) B <= sticky (2 * N') B') by lia.
  unfold sticky in *.
  destruct ((2 * N') mod B' =? 0) eqn:E'; [|destruct ((2 * N) mod B =? 0); lia].
  apply Z.eqb_eq in E'.
  assert (E : (2 * N) mod B = 0) by nia.
  rewrite E. cbn. lia.
Qed.

Lemma rnd_mono (N B N' B' : Z) :
  0 <= N -> 0 < B -> 0 < B' -> N * B' <= N' * B -> rnd N B <= rnd N' B'.
Proof. intros. unfold rnd. apply round_code_mono. now apply ticks_mono. Qed.

Lemma rnd_bounds (N B : Z) : 0 < B -> N / B <= rnd N B <= N / B + 1.
Proof.
  intros HB. unfold rnd. pose proof (round_code_bounds (ticks N B)) as H.
  now rewrite ticks_div4 in H.
Qed.

Lemma rnd_exact (N B : Z) : 0 < B -> N mod B = 0 -> rnd N B = N / B.
Proof.
  intros HB Hmod. unfold rnd, ticks.
  pose proof (Z.div_mod N B ltac:(lia)) as Hd. rewrite Hmod in Hd.
  replace (2 * N) with ((2 * (N / B)) * B) by lia.
  unfold sticky. rewrite Z.div_mul, Z.mod_mul by lia. cbn [Z.eqb].
  replace (2 * (2 * (N / B)) + 0) with (4 * (N / B)) by lia.
  apply round_code_exact.
Qed.

(** What the two shifts make of a rounded mantissa of 53 or 54 bits. *)
Definition carry (me : Z * Z) : Z * Z :=
  if fst me =? 2 ^ 53 then (2 ^ 52, snd me + 1) else me.

(** *** Rounding in the normal range

    [N / D * 2 ^ e], where the quotient has at least 53 bits and the result
    is no subnormal number: the quotient is cut to 53 bits and rounded. *)
Lemma stage_normal (N D e : Z) :
  0 <= N -> 0 < D ->
  let d := Zdigits2 (N / D) in
  53 <= d -> -1074 <= d + e - 53 ->
  let m1 := rnd N (D * 2 ^ (d - 53)) in
  stage2 (stage1 (ticks N D) e) = carry (m1, d + e - 53) /\
  2 ^ 52 <= m1 <= 2 ^ 53.
Proof.
  intros HN HD d Hd Hnormal m1.
  assert (Hq : 0 < N / D).
  { destruct (Z.lt_trichotomy (N / D) 0) as [H|[H|H]]; [| |exact H].
    - pose proof (Z.div_pos N D HN HD). lia.
    - unfold d in Hd. rewrite H in Hd. cbn in Hd. lia. }
  assert (HP : 0 < 2 ^ (d - 53)) by (apply Z.pow_pos_nonneg; lia).
  assert (Hfloor : N / (D * 2 ^ (d - 53)) = N / D / 2 ^ (d - 53))
    by (rewrite Z.div_div by lia; reflexivity).
  assert (Hdig : Zdigits2 (N / (D * 2 ^ (d - 53))) = 53).
  { rewrite Hfloor, digits_shiftr by (fold d; lia). fold d. lia. }
  assert (Hfl : 0 < N / (D * 2 ^ (d - 53))).
  { pose proof (Z.div_pos N (D * 2 ^ (d - 53)) HN ltac:(nia)) as Hge.
    destruct (N / (D * 2 ^ (d - 53))) as [|p|p] eqn:E; cbn in Hdig; lia. }
  pose proof (digits_bounds _ Hfl) as Hb. rewrite Hdig in Hb.
  change (2 ^ (53 - 1)) with (2 ^ 52) in Hb.
  pose proof (rnd_bounds N (D * 2 ^ (d - 53)) ltac:(nia)) as Hr. fold m1 in Hr.
  assert (Hm1 : 2 ^ 52 <= m1 <= 2 ^ 53) by lia.
  split; [|exact Hm1].
  assert (Hs1 : stage1 (ticks N D) e = (m1, d + e - 53)).
  { unfold stage1. cbv zeta. rewrite ticks_div4 by assumption. fold d.
    rewrite fexp64_eq.
    replace (Z.max (d + e - 53) (-1074) - e) with (d - 53) by lia.
    destruct (0 <? d - 53) eqn:Ek.
    - apply Z.ltb_lt in Ek. rewrite ticks_shift by lia.
      unfold m1, rnd. f_equal. lia.
    - apply Z.ltb_ge in Ek. assert (d = 53) by lia.
      unfold m1, rnd. replace (d - 53) with 0 by lia.
      rewrite Z.pow_0_r, Z.mul_1_r. f_equal. lia. }
  rewrite Hs1. unfold stage2, carry. cbn [fst snd].
  rewrite fexp64_eq.
  destruct (m1 =? 2 ^ 53) eqn:E.
  - apply Z.eqb_eq in E. rewrite E.
    rewrite (digits_pow2 53) by lia.
    replace (Z.max (53 + 1 + (d + e - 53) - 53) (-1074) - (d + e - 53)) with 1 by lia.
    cbn [Z.ltb Z.compare]. f_equal.
  - apply Z.eqb_neq in E.
    assert (Hd1 : Zdigits2 m1 = 53).
    { apply digits_unique; [|lia]. change (2 ^ (53 - 1)) with (2 ^ 52). lia. }
    rewrite Hd1.
    replace (Z.max (53 + (d + e - 53) - 53) (-1074) - (d + e - 53)) with 0 by lia.
    reflexivity.
Qed.

(** *** Division and multiplication, in integers *)

Lemma finish_finite (s : bool) (m e : Z) :
  0 < m -> e <= 971 -> finish s (m, e) = S754_finite s (Z.to_pos m) e.
Proof.
  intros Hm He. unfold finish. cbn [fst snd].
  destruct m as [|p|p]; try lia.
  assert (E : (e <=? 971) = true) by (apply Z.leb_le; lia).
  now rewrite E.
Qed.

Lemma ticks_one (N : Z) : ticks N 1 = 4 * N + loc_code loc_Exact.
Proof.
  unfold ticks, sticky. rewrite Z.div_1_r, Z.mod_1_r. cbn [Z.eqb loc_code]. lia.
Qed.

(** The exponent and the shift [SFdiv] works with. *)
Definition div_exponent (m1 e1 m2 e2 : Z) : Z :=
  Z.min (fexp64 (Zdigits2 m1 + e1 - (Zdigits2 m2 + e2))) (e1 - e2).

Lemma SFdiv_finite (s1 s2 : bool) (m1 m2 : positive) (e1 e2 : Z) :
  let e' := div_exponent (Z.pos m1) e1 (Z.pos m2) e2 in
  let N := Z.pos m1 * 2 ^ (e1 - e2 - e') in
  SFdiv 53 1024 (S754_finite s1 m1 e1) (S754_finite s2 m2 e2)
  = finish (xorb s1 s2) (stage2 (stage1 (ticks N (Z.pos m2)) e')).
Proof.
  intros e' N. unfold SFdiv, SFdiv_core_binary.
  change (fexp 53 1024) with fexp64.
  fold (div_exponent (Z.pos m1) e1 (Z.pos m2) e2). fold e'.
  assert (Hs : 0 <= e1 - e2 - e') by (unfold e', div_exponent; lia).
  assert (Hm' : match e1 - e2 - e' with
                | 0 => Z.pos m1
                | Z.pos _ => Z.shiftl (Z.pos m1) (e1 - e2 - e')
                | Z.neg _ => 0
                end = N).
  { unfold N. destruct (e1 - e2 - e') as [|p|p] eqn:E; try lia.
    rewrite Z.shiftl_mul_pow2 by lia. reflexivity. }
  rewrite Hm'.
  assert (HN : 0 <= N) by (unfold N; apply Z.mul_nonneg_nonneg; [lia|apply Z.pow_nonneg; lia]).
  pose proof (Z.div_mod N (Z.pos m2) ltac:(lia)) as Hdm.
  pose proof (Z.mod_pos_bound N (Z.pos m2) ltac:(lia)) as Hr.
  unfold Z.div, Z.modulo in Hdm, Hr.
  destruct (Z.div_eucl N (Z.pos m2)) as [q r] eqn:E. cbn [fst snd] in *.
  assert (Hq : 0 <= q) by nia.
  rewrite binary_round_aux_unfold by assumption.
  rewrite ticks_of_loc by lia. now rewrite <- Hdm.
Qed.

Lemma SFmul_finite (s1 s2 : bool) (m1 m2 : positive) (e1 e2 : Z) :
  SFmul 53 1024 (S754_finite s1 m1 e1) (S754_finite s2 m2 e2)
  = finish (xorb s1 s2) (stage2 (stage1 (ticks (Z.pos m1 * Z.pos m2) 1) (e1 + e2))).
Proof.
  unfold SFmul. rewrite binary_round_aux_unfold by lia.
  now rewrite ticks_one, Pos2Z.inj_mul.
Qed.

(** A number divided by itself is one. *)
Lemma SFdiv_same (s : bool) (m : positive) (e : Z) :
  SFdiv 53 1024 (S754_finite s m e) (S754_finite s m e)
  = S754_finite false 4503599627370496 (-52).
Proof.
  rewrite SFdiv_finite. cbv zeta.
  assert (He : div_exponent (Z.pos m) e (Z.pos m) e = -53).
  { unfold div_exponent. replace (Zdigits2 (Z.pos m) + e - (Zdigits2 (Z.pos m) + e)) with 0 by lia.
    rewrite Z.sub_diag. reflexivity. }
  rewrite He. replace (e - e - -53) with 53 by lia.
  assert (Hq : Z.pos m * 2 ^ 53 / Z.pos m = 2 ^ 53)
    by (rewrite Z.mul_comm; apply Z.div_mul; lia).
  assert (HN : 0 <= Z.pos m * 2 ^ 53) by lia.
  destruct (stage_normal (Z.pos m * 2 ^ 53) (Z.pos m) (-53) HN ltac:(lia)) as [Hst _].
  - rewrite Hq. rewrite (digits_pow2 53); lia.
  - rewrite Hq. rewrite (digits_pow2 53); lia.
  - rewrite Hst, Hq, (digits_pow2 53) by lia.
    replace (53 + 1 - 53) with 1 by lia.
    rewrite rnd_exact.
    + replace (Z.pos m * 2 ^ 53 / (Z.pos m * 2 ^ 1)) with (2 ^ 52).
      * destruct s; reflexivity.
      * apply Z.div_unique with (r := 0); [lia|].
        change (2 ^ 53) with (2 ^ 1 * 2 ^ 52). lia.
    + lia.
    + symmetry. apply Z.mod_unique with (q := 2 ^ 52); [lia|].
      change (2 ^ 53) with (2 ^ 1 * 2 ^ 52). lia.
Qed.

(** *** Rounding an exact mantissa *)

Lemma carry_positive (m e : Z) :
  2 ^ 52 <= m <= 2 ^ 53 ->
  0 < fst (carry (m, e)) /\ e <= snd (carry (m, e)) <= e + 1.
Proof.
  intros Hm. unfold carry. cbn [fst snd].
  destruct (m =? 2 ^ 53); cbn [fst snd]; lia.
Qed.

(** A positive mantissa with an exponent no lower than the lowest stays
    positive: rounding never flushes it to zero. *)
Lemma stage_exact (m e : Z) :
  0 < m -> -1074 <= e ->
  0 < fst (stage2 (stage1 (4 * m) e)) /\
  e <= snd (stage2 (stage1 (4 * m) e)) <= Z.max e (Zdigits2 m + e - 53) + 1.
Proof.
  intros Hm He.
  pose proof (digits_positive m Hm) as Hd.
  destruct (Z.le_gt_cases 53 (Zdigits2 m)) as [Hbig|Hsmall].
  - assert (Hq : m / 1 = m) by apply Z.div_1_r.
    destruct (stage_normal m 1 e ltac:(lia) ltac:(lia)) as [Hst Hm1];
      rewrite ?Hq; try lia.
    rewrite ticks_one in Hst. cbn [loc_code] in Hst. rewrite Z.add_0_r in Hst.
    rewrite Hq in Hst, Hm1. rewrite Hst.
    destruct (carry_positive _ (Zdigits2 m + e - 53) Hm1) as [H1 H2].
    split; [exact H1|lia].
  - assert (Hs1 : stage1 (4 * m) e = (m, e)).
    { unfold stage1. cbv zeta.
      replace (4 * m / 4) with m by (symmetry; rewrite Z.mul_comm; apply Z.div_mul; lia).
      rewrite fexp64_eq.
      assert (E : (0 <? Z.max (Zdigits2 m + e - 53) (-1074) - e) = false)
        by (apply Z.ltb_ge; lia).
      rewrite E, round_code_exact. reflexivity. }
    rewrite Hs1. unfold stage2. cbn [fst snd]. rewrite fexp64_eq.
    assert (E : (0 <? Z.max (Zdigits2 m + e - 53) (-1074) - e) = false)
      by (apply Z.ltb_ge; lia).
    rewrite E. cbn [fst snd]. lia.
Qed.

(** A float that is not zero and not NaN, of sign [s]. *)
Definition signed_nonzero (s : bool) (f : spec_float) : Prop :=
  match f with
  | S754_finite s' _ _ | S754_infinity s' => s' = s
  | _ => False
  end.

Lemma finish_nonzero (s : bool) (me : Z * Z) :
  0 < fst me -> signed_nonzero s (finish s me).
Proof.
  intros H. unfold finish. destruct (fst me) as [|p|p]; try lia.
  destruct (snd me <=? 971); reflexivity.
Qed.

Lemma iter_xO (m d : positive) : Z.pos (Pos.iter xO m d) = Z.pos m * 2 ^ Z.pos d.
Proof.
  induction d as [|d IH] using Pos.peano_ind.
  - cbn [Pos.iter]. rewrite (Pos2Z.inj_xO m). change (2 ^ 1) with 2. lia.
  - rewrite Pos.iter_succ, (Pos2Z.inj_xO (Pos.iter xO m d)), IH, Pos2Z.inj_succ.
    rewrite Z.pow_succ_r by lia. lia.
Qed.

(** [shl_align] keeps the value and lowers the exponent to the smaller one. *)
Lemma shl_align_spec (m : positive) (e e' : Z) :
  snd (shl_align m e e') = Z.min e e' /\
  Z.pos (fst (shl_align m e e')) = Z.pos m * 2 ^ (e - Z.min e e').
Proof.
  unfold shl_align. destruct (e' - e) as [|p|p] eqn:E; cbn [fst snd].
  - replace (Z.min e e') with e by lia. rewrite Z.sub_diag. cbn. lia.
  - replace (Z.min e e') with e by lia. rewrite Z.sub_diag. cbn. lia.
  - replace (Z.min e e') with e' by lia. split; [reflexivity|].
    rewrite iter_xO. f_equal. f_equal. lia.
Qed.

Lemma binary_round_stages (s : bool) (m : positive) (e : Z) :
  let e' := Z.min e (fexp64 (Zdigits2 (Z.pos m) + e)) in
  binary_round 53 1024 s m e
  = finish s (stage2 (stage1 (4 * (Z.pos m * 2 ^ (e - e'))) e')).
Proof.
  intros e'. unfold binary_round. change (fexp 53 1024) with fexp64.
  change (Z.pos (digits2_pos m)) with (Zdigits2 (Z.pos m)).
  pose proof (shl_align_spec m e (fexp64 (Zdigits2 (Z.pos m) + e))) as [H1 H2].
  destruct (shl_align m e (fexp64 (Zdigits2 (Z.pos m) + e))) as [mz ez].
  cbn [fst snd] in H1, H2. rewrite binary_round_aux_unfold by lia.
  cbn [loc_code]. rewrite Z.add_0_r, H1, H2. reflexivity.
Qed.

Lemma binary_round_nonzero (s : bool) (m : positive) (e : Z) :
  -1074 <= e -> signed_nonzero s (binary_round 53 1024 s m e).
Proof.
  intros He. rewrite binary_round_stages. cbv zeta.
  apply finish_nonzero.
  assert (HP : 0 < 2 ^ (e - Z.min e (fexp64 (Zdigits2 (Z.pos m) + e))))
    by (apply Z.pow_pos_nonneg; lia).
  apply stage_exact; [nia|]. rewrite fexp64_eq. lia.
Qed.

Lemma binary_round_finite (s : bool) (m : positive) (e : Z) :
  -1074 <= e -> Zdigits2 (Z.pos m) + e <= 1023 ->
  exists m' e', binary_round 53 1024 s m e = S754_finite s m' e'.
Proof.
  intros He Hd. rewrite binary_round_stages. cbv zeta.
  set (e' := Z.min e (fexp64 (Zdigits2 (Z.pos m) + e))).
  assert (He' : -1074 <= e' <= e) by (unfold e'; rewrite fexp64_eq; lia).
  assert (HP : 0 < 2 ^ (e - e')) by (apply Z.pow_pos_nonneg; lia).
  destruct (stage_exact (Z.pos m * 2 ^ (e - e')) e' ltac:(nia) ltac:(lia)) as [H1 H2].
  rewrite digits_shiftl in H2 by lia.
  destruct (stage2 (stage1 (4 * (Z.pos m * 2 ^ (e - e'))) e')) as [m1 e1].
  cbn [fst snd] in H1, H2.
  assert (He1 : e1 <= 971).
  { unfold e' in H2. rewrite fexp64_eq in H2. lia. }
  rewrite finish_finite by assumption. eauto.
Qed.

Lemma Zdigits2_abs_le (z : Z) (k : Z) :
  0 <= k -> Z.abs z <= 2 ^ k -> Zdigits2 z <= k + 1.
Proof.
  intros Hk Hz. destruct z as [|p|p].
  - cbn. lia.
  - rewrite <- (digits_pow2 k Hk). apply digits_mono; lia.
  - change (Zdigits2 (Z.neg p)) with (Zdigits2 (Z.pos p)).
    rewrite <- (digits_pow2 k Hk). apply digits_mono; lia.
Qed.

(** *** Rounding is monotone *)

(** [N / D * 2 ^ e] rounded to binary64: the mantissa and the exponent. *)
Definition RN (N D e : Z) : Z * Z := stage2 (stage1 (ticks N D) e).

Lemma RN_unfold (N D e : Z) : RN N D e = stage2 (stage1 (ticks N D) e).
Proof. reflexivity. Qed.

Lemma SFmul_RN (s1 s2 : bool) (m1 m2 : positive) (e1 e2 : Z) :
  SFmul 53 1024 (S754_finite s1 m1 e1) (S754_finite s2 m2 e2)
  = finish (xorb s1 s2) (RN (Z.pos m1 * Z.pos m2) 1 (e1 + e2)).
Proof. rewrite SFmul_finite, RN_unfold. reflexivity. Qed.

Lemma SFdiv_RN (s1 s2 : bool) (m1 m2 : positive) (e1 e2 : Z) :
  SFdiv 53 1024 (S754_finite s1 m1 e1) (S754_finite s2 m2 e2)
  = finish (xorb s1 s2)
      (RN (Z.pos m1 * 2 ^ (e1 - e2 - div_exponent (Z.pos m1) e1 (Z.pos m2) e2))
          (Z.pos m2) (div_exponent (Z.pos m1) e1 (Z.pos m2) e2)).
Proof. rewrite SFdiv_finite, RN_unfold. reflexivity. Qed.

(** The value [m * 2 ^ e] of a mantissa and an exponent, scaled by [2 ^ L]
    to make it a whole number. *)
Definition val (L : Z) (me : Z * Z) : Z := fst me * 2 ^ (snd me + L).

(** The quotient has 53 bits or more and the result is a normal number. *)
Definition normal (N D e : Z) : Prop :=
  0 <= N /\ 0 < D /\ 53 <= Zdigits2 (N / D) /\ -1074 <= Zdigits2 (N / D) + e - 53.

Lemma pow2_pos (k : Z) : 0 <= k -> 0 < 2 ^ k.
Proof. intros. apply Z.pow_pos_nonneg; lia. Qed.

Lemma val_carry (L m e : Z) : 0 <= e + L -> val L (carry (m, e)) = val L (m, e).
Proof.
  intros H. unfold carry, val. cbn [fst snd].
  destruct (m =? 2 ^ 53) eqn:E; cbn [fst snd]; [|reflexivity].
  apply Z.eqb_eq in E. subst m.
  replace (e + 1 + L) with (1 + (e + L)) by lia.
  rewrite (Z.pow_add_r 2 1 (e + L)) by lia.
  change (2 ^ 53) with (2 ^ 52 * 2 ^ 1). lia.
Qed.

Lemma quotient_bounds (N D : Z) :
  0 <= N -> 0 < D -> 53 <= Zdigits2 (N / D) ->
  D * 2 ^ (Zdigits2 (N / D) - 1) <= N < D * 2 ^ Zdigits2 (N / D).
Proof.
  intros HN HD Hd.
  assert (Hq : 0 < N / D).
  { destruct (Z.lt_trichotomy (N / D) 0) as [H|[H|H]]; [| |exact H].
    - pose proof (Z.div_pos N D HN HD). lia.
    - rewrite H in Hd. cbn in Hd. lia. }
  pose proof (digits_bounds _ Hq) as [Hlo Hhi].
  pose proof (Z.mul_div_le N D HD) as H1.
  pose proof (Z.mul_succ_div_gt N D HD) as H2.
  split; nia.
Qed.

Lemma RN_normal (N D e : Z) :
  normal N D e ->
  exists m, RN N D e = carry (m, Zdigits2 (N / D) + e - 53) /\ 2 ^ 52 <= m <= 2 ^ 53.
Proof.
  intros (HN & HD & Hd & He).
  destruct (stage_normal N D e HN HD Hd He) as [H1 H2]. eauto.
Qed.

Lemma RN_mono (L N D e N' D' e' : Z) :
  normal N D e -> normal N' D' e' ->
  0 <= e + L -> 0 <= e' + L ->
  N * D' * 2 ^ (e + L) <= N' * D * 2 ^ (e' + L) ->
  val L (RN N D e) <= val L (RN N' D' e').
Proof.
  intros Hn Hn' HL HL' Hx.
  pose proof Hn as (HN & HD & Hd & He).
  pose proof Hn' as (HN' & HD' & Hd' & He').
  unfold RN.
  destruct (stage_normal N D e HN HD Hd He) as [-> Hm].
  destruct (stage_normal N' D' e' HN' HD' Hd' He') as [-> Hm'].
  pose proof (quotient_bounds N D HN HD Hd) as [Hlo _].
  pose proof (quotient_bounds N' D' HN' HD' Hd') as [_ Hhi'].
  set (d := Zdigits2 (N / D)) in *. set (d' := Zdigits2 (N' / D')) in *.
  rewrite !val_carry by lia. unfold val. cbn [fst snd].
  set (m := rnd N (D * 2 ^ (d - 53))) in *.
  set (m' := rnd N' (D' * 2 ^ (d' - 53))) in *.
  pose proof (pow2_pos (e + L) HL) as HB.
  pose proof (pow2_pos (e' + L) HL') as HB'.
  pose proof (pow2_pos (d - 1) ltac:(lia)) as HA.
  pose proof (pow2_pos d' ltac:(lia)) as HA'.
  assert (Hord : d + e <= d' + e').
  { assert (H1 : D * D' * (2 ^ (d - 1) * 2 ^ (e + L)) <= N * D' * 2 ^ (e + L)).
    { replace (D * D' * (2 ^ (d - 1) * 2 ^ (e + L)))
        with (D * 2 ^ (d - 1) * (D' * 2 ^ (e + L))) by ring.
      replace (N * D' * 2 ^ (e + L)) with (N * (D' * 2 ^ (e + L))) by ring.
      apply Z.mul_le_mono_nonneg_r; nia. }
    assert (H2 : N' * D * 2 ^ (e' + L) < D * D' * (2 ^ d' * 2 ^ (e' + L))).
    { replace (D * D' * (2 ^ d' * 2 ^ (e' + L)))
        with (D' * 2 ^ d' * (D * 2 ^ (e' + L))) by ring.
      replace (N' * D * 2 ^ (e' + L)) with (N' * (D * 2 ^ (e' + L))) by ring.
      apply Z.mul_lt_mono_pos_r; nia. }
    assert (H3 : 2 ^ (d - 1) * 2 ^ (e + L) < 2 ^ d' * 2 ^ (e' + L)).
    { apply (Z.mul_lt_mono_pos_l (D * D')); nia. }
    rewrite <- !Z.pow_add_r in H3 by lia.
    apply Z.pow_lt_mono_r_iff in H3; lia. }
  destruct (Z.eq_dec (d + e) (d' + e')) as [Heq|Hlt].
  - replace (d' + e' - 53 + L) with (d + e - 53 + L) by lia.
    apply Z.mul_le_mono_nonneg_r; [apply Z.pow_nonneg; lia|].
    apply rnd_mono; try lia;
      try (apply Z.mul_pos_pos; [lia|apply pow2_pos; lia]).
    set (c := e + L - (d' - 53)).
    destruct (Z.le_gt_cases 0 c) as [Hc|Hc].
    + pose proof (pow2_pos c Hc) as HC.
      apply (Z.mul_le_mono_pos_r _ _ (2 ^ c) HC).
      replace (N * (D' * 2 ^ (d' - 53)) * 2 ^ c) with (N * D' * (2 ^ (d' - 53) * 2 ^ c)) by ring.
      replace (N' * (D * 2 ^ (d - 53)) * 2 ^ c) with (N' * D * (2 ^ (d - 53) * 2 ^ c)) by ring.
      rewrite <- !Z.pow_add_r by lia.
      replace (d' - 53 + c) with (e + L) by (unfold c; lia).
      replace (d - 53 + c) with (e' + L) by (unfold c; lia).
      exact Hx.
    + pose proof (pow2_pos (- c) ltac:(lia)) as HC.
      replace (d' - 53) with (e + L + - c) by (unfold c; lia).
      replace (d - 53) with (e' + L + - c) by (unfold c; lia).
      rewrite (Z.pow_add_r 2 (e + L) (- c)), (Z.pow_add_r 2 (e' + L) (- c)) by lia.
      replace (N * (D' * (2 ^ (e + L) * 2 ^ (- c)))) with (N * D' * 2 ^ (e + L) * 2 ^ (- c)) by ring.
      replace (N' * (D * (2 ^ (e' + L) * 2 ^ (- c)))) with (N' * D * 2 ^ (e' + L) * 2 ^ (- c)) by ring.
      apply Z.mul_le_mono_nonneg_r; [lia|exact Hx].
  - apply Z.le_trans with (2 ^ 53 * 2 ^ (d + e - 53 + L)).
    + apply Z.mul_le_mono_nonneg_r; [apply Z.pow_nonneg; lia|lia].
    + apply Z.le_trans with (2 ^ 52 * 2 ^ (d' + e' - 53 + L)).
      * rewrite <- !Z.pow_add_r by lia. apply Z.pow_le_mono_r; lia.
      * apply Z.mul_le_mono_nonneg_r; [apply Z.pow_nonneg; lia|lia].
Qed.

(** In the normal range the result is a finite number with a mantissa of
    exactly 53 bits. *)
Lemma RN_finite (s : bool) (N D e : Z) :
  normal N D e -> Zdigits2 (N / D) + e <= 1023 ->
  exists m e1,
    finish s (RN N D e) = S754_finite s m e1 /\
    RN N D e = (Z.pos m, e1) /\
    2 ^ 52 <= Z.pos m < 2 ^ 53 /\
    Zdigits2 (N / D) + e - 53 <= e1 <= Zdigits2 (N / D) + e - 52.
Proof.
  intros Hn Hmax. destruct (RN_normal N D e Hn) as (m & Hrn & Hm).
  rewrite Hrn. unfold carry. cbn [fst snd].
  destruct (m =? 2 ^ 53) eqn:E.
  - exists (Z.to_pos (2 ^ 52)), (Zdigits2 (N / D) + e - 53 + 1).
    rewrite finish_finite by lia.
    repeat split; try lia; rewrite ?Z2Pos.id; lia.
  - apply Z.eqb_neq in E.
    exists (Z.to_pos m), (Zdigits2 (N / D) + e - 53).
    rewrite finish_finite by lia.
    rewrite Z2Pos.id by lia. repeat split; lia.
Qed.

(** Truncation to an integer, on the scaled value. *)
Lemma trunc_val (L : Z) (m : positive) (e : Z) :
  0 <= e + L -> 0 <= L ->
  match e with
  | Z.neg k => Z.shiftr (Z.pos m) (Z.pos k)
  | _ => Z.shiftl (Z.pos m) e
  end = val L (Z.pos m, e) / 2 ^ L.
Proof.
  intros HeL HL. unfold val. cbn [fst snd].
  pose proof (pow2_pos L HL) as HP.
  destruct e as [|k|k].
  - rewrite Z.shiftl_0_r. cbn [Z.add]. symmetry. apply Z.div_mul. lia.
  - rewrite Z.shiftl_mul_pow2 by lia.
    rewrite (Z.pow_add_r 2 (Z.pos k) L) by lia.
    rewrite Z.mul_assoc. symmetry. apply Z.div_mul. lia.
  - rewrite Z.shiftr_div_pow2 by lia.
    replace (2 ^ L) with (2 ^ Z.pos k * 2 ^ (Z.neg k + L)).
    + symmetry. apply Z.div_mul_cancel_r.
      * pose proof (pow2_pos (Z.pos k) ltac:(lia)). lia.
      * pose proof (pow2_pos (Z.neg k + L) ltac:(lia)). lia.
    + rewrite <- Z.pow_add_r by lia. f_equal. lia.
Qed.

(** Rounding moves a value by one unit in the last place at most. *)
Lemma RN_error (L N D e : Z) :
  normal N D e -> 0 <= e + L ->
  let V := val L (RN N D e) in
  let U := 2 ^ (Zdigits2 (N / D) + e - 53 + L) in
  N * 2 ^ (e + L) - D * U <= D * V <= N * 2 ^ (e + L) + D * U /\
  2 ^ 52 * U <= V.
Proof.
  intros Hn HL V U. pose proof Hn as (HN & HD & Hd & He).
  unfold V, RN. destruct (stage_normal N D e HN HD Hd He) as [-> Hm].
  set (d := Zdigits2 (N / D)) in *.
  rewrite val_carry by lia. unfold val. cbn [fst snd]. fold U.
  set (B := D * 2 ^ (d - 53)) in *.
  pose proof (pow2_pos (d - 53) ltac:(lia)) as HP.
  assert (HB : 0 < B) by (unfold B; nia).
  pose proof (rnd_bounds N B HB) as Hr.
  pose proof (Z.mul_div_le N B HB) as H1.
  pose proof (Z.mul_succ_div_gt N B HB) as H2.
  set (m := rnd N B) in *.
  pose proof (pow2_pos (e + L) HL) as HT.
  assert (HU : B * 2 ^ (e + L) = D * U).
  { unfold B, U. rewrite <- Z.mul_assoc, <- Z.pow_add_r by lia.
    do 2 f_equal. lia. }
  assert (HmB : N - B <= m * B <= N + B) by nia.
  assert (HU0 : 0 < U) by (unfold U; apply pow2_pos; lia).
  split; [|nia].
  replace (D * (m * U)) with (m * B * 2 ^ (e + L)) by (rewrite <- Z.mul_assoc, HU; ring).
  replace (N * 2 ^ (e + L) - D * U) with ((N - B) * 2 ^ (e + L)) by (rewrite <- HU; ring).
  replace (N * 2 ^ (e + L) + D * U) with ((N + B) * 2 ^ (e + L)) by (rewrite <- HU; ring).
  split; apply Z.mul_le_mono_nonneg_r; lia.
Qed.

(** ** Conversions and differences that are not zero *)

Lemma of_int_finite (z : Z) :
  z <> 0 -> Z.abs z <= 2 ^ 1022 ->
  exists m e, Float64.of_int z = S754_finite (z <? 0) m e.
Proof.
  intros Hz Hb. unfold Float64.of_int, binary_normalize, Float64.prec, Float64.emax.
  pose proof (Zdigits2_abs_le z 1022 ltac:(lia) Hb) as Hd.
  destruct z as [|p|p]; [congruence| |];
    apply binary_round_finite; try lia.
  change (Zdigits2 (Z.neg p)) with (Zdigits2 (Z.pos p)) in Hd. lia.
Qed.

Lemma div_same (s : bool) (m : positive) (e : Z) :
  Float64.div (S754_finite s m e) (S754_finite s m e) = Float64.one.
Proof. apply SFdiv_same. Qed.

Lemma div_zero (x y : Float64.float) (s : bool) (m : positive) (e : Z) :
  Float64.is_zero x = true -> y = S754_finite s m e ->
  Float64.eqb (Float64.div x y) Float64.zero = true.
Proof. intros Hx ->. destruct x; try discriminate. reflexivity. Qed.

Lemma valid_exponent (s : bool) (m : positive) (e : Z) :
  Float64.valid (S754_finite s m e) = true ->
  fexp64 (Zdigits2 (Z.pos m) + e) = e /\ -1074 <= e.
Proof.
  unfold Float64.valid, valid_binary, bounded, canonical_mantissa.
  change (fexp Float64.prec Float64.emax) with fexp64.
  change (Z.pos (digits2_pos m)) with (Zdigits2 (Z.pos m)).
  intros H. apply andb_true_iff in H as [H _]. apply Z.eqb_eq in H.
  split; [exact H|]. rewrite fexp64_eq in H. lia.
Qed.

(** Two binary64 numbers of the same value have the same mantissa and
    exponent. *)
Lemma canonical_unique (mx my : positive) (ex ey : Z) :
  fexp64 (Zdigits2 (Z.pos mx) + ex) = ex ->
  fexp64 (Zdigits2 (Z.pos my) + ey) = ey ->
  Z.pos mx * 2 ^ (ex - Z.min ex ey) = Z.pos my * 2 ^ (ey - Z.min ex ey) ->
  mx = my /\ ex = ey.
Proof.
  intros Hx Hy Heq.
  assert (Hd : Zdigits2 (Z.pos mx) + ex = Zdigits2 (Z.pos my) + ey).
  { apply (f_equal Zdigits2) in Heq.
    rewrite !digits_shiftl in Heq by lia. lia. }
  assert (He : ex = ey) by congruence.
  subst ey. rewrite Z.min_id, Z.sub_diag in Heq. cbn in Heq.
  split; [|reflexivity]. lia.
Qed.

Lemma SFcompare_refl (x : spec_float) :
  x <> S754_nan -> SFcompare x x = Some Eq.
Proof.
  destruct x as [s|s| |s m e]; intros H; try congruence; cbn.
  - reflexivity.
  - destruct s; reflexivity.
  - destruct s; rewrite Z.compare_refl, Pos.compare_cont_refl; reflexivity.
Qed.

Lemma eqb_true_cases (x y : Float64.float) :
  Float64.eqb x y = true ->
  x = y \/ (Float64.is_zero x = true /\ Float64.is_zero y = true).
Proof.
  unfold Float64.eqb, SFeqb.
  destruct x as [sx|sx| |sx mx ex], y as [sy|sy| |sy my ey]; cbn;
    try discriminate; try (destruct sx; discriminate); try (destruct sy; discriminate).
  - auto.
  - destruct sx, sy; try discriminate; auto.
  - destruct sx, sy; try discriminate;
      destruct (Z.compare_spec ex ey) as [He|He|He]; try discriminate; subst;
      destruct (Pos.compare_cont Eq mx my) eqn:E; try discriminate;
      apply Pos.compare_eq in E; subst; auto.
Qed.

(** The difference of two different binary64 numbers is not zero. *)
Lemma sub_finite (x y : Float64.float) :
  Float64.valid x = true -> Float64.valid y = true ->
  Float64.eqb x y = false ->
  Float64.is_finite (Float64.sub x y) = true ->
  exists s m e, Float64.sub x y = S754_finite s m e.
Proof.
  intros Vx Vy Hne Hfin.
  destruct x as [sx|sx| |sx mx ex], y as [sy|sy| |sy my ey];
    try (cbn in Hfin; discriminate); try (cbn in Hne; discriminate);
    try (destruct sx, sy; cbn in Hfin; discriminate).
  - cbn. eauto.
  - cbn. eauto.
  - destruct (valid_exponent _ _ _ Vx) as [Cx Ex].
    destruct (valid_exponent _ _ _ Vy) as [Cy Ey].
    unfold Float64.sub, SFsub in *. cbv zeta in *.
    change Float64.prec with 53 in *. change Float64.emax with 1024 in *.
    set (ez := Z.min ex ey) in *.
    pose proof (shl_align_spec mx ex ez) as [_ Ax].
    pose proof (shl_align_spec my ey ez) as [_ Ay].
    replace (Z.min ex ez) with ez in Ax by lia.
    replace (Z.min ey ez) with ez in Ay by lia.
    set (a := fst (shl_align mx ex ez)) in *.
    set (b := fst (shl_align my ey ez)) in *.
    set (M := cond_Zopp sx (Z.pos a) - cond_Zopp sy (Z.pos b)) in *.
    assert (HM : M <> 0).
    { intros H0.
      assert (Hs : sx = sy)
        by (unfold M, cond_Zopp in H0; destruct sx, sy; try reflexivity; lia).
      assert (Hab : Z.pos a = Z.pos b)
        by (unfold M, cond_Zopp in H0; destruct sx, sy; lia).
      rewrite Ax, Ay in Hab. unfold ez in Hab.
      destruct (canonical_unique mx my ex ey Cx Cy Hab) as [-> ->]. subst sy.
      unfold Float64.eqb, SFeqb in Hne.
      rewrite SFcompare_refl in Hne by discriminate. discriminate. }
    unfold binary_normalize in *.
    destruct M as [|p|p]; [congruence| |].
    + pose proof (binary_round_nonzero false p ez ltac:(lia)) as Hnz.
      destruct (binary_round 53 1024 false p ez); cbn in Hnz, Hfin;
        try contradiction; try discriminate. eauto.
    + pose proof (binary_round_nonzero true p ez ltac:(lia)) as Hnz.
      destruct (binary_round 53 1024 true p ez); cbn in Hnz, Hfin;
        try contradiction; try discriminate. eauto.
Qed.

Lemma sub_same_zero (x : Float64.float) :
  Float64.is_finite x = true -> Float64.sub x x = S754_zero false.
Proof.
  destruct x as [s|s| |s m e]; try discriminate; intros _.
  - destruct s; reflexivity.
  - unfold Float64.sub, SFsub. cbv zeta. rewrite Z.sub_diag. reflexivity.
Qed.

(** ** The extremes of a column *)

Lemma fold_left_choice {A : Type} (f : A -> A -> A) (rest : list A) (x : A) :
  (forall a b, f a b = a \/ f a b = b) -> In (fold_left f rest x) (x :: rest).
Proof.
  intros Hf. revert x. induction rest as [|y rest IH]; intros x; cbn [fold_left].
  - now left.
  - destruct (IH (f x y)) as [H|H].
    + rewrite <- H. destruct (Hf x y) as [E|E]; rewrite E; [now left|right; now left].
    + right. now right.
Qed.

Lemma int_min_in (x : Z) (rest : list Z) : In (int_min x rest) (x :: rest).
Proof.
  apply fold_left_choice. intros a b.
  destruct (Z.min_spec a b) as [[_ ->]|[_ ->]]; auto.
Qed.

Lemma int_max_in (x : Z) (rest : list Z) : In (int_max x rest) (x :: rest).
Proof.
  apply fold_left_choice. intros a b.
  destruct (Z.max_spec a b) as [[_ ->]|[_ ->]]; auto.
Qed.

(** [min()] and [max()] of an [int64] column bound every value of it. *)
Lemma int_min_lower (x : Z) (rest : list Z) :
  Forall (fun z => int_min x rest <= z) (x :: rest).
Proof.
  unfold int_min.
  assert (H : forall l a, fold_left Z.min l a <= a /\
                          Forall (fun z => fold_left Z.min l a <= z) l).
  { induction l as [|y l IH]; intros a; cbn [fold_left]; [split; [lia|constructor]|].
    destruct (IH (Z.min a y)) as [H1 H2]. split; [lia|].
    constructor; [lia|exact H2]. }
  destruct (H rest x) as [H1 H2]. constructor; assumption.
Qed.

Lemma int_max_upper (x : Z) (rest : list Z) :
  Forall (fun z => z <= int_max x rest) (x :: rest).
Proof.
  unfold int_max.
  assert (H : forall l a, a <= fold_left Z.max l a /\
                          Forall (fun z => z <= fold_left Z.max l a) l).
  { induction l as [|y l IH]; intros a; cbn [fold_left]; [split; [lia|constructor]|].
    destruct (IH (Z.max a y)) as [H1 H2]. split; [lia|].
    constructor; [lia|exact H2]. }
  destruct (H rest x) as [H1 H2]. constructor; assumption.
Qed.

Lemma nanmin_in (l : list Float64.float) :
  nanmin l = Float64.nan \/ In (nanmin l) l.
Proof.
  unfold nanmin.
  destruct (filter (fun x => negb (Float64.is_nan x)) l) as [|x rest] eqn:E; [now left|].
  right. apply (filter_In (fun x => negb (Float64.is_nan x))). rewrite E.
  apply (fold_left_choice (fun m y => if Float64.ltb y m then y else m)).
  intros a b. destruct (Float64.ltb b a); auto.
Qed.

Lemma nanmax_in (l : list Float64.float) :
  nanmax l = Float64.nan \/ In (nanmax l) l.
Proof.
  unfold nanmax.
  destruct (filter (fun x => negb (Float64.is_nan x)) l) as [|x rest] eqn:E; [now left|].
  right. apply (filter_In (fun x => negb (Float64.is_nan x))). rewrite E.
  apply (fold_left_choice (fun m y => if Float64.ltb m y then y else m)).
  intros a b. destruct (Float64.ltb a b); auto.
Qed.

Lemma finite_leb_trans (s1 s2 s3 : bool) (m1 m2 m3 : positive) (e1 e2 e3 : Z) :
  Float64.leb (S754_finite s1 m1 e1) (S754_finite s2 m2 e2) = true ->
  Float64.leb (S754_finite s2 m2 e2) (S754_finite s3 m3 e3) = true ->
  Float64.leb (S754_finite s1 m1 e1) (S754_finite s3 m3 e3) = true.
Proof.
  unfold Float64.leb, SFleb, SFcompare.
  change (Pos.compare_cont Eq) with Pos.compare.
  destruct s1, s2, s3; try discriminate; try reflexivity;
    destruct (Z.compare_spec e1 e2); try discriminate;
    destruct (Z.compare_spec e2 e3); try discriminate;
    destruct (Z.compare_spec e1 e3); try lia; try reflexivity;
    destruct (Pos.compare_spec m1 m2); try discriminate;
    destruct (Pos.compare_spec m2 m3); try discriminate;
    destruct (Pos.compare_spec m1 m3); try lia; try reflexivity; try discriminate.
Qed.

Lemma leb_trans (x y z : Float64.float) :
  Float64.leb x y = true -> Float64.leb y z = true -> Float64.leb x z = true.
Proof.
  destruct x as [[]|[]| |[] mx ex], y as [[]|[]| |[] my ey], z as [[]|[]| |[] mz ez];
    intros H1 H2; try reflexivity; try discriminate H1; try discriminate H2;
    exact (finite_leb_trans _ _ _ _ _ _ _ _ _ H1 H2).
Qed.

Lemma leb_refl (x : Float64.float) :
  Float64.is_nan x = false -> Float64.leb x x = true.
Proof.
  intros H. unfold Float64.leb, SFleb. rewrite SFcompare_refl; [reflexivity|].
  destruct x; discriminate || (cbn in H; discriminate).
Qed.

Lemma not_nan_filter (l : list Float64.float) :
  Forall (fun x => Float64.is_nan x = false) (filter (fun x => negb (Float64.is_nan x)) l).
Proof.
  apply Forall_forall. intros x H. apply filter_In in H as [_ H].
  now apply negb_true_iff in H.
Qed.

Lemma fold_max_upper (rest : list Float64.float) (a : Float64.float) :
  Forall (fun x => Float64.is_nan x = false) (a :: rest) ->
  let r := fold_left (fun m y => if Float64.ltb m y then y else m) rest a in
  Float64.leb a r = true /\ Forall (fun y => Float64.leb y r = true) rest.
Proof.
  revert a. induction rest as [|y rest IH]; intros a Hall; cbn [fold_left].
  - split; [apply leb_refl; now inversion Hall|constructor].
  - inversion Hall as [|? ? Ha Hrest]; subst. inversion Hrest as [|? ? Hy Hrest']; subst.
    destruct (Float64.ltb a y) eqn:E.
    + destruct (IH y ltac:(now constructor)) as [H1 H2].
      split; [|constructor; assumption].
      apply leb_trans with y; [now apply ltb_leb|exact H1].
    + destruct (IH a ltac:(now constructor)) as [H1 H2].
      split; [exact H1|constructor; [|exact H2]].
      apply leb_trans with a; [now apply ltb_total|exact H1].
Qed.

Lemma fold_min_lower (rest : list Float64.float) (a : Float64.float) :
  Forall (fun x => Float64.is_nan x = false) (a :: rest) ->
  let r := fold_left (fun m y => if Float64.ltb y m then y else m) rest a in
  Float64.leb r a = true /\ Forall (fun y => Float64.leb r y = true) rest.
Proof.
  revert a. induction rest as [|y rest IH]; intros a Hall; cbn [fold_left].
  - split; [apply leb_refl; now inversion Hall|constructor].
  - inversion Hall as [|? ? Ha Hrest]; subst. inversion Hrest as [|? ? Hy Hrest']; subst.
    destruct (Float64.ltb y a) eqn:E.
    + destruct (IH y ltac:(now constructor)) as [H1 H2].
      split; [|constructor; assumption].
      apply leb_trans with y; [exact H1|now apply ltb_leb].
    + destruct (IH a ltac:(now constructor)) as [H1 H2].
      split; [exact H1|constructor; [|exact H2]].
      apply leb_trans with a; [exact H1|now apply ltb_total].
Qed.

(** [max()] and [min()] of a [float64] column bound every value of it that
    is not missing. *)
Lemma nanmax_upper (l : list Float64.float) :
  Forall (fun x => Float64.is_nan x = true \/ Float64.leb x (nanmax l) = true) l.
Proof.
  apply Forall_forall. intros x Hx.
  destruct (Float64.is_nan x) eqn:E; [now left|right].
  assert (Hin : In x (filter (fun x => negb (Float64.is_nan x)) l))
    by (apply filter_In; split; [exact Hx|now rewrite E]).
  pose proof (not_nan_filter l) as Hall. unfold nanmax.
  destruct (filter (fun x => negb (Float64.is_nan x)) l) as [|a rest]; [contradiction|].
  destruct (fold_max_upper rest a Hall) as [H1 H2].
  destruct Hin as [<-|Hin]; [exact H1|].
  exact (proj1 (Forall_forall _ _) H2 _ Hin).
Qed.

Lemma nanmin_lower (l : list Float64.float) :
  Forall (fun x => Float64.is_nan x = true \/ Float64.leb (nanmin l) x = true) l.
Proof.
  apply Forall_forall. intros x Hx.
  destruct (Float64.is_nan x) eqn:E; [now left|right].
  assert (Hin : In x (filter (fun x => negb (Float64.is_nan x)) l))
    by (apply filter_In; split; [exact Hx|now rewrite E]).
  pose proof (not_nan_filter l) as Hall. unfold nanmin.
  destruct (filter (fun x => negb (Float64.is_nan x)) l) as [|a rest]; [contradiction|].
  destruct (fold_min_lower rest a Hall) as [H1 H2].
  destruct Hin as [<-|Hin]; [exact H1|].
  exact (proj1 (Forall_forall _ _) H2 _ Hin).
Qed.

Lemma in_int64_bounds (z : Z) : in_int64 z = true -> - 2 ^ 63 <= z < 2 ^ 63.
Proof.
  unfold in_int64. intros H. apply andb_true_iff in H as [H1 H2].
  apply Z.leb_le in H1. apply Z.ltb_lt in H2. lia.
Qed.

Lemma wrap64_bounds (z : Z) : - 2 ^ 63 <= wrap64 z < 2 ^ 63.
Proof.
  unfold wrap64. pose proof (Z.mod_pos_bound (z + 2 ^ 63) (2 ^ 64) ltac:(lia)). lia.
Qed.

Lemma wrap64_nonzero (z : Z) :
  - 2 ^ 64 < z < 2 ^ 64 -> z <> 0 -> wrap64 z <> 0.
Proof.
  intros Hb Hz H. unfold wrap64 in H.
  pose proof (Z.div_mod (z + 2 ^ 63) (2 ^ 64) ltac:(lia)) as Hdm.
  assert (Hz' : z = 2 ^ 64 * ((z + 2 ^ 63) / 2 ^ 64)) by lia.
  nia.
Qed.

Lemma nth_map_default {A B : Type} (f : A -> B) (l : list A) (i : nat) (d : B) (d' : A) :
  (i < List.length l)%nat -> nth i (map f l) d = f (nth i l d').
Proof.
  intros H. rewrite (nth_indep (map f l) d (f d')) by (rewrite length_map; exact H).
  apply map_nth.
Qed.

Lemma minmax_int_extremes (x : Z) (rest : list Z) (i : nat) :
  Forall (fun z => in_int64 z = true) (x :: rest) ->
  int_min x rest <> int_max x rest ->
  (i < List.length (x :: rest))%nat ->
  (nth i (x :: rest) 0 = int_max x rest ->
   nth i (minmax_int (x :: rest)) Float64.nan = Float64.one) /\
  (nth i (x :: rest) 0 = int_min x rest ->
   Float64.eqb (nth i (minmax_int (x :: rest)) Float64.nan) Float64.zero = true).
Proof.
  intros Hall Hne Hi.
  pose proof (proj1 (Forall_forall _ _) Hall _ (int_min_in x rest)) as Hlo.
  pose proof (proj1 (Forall_forall _ _) Hall _ (int_max_in x rest)) as Hhi.
  apply in_int64_bounds in Hlo, Hhi.
  set (lo := int_min x rest) in *. set (hi := int_max x rest) in *.
  assert (Hr : wrap64 (hi - lo) <> 0) by (apply wrap64_nonzero; lia).
  pose proof (wrap64_bounds (hi - lo)) as Hb.
  destruct (of_int_finite (wrap64 (hi - lo)) Hr) as (m & e & Hrange).
  { assert (2 ^ 63 <= 2 ^ 1022) by (apply Z.pow_le_mono_r; lia). lia. }
  unfold minmax_int. fold lo hi.
  rewrite (nth_map_default _ (x :: rest) i Float64.nan 0 Hi).
  split; intros ->.
  - rewrite Hrange. apply div_same.
  - rewrite Z.sub_diag. eapply div_zero; [reflexivity|exact Hrange].
Qed.

Lemma sub_finite_args (x y : Float64.float) :
  Float64.is_finite (Float64.sub x y) = true ->
  Float64.is_finite x = true /\ Float64.is_finite y = true.
Proof.
  destruct x as [[]|[]| |sx mx ex], y as [[]|[]| |sy my ey]; intros H;
    try (split; reflexivity); cbn in H; discriminate H.
Qed.

Lemma minmax_float_extremes (l : list Float64.float) (i : nat) :
  Forall (fun x => Float64.valid x = true) l ->
  Float64.is_finite (Float64.sub (nanmax l) (nanmin l)) = true ->
  Float64.eqb (nanmin l) (nanmax l) = false ->
  (i < List.length l)%nat ->
  (Float64.eqb (nth i l Float64.nan) (nanmax l) = true ->
   nth i (minmax_float l) Float64.nan = Float64.one) /\
  (Float64.eqb (nth i l Float64.nan) (nanmin l) = true ->
   Float64.eqb (nth i (minmax_float l) Float64.nan) Float64.zero = true).
Proof.
  intros Hall Hfin Hne Hi.
  assert (Vlo : Float64.valid (nanmin l) = true).
  { destruct (nanmin_in l) as [->|H]; [reflexivity|].
    exact (proj1 (Forall_forall _ _) Hall _ H). }
  assert (Vhi : Float64.valid (nanmax l) = true).
  { destruct (nanmax_in l) as [->|H]; [reflexivity|].
    exact (proj1 (Forall_forall _ _) Hall _ H). }
  destruct (sub_finite_args _ _ Hfin) as [Fhi Flo].
  set (lo := nanmin l) in *. set (hi := nanmax l) in *.
  assert (Hne' : Float64.eqb hi lo = false).
  { unfold Float64.eqb, SFeqb in *.
    destruct (SFcompare lo hi) as [c|] eqn:E.
    - rewrite (SFcompare_antisym _ _ _ E). destruct c; cbn; congruence.
    - destruct lo, hi; cbn in E, Hfin; try discriminate. }
  destruct (sub_finite hi lo Vhi Vlo Hne' Hfin) as (s & m & e & Hrange).
  unfold minmax_float. fold lo hi.
  rewrite (nth_map_default _ l i Float64.nan Float64.nan Hi).
  set (c := nth i l Float64.nan). rewrite Hrange.
  split; intros Hc.
  - replace (Float64.sub c lo) with (S754_finite s m e); [apply div_same|].
    rewrite <- Hrange.
    destruct (eqb_true_cases _ _ Hc) as [E|[Zc Zh]]; [now rewrite E|].
    destruct c, hi, lo; try discriminate; reflexivity.
  - eapply div_zero; [|reflexivity].
    destruct (eqb_true_cases _ _ Hc) as [E|[Zc Zl]].
    + rewrite E, sub_same_zero; [reflexivity|exact Flo].
    + destruct c as [[]| | |], lo as [[]| | |]; try discriminate; reflexivity.
Qed.

(** ** Min-max normalisation *)

(** Topic totals 0.5, 0.25, 0.5: the records holding the largest total get
    1.0, the one holding the smallest 0.0. *)
Example minmax_topic_totals :
  minmax (FloatCol [half; quarter; half])
  = Ok [Float64.one; Float64.zero; Float64.one].
Proof. vm_compute. reflexivity. Qed.

(** The three components in [inclusion_criteria] itself, with every weight
    that multiplies a normalised column set to 1.0 (which changes no value):
    the citation counts 10, 0, 5, 5, the years 2020, 2019, 2021, 2021 and
    the topic totals 0.5, 0.625, 0.375, 0.75. *)
Definition weights_all_one : list (string * Float64.float) :=
  [("cites", Float64.one); ("recency", Float64.one); ("topics", Float64.one);
   ("0_graphs", half); ("1_proofs", Float64.one)].

Example score_frame_components :
  (output <- integrate corpus4 model4 ;;
   '(out, _) <- score_frame output weights_all_one ;;
   c <- df_get out "cite_score" ;;
   r <- df_get out "recency_score" ;;
   t <- df_get out "topic_score" ;;
   Ok (c, r, t))
  = Ok (FloatCol [Float64.one; Float64.zero; half; half],
        FloatCol [half; Float64.zero; Float64.one; Float64.one],
        FloatCol [S754_finite false 6004799503160661 (-54);
                  S754_finite false 6004799503160661 (-53);
                  Float64.zero; Float64.one]).
Proof. vm_compute. reflexivity. Qed.

(** ** [hyperP_scaler]: [len(corpus) / 2000] and its multiples *)

(** The operands [SFdiv] works with at [n / 2000]. *)
Lemma quotient_2000_normal (n : Z) :
  1 <= n < 2 ^ 63 ->
  let d := Zdigits2 n in
  normal (n * 2 ^ (64 - d)) 2000 (d - 64) /\
  53 <= Zdigits2 (n * 2 ^ (64 - d) / 2000) <= 54.
Proof.
  intros Hn d.
  pose proof (digits_positive n ltac:(lia)) as Hd1.
  assert (Hd2 : d <= 63).
  { replace 63 with (Zdigits2 (2 ^ 63 - 1)) by reflexivity.
    apply digits_mono; lia. }
  fold d in Hd1.
  pose proof (digits_bounds (n * 2 ^ (64 - d))) as HN.
  rewrite digits_shiftl in HN by lia. fold d in HN.
  replace (d + (64 - d)) with 64 in HN by lia.
  pose proof (pow2_pos (64 - d) ltac:(lia)) as HP.
  specialize (HN ltac:(nia)). change (64 - 1) with 63 in HN.
  set (N := n * 2 ^ (64 - d)) in *. clearbody N.
  assert (HQ : 2 ^ 52 <= N / 2000 <= 2 ^ 54 - 1).
  { change (2 ^ 63) with 9223372036854775808 in HN.
    change (2 ^ 64) with 18446744073709551616 in HN.
    change (2 ^ 52) with 4503599627370496.
    change (2 ^ 54) with 18014398509481984.
    pose proof (Z.div_mod N 2000 ltac:(lia)).
    pose proof (Z.mod_pos_bound N 2000 ltac:(lia)). lia. }
  assert (Hdq : 53 <= Zdigits2 (N / 2000) <= 54).
  { split.
    - replace 53 with (Zdigits2 (2 ^ 52)) by reflexivity. apply digits_mono; lia.
    - replace 54 with (Zdigits2 (2 ^ 54 - 1)) by reflexivity. apply digits_mono; lia. }
  split; [|exact Hdq]. unfold normal. repeat split; lia.
Qed.

Lemma truediv_2000 (n : Z) :
  1 <= n < 2 ^ 63 ->
  exists m e,
    Float64.int_truediv n 2000 = Ok (S754_finite false m e) /\
    RN (n * 2 ^ (64 - Zdigits2 n)) 2000 (Zdigits2 n - 64) = (Z.pos m, e) /\
    2 ^ 52 <= Z.pos m < 2 ^ 53 /\ -64 <= e <= 1.
Proof.
  intros Hn. destruct (quotient_2000_normal n Hn) as [Hnorm Hdq].
  pose proof (digits_positive n ltac:(lia)) as Hd1.
  assert (Hd63 : Zdigits2 n <= 63).
  { replace 63 with (Zdigits2 (2 ^ 63 - 1)) by reflexivity. apply digits_mono; lia. }
  destruct (RN_finite false _ _ _ Hnorm) as (m & e & Hfin & Hrn & Hm & He); [lia|].
  exists m, e. split; [|split; [exact Hrn|split; [exact Hm|lia]]].
  unfold Float64.int_truediv. cbn [Z.eqb].
  destruct n as [|p|p]; try lia. cbn [Float64.exact_int].
  unfold Float64.div, Float64.prec, Float64.emax.
  rewrite SFdiv_RN.
  assert (Hexp : div_exponent (Z.pos p) 0 (Z.pos 2000) 0 = Zdigits2 (Z.pos p) - 64).
  { unfold div_exponent. rewrite fexp64_eq.
    change (Zdigits2 (Z.pos 2000)) with 11. lia. }
  rewrite Hexp.
  replace (0 - 0 - (Zdigits2 (Z.pos p) - 64)) with (64 - Zdigits2 (Z.pos p)) by lia.
  change (xorb false false) with false. rewrite Hfin. reflexivity.
Qed.

Lemma product_normal (mq mc eq ec : Z) :
  2 ^ 52 <= mq < 2 ^ 53 -> 2 ^ 52 <= mc < 2 ^ 53 -> -500 <= eq + ec <= 500 ->
  normal (mq * mc) 1 (eq + ec) /\ 105 <= Zdigits2 (mq * mc / 1) <= 106.
Proof.
  intros Hq Hc He. rewrite Z.div_1_r.
  assert (Hlo : 2 ^ 104 <= mq * mc) by (change (2 ^ 104) with (2 ^ 52 * 2 ^ 52); nia).
  assert (Hhi : mq * mc <= 2 ^ 106 - 1) by (change (2 ^ 106) with (2 ^ 53 * 2 ^ 53); nia).
  assert (Hd : 105 <= Zdigits2 (mq * mc) <= 106).
  { split.
    - replace 105 with (Zdigits2 (2 ^ 104)) by reflexivity. apply digits_mono; lia.
    - replace 106 with (Zdigits2 (2 ^ 106 - 1)) by reflexivity. apply digits_mono; lia. }
  split; [|exact Hd]. unfold normal. rewrite Z.div_1_r. repeat split; lia.
Qed.

Lemma mul_normal (mq mc : positive) (eq ec : Z) :
  2 ^ 52 <= Z.pos mq < 2 ^ 53 -> 2 ^ 52 <= Z.pos mc < 2 ^ 53 -> -500 <= eq + ec <= 500 ->
  exists m e,
    Float64.mul (S754_finite false mq eq) (S754_finite false mc ec) = S754_finite false m e /\
    RN (Z.pos mq * Z.pos mc) 1 (eq + ec) = (Z.pos m, e) /\
    eq + ec + 52 <= e.
Proof.
  intros Hq Hc He.
  destruct (product_normal _ _ _ _ Hq Hc He) as [Hnorm Hd].
  destruct (RN_finite false _ _ _ Hnorm) as (m & e & Hfin & Hrn & Hm & Hb); [lia|].
  exists m, e. split; [|split; [exact Hrn|lia]].
  unfold Float64.mul, Float64.prec, Float64.emax. rewrite SFmul_RN.
  exact Hfin.
Qed.

Lemma to_int_finite (L : Z) (m : positive) (e : Z) :
  0 <= e + L -> 0 <= L ->
  Float64.to_int (S754_finite false m e) = Ok (val L (Z.pos m, e) / 2 ^ L).
Proof.
  intros HeL HL. unfold Float64.to_int. cbv zeta.
  now rewrite (trunc_val L m e HeL HL).
Qed.

(** One output of the scaler without its [+ 1]: [int(n / 2000 * c)] for a
    constant [c] of 53 bits. It grows with [n]. *)
Lemma component_mono (fc : Float64.float) (mc : positive) (ec n n' : Z) :
  fc = S754_finite false mc ec ->
  2 ^ 52 <= Z.pos mc < 2 ^ 53 -> -100 <= ec <= 0 ->
  1 <= n -> n <= n' -> n' < 2 ^ 63 ->
  exists q q' p p',
    Float64.int_truediv n 2000 = Ok q /\
    Float64.int_truediv n' 2000 = Ok q' /\
    Float64.to_int (Float64.mul q fc) = Ok p /\
    Float64.to_int (Float64.mul q' fc) = Ok p' /\
    0 <= p <= p'.
Proof.
  intros -> Hc Hec Hn Hle Hn'.
  destruct (truediv_2000 n ltac:(lia)) as (mq & eq & Hq & Rq & Bq & Eq).
  destruct (truediv_2000 n' ltac:(lia)) as (mq' & eq' & Hq' & Rq' & Bq' & Eq').
  destruct (mul_normal mq mc eq ec Bq Hc ltac:(lia)) as (m & e & Hm & Rm & Em).
  destruct (mul_normal mq' mc eq' ec Bq' Hc ltac:(lia)) as (m' & e' & Hm' & Rm' & Em').
  exists (S754_finite false mq eq), (S754_finite false mq' eq').
  exists (val 300 (Z.pos m, e) / 2 ^ 300), (val 300 (Z.pos m', e') / 2 ^ 300).
  rewrite Hm, Hm', !(to_int_finite 300) by lia.
  repeat split; try assumption.
  - apply Z.div_pos; [|apply pow2_pos; lia]. unfold val. cbn [fst snd].
    pose proof (pow2_pos (e + 300) ltac:(lia)). nia.
  - apply Z.div_le_mono; [apply pow2_pos; lia|].
    rewrite <- Rm, <- Rm'.
    destruct (quotient_2000_normal n ltac:(lia)) as [Nq _].
    destruct (quotient_2000_normal n' ltac:(lia)) as [Nq' _].
    destruct (product_normal (Z.pos mq) (Z.pos mc) eq ec Bq Hc ltac:(lia)) as [Np _].
    destruct (product_normal (Z.pos mq') (Z.pos mc) eq' ec Bq' Hc ltac:(lia)) as [Np' _].
    pose proof (digits_positive n ltac:(lia)) as Hd.
    pose proof (digits_positive n' ltac:(lia)) as Hd'.
    assert (D63 : forall k, 1 <= k < 2 ^ 63 -> Zdigits2 k <= 63).
    { intros k Hk. replace 63 with (Zdigits2 (2 ^ 63 - 1)) by reflexivity.
      apply digits_mono; lia. }
    pose proof (D63 n ltac:(lia)) as Hd63. pose proof (D63 n' ltac:(lia)) as Hd63'.
    (* the quotients are ordered *)
    assert (Hqle : val 200 (Z.pos mq, eq) <= val 200 (Z.pos mq', eq')).
    { rewrite <- Rq, <- Rq'. apply RN_mono; try assumption; try lia.
      replace (n * 2 ^ (64 - Zdigits2 n) * 2000 * 2 ^ (Zdigits2 n - 64 + 200))
        with (2000 * (n * (2 ^ (64 - Zdigits2 n) * 2 ^ (Zdigits2 n - 64 + 200)))) by ring.
      replace (n' * 2 ^ (64 - Zdigits2 n') * 2000 * 2 ^ (Zdigits2 n' - 64 + 200))
        with (2000 * (n' * (2 ^ (64 - Zdigits2 n') * 2 ^ (Zdigits2 n' - 64 + 200)))) by ring.
      rewrite <- !Z.pow_add_r by lia.
      replace (64 - Zdigits2 n + (Zdigits2 n - 64 + 200)) with 200 by lia.
      replace (64 - Zdigits2 n' + (Zdigits2 n' - 64 + 200)) with 200 by lia.
      pose proof (pow2_pos 200 ltac:(lia)). nia. }
    apply RN_mono; try assumption; try lia.
    unfold val in Hqle. cbn [fst snd] in Hqle.
    replace (eq + ec + 300) with (eq + 200 + (ec + 100)) by lia.
    replace (eq' + ec + 300) with (eq' + 200 + (ec + 100)) by lia.
    rewrite (Z.pow_add_r 2 (eq + 200) (ec + 100)),
            (Z.pow_add_r 2 (eq' + 200) (ec + 100)) by lia.
    pose proof (pow2_pos (ec + 100) ltac:(lia)).
    set (A := 2 ^ (eq + 200)) in *. set (A' := 2 ^ (eq' + 200)) in *.
    set (C := 2 ^ (ec + 100)) in *.
    replace (Z.pos mq * Z.pos mc * 1 * (A * C)) with (Z.pos mq * A * (Z.pos mc * C)) by ring.
    replace (Z.pos mq' * Z.pos mc * 1 * (A' * C)) with (Z.pos mq' * A' * (Z.pos mc * C)) by ring.
    apply Z.mul_le_mono_nonneg_r; [nia|exact Hqle].
Qed.

Lemma of_int_10 : Float64.of_int 10 = S754_finite false 5629499534213120 (-49).
Proof. reflexivity. Qed.

Lemma of_int_15 : Float64.of_int 15 = S754_finite false 8444249301319680 (-49).
Proof. reflexivity. Qed.

Lemma hyperP_of_len_steps (n : Z) (q : Float64.float) (t u : Z) :
  Float64.int_truediv n 2000 = Ok q ->
  Float64.to_int (Float64.mul q (Float64.of_int 10)) = Ok t ->
  Float64.to_int (Float64.mul q (Float64.of_int 15)) = Ok u ->
  hyperP_of_len n = Ok (t + 1, u + 1).
Proof.
  intros Hq Ht Hu. unfold hyperP_of_len.
  rewrite Hq. cbn [bind]. rewrite Ht. cbn [bind]. rewrite Hu. reflexivity.
Qed.

Lemma hyperP_of_len_monotone (n n' : Z) :
  0 <= n -> n <= n' -> n' < 2 ^ 63 ->
  exists t u t' u',
    hyperP_of_len n = Ok (t, u) /\ hyperP_of_len n' = Ok (t', u') /\
    1 <= t <= t' /\ 1 <= u <= u'.
Proof.
  intros H0 Hle Hmax.
  assert (Hpos : forall a b, 1 <= a -> a <= b -> b < 2 ^ 63 ->
            exists t u t' u',
              hyperP_of_len a = Ok (t, u) /\ hyperP_of_len b = Ok (t', u') /\
              1 <= t <= t' /\ 1 <= u <= u').
  { intros a b Ha Hab Hb.
    destruct (component_mono _ _ _ a b of_int_10 ltac:(lia) ltac:(lia) Ha Hab Hb)
      as (q & q' & t & t' & Hq & Hq' & Ht & Ht' & Hord).
    destruct (component_mono _ _ _ a b of_int_15 ltac:(lia) ltac:(lia) Ha Hab Hb)
      as (q2 & q2' & u & u' & Hq2 & Hq2' & Hu & Hu' & Hord2).
    assert (q2 = q) by congruence. assert (q2' = q') by congruence. subst q2 q2'.
    exists (t + 1), (u + 1), (t' + 1), (u' + 1).
    rewrite (hyperP_of_len_steps a q t u Hq Ht Hu).
    rewrite (hyperP_of_len_steps b q' t' u' Hq' Ht' Hu').
    repeat split; lia. }
  destruct (Z.eq_dec n 0) as [->|Hn]; [|apply Hpos; lia].
  destruct (Z.eq_dec n' 0) as [->|Hn'].
  - exists 1, 1, 1, 1. repeat split; try reflexivity; lia.
  - destruct (Hpos n' n' ltac:(lia) ltac:(lia) Hmax) as (t0 & u0 & t & u & _ & H1 & Ht & Hu).
    exists 1, 1, t, u. repeat split; try assumption; try reflexivity; lia.
Qed.

(** The linear arithmetic behind the accuracy of one output: [W] is the
    scale, [nW = n * W], [Vq] the scaled quotient, [P] the scaled product,
    [U1] and [U2] their units in the last place. *)
Lemma accuracy_arith (c W nW FW rW Vq U1 P U2 : Z) :
  c = 10 \/ c = 15 ->
  0 < W -> 0 <= nW <= 2 ^ 32 * W ->
  0 < U1 -> 0 < U2 ->
  nW - 2000 * U1 <= 2000 * Vq <= nW + 2000 * U1 ->
  2 ^ 52 * U1 <= Vq ->
  c * 2 ^ 49 * Vq - U2 <= P <= c * 2 ^ 49 * Vq + U2 ->
  2 ^ 52 * U2 <= P ->
  c * nW = 2000 * FW + rW -> 0 <= rW <= 1995 * W ->
  2 ^ 49 * (FW - W) <= P < 2 ^ 49 * (FW + W).
Proof.
  change (2 ^ 32) with 4294967296. change (2 ^ 52) with 4503599627370496.
  change (2 ^ 49) with 562949953421312.
  intros [-> | ->]; intros; lia.
Qed.

Lemma multiple_of_5_mod (a : Z) : (5 * a) mod 2000 <= 1995.
Proof.
  change 2000 with (5 * 400). rewrite Z.mul_mod_distr_l by lia.
  pose proof (Z.mod_pos_bound a 400 ltac:(lia)). lia.
Qed.

(** One output of the scaler against exact arithmetic: for the sizes a
    corpus can have, [int(n / 2000 * c)] is the whole part of [n * c / 2000]
    or one less. *)
Lemma component_accuracy (c : Z) (mc : positive) (n : Z) :
  c = 10 \/ c = 15 -> Z.pos mc = c * 2 ^ 49 ->
  1 <= n < 2 ^ 32 ->
  exists q p,
    Float64.int_truediv n 2000 = Ok q /\
    Float64.to_int (Float64.mul q (S754_finite false mc (-49))) = Ok p /\
    n * c / 2000 - 1 <= p <= n * c / 2000.
Proof.
  intros Hc Hmc Hn.
  assert (Hn63 : 1 <= n < 2 ^ 63).
  { split; [lia|]. apply Z.lt_trans with (2 ^ 32); [lia|]. apply Z.pow_lt_mono_r; lia. }
  assert (Bc : 2 ^ 52 <= Z.pos mc < 2 ^ 53).
  { rewrite Hmc. change (2 ^ 52) with (8 * 2 ^ 49). change (2 ^ 53) with (16 * 2 ^ 49).
    destruct Hc as [-> | ->]; lia. }
  destruct (truediv_2000 n Hn63) as (mq & eq & Hq & Rq & Bq & Eq).
  destruct (mul_normal mq mc eq (-49) Bq Bc ltac:(lia)) as (m & e & Hm & Rm & Em).
  exists (S754_finite false mq eq), (val 249 (Z.pos m, e) / 2 ^ 249).
  rewrite Hm, (to_int_finite 249) by lia.
  split; [exact Hq|]. split; [reflexivity|].
  destruct (quotient_2000_normal n Hn63) as [Nq Dq]. cbv zeta in Nq, Dq.
  destruct (product_normal (Z.pos mq) (Z.pos mc) eq (-49) Bq Bc ltac:(lia)) as [Np Dp].
  pose proof (digits_positive n ltac:(lia)) as Hd.
  assert (Hd63 : Zdigits2 n <= 63).
  { replace 63 with (Zdigits2 (2 ^ 63 - 1)) by reflexivity. apply digits_mono; lia. }
  pose proof (RN_error 200 _ _ _ Nq ltac:(lia)) as [A1 A2]. rewrite Rq in A1, A2.
  pose proof (RN_error 249 _ _ _ Np ltac:(lia)) as [B1 B2]. rewrite Rm in B1, B2.
  set (U1 := 2 ^ (Zdigits2 (n * 2 ^ (64 - Zdigits2 n) / 2000) + (Zdigits2 n - 64) - 53 + 200)) in *.
  set (U2 := 2 ^ (Zdigits2 (Z.pos mq * Z.pos mc / 1) + (eq + -49) - 53 + 249)) in *.
  assert (HU1 : 0 < U1) by (apply pow2_pos; lia).
  assert (HU2 : 0 < U2) by (apply pow2_pos; lia).
  set (P := val 249 (Z.pos m, e)) in *.
  set (Vq := val 200 (Z.pos mq, eq)) in *.
  set (W := 2 ^ 200).
  assert (HW : 0 < W) by (apply pow2_pos; lia).
  assert (E1 : n * 2 ^ (64 - Zdigits2 n) * 2 ^ (Zdigits2 n - 64 + 200) = n * W).
  { rewrite <- Z.mul_assoc, <- Z.pow_add_r by lia. unfold W.
    replace (64 - Zdigits2 n + (Zdigits2 n - 64 + 200)) with 200 by lia. reflexivity. }
  rewrite E1 in A1.
  assert (E2 : Z.pos mq * Z.pos mc * 2 ^ (eq + -49 + 249) = c * 2 ^ 49 * Vq).
  { unfold Vq, val. cbn [fst snd]. rewrite Hmc.
    replace (eq + -49 + 249) with (eq + 200) by lia. ring. }
  rewrite E2 in B1. rewrite !Z.mul_1_l in B1.
  pose proof (Z.div_mod (n * c) 2000 ltac:(lia)) as Hdm.
  assert (Hr : 0 <= (n * c) mod 2000 <= 1995).
  { split; [apply Z.mod_pos_bound; lia|].
    destruct Hc as [-> | ->].
    - replace (n * 10) with (5 * (n * 2)) by ring. apply multiple_of_5_mod.
    - replace (n * 15) with (5 * (n * 3)) by ring. apply multiple_of_5_mod. }
  set (F := n * c / 2000) in *. set (r := (n * c) mod 2000) in *.
  assert (Hgoal : 2 ^ 49 * (F * W - W) <= P < 2 ^ 49 * (F * W + W)).
  { apply (accuracy_arith c W (n * W) (F * W) (r * W) Vq U1 P U2); try assumption.
    - split; [nia|]. apply Z.mul_le_mono_nonneg_r; lia.
    - replace (c * (n * W)) with (n * c * W) by ring. rewrite Hdm. ring.
    - split; [nia|]. apply Z.mul_le_mono_nonneg_r; lia. }
  assert (E249 : 2 ^ 249 = 2 ^ 49 * W) by (unfold W; rewrite <- Z.pow_add_r by lia; reflexivity).
  rewrite E249.
  assert (H49 : 0 < 2 ^ 49 * W) by nia.
  split.
  - apply Z.div_le_lower_bound; [exact H49|]. nia.
  - assert (P / (2 ^ 49 * W) < F + 1); [|lia].
    apply Z.div_lt_upper_bound; [exact H49|]. nia.
Qed.

(** C6, against the claim: at a corpus of 16400 documents [16400 / 2000] is
    rounded to the binary64 number just below 8.2, its product with 15 to the
    one just below 123, and [int] cuts that to 122; the second output is 123
    where the formula of the claim gives 124. *)
Lemma hyperP_16400_below_exact :
  hyperP_of_len 16400 = Ok (83, 123) /\ hyperP_exact 16400 = (83, 124).
Proof. split; vm_compute; reflexivity. Qed.

(** C6, as the code has it. For corpus sizes [0 <= n <= n' < 2 ^ 63] (every
    value [len] can return) [hyperP_scaler] returns; both outputs are at
    least 1 and do not decrease from [n] to [n']; for [n < 2 ^ 32] each output
    is the value of the exact formula or one less. *)
Theorem hyperP_scaler_bounds (n n' : Z) :
  0 <= n -> n <= n' -> n' < 2 ^ 63 ->
  exists t u t' u',
    hyperP_of_len n = Ok (t, u) /\ hyperP_of_len n' = Ok (t', u') /\
    1 <= t <= t' /\ 1 <= u <= u' /\
    (n < 2 ^ 32 ->
     fst (hyperP_exact n) - 1 <= t <= fst (hyperP_exact n) /\
     snd (hyperP_exact n) - 1 <= u <= snd (hyperP_exact n)).
Proof.
  intros H0 Hle Hmax.
  destruct (hyperP_of_len_monotone n n' H0 Hle Hmax)
    as (t & u & t' & u' & Hn & Hn' & Ht & Hu).
  exists t, u, t', u'. repeat (split; [assumption|]).
  intros Hsmall. unfold hyperP_exact. cbn [fst snd].
  destruct (Z.eq_dec n 0) as [->|Hnz].
  - vm_compute in Hn. injection Hn as <- <-. vm_compute. intuition discriminate.
  - destruct (component_accuracy 10 5629499534213120 n (or_introl eq_refl) eq_refl ltac:(lia))
      as (q & p & Hq & Hp & Hacc).
    destruct (component_accuracy 15 8444249301319680 n (or_intror eq_refl) eq_refl ltac:(lia))
      as (q2 & p2 & Hq2 & Hp2 & Hacc2).
    assert (q2 = q) by congruence. subst q2.
    rewrite <- of_int_10 in Hp. rewrite <- of_int_15 in Hp2.
    rewrite (hyperP_of_len_steps n q p p2 Hq Hp Hp2) in Hn.
    injection Hn as <- <-. lia.
Qed.

Lemma hyperP_scaler_bounds_witness :
  exists t u t' u',
    hyperP_of_len 16400 = Ok (t, u) /\ hyperP_of_len 32800 = Ok (t', u') /\
    1 <= t <= t' /\ 1 <= u <= u' /\
    (16400 < 2 ^ 32 ->
     fst (hyperP_exact 16400) - 1 <= t <= fst (hyperP_exact 16400) /\
     snd (hyperP_exact 16400) - 1 <= u <= snd (hyperP_exact 16400)).
Proof.
  apply (hyperP_scaler_bounds 16400 32800); lia.
Defined.

(** * Further functions and properties *)

Open Scope string_scope.

(** ** The path of the RIS file

    Lines 25-27 of [file_loader] and 742-744 of [return_included_papers]:
    in a Colab notebook a path that does not hold the text [content/] is
    taken to be relative to [/content/]. *)
Definition colab_path (nbook ris_file : string) : string :=
  if String.eqb nbook "colab" then
    if negb (PyStr.contains "content/" ris_file) then "/content/" ++ ris_file
    else ris_file
  else ris_file.

Lemma contains_content_prefix (p : string) :
  PyStr.contains "content/" ("/content/" ++ p) = true.
Proof. destruct p; reflexivity. Qed.

(** The path the loader opens in Colab always holds [content/]; resolving a
    path twice is resolving it once, so a path one function has resolved can
    be handed to the other; outside Colab the path is left alone. *)
Theorem colab_path_idempotent (nbook ris_file : string) :
  colab_path nbook (colab_path nbook ris_file) = colab_path nbook ris_file /\
  (nbook = "colab" -> PyStr.contains "content/" (colab_path nbook ris_file) = true) /\
  (nbook <> "colab" -> colab_path nbook ris_file = ris_file).
Proof.
  unfold colab_path. destruct (String.eqb_spec nbook "colab") as [->|Hn].
  - destruct (PyStr.contains "content/" ris_file) eqn:E; cbn [negb].
    + rewrite E. cbn [negb]. repeat split; auto; congruence.
    + rewrite contains_content_prefix. cbn [negb]. repeat split; auto; congruence.
  - repeat split; auto; congruence.
Qed.

Open Scope string_scope.

(** ** The frame [file_loader] returns *)

Lemma replace_col_names (key : string) (c : column) (l : list (string * column)) :
  map fst (replace_col key c l) = map fst l.
Proof.
  induction l as [|[k v] rest IH]; cbn [replace_col map fst]; [reflexivity|].
  destruct (String.eqb k key) eqn:E; cbn [map fst]; [reflexivity|now rewrite IH].
Qed.

(** Writing a column that exists keeps the names and their order. *)
Lemma df_set_names_present (df : DataFrame) (key : string) (c0 c : column) :
  df_get df key = Ok c0 ->
  column_names (df_set df key c) = column_names df /\
  nrows (df_set df key c) = nrows df.
Proof.
  unfold df_get, df_set, column_names.
  destruct (lookup key (columns df)); [|discriminate]. intros _.
  cbn [columns nrows]. now rewrite replace_col_names.
Qed.

Lemma select_cols_names (keys : list string) (l cs : list (string * column)) :
  select_cols keys l = Ok cs -> map fst cs = keys.
Proof.
  revert cs. induction keys as [|k keys IH]; intros cs H; cbn [select_cols] in H.
  - now injection H as <-.
  - destruct (lookup k l); [|discriminate]. invert_bind H. injection H as <-.
    cbn [map fst]. f_equal. now apply IH.
Qed.

Lemma select_cols_In (keys : list string) (l cs : list (string * column)) :
  select_cols keys l = Ok cs -> forall nc, In nc cs -> In nc l.
Proof.
  revert cs. induction keys as [|k keys IH]; intros cs H nc Hin; cbn [select_cols] in H.
  - injection H as <-. contradiction.
  - destruct (lookup k l) as [c|] eqn:E; [|discriminate]. invert_bind H. injection H as <-.
    destruct Hin as [<-|Hin]; [now apply lookup_In|]. eapply IH; eauto.
Qed.

Lemma wf_frame_set (df : DataFrame) (key : string) (c : column) :
  wf_frame df -> col_length c = nrows df -> wf_frame (df_set df key c).
Proof.
  unfold wf_frame, df_set. intros Hwf Hc.
  destruct (lookup key (columns df)); cbn [columns nrows].
  - induction (columns df) as [|[k v] rest IH]; cbn [replace_col]; [constructor|].
    inversion Hwf; subst.
    destruct (String.eqb k key); constructor; auto.
  - apply Forall_app. split; [exact Hwf|]. now repeat constructor.
Qed.

Lemma wf_frame_records (entries : list (list (string * obj))) :
  wf_frame (DataFrame_of_records entries).
Proof.
  unfold wf_frame, DataFrame_of_records. cbn [columns nrows].
  apply Forall_forall. intros nc Hin. apply in_map_iff in Hin as [k [<- _]].
  cbn [snd col_length]. apply length_map.
Qed.

Lemma wf_frame_get (df : DataFrame) (key : string) (c : column) :
  wf_frame df -> df_get df key = Ok c -> col_length c = nrows df.
Proof.
  unfold wf_frame, df_get. intros Hwf H.
  destruct (lookup key (columns df)) as [c'|] eqn:E; [|discriminate].
  injection H as <-. apply lookup_In in E.
  exact (proj1 (Forall_forall _ _) Hwf _ E).
Qed.

Section LoaderSchema.

Variable parse_numeric : list obj -> result column.

Lemma extract_citations_names (corpus out : DataFrame) (source : string) :
  extract_citations corpus source = Ok out ->
  column_names out = column_names corpus /\ nrows out = nrows corpus /\
  (wf_frame corpus -> wf_frame out).
Proof.
  unfold extract_citations. intros H.
  assert (Hbranch : forall f g,
             (c <- df_get corpus "Citations" ;;
              notes <- str_accessor c ;;
              let corpus' := df_set corpus "Citations" (ObjCol (map f notes)) in
              c <- df_get corpus' "Citations" ;;
              pieces <- str_accessor c ;;
              cites <- astype_int (map g pieces) ;;
              Ok (df_set corpus' "Citations" cites)) = Ok out ->
             column_names out = column_names corpus /\ nrows out = nrows corpus /\
             (wf_frame corpus -> wf_frame out)).
  { clear H. intros f g H.
    invert_bind H. rename a into c. invert_bind H. rename a into notes.
    cbv zeta in H. rewrite df_get_set_same in H. cbn [bind str_accessor] in H.
    invert_bind H. rename a into cites. injection H as <-.
    destruct (df_set_names_present corpus "Citations" c (ObjCol (map f notes)) E) as [N1 R1].
    destruct (df_set_names_present (df_set corpus "Citations" (ObjCol (map f notes)))
                "Citations" (ObjCol (map f notes)) cites (df_get_set_same _ _ _)) as [N2 R2].
    split; [congruence|]. split; [congruence|].
    intros Hwf.
    assert (Hlen : List.length notes = nrows corpus).
    { destruct c; try discriminate. injection E0 as <-.
      exact (wf_frame_get _ _ _ Hwf E). }
    unfold astype_int in E1. invert_bind E1. injection E1 as <-.
    apply mapM_length in E2. rewrite !length_map in E2.
    apply wf_frame_set.
    - apply wf_frame_set; [exact Hwf|]. cbn [col_length]. now rewrite length_map.
    - rewrite R1. cbn [col_length]. congruence. }
  destruct (String.eqb source "scopus"); [now apply (Hbranch _ _ H)|].
  destruct (String.eqb source "wos"); [now apply (Hbranch _ _ H)|].
  injection H as <-. auto.
Qed.

Lemma numeric_columns_names (cols : list string) (corpus out : DataFrame) :
  numeric_columns parse_numeric cols corpus = Ok out ->
  column_names out = column_names corpus /\ nrows out = nrows corpus /\
  ((forall l c, parse_numeric l = Ok c -> col_length c = List.length l) ->
   wf_frame corpus -> wf_frame out).
Proof.
  revert corpus. induction cols as [|col cols IH]; intros corpus H; cbn [numeric_columns] in H.
  - injection H as <-. auto.
  - invert_bind H. rename a into c. invert_bind H. rename a into c'.
    destruct (IH _ H) as [N [R W]].
    destruct (df_set_names_present corpus col c c' E) as [N1 R1].
    split; [congruence|]. split; [congruence|].
    intros Hparse Hwf. apply W; [exact Hparse|].
    apply wf_frame_set; [exact Hwf|].
    pose proof (wf_frame_get _ _ _ Hwf E) as Hc.
    destruct c as [l|l|l]; cbn [to_numeric] in E0;
      try (injection E0 as <-; exact Hc).
    rewrite (Hparse _ _ E0). exact Hc.
Qed.

(** What [file_loader] returns, whatever the source: a frame with one row
    per entry of the export and exactly the eleven columns DOI, Title,
    Authors, Year, Source, Volume, Start, End, Abstract, Citations and Type,
    in this order; every column spans all rows when the parser of numbers
    keeps the length of a column. *)
Theorem file_loader_schema (entries : list (list (string * obj))) (source : string)
        (corpus : DataFrame) :
  file_loader parse_numeric entries source = Ok corpus ->
  column_names corpus
  = ["DOI"; "Title"; "Authors"; "Year"; "Source"; "Volume"; "Start"; "End";
     "Abstract"; "Citations"; "Type"] /\
  nrows corpus = List.length entries /\
  ((forall l c, parse_numeric l = Ok c -> col_length c = List.length l) ->
   wf_frame corpus).
Proof.
  unfold file_loader. intros H. cbv zeta in H.
  invert_bind H. rename a into selected. invert_bind H. rename a into cited.
  destruct (numeric_columns_names _ _ _ H) as [N1 [R1 W1]].
  destruct (extract_citations_names _ _ _ E0) as [N2 [R2 W2]].
  unfold df_select in E. invert_bind E. injection E as <-.
  pose proof (select_cols_names _ _ _ E1) as Hnames.
  split; [|split].
  - rewrite N1, N2. unfold column_names, df_rename. cbn [columns].
    rewrite map_map. cbn [fst].
    rewrite <- (map_map fst (fun k => match lookup k corpus_names with
                                         | Some n' => n'
                                         | None => k
                                         end)).
    rewrite Hnames. reflexivity.
  - rewrite R1, R2. reflexivity.
  - intros Hparse. apply W1; [exact Hparse|]. apply W2.
    unfold wf_frame, df_rename. cbn [columns nrows].
    apply Forall_forall. intros nc Hin. apply in_map_iff in Hin as [[k c] [<- Hin]].
    cbn [snd]. apply (select_cols_In _ _ _ E1) in Hin.
    exact (proj1 (Forall_forall _ _) (wf_frame_records entries) _ Hin).
Qed.

End LoaderSchema.

Lemma astype_int_length (l : list obj) (c : column) :
  astype_int l = Ok c -> col_length c = List.length l.
Proof.
  unfold astype_int. intros H. invert_bind H. injection H as <-.
  cbn [col_length]. now apply mapM_length in E.
Qed.

Lemma file_loader_schema_witness :
  exists corpus,
    file_loader parse_integers scopus_entries "scopus" = Ok corpus /\
    column_names corpus
    = ["DOI"; "Title"; "Authors"; "Year"; "Source"; "Volume"; "Start"; "End";
       "Abstract"; "Citations"; "Type"] /\
    nrows corpus = 2%nat /\ wf_frame corpus.
Proof.
  assert (Hrun : exists corpus,
             file_loader parse_integers scopus_entries "scopus" = Ok corpus)
    by (eexists; vm_compute; reflexivity).
  destruct Hrun as [corpus Hrun]. exists corpus. split; [exact Hrun|].
  destruct (file_loader_schema parse_integers scopus_entries "scopus" corpus Hrun)
    as [Hn [Hr Hw]].
  split; [exact Hn|]. split; [exact Hr|]. apply Hw. exact astype_int_length.
Defined.

Open Scope string_scope.

(** ** An export that lacks a field *)

Lemma fold_keys_In (ks seen : list string) (k : string) :
  In k (fold_left (fun acc k => if mem_string k acc then acc else (acc ++ [k])%list) ks seen)
  <-> In k seen \/ In k ks.
Proof.
  revert seen. induction ks as [|a ks IH]; intros seen; cbn [fold_left].
  - cbn [In]. tauto.
  - rewrite IH. destruct (mem_string a seen) eqn:E.
    + apply mem_string_In in E. cbn [In]. split; [tauto|].
      intros [H|[<-|H]]; auto.
    + rewrite in_app_iff. cbn [In]. tauto.
Qed.

(** The columns of [pd.DataFrame(entries)] are the keys the entries use. *)
Lemma union_keys_In (entries : list (list (string * obj))) (seen : list string) (k : string) :
  In k (union_keys seen entries)
  <-> In k seen \/ exists e, In e entries /\ In k (map fst e).
Proof.
  revert seen. induction entries as [|e entries IH]; intros seen; cbn [union_keys].
  - split; [auto|]. intros [H|[e [[] _]]]. exact H.
  - rewrite IH, fold_keys_In. split.
    + intros [[H|H]|[e' [H1 H2]]]; auto.
      * right. exists e. split; [now left|exact H].
      * right. exists e'. split; [now right|exact H2].
    + intros [H|[e' [[<-|H1] H2]]]; auto.
      right. exists e'. auto.
Qed.

Lemma records_lookup_None (entries : list (list (string * obj))) (k : string) :
  (forall e, In e entries -> ~ In k (map fst e)) ->
  lookup k (columns (DataFrame_of_records entries)) = None.
Proof.
  intros Hno. apply lookup_None. unfold DataFrame_of_records. cbn [columns].
  rewrite map_map. cbn [fst]. rewrite map_id.
  intros Hin. apply union_keys_In in Hin as [[]|[e [H1 H2]]].
  exact (Hno e H1 H2).
Qed.

Lemma records_lookup_Some (entries : list (list (string * obj))) (k : string) (c : column) :
  lookup k (columns (DataFrame_of_records entries)) = Some c ->
  exists e, In e entries /\ In k (map fst e).
Proof.
  intros H. apply lookup_In in H.
  assert (Hin : In k (map fst (columns (DataFrame_of_records entries))))
    by (apply in_map_iff; exists (k, c); auto).
  unfold DataFrame_of_records in Hin. cbn [columns] in Hin.
  rewrite map_map in Hin. cbn [fst] in Hin. rewrite map_id in Hin.
  apply union_keys_In in Hin as [[]|H']. exact H'.
Qed.

(** Selecting columns fails on the first name that is no column. *)
Lemma select_cols_missing (keys : list string) (l : list (string * column)) (k : string) :
  In k keys -> lookup k l = None ->
  exists k', select_cols keys l = Raise (KeyError k') /\ In k' keys /\ lookup k' l = None.
Proof.
  induction keys as [|a keys IH]; intros Hin Hk; [contradiction|].
  cbn [select_cols]. destruct (lookup a l) as [c|] eqn:E.
  - destruct Hin as [->|Hin]; [congruence|].
    destruct (IH Hin Hk) as [k' [H1 [H2 H3]]].
    exists k'. rewrite H1. cbn [bind]. auto using in_cons.
  - exists a. auto using in_eq.
Qed.

Section LoaderMissing.

Variable parse_numeric : list obj -> result column.

(** [file_loader] needs every one of the eleven RIS fields in at least one
    entry: when no entry of the export has some field of the list, the
    loader raises a [KeyError] that names a field no entry has, whatever the
    source. An export without entries is the plainest case. *)
Theorem file_loader_missing_field (entries : list (list (string * obj)))
        (source field : string) :
  In field ris_fields ->
  (forall e, In e entries -> ~ In field (map fst e)) ->
  exists k,
    file_loader parse_numeric entries source = Raise (KeyError k) /\
    In k ris_fields /\
    (forall e, In e entries -> ~ In k (map fst e)).
Proof.
  intros Hfield Hno.
  destruct (select_cols_missing ris_fields (columns (DataFrame_of_records entries)) field
              Hfield (records_lookup_None entries field Hno)) as [k [H1 [H2 H3]]].
  exists k. split; [|split; [exact H2|]].
  - unfold file_loader, df_select. cbv zeta. rewrite H1. reflexivity.
  - intros e He Hin.
    assert (Hk : In k (map fst (columns (DataFrame_of_records entries)))).
    { unfold DataFrame_of_records. cbn [columns]. rewrite map_map. cbn [fst].
      rewrite map_id. apply union_keys_In. right. eauto. }
    apply lookup_None in H3. contradiction.
Qed.

End LoaderMissing.

Lemma file_loader_missing_field_witness :
  exists k,
    file_loader parse_integers [] "scopus" = Raise (KeyError k) /\
    In k ris_fields /\
    (forall e, In e (@nil (list (string * obj))) -> ~ In k (map fst e)).
Proof.
  apply (file_loader_missing_field parse_integers [] "scopus" "doi").
  - simpl. tauto.
  - intros e [].
Defined.

Open Scope Z_scope.

(** ** [hyperP_scaler] at small sizes and at whole multiples of 2000 *)

(** A quotient that needs no rounding is kept as it is. *)
Lemma RN_exact (L N D e : Z) :
  normal N D e -> 0 <= e + L ->
  N mod (D * 2 ^ (Zdigits2 (N / D) - 53)) = 0 ->
  D * val L (RN N D e) = N * 2 ^ (e + L).
Proof.
  intros Hn HL Hmod. pose proof Hn as (HN & HD & Hd & He).
  unfold RN. destruct (stage_normal N D e HN HD Hd He) as [-> Hm].
  set (d := Zdigits2 (N / D)) in *.
  rewrite val_carry by lia. unfold val. cbn [fst snd].
  set (B := D * 2 ^ (d - 53)) in *.
  pose proof (pow2_pos (d - 53) ltac:(lia)) as HP.
  assert (HB : 0 < B) by (unfold B; nia).
  rewrite (rnd_exact N B HB Hmod).
  pose proof (Z.div_mod N B ltac:(lia)) as Hdm. rewrite Hmod, Z.add_0_r in Hdm.
  replace (d + e - 53 + L) with (d - 53 + (e + L)) by lia.
  rewrite Z.pow_add_r by lia.
  rewrite Hdm at 2. unfold B. ring.
Qed.

Lemma component_exact (c : Z) (mc : positive) (k : Z) :
  c = 10 \/ c = 15 -> Z.pos mc = c * 2 ^ 49 ->
  1 <= k < 2 ^ 49 ->
  exists q,
    Float64.int_truediv (2000 * k) 2000 = Ok q /\
    Float64.to_int (Float64.mul q (S754_finite false mc (-49))) = Ok (c * k).
Proof.
  intros Hc Hmc Hk.
  set (n := 2000 * k).
  assert (Hn63 : 1 <= n < 2 ^ 63).
  { unfold n. change (2 ^ 63) with (2 ^ 14 * 2 ^ 49). lia. }
  assert (Bc : 2 ^ 52 <= Z.pos mc < 2 ^ 53).
  { rewrite Hmc. change (2 ^ 52) with (8 * 2 ^ 49). change (2 ^ 53) with (16 * 2 ^ 49).
    destruct Hc as [-> | ->]; lia. }
  destruct (truediv_2000 n Hn63) as (mq & eq & Hq & Rq & Bq & Eq).
  destruct (mul_normal mq mc eq (-49) Bq Bc ltac:(lia)) as (m & e & Hm & Rm & Em).
  exists (S754_finite false mq eq). split; [exact Hq|].
  rewrite Hm, (to_int_finite 249) by lia. f_equal.
  destruct (quotient_2000_normal n Hn63) as [Nq Dq]. cbv zeta in Nq, Dq.
  destruct (product_normal (Z.pos mq) (Z.pos mc) eq (-49) Bq Bc ltac:(lia)) as [Np Dp].
  pose proof (digits_positive n ltac:(lia)) as Hd.
  assert (Hd63 : Zdigits2 n <= 63).
  { replace 63 with (Zdigits2 (2 ^ 63 - 1)) by reflexivity. apply digits_mono; lia. }
  set (W := 2 ^ 200).
  assert (HW : 0 < W) by (apply pow2_pos; lia).
  (* the quotient is [k] *)
  assert (HVq : val 200 (Z.pos mq, eq) = k * W).
  { pose proof (RN_exact 200 _ _ _ Nq ltac:(lia)) as Hex. rewrite Rq in Hex.
    assert (E1 : n * 2 ^ (64 - Zdigits2 n) * 2 ^ (Zdigits2 n - 64 + 200) = n * W).
    { rewrite <- Z.mul_assoc, <- Z.pow_add_r by lia. unfold W.
      replace (64 - Zdigits2 n + (Zdigits2 n - 64 + 200)) with 200 by lia. reflexivity. }
    rewrite E1 in Hex.
    assert (Hmod : (n * 2 ^ (64 - Zdigits2 n))
                   mod (2000 * 2 ^ (Zdigits2 (n * 2 ^ (64 - Zdigits2 n) / 2000) - 53)) = 0).
    { set (dq := Zdigits2 (n * 2 ^ (64 - Zdigits2 n) / 2000)) in *.
      set (s := 64 - Zdigits2 n - (dq - 53)).
      assert (Hs : 0 <= s) by (unfold s; lia).
      replace (n * 2 ^ (64 - Zdigits2 n))
        with (k * 2 ^ s * (2000 * 2 ^ (dq - 53))).
      - apply Z.mod_mul. pose proof (pow2_pos (dq - 53) ltac:(lia)). lia.
      - replace (64 - Zdigits2 n) with (s + (dq - 53)) by (unfold s; lia).
        rewrite Z.pow_add_r by lia. unfold n. ring. }
    specialize (Hex Hmod). unfold n in Hex. lia. }
  assert (Heq : eq < 0).
  { unfold val in HVq. cbn [fst snd] in HVq.
    destruct (Z.lt_ge_cases eq 0) as [H|H]; [exact H|exfalso].
    assert (E : 2 ^ (eq + 200) = 2 ^ eq * W)
      by (unfold W; apply Z.pow_add_r; lia).
    rewrite E in HVq.
    assert (Z.pos mq * 2 ^ eq = k) by nia.
    pose proof (pow2_pos eq H).
    assert (2 ^ 49 < 2 ^ 52) by (apply Z.pow_lt_mono_r; lia). nia. }
  assert (Hmq : Z.pos mq = k * 2 ^ (- eq)).
  { unfold val in HVq. cbn [fst snd] in HVq.
    assert (E : W = 2 ^ (- eq) * 2 ^ (eq + 200)).
    { unfold W. rewrite <- Z.pow_add_r by lia. f_equal. lia. }
    rewrite E in HVq. pose proof (pow2_pos (eq + 200) ltac:(lia)). nia. }
  (* the product is [c * k] *)
  pose proof (RN_exact 249 _ _ _ Np ltac:(lia)) as Hex. rewrite Rm in Hex.
  assert (HP : val 249 (Z.pos m, e) = c * k * 2 ^ 249).
  { rewrite !Z.mul_1_l in Hex. rewrite Hex.
    - replace (eq + -49 + 249) with (eq + 200) by lia.
      unfold val in HVq. cbn [fst snd] in HVq.
      replace (Z.pos mq * Z.pos mc * 2 ^ (eq + 200))
        with (Z.pos mc * (Z.pos mq * 2 ^ (eq + 200))) by ring.
      rewrite HVq, Hmc. unfold W.
      change (2 ^ 249) with (2 ^ 49 * 2 ^ 200). ring.
    - set (d2 := Zdigits2 (Z.pos mq * Z.pos mc / 1)) in *.
      assert (Hck : 1 <= c * k < 2 ^ 53).
      { change (2 ^ 53) with (16 * 2 ^ 49). destruct Hc as [-> | ->]; lia. }
      assert (Hprod : Z.pos mq * Z.pos mc = c * k * 2 ^ (49 - eq)).
      { rewrite Hmq, Hmc. replace (49 - eq) with (49 + - eq) by lia.
        rewrite Z.pow_add_r by lia. ring. }
      assert (Hd2 : d2 = Zdigits2 (c * k) + (49 - eq)).
      { unfold d2. rewrite Z.div_1_r, Hprod. apply digits_shiftl; lia. }
      assert (Hdck : Zdigits2 (c * k) <= 53).
      { replace 53 with (Zdigits2 (2 ^ 53 - 1)) by reflexivity. apply digits_mono; lia. }
      set (s := 49 - eq - (d2 - 53)).
      assert (Hs : 0 <= s) by (unfold s; lia).
      rewrite Hprod. replace (49 - eq) with (s + (d2 - 53)) by (unfold s; lia).
      rewrite Z.pow_add_r by lia. rewrite Z.mul_assoc.
      apply Z.mod_mul. pose proof (pow2_pos (d2 - 53) ltac:(lia)). lia. }
  rewrite HP. apply Z.div_mul. pose proof (pow2_pos 249 ltac:(lia)). lia.
Qed.

(** At a whole multiple of the reference size of 2000 documents nothing is
    rounded: a corpus of [2000 * k] documents gets [10 * k + 1] and
    [15 * k + 1], the values of the exact formula. *)
Theorem hyperP_exact_at_multiples (k : Z) :
  0 <= k < 2 ^ 49 ->
  hyperP_of_len (2000 * k) = Ok (10 * k + 1, 15 * k + 1) /\
  hyperP_of_len (2000 * k) = Ok (hyperP_exact (2000 * k)).
Proof.
  intros Hk.
  assert (H : hyperP_of_len (2000 * k) = Ok (10 * k + 1, 15 * k + 1)).
  { destruct (Z.eq_dec k 0) as [->|Hk0]; [reflexivity|].
    destruct (component_exact 10 5629499534213120 k (or_introl eq_refl) eq_refl ltac:(lia))
      as (q & Hq & Hp).
    destruct (component_exact 15 8444249301319680 k (or_intror eq_refl) eq_refl ltac:(lia))
      as (q2 & Hq2 & Hp2).
    assert (q2 = q) by congruence. subst q2.
    rewrite <- of_int_10 in Hp. rewrite <- of_int_15 in Hp2.
    exact (hyperP_of_len_steps _ q _ _ Hq Hp Hp2). }
  split; [exact H|]. rewrite H. unfold hyperP_exact. do 2 f_equal.
  - replace (2000 * k * 10) with (10 * k * 2000) by ring. now rewrite Z.div_mul.
  - replace (2000 * k * 15) with (15 * k * 2000) by ring. now rewrite Z.div_mul.
Qed.

Lemma hyperP_exact_at_multiples_witness :
  hyperP_of_len (2000 * 3) = Ok (10 * 3 + 1, 15 * 3 + 1) /\
  hyperP_of_len (2000 * 3) = Ok (hyperP_exact (2000 * 3)).
Proof. apply (hyperP_exact_at_multiples 3). lia. Defined.

(** Where the outputs leave their minimum: the topic size is 1 for corpora
    of fewer than 200 documents and for no other, the neighbourhood size is
    1 for corpora of fewer than 134 documents and for no other. *)
Theorem hyperP_minimum_range (n : Z) :
  0 <= n < 2 ^ 63 ->
  exists t u,
    hyperP_of_len n = Ok (t, u) /\
    (t = 1 <-> n < 200) /\ (u = 1 <-> n < 134).
Proof.
  intros Hn.
  destruct (hyperP_of_len_monotone n n ltac:(lia) ltac:(lia) ltac:(lia))
    as (t & u & t' & u' & Hrun & _ & Ht & Hu).
  exists t, u. split; [exact Hrun|].
  assert (Hlow : forall b tb ub, hyperP_of_len b = Ok (tb, ub) -> b < 2 ^ 63 -> n <= b ->
                                 t <= tb /\ u <= ub).
  { intros b tb ub Hb Hb63 Hle.
    destruct (hyperP_of_len_monotone n b ltac:(lia) Hle Hb63)
      as (t1 & u1 & t2 & u2 & H1 & H2 & Ht1 & Hu1).
    rewrite Hrun in H1. injection H1 as <- <-.
    rewrite Hb in H2. injection H2 as <- <-. lia. }
  assert (Hhigh : forall a ta ua, hyperP_of_len a = Ok (ta, ua) -> 0 <= a -> a <= n ->
                                  ta <= t /\ ua <= u).
  { intros a ta ua Ha Ha0 Hle.
    destruct (hyperP_of_len_monotone a n Ha0 Hle ltac:(lia))
      as (t1 & u1 & t2 & u2 & H1 & H2 & Ht1 & Hu1).
    rewrite Hrun in H2. injection H2 as <- <-.
    rewrite Ha in H1. injection H1 as <- <-. lia. }
  assert (H199 : hyperP_of_len 199 = Ok (1, 2)) by (vm_compute; reflexivity).
  assert (H200 : hyperP_of_len 200 = Ok (2, 2)) by (vm_compute; reflexivity).
  assert (H133 : hyperP_of_len 133 = Ok (1, 1)) by (vm_compute; reflexivity).
  assert (H134 : hyperP_of_len 134 = Ok (1, 2)) by (vm_compute; reflexivity).
  split; split; intros H.
  - destruct (Z.lt_ge_cases n 200) as [Hlt|Hge]; [exact Hlt|].
    destruct (Hhigh 200 2 2 H200 ltac:(lia) Hge). lia.
  - destruct (Hlow 199 1 2 H199 ltac:(lia) ltac:(lia)). lia.
  - destruct (Z.lt_ge_cases n 134) as [Hlt|Hge]; [exact Hlt|].
    destruct (Hhigh 134 1 2 H134 ltac:(lia) Hge). lia.
  - destruct (Hlow 133 1 1 H133 ltac:(lia) ltac:(lia)). lia.
Qed.

Lemma hyperP_minimum_range_witness :
  exists t u,
    hyperP_of_len 150 = Ok (t, u) /\
    (t = 1 <-> 150 < 200) /\ (u = 1 <-> 150 < 134).
Proof. apply (hyperP_minimum_range 150). lia. Defined.

Open Scope string_scope.

(** ** [topic_model]

    The objects of the libraries are what [topic_model] builds them from:
    a sentence transformer is the name it is loaded by, a UMAP and a
    BERTopic are the keyword arguments they are given. An argument that is
    not passed is [None]. *)

Record UMAP : Type := mkUMAP {
  n_neighbors : Z;
  min_dist : Float64.float;
  metric : string;
  low_memory : bool;
  random_state : option Z
}.

Inductive representation : Type :=
| KeyBERTInspired.

Record BERTopic : Type := mkBERTopic {
  min_topic_size : option Z;
  nr_topics : option Z;
  embedding_model : string;
  representation_model : representation;
  umap_model : option UMAP
}.

(** What a call of [topic_model] ends in: the model, an exception of
    [hyperP_scaler], or the read of a local variable that no branch has
    assigned. *)
Inductive built (A : Type) : Type :=
| Built (a : A)
| Failed (e : error)
| UnboundLocalError (name : string).

Arguments Built {A} a.
Arguments Failed {A} e.
Arguments UnboundLocalError {A} name.

(** [n_topics] is [None] for ["auto"], [seed] is [None] or a number. *)
Definition topic_model {A : Type} (corpus : list A) (embed_model rep_model : string)
           (n_topics seed : option Z) : built BERTopic :=
  let embedding :=
    if String.eqb embed_model "miniLM" then "all-MiniLM-L6-v2"
    else if String.eqb embed_model "specter" then "allenai-specter"
    else embed_model in
  let representation :=
    if String.eqb rep_model "keybert" then Some KeyBERTInspired else None in
  match n_topics with
  | None =>
      match hyperP_scaler corpus with
      | Raise e => Failed e
      | Ok (min_topics, n_umap) =>
          let umap := mkUMAP n_umap Float64.zero "cosine" false seed in
          match representation with
          | None => UnboundLocalError "representation_model"
          | Some r =>
              Built (mkBERTopic (Some min_topics) None embedding r (Some umap))
          end
      end
  | Some k =>
      let umap := mkUMAP 15 Float64.zero "cosine" false
                         (match seed with Some _ => Some 123 | None => None end) in
      match representation with
      | None => UnboundLocalError "representation_model"
      | Some r => Built (mkBERTopic None (Some k) embedding r None)
      end
  end.

(** With ["auto"] the model is built exactly when the representation is
    ["keybert"]: its topic size and the neighbourhood size of its UMAP are
    the two outputs of [hyperP_scaler], both at least 1, and the seed is the
    random state of the UMAP. Any other representation leaves
    [representation_model] unassigned and the call ends in an
    [UnboundLocalError]. *)
Theorem topic_model_auto {A : Type} (corpus : list A) (embed_model rep_model : string)
        (seed : option Z) :
  Z.of_nat (List.length corpus) < 2 ^ 63 ->
  (rep_model = "keybert" ->
   exists t u name,
     hyperP_scaler corpus = Ok (t, u) /\ 1 <= t /\ 1 <= u /\
     topic_model corpus embed_model rep_model None seed
     = Built (mkBERTopic (Some t) None name KeyBERTInspired
                         (Some (mkUMAP u Float64.zero "cosine" false seed)))) /\
  (rep_model <> "keybert" ->
   topic_model corpus embed_model rep_model None seed
   = UnboundLocalError "representation_model").
Proof.
  intros Hlen.
  destruct (hyperP_of_len_monotone (Z.of_nat (List.length corpus))
              (Z.of_nat (List.length corpus)) ltac:(lia) ltac:(lia) Hlen)
    as (t & u & t2 & u2 & Hrun & _ & Ht & Hu).
  unfold topic_model, hyperP_scaler. rewrite Hrun. split.
  - intros ->. cbn [String.eqb Ascii.eqb Bool.eqb].
    exists t, u. eexists. repeat split; try reflexivity; lia.
  - intros Hrep. apply String.eqb_neq in Hrep. now rewrite Hrep.
Qed.

Lemma topic_model_auto_witness :
  (exists t u name,
      hyperP_scaler ["a"; "b"; "c"] = Ok (t, u) /\ 1 <= t /\ 1 <= u /\
      topic_model ["a"; "b"; "c"] "specter" "keybert" None (Some 7)
      = Built (mkBERTopic (Some t) None name KeyBERTInspired
                          (Some (mkUMAP u Float64.zero "cosine" false (Some 7))))) /\
  topic_model ["a"; "b"; "c"] "specter" "other" None (Some 7)
  = UnboundLocalError "representation_model".
Proof.
  split.
  - apply (topic_model_auto ["a"; "b"; "c"] "specter" "keybert" (Some 7));
      [vm_compute; reflexivity|reflexivity].
  - apply (topic_model_auto ["a"; "b"; "c"] "specter" "other" (Some 7));
      [vm_compute; reflexivity|discriminate].
Defined.

(** With a number of topics the UMAP that is built is never handed to
    BERTopic: the model returned is the same for every corpus and every
    seed, so neither the size of the corpus nor the seed has any effect. *)
Theorem topic_model_fixed_topics_ignores_seed {A B : Type}
        (corpus : list A) (corpus' : list B) (embed_model rep_model : string)
        (k : Z) (seed seed' : option Z) :
  topic_model corpus embed_model rep_model (Some k) seed
  = topic_model corpus' embed_model rep_model (Some k) seed' /\
  forall m, topic_model corpus embed_model rep_model (Some k) seed = Built m ->
            umap_model m = None /\ min_topic_size m = None /\ nr_topics m = Some k.
Proof.
  unfold topic_model. split; [reflexivity|].
  intros m H. destruct (String.eqb rep_model "keybert"); [|discriminate].
  injection H as <-. auto.
Qed.

Open Scope string_scope.

(** ** The form of weights: [form_display] and [value_updates] *)

(** A Python [dict] as the list of its items in insertion order:
    [d[key] = v] replaces the value of a key that is there and appends a key
    that is not. *)
Fixpoint dict_replace {A : Type} (key : string) (v : A) (d : list (string * A))
  : list (string * A) :=
  match d with
  | [] => []
  | (k, w) :: rest =>
      if String.eqb k key then (k, v) :: rest else (k, w) :: dict_replace key v rest
  end.

Definition dict_set {A : Type} (d : list (string * A)) (key : string) (v : A)
  : list (string * A) :=
  match lookup key d with
  | Some _ => dict_replace key v d
  | None => (d ++ [(key, v)])%list
  end.

(** [widgets.IntSlider(value=..., min=..., max=..., step=...)] *)
Record IntSlider : Type := mkSlider {
  slider_value : Z;
  slider_min : Z;
  slider_max : Z;
  slider_step : Z
}.

(** What is written to the output widget: a printed text or a slider. *)
Inductive shown : Type :=
| Printed (text : string)
| Displayed (slider : IntSlider).

Definition newline : string := String (ascii_of_nat 10) EmptyString.

(** The body of the loop over the topics, for the topic names after the
    outlier topic's. *)
Fixpoint topic_sliders (names : list string) (out : list shown)
         (sliders_dict : list (string * IntSlider))
  : list shown * list (string * IntSlider) :=
  match names with
  | [] => (out, sliders_dict)
  | name :: rest =>
      let out := (out ++ [Printed ("  " ++ name)])%list in
      let sliders_dict := dict_set sliders_dict name (mkSlider 5 0 10 1) in
      let out := (out ++ [Displayed (mkSlider 5 0 10 1); Printed newline])%list in
      topic_sliders rest out sliders_dict
  end.

(** [form_display]: the output and [sliders_dict]. *)
Definition form_display (model : TopicModel)
  : list shown * list (string * IntSlider) :=
  let out :=
    [Printed newline;
     Printed "  Use the following sliders to weight the following aspects (higher means greater weight):";
     Printed newline;
     Printed "  Number of citations"] in
  let sliders_dict := dict_set [] "cites" (mkSlider 0 0 10 1) in
  let out := (out ++ [Displayed (mkSlider 0 0 10 1); Printed newline;
                      Printed "  Recency of publication"])%list in
  let sliders_dict := dict_set sliders_dict "recency" (mkSlider 0 0 10 1) in
  let out := (out ++ [Displayed (mkSlider 0 0 10 1); Printed newline;
                      Printed "  Topics"])%list in
  let sliders_dict := dict_set sliders_dict "topics" (mkSlider 10 0 10 1) in
  let out := (out ++ [Displayed (mkSlider 10 0 10 1); Printed newline;
                      Printed "  Use the following sliders to weight the different topics (higher means greater weight):";
                      Printed newline])%list in
  topic_sliders (tl (topic_labels_ model)) out sliders_dict.

(** [value_updates]: every slider value divided by 10. *)
Fixpoint value_loop (keys : list string) (sliders_dict : list (string * IntSlider))
         (values_dict : list (string * Float64.float))
  : result (list (string * Float64.float)) :=
  match keys with
  | [] => Ok values_dict
  | key :: rest =>
      slider <- dict_get sliders_dict key ;;
      w <- Float64.int_truediv (slider_value slider) 10 ;;
      value_loop rest sliders_dict (dict_set values_dict key w)
  end.

Definition value_updates (display_form : list shown * list (string * IntSlider))
  : result (list (string * Float64.float)) :=
  let sliders_dict := snd display_form in
  value_loop (map fst sliders_dict) sliders_dict [].

(** *** Facts on dicts *)

Lemma dict_set_fresh {A : Type} (d : list (string * A)) (key : string) (v : A) :
  ~ In key (map fst d) -> dict_set d key v = (d ++ [(key, v)])%list.
Proof. intros H. unfold dict_set. apply lookup_None in H. now rewrite H. Qed.

Lemma lookup_NoDup_In {A : Type} (d : list (string * A)) (key : string) (v : A) :
  NoDup (map fst d) -> In (key, v) d -> lookup key d = Some v.
Proof.
  induction d as [|[k w] rest IH]; cbn [map fst lookup In]; [contradiction|].
  intros Hnd [Heq|Hin].
  - injection Heq as -> ->. now rewrite String.eqb_refl.
  - inversion Hnd as [|? ? Hk Hrest]; subst.
    destruct (String.eqb_spec k key) as [->|Hne].
    + exfalso. apply Hk. apply in_map_iff. exists (key, v). auto.
    + now apply IH.
Qed.

(** *** The weights of a form *)

(** The ten steps of a slider as weights. *)
Lemma tenth_range (v : Z) :
  0 <= v <= 10 ->
  exists w,
    Float64.int_truediv v 10 = Ok w /\
    Float64.leb Float64.zero w = true /\ Float64.leb w Float64.one = true.
Proof.
  intros Hv.
  assert (H : v = 0 \/ v = 1 \/ v = 2 \/ v = 3 \/ v = 4 \/ v = 5 \/ v = 6 \/ v = 7
              \/ v = 8 \/ v = 9 \/ v = 10) by lia.
  repeat (destruct H as [-> | H]; [eexists; repeat split; vm_compute; reflexivity|]).
  subst v. eexists; repeat split; vm_compute; reflexivity.
Qed.

Lemma value_loop_spec (keys : list string) (sliders_dict : list (string * IntSlider))
      (done : list (string * Float64.float)) :
  NoDup (map fst done ++ keys) ->
  Forall (fun key => exists s, lookup key sliders_dict = Some s /\
                               0 <= slider_value s <= 10) keys ->
  exists weights,
    value_loop keys sliders_dict done = Ok (done ++ weights)%list /\
    map fst weights = keys /\
    Forall (fun kw => exists s,
                lookup (fst kw) sliders_dict = Some s /\
                Float64.int_truediv (slider_value s) 10 = Ok (snd kw) /\
                Float64.leb Float64.zero (snd kw) = true /\
                Float64.leb (snd kw) Float64.one = true) weights.
Proof.
  revert done. induction keys as [|key keys IH]; intros done Hnd Hall; cbn [value_loop].
  - exists []. rewrite app_nil_r. auto.
  - inversion Hall as [|? ? [s [Hs Hv]] Hrest]; subst.
    unfold dict_get. rewrite Hs. cbn [bind].
    destruct (tenth_range _ Hv) as [w [Hw [H0 H1]]]. rewrite Hw. cbn [bind].
    assert (Hfresh : ~ In key (map fst done)).
    { intros Hin. apply NoDup_remove_2 in Hnd. apply Hnd.
      apply in_or_app. now left. }
    rewrite (dict_set_fresh done key w Hfresh).
    destruct (IH (done ++ [(key, w)])%list) as [weights [Hrun [Hkeys Hws]]].
    + rewrite map_app. cbn [map fst]. rewrite <- app_assoc. exact Hnd.
    + exact Hrest.
    + exists ((key, w) :: weights). rewrite Hrun, <- app_assoc. cbn [app].
      split; [reflexivity|]. split; [cbn [map fst]; now rewrite Hkeys|].
      constructor; [|exact Hws]. exists s. cbn [fst snd]. auto.
Qed.

(** [value_updates] on a form whose sliders are within their range from 0
    to 10: it returns one weight per slider, under the same keys in the same
    order; every weight is the slider value divided by 10 and lies between
    0.0 and 1.0. *)
Theorem value_updates_range (out : list shown) (sliders_dict : list (string * IntSlider)) :
  NoDup (map fst sliders_dict) ->
  Forall (fun ks => 0 <= slider_value (snd ks) <= 10) sliders_dict ->
  exists weights,
    value_updates (out, sliders_dict) = Ok weights /\
    map fst weights = map fst sliders_dict /\
    Forall (fun kw => exists s,
                lookup (fst kw) sliders_dict = Some s /\
                Float64.int_truediv (slider_value s) 10 = Ok (snd kw) /\
                Float64.leb Float64.zero (snd kw) = true /\
                Float64.leb (snd kw) Float64.one = true) weights.
Proof.
  intros Hnd Hall. unfold value_updates. cbn [snd].
  destruct (value_loop_spec (map fst sliders_dict) sliders_dict []) as [weights H].
  - exact Hnd.
  - apply Forall_forall. intros key Hin. apply in_map_iff in Hin as [[k s] [<- Hin]].
    exists s. split; [now apply lookup_NoDup_In|].
    exact (proj1 (Forall_forall _ _) Hall _ Hin).
  - exists weights. exact H.
Qed.

Lemma value_updates_range_witness :
  exists weights,
    value_updates ([], [("cites", mkSlider 3 0 10 1); ("topics", mkSlider 10 0 10 1)])
    = Ok weights /\
    map fst weights = ["cites"; "topics"] /\
    Forall (fun kw => exists s,
                lookup (fst kw) [("cites", mkSlider 3 0 10 1); ("topics", mkSlider 10 0 10 1)]
                = Some s /\
                Float64.int_truediv (slider_value s) 10 = Ok (snd kw) /\
                Float64.leb Float64.zero (snd kw) = true /\
                Float64.leb (snd kw) Float64.one = true) weights.
Proof.
  apply (value_updates_range [] [("cites", mkSlider 3 0 10 1); ("topics", mkSlider 10 0 10 1)]).
  - repeat constructor; simpl; intuition discriminate.
  - repeat constructor; simpl; lia.
Defined.

Lemma value_loop_exact (keys : list string) (ws : list Float64.float)
      (sliders_dict : list (string * IntSlider)) (done : list (string * Float64.float)) :
  NoDup (map fst done ++ keys) ->
  Forall2 (fun key w => exists s, lookup key sliders_dict = Some s /\
                                  Float64.int_truediv (slider_value s) 10 = Ok w) keys ws ->
  value_loop keys sliders_dict done = Ok (done ++ combine keys ws)%list.
Proof.
  intros Hnd Hall. revert done Hnd.
  induction Hall as [|key w keys ws [s [Hs Hw]] _ IH]; intros done Hnd; cbn [value_loop combine].
  - now rewrite app_nil_r.
  - unfold dict_get. rewrite Hs. cbn [bind]. rewrite Hw. cbn [bind].
    assert (Hfresh : ~ In key (map fst done)).
    { intros Hin. apply NoDup_remove_2 in Hnd. apply Hnd. apply in_or_app. now left. }
    rewrite (dict_set_fresh done key w Hfresh), IH.
    + now rewrite <- app_assoc.
    + rewrite map_app. cbn [map fst]. now rewrite <- app_assoc.
Qed.

Lemma topic_sliders_fresh (names : list string) (out : list shown)
      (sliders_dict : list (string * IntSlider)) :
  NoDup (map fst sliders_dict ++ names) ->
  snd (topic_sliders names out sliders_dict)
  = (sliders_dict ++ map (fun name => (name, mkSlider 5 0 10 1)) names)%list.
Proof.
  revert out sliders_dict. induction names as [|name names IH]; intros out d Hnd;
    cbn [topic_sliders map].
  - now rewrite app_nil_r.
  - assert (Hfresh : ~ In name (map fst d)).
    { intros Hin. apply NoDup_remove_2 in Hnd. apply Hnd. apply in_or_app. now left. }
    rewrite (dict_set_fresh d name _ Hfresh), IH.
    + now rewrite <- app_assoc.
    + rewrite map_app. cbn [map fst]. now rewrite <- app_assoc.
Qed.

(** The three reserved keys of a weight specification. *)
Definition reserved_keys : list string := ["cites"; "recency"; "topics"].

Lemma Forall2_map_const {A B : Type} (P : A -> B -> Prop) (l : list A) (b : B) :
  (forall a, In a l -> P a b) -> Forall2 P l (map (fun _ => b) l).
Proof.
  induction l as [|a l IH]; intros H; cbn [map]; constructor.
  - apply H. now left.
  - apply IH. intros a' Ha'. apply H. now right.
Qed.

Lemma combine_map_const {A B : Type} (l : list A) (b : B) :
  combine l (map (fun _ => b) l) = map (fun a => (a, b)) l.
Proof. induction l as [|a l IH]; cbn [map combine]; [reflexivity|now rewrite IH]. Qed.

(** The weights of the form as [form_display] shows it, before any slider
    is moved: the citations and the recency weigh 0.0, the topics 1.0 and
    every topic after the outlier topic 0.5, in this order, when the topic
    labels differ from one another and from the three reserved keys. *)
Theorem form_default_weights (model : TopicModel) :
  NoDup (reserved_keys ++ tl (topic_labels_ model)) ->
  value_updates (form_display model)
  = Ok ([("cites", Float64.zero); ("recency", Float64.zero); ("topics", Float64.one)]
        ++ map (fun label => (label, half)) (tl (topic_labels_ model)))%list.
Proof.
  intros Hnd. unfold value_updates, form_display. cbv zeta.
  rewrite topic_sliders_fresh by exact Hnd.
  set (labels := tl (topic_labels_ model)) in *.
  cbn [dict_set lookup String.eqb Ascii.eqb Bool.eqb app dict_replace].
  set (d := ("cites", mkSlider 0 0 10 1) :: ("recency", mkSlider 0 0 10 1)
            :: ("topics", mkSlider 10 0 10 1)
            :: map (fun name => (name, mkSlider 5 0 10 1)) labels).
  assert (Hkeys : map fst d = (reserved_keys ++ labels)%list).
  { unfold d, reserved_keys. cbn [map fst app]. do 3 f_equal.
    rewrite map_map. cbn [fst]. apply map_id. }
  rewrite Hkeys.
  rewrite (value_loop_exact _ ([Float64.zero; Float64.zero; Float64.one]
                               ++ map (fun _ => half) labels)).
  - unfold reserved_keys. cbn [app combine]. now rewrite combine_map_const.
  - exact Hnd.
  - assert (Hlook : forall key s, In (key, s) d -> lookup key d = Some s).
    { intros key s. apply lookup_NoDup_In. rewrite Hkeys. exact Hnd. }
    apply Forall2_app.
    + unfold reserved_keys.
      repeat (constructor;
              [eexists; split; [apply Hlook; unfold d; cbn [In]; tauto|reflexivity]|]).
      constructor.
    + apply Forall2_map_const. intros l Hl.
      exists (mkSlider 5 0 10 1). split; [|reflexivity].
      apply Hlook. unfold d. do 3 right.
      apply in_map_iff. exists l. auto.
Qed.

Lemma form_default_weights_witness :
  value_updates (form_display model4)
  = Ok ([("cites", Float64.zero); ("recency", Float64.zero); ("topics", Float64.one)]
        ++ map (fun label => (label, half)) (tl (topic_labels_ model4)))%list.
Proof.
  apply (form_default_weights model4).
  repeat constructor; simpl; intuition discriminate.
Defined.

Open Scope string_scope.

(** ** When [inclusion_criteria] returns *)

(** A column of numbers under the name [key]: one whose values can be read
    as [float64]. *)
Definition numeric (df : DataFrame) (key : string) : Prop :=
  exists c fs, df_get df key = Ok c /\ col_floats c = Ok fs.

(** A column of dtype [int64] or [float64]. *)
Definition numeric_dtype (df : DataFrame) (key : string) : Prop :=
  exists c, df_get df key = Ok c /\
            match c with
            | ObjCol _ => False
            | _ => True
            end.

Lemma numeric_dtype_numeric (df : DataFrame) (key : string) :
  numeric_dtype df key -> numeric df key.
Proof.
  intros [c [Hget Hc]]. destruct c as [l|l|l]; [| |contradiction].
  - exists (IntCol l), (map Float64.of_int l). now split.
  - exists (FloatCol l), l. now split.
Qed.

Lemma numeric_set_same (df : DataFrame) (key : string) (l : list Float64.float) :
  numeric (df_set df key (FloatCol l)) key.
Proof. exists (FloatCol l), l. split; [apply df_get_set_same|reflexivity]. Qed.

Lemma numeric_set (df : DataFrame) (key k : string) (l : list Float64.float) :
  numeric df k -> numeric (df_set df key (FloatCol l)) k.
Proof.
  intros [c [fs [Hget Hfs]]]. destruct (String.eqb_spec key k) as [->|Hne].
  - apply numeric_set_same.
  - exists c, fs. split; [|exact Hfs]. now rewrite df_get_set_other.
Qed.

Lemma minmax_returns (c : column) (fs : list Float64.float) :
  col_floats c = Ok fs -> exists n, minmax c = Ok n.
Proof.
  destruct c as [l|l|l]; cbn [col_floats minmax]; intros H; eauto.
  rewrite H. cbn [bind]. eauto.
Qed.

Lemma col_mul_returns (c : column) (fs : list Float64.float) (w : Float64.float) :
  col_floats c = Ok fs -> col_mul c w = Ok (FloatCol (scale w fs)).
Proof. intros H. unfold col_mul. now rewrite H. Qed.

(** The keys of a weight specification that are no reserved key, and the
    names of the columns the loop writes for them. *)
Definition topic_keys (weights : list (string * Float64.float)) : list string :=
  filter (fun key => negb (String.eqb key "cites") && negb (String.eqb key "recency")
                     && negb (String.eqb key "topics"))
         (map fst weights).

Lemma weight_loop_returns (weights : list (string * Float64.float)) (output : DataFrame)
      (score_list : list string) :
  numeric output "Citations" -> numeric output "Year" ->
  (forall key, In key (topic_keys weights) -> numeric output key) ->
  exists reached,
    weight_loop weights output score_list
    = Ok (reached, (score_list ++ map (fun key => (key ++ "W")%string) (topic_keys weights))%list) /\
    (forall k, numeric output k -> numeric reached k) /\
    (forall key, In key (topic_keys weights) -> numeric reached (key ++ "W")) /\
    (In "cites" (map fst weights) -> numeric reached "cite_score") /\
    (In "recency" (map fst weights) -> numeric reached "recency_score").
Proof.
  revert output score_list.
  induction weights as [|[key w] rest IH]; intros output score_list Hc Hy Hkeys.
  - exists output. cbn [weight_loop topic_keys map filter]. rewrite app_nil_r.
    repeat split; auto; intros [].
  - cbn [weight_loop]. unfold topic_keys in *. cbn [map fst filter] in *.
    destruct (String.eqb_spec key "cites") as [->|Hk1].
    { cbn [negb andb] in *.
      destruct Hc as [c [fs [Hget Hfs]]]. rewrite Hget. cbn [bind].
      destruct (minmax_returns c fs Hfs) as [n Hn]. rewrite Hn. cbn [bind].
      rewrite df_get_set_same. cbn [bind col_mul col_floats].
      set (out1 := df_set (df_set output "cite_score" (FloatCol n)) "cite_score"
                          (FloatCol (scale w n))).
      assert (Hkeep : forall k, numeric output k -> numeric out1 k)
        by (intros k Hk; unfold out1; now do 2 apply numeric_set).
      destruct (IH out1 score_list) as [reached [Hrun [H1 [H2 [H3 H4]]]]].
      - apply Hkeep. now exists c, fs.
      - now apply Hkeep.
      - intros k Hk. apply Hkeep. now apply Hkeys.
      - exists reached. split; [exact Hrun|]. split; [auto|]. split; [exact H2|].
        split; [|intros [E|Hin]; [discriminate|auto]].
        intros _. apply H1. apply numeric_set_same. }
    destruct (String.eqb_spec key "recency") as [->|Hk2].
    { cbn [negb andb] in *.
      destruct Hy as [c [fs [Hget Hfs]]]. rewrite Hget. cbn [bind].
      destruct (minmax_returns c fs Hfs) as [n Hn]. rewrite Hn. cbn [bind].
      rewrite df_get_set_same. cbn [bind col_mul col_floats].
      set (out1 := df_set (df_set output "recency_score" (FloatCol n)) "recency_score"
                          (FloatCol (scale w n))).
      assert (Hkeep : forall k, numeric output k -> numeric out1 k)
        by (intros k Hk; unfold out1; now do 2 apply numeric_set).
      destruct (IH out1 score_list) as [reached [Hrun [H1 [H2 [H3 H4]]]]].
      - now apply Hkeep.
      - apply Hkeep. now exists c, fs.
      - intros k Hk. apply Hkeep. now apply Hkeys.
      - exists reached. split; [exact Hrun|]. split; [auto|]. split; [exact H2|].
        split; [intros [E|Hin]; [discriminate|auto]|].
        intros _. apply H1. apply numeric_set_same. }
    destruct (String.eqb_spec key "topics") as [->|Hk3].
    { cbn [negb andb] in *.
      destruct (IH output score_list Hc Hy Hkeys) as [reached [Hrun [H1 [H2 [H3 H4]]]]].
      exists reached. split; [exact Hrun|]. split; [auto|]. split; [exact H2|].
      split; intros [E|Hin]; try discriminate; auto. }
    cbn [negb andb] in *.
    destruct (Hkeys key (or_introl eq_refl)) as [c [fs [Hget Hfs]]].
    rewrite Hget. cbn [bind]. rewrite (col_mul_returns c fs w Hfs). cbn [bind].
    set (out1 := df_set output (key ++ "W") (FloatCol (scale w fs))).
    assert (Hkeep : forall k, numeric output k -> numeric out1 k)
      by (intros k Hk; unfold out1; now apply numeric_set).
    destruct (IH out1 (score_list ++ [(key ++ "W")%string])%list) as [reached [Hrun [H1 [H2 [H3 H4]]]]].
    + now apply Hkeep.
    + now apply Hkeep.
    + intros k Hk. apply Hkeep. apply Hkeys. now right.
    + exists reached. cbn [map]. rewrite <- app_assoc in Hrun. cbn [app] in Hrun.
      split; [exact Hrun|]. split; [auto|]. split.
      * intros k [<-|Hk]; [|now apply H2]. apply H1. apply numeric_set_same.
      * split; intros [E|Hin]; try contradiction; auto.
Qed.

Lemma numeric_In (df : DataFrame) (key : string) :
  numeric df key -> In key (column_names df).
Proof.
  intros [c [fs [Hget _]]]. unfold df_get in Hget.
  destruct (lookup key (columns df)) as [c'|] eqn:E; [|discriminate].
  apply lookup_In in E. unfold column_names. apply in_map_iff. exists (key, c'). auto.
Qed.

Lemma select_cols_numeric (df : DataFrame) (keys : list string) :
  (forall k, In k keys -> numeric df k) ->
  exists cs,
    select_cols keys (columns df) = Ok cs /\
    exists fss, mapM (fun nc => col_floats (snd nc)) cs = Ok fss.
Proof.
  induction keys as [|k keys IH]; intros H; cbn [select_cols].
  - exists []. split; [reflexivity|]. now exists [].
  - destruct (H k (or_introl eq_refl)) as [c [fs [Hget Hfs]]].
    unfold df_get in Hget. destruct (lookup k (columns df)) as [c'|]; [|discriminate].
    injection Hget as ->.
    destruct IH as [cs [Hcs [fss Hfss]]]; [intros k' Hk'; apply H; now right|].
    rewrite Hcs. cbn [bind]. exists ((k, c) :: cs). split; [reflexivity|].
    exists (fs :: fss). cbn [mapM snd]. rewrite Hfs. cbn [bind]. now rewrite Hfss.
Qed.

Lemma col_add_returns (a b : column) (x y : list Float64.float) :
  col_floats a = Ok x -> col_floats b = Ok y ->
  col_add a b = Ok (FloatCol (add_lists x y)).
Proof. intros Ha Hb. unfold col_add. now rewrite Ha, Hb. Qed.

Lemma lookup_Some_In {A : Type} (key : string) (l : list (string * A)) :
  In key (map fst l) -> exists v, lookup key l = Some v.
Proof.
  intros Hin. destruct (lookup key l) as [v|] eqn:E; [now exists v|].
  apply lookup_None in E. contradiction.
Qed.

Lemma df_set_nrows (df : DataFrame) (key : string) (c : column) :
  nrows (df_set df key c) = nrows df.
Proof. unfold df_set. now destruct (lookup key (columns df)). Qed.

Lemma weight_loop_nrows (weights : list (string * Float64.float)) (output reached : DataFrame)
      (score_list names : list string) :
  weight_loop weights output score_list = Ok (reached, names) ->
  nrows reached = nrows output.
Proof.
  revert output score_list.
  induction weights as [|[key w] rest IH]; intros output sl H; cbn [weight_loop] in H.
  - now injection H as <- _.
  - destruct (String.eqb key "cites").
    { repeat invert_bind H. apply IH in H. now rewrite H, !df_set_nrows. }
    destruct (String.eqb key "recency").
    { repeat invert_bind H. apply IH in H. now rewrite H, !df_set_nrows. }
    destruct (negb (String.eqb key "topics")).
    { repeat invert_bind H. apply IH in H. now rewrite H, !df_set_nrows. }
    now apply IH in H.
Qed.

Lemma score_frame_returns (output : DataFrame) (weights : list (string * Float64.float)) :
  numeric output "Citations" -> numeric output "Year" ->
  (forall key, In key (topic_keys weights) -> numeric output key) ->
  In "cites" (map fst weights) -> In "recency" (map fst weights) ->
  In "topics" (map fst weights) ->
  exists scored,
    score_frame output weights
    = Ok (scored, map (fun key => key ++ "W") (topic_keys weights)) /\
    nrows scored = nrows output /\
    (forall k, numeric output k -> numeric scored k) /\
    (forall key, In key (topic_keys weights) -> numeric scored (key ++ "W")) /\
    numeric scored "cite_score" /\ numeric scored "recency_score" /\
    numeric scored "topic_score" /\
    exists sc, df_get scored "score" = Ok (FloatCol sc).
Proof.
  intros Hc Hy Hkeys Hcites Hrec Htop.
  destruct (weight_loop_returns weights output [] Hc Hy Hkeys)
    as [reached [Hrun [H1 [H2 [H3 H4]]]]].
  cbn [app] in Hrun. unfold score_frame. rewrite Hrun. cbn [bind].
  set (names := map (fun key => key ++ "W") (topic_keys weights)) in *.
  destruct (select_cols_numeric reached names) as [cs [Hcs [fss Hfss]]].
  { intros k Hk. apply in_map_iff in Hk as [key [<- Hkey]]. now apply H2. }
  unfold df_select. rewrite Hcs. cbn [bind].
  unfold sum_axis1. cbn [columns nrows]. rewrite Hfss. cbn [bind].
  rewrite df_get_set_same. cbn [bind minmax].
  rewrite df_get_set_same. cbn [bind].
  destruct (lookup_Some_In "topics" weights Htop) as [wt Hwt].
  unfold dict_get. rewrite Hwt. cbn [bind col_mul col_floats].
  set (total := map (row_sum fss) (seq 0 (nrows reached))).
  set (out3 := df_set (df_set (df_set reached "topic_score" (FloatCol total))
                              "topic_score" (FloatCol (minmax_float total)))
                      "topic_score" (FloatCol (scale wt (minmax_float total)))).
  assert (Hkeep : forall k, numeric reached k -> numeric out3 k)
    by (intros k Hk; unfold out3; now do 3 apply numeric_set).
  destruct (Hkeep _ (H3 Hcites)) as [cs' [x [Hgc Hx]]].
  destruct (Hkeep _ (H4 Hrec)) as [rs' [y [Hgr Hy']]].
  rewrite Hgc. cbn [bind]. rewrite Hgr. cbn [bind].
  unfold out3 at 1. rewrite df_get_set_same. cbn [bind].
  rewrite (col_add_returns _ _ x y Hx Hy'). cbn [bind].
  rewrite (col_add_returns (FloatCol (add_lists x y))
                           (FloatCol (scale wt (minmax_float total))) (add_lists x y)
                           (scale wt (minmax_float total)) eq_refl eq_refl).
  cbn [bind].
  eexists. split; [reflexivity|].
  pose proof (weight_loop_nrows _ _ _ _ _ Hrun) as Hreached.
  split; [unfold out3; now rewrite !df_set_nrows|].
  split; [intros k Hk; apply numeric_set, Hkeep, H1, Hk|].
  split; [intros key Hkey; apply numeric_set, Hkeep, H2, Hkey|].
  split; [apply numeric_set, Hkeep, H3, Hcites|].
  split; [apply numeric_set, Hkeep, H4, Hrec|].
  split; [apply numeric_set; unfold out3; apply numeric_set_same|].
  eexists. apply df_get_set_same.
Qed.

Lemma df_take_names (df : DataFrame) (indexer : list nat) :
  column_names (df_take df indexer) = column_names df.
Proof. unfold column_names, df_take. cbn [columns]. rewrite map_map. reflexivity. Qed.

Lemma df_drop_returns (df : DataFrame) (labels : list string) :
  (forall k, In k labels -> In k (column_names df)) ->
  df_drop df labels
  = Ok (mkDF (nrows df)
             (filter (fun nc => negb (mem_string (fst nc) labels)) (columns df))).
Proof.
  intros H. unfold df_drop.
  destruct (find (fun k => negb (mem_string k (column_names df))) labels) as [k|] eqn:E;
    [|reflexivity].
  apply find_some in E as [Hin Hk]. apply negb_true_iff in Hk.
  assert (Hm : mem_string k (column_names df) = true) by (apply mem_string_In; auto).
  congruence.
Qed.

Lemma ranking_returns {S : ArgSort}
        (corpus : DataFrame) (model : TopicModel)
        (weights : list (string * Float64.float)) (include_scores : bool)
        (output : DataFrame) :
  integrate corpus model = Ok output ->
  numeric output "Citations" -> numeric output "Year" ->
  (forall key, In key (topic_keys weights) -> numeric output key) ->
  In "cites" (map fst weights) -> In "recency" (map fst weights) ->
  In "topics" (map fst weights) ->
  exists out, inclusion_criteria corpus model weights include_scores = Ok out.
Proof.
  intros Hint Hc Hy Hkeys H1 H2 H3.
  destruct (score_frame_returns output weights Hc Hy Hkeys H1 H2 H3)
    as [scored [Hrun [_ [_ [Hw [_ [_ [_ [sc Hsc]]]]]]]]].
  rewrite (inclusion_criteria_stages corpus model weights include_scores scored
             (map (fun key => key ++ "W") (topic_keys weights)) sc).
  - destruct include_scores; [eauto|].
    rewrite df_drop_returns; [eauto|].
    intros k Hk. rewrite df_take_names. apply numeric_In.
    apply in_map_iff in Hk as [key [<- Hkey]]. now apply Hw.
  - rewrite Hint. exact Hrun.
  - exact Hsc.
Qed.

(** Sufficient conditions for [inclusion_criteria] to return, for a dict of
    weights: the corpus and the topic proportions are set side by side into
    a frame with distinct labels; its Citations and Year columns are [int64]
    or [float64] columns; the weights hold the three reserved keys; every
    other key of the weights names an [int64] or [float64] column of that
    frame. Then no exception is raised, with or without [include_scores]. *)
Theorem inclusion_criteria_returns {S : ArgSort}
        (corpus : DataFrame) (model : TopicModel)
        (weights : list (string * Float64.float)) (include_scores : bool)
        (output : DataFrame) :
  integrate corpus model = Ok output ->
  NoDup (column_names output) ->
  NoDup (map fst weights) ->
  numeric_dtype output "Citations" -> numeric_dtype output "Year" ->
  (forall key, In key (topic_keys weights) -> numeric_dtype output key) ->
  In "cites" (map fst weights) -> In "recency" (map fst weights) ->
  In "topics" (map fst weights) ->
  exists out, inclusion_criteria corpus model weights include_scores = Ok out.
Proof.
  intros Hint _ _ Hc Hy Hkeys H1 H2 H3.
  apply numeric_dtype_numeric in Hc, Hy.
  assert (Hkeys' : forall key, In key (topic_keys weights) -> numeric output key)
    by (intros key Hkey; apply numeric_dtype_numeric; now apply Hkeys).
  destruct (score_frame_returns output weights Hc Hy Hkeys' H1 H2 H3)
    as [scored [Hrun [_ [_ [Hw [_ [_ [_ [sc Hsc]]]]]]]]].
  rewrite (inclusion_criteria_stages corpus model weights include_scores scored
             (map (fun key => key ++ "W") (topic_keys weights)) sc).
  - destruct include_scores; [eauto|].
    rewrite df_drop_returns; [eauto|].
    intros k Hk. rewrite df_take_names. apply numeric_In.
    apply in_map_iff in Hk as [key [<- Hkey]]. now apply Hw.
  - rewrite Hint. exact Hrun.
  - exact Hsc.
Qed.

Lemma NoDup_by_computation (l : list string) : nodup string_dec l = l -> NoDup l.
Proof. intros <-. apply NoDup_nodup. Qed.

Ltac column_by_computation :=
  match goal with
  | |- exists c, df_get ?df ?key = Ok c /\ _ =>
      let r := eval vm_compute in (df_get df key) in
      match r with
      | Ok ?col => exists col; split; [vm_compute; reflexivity|exact I]
      end
  end.

Lemma inclusion_criteria_returns_witness :
  exists out,
    inclusion_criteria (S := stable_sort) corpus4 model4 weights_with_topics false = Ok out.
Proof.
  pose (output := match integrate corpus4 model4 with
                  | Ok o => o
                  | Raise _ => corpus4
                  end).
  assert (Hint : integrate corpus4 model4 = Ok output) by (vm_compute; reflexivity).
  apply (inclusion_criteria_returns (S := stable_sort) corpus4 model4 weights_with_topics
           false output Hint);
    try (unfold numeric_dtype; column_by_computation); try (simpl; tauto);
    try (apply NoDup_by_computation; vm_compute; reflexivity).
  intros key Hkey. vm_compute in Hkey.
  destruct Hkey as [<-|[<-|[]]]; (unfold numeric_dtype; column_by_computation).
Defined.

Open Scope string_scope.

(** ** The weights of the form and the scoring *)

Lemma mapM_obj_number_pad (l : list obj) (fs : list Float64.float) (k : nat) :
  mapM obj_number l = Ok fs ->
  mapM obj_number (l ++ repeat ONaN k) = Ok (fs ++ repeat Float64.nan k)%list.
Proof.
  revert fs. induction l as [|o l IH]; intros fs H; cbn [mapM app] in *.
  - injection H as <-. cbn [app]. induction k as [|k IHk]; cbn [repeat mapM]; [reflexivity|].
    cbn [obj_number bind]. now rewrite IHk.
  - invert_bind H. invert_bind H. injection H as <-.
    rewrite (IH _ eq_refl). reflexivity.
Qed.

Lemma col_floats_pad (n : nat) (c : column) (fs : list Float64.float) :
  col_floats c = Ok fs -> exists fs', col_floats (pad_col n c) = Ok fs'.
Proof.
  intros H. unfold pad_col. destruct (n - col_length c)%nat as [|k]; [eauto|].
  destruct c as [l|l|l]; cbn [col_floats] in *; eauto.
  erewrite mapM_obj_number_pad by exact H. eauto.
Qed.

Lemma matrix_frame_lookup (rows : list (list Float64.float)) (names : list string)
      (label : string) (start : nat) :
  In label names ->
  exists l,
    lookup label
           (map (fun jn : nat * string =>
                   (snd jn, FloatCol (map (fun r => nth (fst jn) r Float64.nan) rows)))
                (combine (seq start (List.length names)) names))
    = Some (FloatCol l).
Proof.
  revert start. induction names as [|name names IH]; intros start Hin; [contradiction|].
  cbn [List.length seq combine map lookup fst snd].
  destruct (String.eqb_spec name label) as [->|Hne]; [eauto|].
  destruct Hin as [->|Hin]; [contradiction|]. now apply IH.
Qed.

Lemma integrate_numeric_corpus (corpus output : DataFrame) (model : TopicModel) (k : string) :
  integrate corpus model = Ok output -> numeric corpus k -> numeric output k.
Proof.
  unfold integrate. intros H [c [fs [Hget Hfs]]].
  invert_bind H. invert_bind H. injection H as <-.
  unfold df_get in Hget. destruct (lookup k (columns corpus)) as [c'|] eqn:El; [|discriminate].
  injection Hget as ->.
  destruct (col_floats_pad (Nat.max (nrows corpus) (nrows a0)) c fs Hfs) as [fs' Hfs'].
  exists (pad_col (Nat.max (nrows corpus) (nrows a0)) c), fs'. split; [|exact Hfs'].
  unfold df_get, concat_axis1. cbn [columns].
  rewrite (lookup_map_snd (pad_col (Nat.max (nrows corpus) (nrows a0)))), lookup_app, El.
  reflexivity.
Qed.

Lemma integrate_numeric_topic (corpus output : DataFrame) (model : TopicModel)
      (label : string) :
  integrate corpus model = Ok output ->
  In label (tl (topic_labels_ model)) -> ~ In label (column_names corpus) ->
  numeric output label.
Proof.
  unfold integrate. intros H Hin Hnot.
  invert_bind H. invert_bind H. injection H as <-.
  unfold DataFrame_of_matrix in E0.
  destruct (Nat.eqb _ _); [|discriminate]. injection E0 as <-.
  destruct (matrix_frame_lookup (mat_rows (approximate_distribution model (cells a)))
              (tl (topic_labels_ model)) label 0 Hin) as [l Hl].
  set (n := Nat.max (nrows corpus)
                    (List.length (mat_rows (approximate_distribution model (cells a))))).
  destruct (col_floats_pad n (FloatCol l) l eq_refl) as [fs' Hfs'].
  exists (pad_col n (FloatCol l)), fs'. split; [|exact Hfs'].
  unfold df_get, concat_axis1. cbn [columns nrows]. fold n.
  rewrite (lookup_map_snd (pad_col n)), lookup_app.
  apply lookup_None in Hnot. unfold column_names in Hnot.
  rewrite Hnot, Hl. reflexivity.
Qed.

Lemma value_loop_keys (keys : list string) (sliders_dict : list (string * IntSlider))
      (done weights : list (string * Float64.float)) :
  NoDup (map fst done ++ keys) ->
  value_loop keys sliders_dict done = Ok weights ->
  map fst weights = (map fst done ++ keys)%list.
Proof.
  revert done. induction keys as [|key keys IH]; intros done Hnd H; cbn [value_loop] in H.
  - injection H as <-. now rewrite app_nil_r.
  - invert_bind H. invert_bind H.
    assert (Hfresh : ~ In key (map fst done)).
    { intros Hin. apply NoDup_remove_2 in Hnd. apply Hnd. apply in_or_app. now left. }
    rewrite (dict_set_fresh done key _ Hfresh) in H.
    apply IH in H.
    + rewrite H, map_app. cbn [map fst]. now rewrite <- app_assoc.
    + rewrite map_app. cbn [map fst]. now rewrite <- app_assoc.
Qed.

Lemma form_display_keys (model : TopicModel) :
  NoDup (reserved_keys ++ tl (topic_labels_ model)) ->
  map fst (snd (form_display model)) = (reserved_keys ++ tl (topic_labels_ model))%list.
Proof.
  intros Hnd. unfold form_display. cbv zeta.
  rewrite topic_sliders_fresh by exact Hnd.
  cbn [dict_set lookup String.eqb Ascii.eqb Bool.eqb app dict_replace].
  unfold reserved_keys. cbn [map fst app]. do 3 f_equal.
  rewrite map_map. cbn [fst]. apply map_id.
Qed.

Lemma topic_keys_form (labels : list string) (weights : list (string * Float64.float)) :
  map fst weights = (reserved_keys ++ labels)%list ->
  forall key, In key (topic_keys weights) -> In key labels.
Proof.
  intros Hkeys key Hin. unfold topic_keys in Hin. rewrite Hkeys in Hin.
  apply filter_In in Hin as [Hin Hf].
  unfold reserved_keys in Hin. cbn [app In] in Hin.
  destruct Hin as [<-|[<-|[<-|Hin]]]; try discriminate. exact Hin.
Qed.

(** The form and the scoring fit together: for a corpus with distinct
    labels, an Abstract column and Citations and Year columns of dtype
    [int64] or [float64], and a fitted model whose distribution has one
    column per topic after the outlier topic, with topic labels that differ
    from one another, from the reserved keys and from the names of the
    columns of the corpus, the weights
    [value_updates] reads from the sliders of the form of this model are
    accepted by [inclusion_criteria], wherever the sliders stand: no key is
    unknown, no exception is raised. *)
Theorem form_weights_accepted {S : ArgSort}
        (corpus : DataFrame) (model : TopicModel) (abstracts : column)
        (out : list shown) (sliders_dict : list (string * IntSlider))
        (weights : list (string * Float64.float)) (include_scores : bool) :
  df_get corpus "Abstract" = Ok abstracts ->
  mat_width (approximate_distribution model (cells abstracts))
  = List.length (tl (topic_labels_ model)) ->
  NoDup (column_names corpus) ->
  numeric_dtype corpus "Citations" -> numeric_dtype corpus "Year" ->
  NoDup (reserved_keys ++ tl (topic_labels_ model)) ->
  (forall label, In label (tl (topic_labels_ model)) -> ~ In label (column_names corpus)) ->
  map fst sliders_dict = map fst (snd (form_display model)) ->
  value_updates (out, sliders_dict) = Ok weights ->
  exists ranked, inclusion_criteria corpus model weights include_scores = Ok ranked.
Proof.
  intros Habs Hwidth _ Hc Hy Hnd Hfresh Hsl Hval.
  apply numeric_dtype_numeric in Hc, Hy.
  rewrite (form_display_keys model Hnd) in Hsl.
  assert (Hkeys : map fst weights = (reserved_keys ++ tl (topic_labels_ model))%list).
  { unfold value_updates in Hval. cbn [snd] in Hval. rewrite Hsl in Hval.
    apply value_loop_keys in Hval; [exact Hval|exact Hnd]. }
  assert (Hint : exists output, integrate corpus model = Ok output).
  { unfold integrate. rewrite Habs. cbn [bind]. unfold DataFrame_of_matrix.
    rewrite Hwidth, Nat.eqb_refl. cbn [bind]. eauto. }
  destruct Hint as [output Hint].
  apply (ranking_returns corpus model weights include_scores output Hint).
  - exact (integrate_numeric_corpus _ _ _ _ Hint Hc).
  - exact (integrate_numeric_corpus _ _ _ _ Hint Hy).
  - intros key Hkey. pose proof (topic_keys_form _ _ Hkeys key Hkey) as Hl.
    exact (integrate_numeric_topic _ _ _ _ Hint Hl (Hfresh _ Hl)).
  - rewrite Hkeys. unfold reserved_keys. cbn [app In]. tauto.
  - rewrite Hkeys. unfold reserved_keys. cbn [app In]. tauto.
  - rewrite Hkeys. unfold reserved_keys. cbn [app In]. tauto.
Qed.

Lemma form_weights_accepted_witness :
  exists ranked,
    inclusion_criteria (S := stable_sort) corpus4 model4
      [("cites", Float64.zero); ("recency", Float64.zero); ("topics", Float64.one);
       ("0_graphs", half); ("1_proofs", half)] false
    = Ok ranked.
Proof.
  eapply (form_weights_accepted (S := stable_sort) corpus4 model4 _ []
            (snd (form_display model4))).
  - vm_compute. reflexivity.
  - reflexivity.
  - apply NoDup_by_computation. vm_compute. reflexivity.
  - (unfold numeric_dtype; column_by_computation).
  - (unfold numeric_dtype; column_by_computation).
  - repeat constructor; simpl; intuition discriminate.
  - simpl. intuition (subst; discriminate).
  - reflexivity.
  - vm_compute. reflexivity.
Defined.

Open Scope string_scope.

(** ** The columns [inclusion_criteria] reads and leaves *)

Lemma df_set_names_in (df : DataFrame) (key : string) (c : column) (k : string) :
  In k (column_names (df_set df key c)) <-> In k (column_names df) \/ k = key.
Proof.
  unfold df_set, column_names.
  destruct (lookup key (columns df)) as [c0|] eqn:E; cbn [columns].
  - assert (Hn : map fst (replace_col key c (columns df)) = map fst (columns df)).
    { clear E. induction (columns df) as [|[a v] rest IH]; cbn [replace_col map fst];
        [reflexivity|].
      destruct (String.eqb a key); cbn [map fst]; [reflexivity|now rewrite IH]. }
    rewrite Hn. split; [auto|]. intros [H| ->]; [exact H|].
    apply lookup_In in E. apply in_map_iff. exists (key, c0). auto.
  - rewrite map_app, in_app_iff. cbn [map fst In]. intuition.
Qed.

Lemma df_get_In (df : DataFrame) (key : string) (c : column) :
  df_get df key = Ok c -> In key (column_names df).
Proof.
  unfold df_get. destruct (lookup key (columns df)) as [c'|] eqn:E; [|discriminate].
  intros _. apply lookup_In in E. unfold column_names. apply in_map_iff.
  exists (key, c'). auto.
Qed.

(** The names the loop collects, and where the columns of the frame it
    leaves come from. *)
Lemma weight_loop_columns (weights : list (string * Float64.float))
      (output reached : DataFrame) (score_list names : list string) :
  weight_loop weights output score_list = Ok (reached, names) ->
  names = (score_list ++ map (fun key => (key ++ "W")%string) (topic_keys weights))%list /\
  (forall k, In k (column_names output) -> In k (column_names reached)) /\
  (forall key, In key (topic_keys weights) -> In (key ++ "W") (column_names reached)) /\
  (forall k, In k (column_names reached) ->
             In k (column_names output) \/
             (k = "cite_score" /\ In "cites" (map fst weights)) \/
             (k = "recency_score" /\ In "recency" (map fst weights)) \/
             exists key, In key (topic_keys weights) /\ k = key ++ "W").
Proof.
  revert output score_list.
  induction weights as [|[key w] rest IH]; intros output sl H; cbn [weight_loop] in H.
  - injection H as <- <-. unfold topic_keys. cbn [map filter]. rewrite app_nil_r.
    repeat split; auto. intros key [].
  - unfold topic_keys in *. cbn [map fst filter].
    destruct (String.eqb_spec key "cites") as [-> |Hk1].
    { cbn [negb andb]. repeat invert_bind H.
      destruct (IH _ _ H) as [Hn [Hkeep [Hw Hfrom]]].
      split; [exact Hn|]. split; [|split; [exact Hw|]].
      - intros k Hk. apply Hkeep. apply df_set_names_in. left.
        apply df_set_names_in. now left.
      - intros k Hk. destruct (Hfrom k Hk) as [Hin|[[-> Hc]|[[-> Hr]|Hx]]].
        + apply df_set_names_in in Hin as [Hin| ->]; [|right; left; split; [reflexivity|now left]].
          apply df_set_names_in in Hin as [Hin| ->]; [now left|].
          right; left; split; [reflexivity|now left].
        + right; left. split; [reflexivity|now right].
        + right; right; left. split; [reflexivity|now right].
        + right; right; right. exact Hx. }
    destruct (String.eqb_spec key "recency") as [-> |Hk2].
    { cbn [negb andb]. repeat invert_bind H.
      destruct (IH _ _ H) as [Hn [Hkeep [Hw Hfrom]]].
      split; [exact Hn|]. split; [|split; [exact Hw|]].
      - intros k Hk. apply Hkeep. apply df_set_names_in. left.
        apply df_set_names_in. now left.
      - intros k Hk. destruct (Hfrom k Hk) as [Hin|[[-> Hc]|[[-> Hr]|Hx]]].
        + apply df_set_names_in in Hin as [Hin| ->];
            [|right; right; left; split; [reflexivity|now left]].
          apply df_set_names_in in Hin as [Hin| ->]; [now left|].
          right; right; left; split; [reflexivity|now left].
        + right; left. split; [reflexivity|now right].
        + right; right; left. split; [reflexivity|now right].
        + right; right; right. exact Hx. }
    destruct (String.eqb_spec key "topics") as [-> |Hk3].
    { cbn [negb andb]. cbn [negb] in H. destruct (IH _ _ H) as [Hn [Hkeep [Hw Hfrom]]].
      split; [exact Hn|]. split; [exact Hkeep|]. split; [exact Hw|].
      intros k Hk. destruct (Hfrom k Hk) as [Hin|[[-> Hc]|[[-> Hr]|Hx]]]; auto.
      - right; left. split; [reflexivity|now right].
      - right; right; left. split; [reflexivity|now right]. }
    cbn [negb andb]. cbn [negb] in H. repeat invert_bind H.
    destruct (IH _ _ H) as [Hn [Hkeep [Hw Hfrom]]].
    split; [rewrite Hn, <- app_assoc; reflexivity|]. split; [|split].
    + intros k Hk. apply Hkeep. apply df_set_names_in. now left.
    + intros k [<-|Hk]; [|now apply Hw]. apply Hkeep. apply df_set_names_in. now right.
    + intros k Hk. destruct (Hfrom k Hk) as [Hin|[[-> Hc]|[[-> Hr]|[key' [Hx ->]]]]].
      * apply df_set_names_in in Hin as [Hin| ->]; [now left|].
        right; right; right. exists key. split; [now left|reflexivity].
      * right; left. split; [reflexivity|]. now right.
      * right; right; left. split; [reflexivity|]. now right.
      * right; right; right. exists key'. split; [now right|reflexivity].
Qed.

Lemma not_weighted_e (name : string) (body : list ascii) :
  list_ascii_of_string name = (body ++ ["e"%char])%list -> ~ weighted_name name.
Proof. intros H. apply (weighted_name_not name body "e"%char H). discriminate. Qed.

Lemma cite_score_not_weighted : ~ weighted_name "cite_score".
Proof. apply (not_weighted_e _ (list_ascii_of_string "cite_scor")). reflexivity. Qed.

Lemma recency_score_not_weighted : ~ weighted_name "recency_score".
Proof. apply (not_weighted_e _ (list_ascii_of_string "recency_scor")). reflexivity. Qed.

Lemma topic_score_not_weighted : ~ weighted_name "topic_score".
Proof. apply (not_weighted_e _ (list_ascii_of_string "topic_scor")). reflexivity. Qed.

(** What [score_frame] leaves, when it returns. *)
Lemma score_frame_columns (output scored : DataFrame)
      (weights : list (string * Float64.float)) (score_list : list string) :
  score_frame output weights = Ok (scored, score_list) ->
  score_list = map (fun key => key ++ "W") (topic_keys weights) /\
  In "topics" (map fst weights) /\
  (~ In "cite_score" (column_names output) -> In "cites" (map fst weights)) /\
  (~ In "recency_score" (column_names output) -> In "recency" (map fst weights)) /\
  (forall k, In k (column_names output) -> In k (column_names scored)) /\
  (forall k, In k score_list -> In k (column_names scored)) /\
  (forall k, In k ["cite_score"; "recency_score"; "topic_score"; "score"] ->
             In k (column_names scored)) /\
  (forall k, In k (column_names scored) ->
             In k (column_names output) \/ In k score_list \/
             In k ["cite_score"; "recency_score"; "topic_score"; "score"]).
Proof.
  unfold score_frame. intros H.
  destruct (weight_loop weights output []) as [[reached names]|e] eqn:Eloop;
    [|discriminate]. cbn [bind] in H. cbv beta iota zeta in H.
  destruct (weight_loop_columns _ _ _ _ _ Eloop) as [Hn [Hkeep [Hw Hfrom]]].
  cbn [app] in Hn. subst names.
  destruct (df_select reached _) as [selected|e] eqn:Esel; [|discriminate].
  cbn [bind] in H.
  destruct (sum_axis1 selected) as [total|e] eqn:Esum; [|discriminate].
  cbn [bind] in H. rewrite df_get_set_same in H. cbn [bind minmax] in H.
  rewrite df_get_set_same in H. cbn [bind] in H.
  destruct (dict_get weights "topics") as [wt|e] eqn:Ewt; [|discriminate].
  cbn [bind col_mul col_floats] in H.
  set (out3 := df_set (df_set (df_set reached "topic_score" (FloatCol total))
                              "topic_score" (FloatCol (minmax_float total)))
                      "topic_score" (FloatCol (scale wt (minmax_float total)))) in *.
  destruct (df_get out3 "cite_score") as [cs|e] eqn:Ecs; [|discriminate].
  cbn [bind] in H.
  destruct (df_get out3 "recency_score") as [rs|e] eqn:Ers; [|discriminate].
  cbn [bind] in H.
  destruct (df_get out3 "topic_score") as [ts|e] eqn:Ets; [|discriminate].
  cbn [bind] in H.
  destruct (col_add cs rs) as [cr|e] eqn:Ecr; [|discriminate]. cbn [bind] in H.
  destruct (col_add cr ts) as [sc|e] eqn:Esc; [|discriminate]. cbn [bind] in H.
  injection H as <- <-.
  assert (Hout3 : forall k, In k (column_names out3)
                            <-> In k (column_names reached) \/ k = "topic_score").
  { intros k. unfold out3. rewrite !df_set_names_in. tauto. }
  assert (Hscored : forall k, In k (column_names (df_set out3 "score" sc))
                              <-> In k (column_names reached) \/ k = "topic_score"
                                  \/ k = "score").
  { intros k. rewrite df_set_names_in, Hout3. tauto. }
  split; [reflexivity|]. split.
  { unfold dict_get in Ewt. destruct (lookup "topics" weights) as [v|] eqn:El; [|discriminate].
    apply lookup_In in El. apply in_map_iff. exists ("topics", v). auto. }
  split.
  { intros Hno. apply df_get_In, Hout3 in Ecs. destruct Ecs as [Hin|Hx]; [|discriminate].
    destruct (Hfrom _ Hin) as [H1|[[_ H1]|[[H1 _]|[key [_ H1]]]]];
      [contradiction|exact H1|discriminate|].
    exfalso. apply cite_score_not_weighted. now exists key. }
  split.
  { intros Hno. apply df_get_In, Hout3 in Ers. destruct Ers as [Hin|Hx]; [|discriminate].
    destruct (Hfrom _ Hin) as [H1|[[H1 _]|[[_ H1]|[key [_ H1]]]]];
      [contradiction|discriminate|exact H1|].
    exfalso. apply recency_score_not_weighted. now exists key. }
  split; [intros k Hk; apply Hscored; left; auto|].
  split.
  { intros k Hk. apply Hscored. left. apply in_map_iff in Hk as [key [<- Hkey]]. auto. }
  split.
  { intros k Hk. apply Hscored. cbn [In] in Hk.
    destruct Hk as [<-|[<-|[<-|[<-|[]]]]]; auto.
    - left. apply df_get_In, Hout3 in Ecs. destruct Ecs as [Hin|Hx]; [exact Hin|discriminate].
    - left. apply df_get_In, Hout3 in Ers. destruct Ers as [Hin|Hx]; [exact Hin|discriminate]. }
  intros k Hk. apply Hscored in Hk. cbn [In].
  destruct Hk as [Hin|[-> | ->]]; [|tauto|tauto].
  destruct (Hfrom _ Hin) as [H1|[[-> _]|[[-> _]|[key [Hkey ->]]]]]; [tauto|tauto|tauto|].
  right; left. apply in_map_iff. exists key. auto.
Qed.

(** [inclusion_criteria] needs the three reserved keys: when it returns,
    the weights hold [topics], and they hold [cites] and [recency] unless the
    integrated frame already has a column [cite_score] or [recency_score].
    A weight specification that lacks one of them never yields a ranking. *)
Theorem inclusion_criteria_needs_reserved_keys {S : ArgSort}
        (corpus : DataFrame) (model : TopicModel)
        (weights : list (string * Float64.float)) (include_scores : bool)
        (output out : DataFrame) :
  integrate corpus model = Ok output ->
  inclusion_criteria corpus model weights include_scores = Ok out ->
  In "topics" (map fst weights) /\
  (~ In "cite_score" (column_names output) -> In "cites" (map fst weights)) /\
  (~ In "recency_score" (column_names output) -> In "recency" (map fst weights)).
Proof.
  intros Hint H.
  destruct (inclusion_criteria_unfold _ _ _ _ _ H)
    as [output' [scored [score_list [unsorted [H1 [H2 _]]]]]].
  rewrite Hint in H1. injection H1 as <-.
  destruct (score_frame_columns _ _ _ _ H2) as [_ [Ht [Hc [Hr _]]]]. auto.
Qed.

(** The columns of the ranking: the columns of the integrated frame, the
    four score columns [cite_score], [recency_score], [topic_score] and
    [score], and, with [include_scores] only, one weighted column per topic
    key under the name of the key followed by [W]. Without [include_scores]
    exactly the columns of these weighted names are taken out: the four
    score columns always remain. *)
Theorem inclusion_criteria_columns {S : ArgSort}
        (corpus : DataFrame) (model : TopicModel)
        (weights : list (string * Float64.float)) (include_scores : bool)
        (output out : DataFrame) :
  integrate corpus model = Ok output ->
  inclusion_criteria corpus model weights include_scores = Ok out ->
  let weighted := map (fun key => key ++ "W") (topic_keys weights) in
  (forall k, In k ["cite_score"; "recency_score"; "topic_score"; "score"] ->
             In k (column_names out)) /\
  (forall k, In k (column_names output) -> ~ In k weighted -> In k (column_names out)) /\
  (forall k, In k weighted -> (In k (column_names out) <-> include_scores = true)) /\
  (forall k, In k (column_names out) ->
             In k (column_names output) \/ In k weighted \/
             In k ["cite_score"; "recency_score"; "topic_score"; "score"]).
Proof.
  intros Hint H weighted.
  destruct (inclusion_criteria_unfold _ _ _ _ _ H)
    as [output' [scored [score_list [unsorted [H1 [H2 [H3 [H4 _]]]]]]]].
  rewrite Hint in H1. injection H1 as <-.
  destruct (score_frame_columns _ _ _ _ H2) as [Hsl [_ [_ [_ [Hkeep [Hw [Hfour Hfrom]]]]]]].
  fold weighted in Hsl. subst score_list.
  assert (Hnw : forall k, In k ["cite_score"; "recency_score"; "topic_score"; "score"] ->
                          ~ In k weighted).
  { intros k Hk Hin. apply in_map_iff in Hin as [key [Heq _]].
    assert (Hwk : weighted_name k) by (now exists key).
    cbn [In] in Hk. destruct Hk as [<-|[<-|[<-|[<-|[]]]]].
    - now apply cite_score_not_weighted.
    - now apply recency_score_not_weighted.
    - now apply topic_score_not_weighted.
    - now apply score_not_weighted. }
  destruct include_scores.
  - injection H4 as <-. rewrite df_take_names.
    repeat split; auto.
  - assert (Hnames : forall k, In k (column_names out)
                               <-> In k (column_names scored) /\ ~ In k weighted).
    { intros k. unfold df_drop in H4. destruct (find _ weighted); [discriminate|].
      injection H4 as <-.
      rewrite <- (df_take_names scored (nargsort unsorted false)).
      unfold column_names. cbn [columns].
      set (cols := columns (df_take scored (nargsort unsorted false))).
      split.
      - intros Hin. apply in_map_iff in Hin as [[n c] [<- Hin]].
        apply filter_In in Hin as [Hin Hf]. cbn [fst] in *. split.
        + apply in_map_iff. exists (n, c). auto.
        + intros Hx. apply mem_string_In in Hx. rewrite Hx in Hf. discriminate.
      - intros [Hin Hnot]. apply in_map_iff in Hin as [[n c] [<- Hin]].
        apply in_map_iff. exists (n, c). split; [reflexivity|].
        apply filter_In. split; [exact Hin|]. cbn [fst] in *.
        destruct (mem_string n weighted) eqn:E; [|reflexivity].
        apply mem_string_In in E. contradiction. }
    split; [intros k Hk; apply Hnames; split; auto|].
    split; [intros k Hk Hnot; apply Hnames; split; auto|].
    split.
    + intros k Hk. split; [|discriminate]. intros Hin. apply Hnames in Hin. tauto.
    + intros k Hk. apply Hnames in Hk as [Hk _]. auto.
Qed.

Lemma inclusion_criteria_needs_reserved_keys_witness :
  In "topics" (map fst weights_with_topics) /\
  (~ In "cite_score" (column_names corpus4) -> In "cites" (map fst weights_with_topics)).
Proof.
  assert (Hint : exists output, integrate corpus4 model4 = Ok output)
    by (eexists; vm_compute; reflexivity).
  destruct Hint as [output Hint].
  assert (Hrun : exists out,
             inclusion_criteria (S := stable_sort) corpus4 model4 weights_with_topics true
             = Ok out)
    by (eexists; vm_compute; reflexivity).
  destruct Hrun as [out Hrun].
  destruct (inclusion_criteria_needs_reserved_keys (S := stable_sort)
              corpus4 model4 weights_with_topics true output out Hint Hrun)
    as [Ht [Hc _]].
  split; [exact Ht|]. intros _. apply Hc.
  vm_compute in Hint. injection Hint as <-.
  simpl. intuition discriminate.
Defined.

Lemma inclusion_criteria_columns_witness :
  exists out,
    inclusion_criteria (S := stable_sort) corpus4 model4 weights_with_topics false = Ok out /\
    In "score" (column_names out) /\
    ~ In "0_graphsW" (column_names out).
Proof.
  assert (Hint : exists output, integrate corpus4 model4 = Ok output)
    by (eexists; vm_compute; reflexivity).
  destruct Hint as [output Hint].
  assert (Hrun : exists out,
             inclusion_criteria (S := stable_sort) corpus4 model4 weights_with_topics false
             = Ok out)
    by (eexists; vm_compute; reflexivity).
  destruct Hrun as [out Hrun]. exists out.
  destruct (inclusion_criteria_columns (S := stable_sort)
              corpus4 model4 weights_with_topics false output out Hint Hrun)
    as [Hfour [_ [Hw _]]].
  split; [exact Hrun|]. split.
  - apply Hfour. simpl. tauto.
  - intros Hin. apply Hw in Hin; [discriminate|]. vm_compute. tauto.
Defined.

Open Scope string_scope.

(** ** The shortlist of [return_included_papers] *)

Lemma take_seq_firstn {A : Type} (d : A) (l : list A) (k : nat) :
  (k <= List.length l)%nat -> take d l (seq 0 k) = firstn k l.
Proof.
  intros Hk. apply nth_ext with (d := d) (d' := d).
  - unfold take. rewrite length_map, length_seq, length_firstn. lia.
  - intros i Hi. unfold take in Hi. rewrite length_map, length_seq in Hi.
    rewrite nth_take by (rewrite length_seq; exact Hi).
    rewrite seq_nth by exact Hi. cbn [Nat.add].
    now rewrite nth_firstn, (proj2 (Nat.ltb_lt i k) Hi).
Qed.

Lemma StronglySorted_app_order {A : Type} (R : A -> A -> Prop) (a b : list A) :
  StronglySorted R (a ++ b) -> forall x y, In x a -> In y b -> R x y.
Proof.
  induction a as [|h a IH]; intros Hs x y Hx Hy; [contradiction|].
  cbn [app] in Hs. inversion Hs as [|? ? Hrest Hall]; subst.
  destruct Hx as [<-|Hx].
  - rewrite Forall_forall in Hall. apply Hall. apply in_or_app. now right.
  - now apply IH.
Qed.

(** In a column in descending order with the missing values last, every
    value before a position is at least every number after it. *)
Lemma descending_prefix (scores : list Float64.float) (k : nat) :
  descending_nan_last scores ->
  forall x y, In x (firstn k scores) -> In y (skipn k scores) ->
              Float64.is_nan y = false ->
              Float64.is_nan x = false /\ Float64.leb y x = true.
Proof.
  intros (present & missing & -> & Hp & Hs & Hm) x y Hx Hy Hy0.
  assert (Hss : StronglySorted (fun a b => Float64.leb b a = true) present).
  { apply Sorted_StronglySorted; [|exact Hs].
    intros a b c Hab Hbc. exact (leb_trans _ _ _ Hbc Hab). }
  rewrite skipn_app in Hy. apply in_app_or in Hy as [Hy|Hy].
  - rewrite firstn_app in Hx. apply in_app_or in Hx as [Hx|Hx].
    + split.
      * apply (proj1 (Forall_forall _ _) Hp).
        rewrite <- (firstn_skipn k present). apply in_or_app. now left.
      * rewrite <- (firstn_skipn k present) in Hss.
        exact (StronglySorted_app_order _ _ _ Hss x y Hx Hy).
    + exfalso.
      destruct (Nat.le_gt_cases k (List.length present)) as [Hle|Hgt].
      * replace (k - List.length present)%nat with O in Hx by lia. contradiction.
      * rewrite skipn_all2 in Hy by lia. contradiction.
  - exfalso.
    assert (Hin : In y missing).
    { rewrite <- (firstn_skipn (k - List.length present) missing).
      apply in_or_app. now right. }
    pose proof (proj1 (Forall_forall _ _) Hm _ Hin). congruence.
Qed.

Lemma df_drop_nrows (df dropped : DataFrame) (labels : list string) :
  df_drop df labels = Ok dropped -> nrows dropped = nrows df.
Proof.
  unfold df_drop. destruct (find _ labels); [discriminate|].
  intros H. now injection H as <-.
Qed.

(** With a number [n] the frame [return_included_papers] returns is the
    head of the ranking: its scores are the first scores of the ranking (the
    first [n], or all but the last [-n] for a negative [n]), and every score
    it holds is at least every numeric score it leaves out. Without a RIS
    file nothing is exported. *)
Theorem shortlist_is_top {S : ArgSort}
        (n : Z) (corpus : DataFrame) (model : TopicModel)
        (weights : list (string * Float64.float))
        (ranked : DataFrame) (exported : option (list (list (string * obj)))) :
  return_included_papers (Some n) corpus model weights None = Ok (ranked, exported) ->
  exists full scores,
    inclusion_criteria corpus model weights false = Ok full /\
    df_get full "score" = Ok (FloatCol scores) /\
    nrows full = List.length scores /\
    nrows ranked = (if (0 <=? n)%Z then Nat.min (Z.to_nat n) (nrows full)
                    else (nrows full - Z.to_nat (- n))%nat) /\
    df_get ranked "score" = Ok (FloatCol (firstn (nrows ranked) scores)) /\
    (forall x y, In x (firstn (nrows ranked) scores) ->
                 In y (skipn (nrows ranked) scores) ->
                 Float64.is_nan y = false ->
                 Float64.is_nan x = false /\ Float64.leb y x = true) /\
    exported = None.
Proof.
  unfold return_included_papers. intros H.
  destruct (inclusion_criteria corpus model weights false) as [full|e] eqn:Efull;
    [|discriminate].
  cbn [bind] in H. injection H as <- <-.
  destruct (inclusion_criteria_unfold _ _ _ _ _ Efull)
    as [output [scored [score_list [unsorted [H1 [H2 [H3 [H4 H5]]]]]]]].
  set (scores := take Float64.nan unsorted (nargsort unsorted false)) in *.
  exists full, scores.
  assert (Hrows : nrows full = List.length scores).
  { apply df_drop_nrows in H4. rewrite H4. unfold df_take, scores, take.
    cbn [nrows]. now rewrite length_map. }
  set (k := if (0 <=? n)%Z then Nat.min (Z.to_nat n) (nrows full)
            else (nrows full - Z.to_nat (- n))%nat).
  assert (Hk : nrows (df_head full n) = k).
  { unfold df_head, df_take. cbn [nrows]. fold k. apply length_seq. }
  assert (Hkle : (k <= List.length scores)%nat).
  { unfold k. destruct (0 <=? n)%Z; lia. }
  rewrite Hk.
  split; [reflexivity|]. split; [exact H5|]. split; [exact Hrows|].
  split; [reflexivity|]. split.
  - unfold df_head. fold k. rewrite (df_get_take _ _ _ _ H5). cbn [col_take].
    now rewrite take_seq_firstn.
  - split; [|reflexivity]. apply descending_prefix. apply nargsort_descending.
Qed.

Lemma shortlist_is_top_witness :
  exists ranked,
    return_included_papers (S := stable_sort) (Some 2%Z) corpus4 model4
                           weights_with_topics None = Ok (ranked, None) /\
    nrows ranked = 2%nat /\
    df_get ranked "score" = Ok (FloatCol [Float64.one; half]).
Proof.
  assert (Hrun : exists ranked,
             return_included_papers (S := stable_sort) (Some 2%Z) corpus4 model4
                                    weights_with_topics None = Ok (ranked, None))
    by (eexists; vm_compute; reflexivity).
  destruct Hrun as [ranked Hrun]. exists ranked.
  destruct (shortlist_is_top (S := stable_sort) 2 corpus4 model4 weights_with_topics
              ranked None Hrun)
    as [full [scores [Hfull [Hscores [Hlen [Hrows [Hget _]]]]]]].
  assert (Hfour : nrows full = 4%nat /\
                  scores = [Float64.one; half; half; Float64.zero]).
  { revert Hfull Hscores. vm_compute. intros H. injection H as <-.
    intros H. injection H as <-. split; reflexivity. }
  destruct Hfour as [Hn ->].
  rewrite Hn in Hrows. cbn in Hrows.
  split; [exact Hrun|]. split; [exact Hrows|].
  rewrite Hrows in Hget. exact Hget.
Defined.

Open Scope string_scope.

(** ** The export of [return_included_papers] *)

(** The raw entries whose title and source are those of row [j] of the
    shortlist. *)
Definition same_paper (lkeys rkeys : list column) (nleft j : nat) : list nat :=
  filter (fun i => forallb (fun lr => obj_eqb (cell_at (fst lr) i) (cell_at (snd lr) j))
                           (combine lkeys rkeys))
         (seq 0 nleft).

Lemma length_flat_map {A B : Type} (f : A -> list B) (l : list A) :
  List.length (flat_map f l) = list_sum (map (fun a => List.length (f a)) l).
Proof.
  induction l as [|a l IH]; [reflexivity|].
  cbn [flat_map map].
  change (list_sum (List.length (f a) :: map (fun a => List.length (f a)) l))
    with (List.length (f a) + list_sum (map (fun a => List.length (f a)) l))%nat.
  now rewrite length_app, IH.
Qed.

Lemma join_pairs_length (lkeys rkeys : list column) (nleft nright : nat) :
  List.length (join_pairs lkeys rkeys nleft nright)
  = list_sum (map (fun j => Nat.max 1 (List.length (same_paper lkeys rkeys nleft j)))
                  (seq 0 nright)).
Proof.
  unfold join_pairs. rewrite length_flat_map. f_equal. apply map_ext. intros j.
  fold (same_paper lkeys rkeys nleft j).
  destruct (same_paper lkeys rkeys nleft j) as [|i rest]; [reflexivity|].
  rewrite length_map. cbn [List.length]. lia.
Qed.

Lemma list_sum_ge (f : nat -> nat) (l : list nat) :
  (forall j, In j l -> (1 <= f j)%nat) -> (List.length l <= list_sum (map f l))%nat.
Proof.
  induction l as [|a l IH]; intros H; [cbn; lia|].
  cbn [map List.length].
  change (list_sum (f a :: map f l)) with (f a + list_sum (map f l))%nat.
  pose proof (H a (or_introl eq_refl)).
  assert (List.length l <= list_sum (map f l))%nat
    by (apply IH; intros j Hj; apply H; now right).
  lia.
Qed.

Lemma list_sum_ones (f : nat -> nat) (l : list nat) :
  (forall j, In j l -> f j = 1%nat) -> list_sum (map f l) = List.length l.
Proof.
  induction l as [|a l IH]; intros H; [reflexivity|].
  cbn [map List.length].
  change (list_sum (f a :: map f l)) with (f a + list_sum (map f l))%nat.
  rewrite (H a (or_introl eq_refl)), IH; [reflexivity|].
  intros j Hj. apply H. now right.
Qed.

Lemma return_included_papers_export {S : ArgSort}
      (n : option Z) (corpus : DataFrame) (model : TopicModel)
      (topic_weights : list (string * Float64.float))
      (entries : list (list (string * obj)))
      (ranked_df : DataFrame) (out : list (list (string * obj))) :
  return_included_papers n corpus model topic_weights (Some entries)
  = Ok (ranked_df, Some out) ->
  roundtrip ranked_df entries = Ok out /\
  exists sv, df_get ranked_df "score" = Ok (FloatCol sv).
Proof.
  intros H. unfold return_included_papers in H.
  destruct (inclusion_criteria corpus model topic_weights false) as [ranked|e] eqn:E;
    [|discriminate].
  cbn [bind] in H.
  destruct (roundtrip _ entries) as [o|e] eqn:E0; [|discriminate].
  cbn [bind] in H. injection H as <- <-.
  split; [exact E0|].
  destruct (inclusion_criteria_unfold _ _ _ _ _ E)
    as [output [scored [score_list [unsorted [_ [_ [_ [_ Hscore]]]]]]]].
  destruct n as [k|].
  - eexists. unfold df_head. apply (df_get_take _ _ _ _ Hscore).
  - eexists. exact Hscore.
Qed.

(** The number of entries in the export, when the raw entries use none of
    the six merged column names: every paper of the shortlist gives one
    entry for each raw entry of the same title and source, and one entry when
    there is none. The export is never shorter than the shortlist, and has
    its length when no paper has two raw entries. *)
Theorem export_entry_count {S : ArgSort}
        (n : option Z) (corpus : DataFrame) (model : TopicModel)
        (topic_weights : list (string * Float64.float))
        (entries : list (list (string * obj)))
        (ranked_df : DataFrame) (out : list (list (string * obj))) :
  (forall name, In name score_fields ->
                ~ In name (column_names (DataFrame_of_records entries))) ->
  return_included_papers n corpus model topic_weights (Some entries)
  = Ok (ranked_df, Some out) ->
  exists lkeys rkeys,
    mapM (df_get (DataFrame_of_records entries)) ["title"; "secondary_title"] = Ok lkeys /\
    mapM (df_get ranked_df) ["Title"; "Source"] = Ok rkeys /\
    let copies j := List.length (same_paper lkeys rkeys (List.length entries) j) in
    List.length out
    = list_sum (map (fun j => Nat.max 1 (copies j)) (seq 0 (nrows ranked_df))) /\
    (nrows ranked_df <= List.length out)%nat /\
    ((forall j, (j < nrows ranked_df)%nat -> (copies j <= 1)%nat) ->
     List.length out = nrows ranked_df).
Proof.
  intros Hdisj H.
  destruct (return_included_papers_export _ _ _ _ _ _ _ H) as [Hrun [sv Hsv]].
  destruct (roundtrip_export _ entries out sv Hdisj Hsv Hrun)
    as [lkeys [rkeys [indexer [Hl [Hr [_ [Hlen _]]]]]]].
  exists lkeys, rkeys. split; [exact Hl|]. split; [exact Hr|].
  cbn zeta. rewrite Hlen.
  change (nrows (DataFrame_of_records entries)) with (List.length entries).
  rewrite join_pairs_length. split; [reflexivity|]. split.
  - pose proof (list_sum_ge
                  (fun j => Nat.max 1 (List.length
                                         (same_paper lkeys rkeys (List.length entries) j)))
                  (seq 0 (nrows ranked_df))) as Hge.
    rewrite length_seq in Hge. apply Hge. intros j _. lia.
  - intros Hone. rewrite list_sum_ones; [apply length_seq|].
    intros j Hj. apply in_seq in Hj. specialize (Hone j ltac:(lia)). lia.
Qed.

(** Two raw entries for the record [a], under two DOIs. *)
Definition raw_entries_twice : list (list (string * obj)) :=
  [raw_entry "a" "10.1/a"; raw_entry "a" "10.1/a2"].

Lemma export_entry_count_witness :
  exists ranked_df out,
    return_included_papers (S := stable_sort) None corpus4 model4 weights_with_topics
                           (Some raw_entries_twice)
    = Ok (ranked_df, Some out) /\
    nrows ranked_df = 4%nat /\ List.length out = 5%nat /\
    (nrows ranked_df <= List.length out)%nat.
Proof.
  assert (Hrun : exists ranked_df out,
             return_included_papers (S := stable_sort) None corpus4 model4
                                    weights_with_topics (Some raw_entries_twice)
             = Ok (ranked_df, Some out))
    by (eexists; eexists; vm_compute; reflexivity).
  destruct Hrun as [ranked_df [out Hrun]]. exists ranked_df, out.
  assert (Hdisj : forall name, In name score_fields ->
                    ~ In name (column_names (DataFrame_of_records raw_entries_twice)))
    by (simpl; intuition (subst; discriminate)).
  destruct (export_entry_count (S := stable_sort) None corpus4 model4 weights_with_topics
              raw_entries_twice ranked_df out Hdisj Hrun)
    as [lkeys [rkeys [_ [_ [_ [Hge _]]]]]].
  split; [exact Hrun|].
  revert Hrun Hge. vm_compute. intros H. injection H as <- <-.
  intros Hge. repeat split. exact Hge.
Defined.

(** The export needs the fields [title] and [secondary_title] in the RIS
    file: when [return_included_papers] returns with a RIS file, some raw
    entry holds a title and some raw entry holds a secondary title. A file
    without entries, or one in which no entry names its source, makes the
    merge raise. *)
Theorem export_needs_title_fields {S : ArgSort}
        (n : option Z) (corpus : DataFrame) (model : TopicModel)
        (topic_weights : list (string * Float64.float))
        (entries : list (list (string * obj)))
        (ranked_df : DataFrame) (out : list (list (string * obj))) :
  return_included_papers n corpus model topic_weights (Some entries)
  = Ok (ranked_df, Some out) ->
  (exists e, In e entries /\ In "title" (map fst e)) /\
  (exists e, In e entries /\ In "secondary_title" (map fst e)).
Proof.
  intros H.
  destruct (return_included_papers_export _ _ _ _ _ _ _ H) as [Hrun _].
  unfold roundtrip in Hrun.
  destruct (df_select ranked_df score_fields) as [scores|e] eqn:E1; [|discriminate].
  cbn [bind] in Hrun.
  destruct (merge_right _ scores _ _) as [m|e] eqn:E2; [|discriminate].
  unfold merge_right in E2. cbn [mapM] in E2. unfold df_get at 1 2 in E2.
  destruct (lookup "title" _) as [c1|] eqn:L1; [|discriminate].
  cbn [bind] in E2.
  destruct (lookup "secondary_title" _) as [c2|] eqn:L2; [|discriminate].
  split; eapply records_lookup_Some; eassumption.
Qed.

Lemma export_needs_title_fields_witness :
  (exists e, In e raw_entries /\ In "title" (map fst e)) /\
  (exists e, In e raw_entries /\ In "secondary_title" (map fst e)).
Proof.
  assert (Hrun : exists ranked_df out,
             return_included_papers (S := stable_sort) None corpus4 model4
                                    weights_with_topics (Some raw_entries)
             = Ok (ranked_df, Some out))
    by (eexists; eexists; vm_compute; reflexivity).
  destruct Hrun as [ranked_df [out Hrun]].
  exact (export_needs_title_fields (S := stable_sort) None corpus4 model4
           weights_with_topics raw_entries ranked_df out Hrun).
Defined.

Open Scope string_scope.

(** ** From the RIS file to the export and back *)

Lemma obj_eqb_refl (o : obj) : obj_eqb o o = true.
Proof.
  destruct o as [| s | l | z | x]; cbn [obj_eqb].
  - reflexivity.
  - apply String.eqb_refl.
  - destruct (list_eq_dec string_dec l l); congruence.
  - apply Z.eqb_refl.
  - destruct (Float64.is_nan x) eqn:E; [apply orb_true_r|].
    apply orb_true_iff. left. unfold Float64.eqb, SFeqb.
    rewrite SFcompare_refl; [reflexivity|].
    destruct x; discriminate || (cbn in E; discriminate).
Qed.

(** The rows of a frame come from the raw entries: row [j] holds the title
    and the source of the entry at position [origin j]. *)
Definition traced (titles sources : list obj) (n : nat) (df : DataFrame) : Prop :=
  exists origin : list nat,
    List.length origin = nrows df /\
    Forall (fun i => (i < n)%nat) origin /\
    df_get df "Title" = Ok (ObjCol (take ONaN titles origin)) /\
    df_get df "Source" = Ok (ObjCol (take ONaN sources origin)).

Lemma take_take {A : Type} (d : A) (l : list A) (origin indexer : list nat) :
  Forall (fun i => (i < List.length origin)%nat) indexer ->
  take d (take d l origin) indexer = take d l (take O origin indexer).
Proof.
  intros H. unfold take. rewrite map_map. apply map_ext_in.
  intros i Hi. pose proof (proj1 (Forall_forall _ _) H i Hi) as Hlt.
  rewrite (nth_indep _ d (nth (nth O origin O) l d)) by now rewrite length_map.
  rewrite (map_nth (fun i => nth i l d)).
  f_equal. apply nth_indep. exact Hlt.
Qed.

Lemma traced_take (titles sources : list obj) (n : nat) (df : DataFrame)
      (indexer : list nat) :
  traced titles sources n df ->
  Forall (fun i => (i < nrows df)%nat) indexer ->
  traced titles sources n (df_take df indexer).
Proof.
  intros (origin & Hlen & Hin & HT & HS) Hidx.
  rewrite <- Hlen in Hidx.
  exists (take O origin indexer). repeat split.
  - unfold df_take, take. cbn [nrows]. apply length_map.
  - apply Forall_forall. intros i Hi. unfold take in Hi.
    apply in_map_iff in Hi as [k [<- Hk]].
    pose proof (proj1 (Forall_forall _ _) Hidx k Hk) as Hlt.
    apply (proj1 (Forall_forall _ _) Hin). now apply nth_In.
  - rewrite (df_get_take _ _ _ _ HT). cbn [col_take]. now rewrite take_take.
  - rewrite (df_get_take _ _ _ _ HS). cbn [col_take]. now rewrite take_take.
Qed.

Lemma traced_same (titles sources : list obj) (n : nat) (df df' : DataFrame) :
  traced titles sources n df ->
  nrows df' = nrows df ->
  df_get df' "Title" = df_get df "Title" ->
  df_get df' "Source" = df_get df "Source" ->
  traced titles sources n df'.
Proof.
  intros (origin & Hlen & Hin & HT & HS) Hn H1 H2.
  exists origin. repeat split; congruence.
Qed.

Section LoaderKeeps.

Variable parse_numeric : list obj -> result column.

Lemma extract_citations_get_other (corpus out : DataFrame) (source key : string) :
  extract_citations corpus source = Ok out -> key <> "Citations" ->
  df_get out key = df_get corpus key.
Proof.
  unfold extract_citations. intros H Hkey.
  assert (Hne : "Citations" <> key) by congruence.
  assert (Hbranch : forall f g,
             (c <- df_get corpus "Citations" ;;
              notes <- str_accessor c ;;
              let corpus' := df_set corpus "Citations" (ObjCol (map f notes)) in
              c <- df_get corpus' "Citations" ;;
              pieces <- str_accessor c ;;
              cites <- astype_int (map g pieces) ;;
              Ok (df_set corpus' "Citations" cites)) = Ok out ->
             df_get out key = df_get corpus key).
  { clear H. intros f g H.
    invert_bind H. invert_bind H. cbv zeta in H.
    rewrite df_get_set_same in H. cbn [bind str_accessor] in H.
    invert_bind H. injection H as <-.
    now rewrite !df_get_set_other. }
  destruct (String.eqb source "scopus"); [now apply (Hbranch _ _ H)|].
  destruct (String.eqb source "wos"); [now apply (Hbranch _ _ H)|].
  now injection H as <-.
Qed.

Lemma numeric_columns_get_other (cols : list string) (corpus out : DataFrame) (key : string) :
  numeric_columns parse_numeric cols corpus = Ok out -> ~ In key cols ->
  df_get out key = df_get corpus key.
Proof.
  revert corpus. induction cols as [|col cols IH]; intros corpus H Hkey;
    cbn [numeric_columns] in H.
  - now injection H as <-.
  - invert_bind H. invert_bind H.
    rewrite (IH _ H) by (intros Hin; apply Hkey; now right).
    apply df_get_set_other. intros ->. apply Hkey. now left.
Qed.

(** The titles, the sources and the abstracts of the corpus are the cells of
    the raw fields [title], [secondary_title] and [abstract], one per entry. *)
Lemma file_loader_keeps (entries : list (list (string * obj))) (source : string)
      (loaded : DataFrame) :
  file_loader parse_numeric entries source = Ok loaded ->
  exists titles sources abstracts,
    df_get (DataFrame_of_records entries) "title" = Ok (ObjCol titles) /\
    df_get (DataFrame_of_records entries) "secondary_title" = Ok (ObjCol sources) /\
    df_get loaded "Title" = Ok (ObjCol titles) /\
    df_get loaded "Source" = Ok (ObjCol sources) /\
    df_get loaded "Abstract" = Ok (ObjCol abstracts) /\
    List.length titles = List.length entries /\
    List.length sources = List.length entries /\
    List.length abstracts = List.length entries /\
    nrows loaded = List.length entries.
Proof.
  unfold file_loader. intros H. cbv zeta in H.
  invert_bind H. rename a into selected. invert_bind H. rename a into cited.
  assert (Hrows : nrows loaded = List.length entries).
  { destruct (numeric_columns_names _ _ _ _ H) as [_ [R1 _]].
    destruct (extract_citations_names _ _ _ E0) as [_ [R2 _]].
    rewrite R1, R2. unfold df_select in E. invert_bind E. now injection E as <-. }
  assert (Hkeep : forall key, key <> "Citations" -> key <> "Year" ->
                  df_get loaded key = df_get (df_rename selected corpus_names) key).
  { intros key H1 H2.
    rewrite (numeric_columns_get_other _ _ _ key H)
      by (cbn [In]; intros [Heq|[Heq|[]]]; congruence).
    now apply (extract_citations_get_other _ _ _ _ E0). }
  rewrite !Hkeep by discriminate.
  unfold df_select, ris_fields in E. cbn [select_cols] in E.
  pose proof (wf_frame_records entries) as Hwf.
  assert (Hobj : forall key c, lookup key (columns (DataFrame_of_records entries)) = Some c ->
                 exists l, c = ObjCol l /\ List.length l = List.length entries).
  { intros key c Hc.
    assert (Hget : df_get (DataFrame_of_records entries) key = Ok c)
      by (unfold df_get; now rewrite Hc).
    destruct (records_column_obj _ _ _ Hget) as [l ->]. exists l. split; [reflexivity|].
    exact (wf_frame_get _ _ _ Hwf Hget). }
  unfold df_get at 1 2.
  remember (DataFrame_of_records entries) as temp_df eqn:Ht. clear Ht.
  repeat match type of E with
         | context [match lookup ?k (columns temp_df) with _ => _ end] =>
             let c := fresh "c" in
             let L := fresh "L" in
             destruct (lookup k (columns temp_df)) as [c|] eqn:L;
             [cbn [bind] in E|discriminate E]
         end.
  injection E as <-.
  destruct (Hobj _ _ L0) as [titles [-> Ht]].
  destruct (Hobj _ _ L3) as [sources [-> Hs]].
  destruct (Hobj _ _ L7) as [abstracts [-> Ha]].
  exists titles, sources, abstracts.
  repeat split; try reflexivity; assumption.
Qed.

End LoaderKeeps.

Lemma present_rows_in_range (c : column) :
  Forall (fun i => (i < col_length c)%nat) (present_rows c).
Proof.
  apply Forall_forall. intros i Hi. now apply present_rows_spec in Hi.
Qed.

(** The corpus [fit_topic_model] keeps. *)
Lemma fit_topic_model_traced (loaded corpus : DataFrame) (model : TopicModel)
      (topics : list Z) (probabilities : list Float64.float)
      (titles sources abstracts : list obj) :
  df_get loaded "Title" = Ok (ObjCol titles) ->
  df_get loaded "Source" = Ok (ObjCol sources) ->
  df_get loaded "Abstract" = Ok (ObjCol abstracts) ->
  List.length abstracts = List.length titles ->
  fit_topic_model loaded model = Ok (corpus, topics, probabilities) ->
  traced titles sources (List.length titles) corpus /\
  exists docs, df_get corpus "Abstract" = Ok (ObjCol docs) /\
               List.length docs = nrows corpus.
Proof.
  intros HT HS HA Hlen H. unfold fit_topic_model, dropna in H.
  rewrite HA in H. cbn [bind] in H.
  rewrite (df_get_take _ _ _ _ HA) in H. cbn [bind] in H.
  destruct (fit_transform model _) as [t p]. injection H as <- _ _.
  split.
  - exists (present_rows (ObjCol abstracts)). repeat split.
    + pose proof (present_rows_in_range (ObjCol abstracts)) as Hr.
      cbn [col_length] in Hr. now rewrite Hlen in Hr.
    + now rewrite (df_get_take _ _ _ _ HT).
    + now rewrite (df_get_take _ _ _ _ HS).
  - eexists. rewrite (df_get_take _ _ _ _ HA). cbn [col_take]. split; [reflexivity|].
    unfold take, df_take. cbn [nrows]. apply length_map.
Qed.

(** Setting the topic proportions beside a corpus that has as many rows
    keeps its rows. *)
Lemma integrate_traced (corpus output : DataFrame) (model : TopicModel)
      (titles sources docs : list obj) (n : nat) :
  traced titles sources n corpus ->
  df_get corpus "Abstract" = Ok (ObjCol docs) ->
  (List.length (mat_rows (approximate_distribution model docs)) <= nrows corpus)%nat ->
  integrate corpus model = Ok output ->
  traced titles sources n output.
Proof.
  intros (origin & Hlen & Hin & HT & HS) HA Hrows H. unfold integrate in H.
  rewrite HA in H. cbn [bind cells] in H.
  unfold DataFrame_of_matrix in H.
  destruct (Nat.eqb _ _); [|discriminate]. cbn [bind] in H. injection H as <-.
  assert (Hn : Nat.max (nrows corpus)
                       (List.length (mat_rows (approximate_distribution model docs)))
               = nrows corpus) by lia.
  assert (Hget : forall key l,
             df_get corpus key = Ok (ObjCol l) -> List.length l = nrows corpus ->
             df_get (concat_axis1 corpus
                       (mkDF (List.length (mat_rows (approximate_distribution model docs)))
                             (map (fun jn => (snd jn,
                                     FloatCol (map (fun r => nth (fst jn) r Float64.nan)
                                                   (mat_rows (approximate_distribution model docs)))))
                                  (combine (seq 0 (List.length (tl (topic_labels_ model))))
                                           (tl (topic_labels_ model)))))) key
             = Ok (ObjCol l)).
  { intros key l Hkey Hl. unfold df_get in *. unfold concat_axis1. cbn [columns nrows].
    rewrite Hn.
    rewrite (lookup_map_snd (pad_col (nrows corpus))), lookup_app.
    destruct (lookup key (columns corpus)) as [c|]; [|discriminate].
    injection Hkey as ->. cbn [option_map]. unfold pad_col. cbn [col_length].
    now rewrite Hl, Nat.sub_diag. }
  exists origin. repeat split.
  - unfold concat_axis1. cbn [nrows]. lia.
  - exact Hin.
  - apply Hget; [exact HT|]. unfold take. now rewrite length_map.
  - apply Hget; [exact HS|]. unfold take. now rewrite length_map.
Qed.

Lemma weight_loop_get_other (weights : list (string * Float64.float))
      (output reached : DataFrame) (score_list names : list string) (key : string) :
  weight_loop weights output score_list = Ok (reached, names) ->
  key <> "cite_score" -> key <> "recency_score" -> ~ weighted_name key ->
  df_get reached key = df_get output key.
Proof.
  intros H Hc Hr Hw. revert output score_list H.
  induction weights as [|[k w] rest IH]; intros output sl H; cbn [weight_loop] in H.
  - now injection H as <- _.
  - destruct (String.eqb k "cites").
    { repeat invert_bind H. rewrite (IH _ _ H).
      rewrite !df_get_set_other by congruence. reflexivity. }
    destruct (String.eqb k "recency").
    { repeat invert_bind H. rewrite (IH _ _ H).
      rewrite !df_get_set_other by congruence. reflexivity. }
    destruct (negb (String.eqb k "topics")).
    + cbv zeta in H. repeat invert_bind H. rewrite (IH _ _ H).
      apply df_get_set_other. intros Heq. apply Hw. now exists k.
    + exact (IH _ _ H).
Qed.

Lemma title_not_weighted : ~ weighted_name "Title".
Proof.
  apply (weighted_name_not "Title" ["T"; "i"; "t"; "l"]%char "e"%char);
    [reflexivity|discriminate].
Qed.

Lemma source_not_weighted : ~ weighted_name "Source".
Proof.
  apply (weighted_name_not "Source" ["S"; "o"; "u"; "r"; "c"]%char "e"%char);
    [reflexivity|discriminate].
Qed.

Lemma add_lists_length (a b : list Float64.float) :
  (List.length (add_lists a b) <= List.length b)%nat.
Proof.
  unfold add_lists. rewrite length_map, length_combine. lia.
Qed.

(** The scoring keeps every column it does not write, and the composite
    score has no more cells than the frame has rows. *)
Lemma score_frame_keeps (output scored : DataFrame)
      (weights : list (string * Float64.float)) (score_list : list string)
      (unsorted : list Float64.float) :
  score_frame output weights = Ok (scored, score_list) ->
  df_get scored "score" = Ok (FloatCol unsorted) ->
  nrows scored = nrows output /\
  (List.length unsorted <= nrows output)%nat /\
  forall key, ~ weighted_name key ->
              ~ In key ["cite_score"; "recency_score"; "topic_score"; "score"] ->
              df_get scored key = df_get output key.
Proof.
  unfold score_frame. intros H Hscore.
  destruct (weight_loop weights output []) as [[looped names]|e] eqn:Eloop;
    [|discriminate].
  cbn [bind] in H.
  destruct (df_select looped names) as [selected|e] eqn:Esel; [|discriminate].
  cbn [bind] in H.
  destruct (sum_axis1 selected) as [total|e] eqn:Esum; [|discriminate].
  cbn [bind] in H. rewrite df_get_set_same in H. cbn [bind minmax] in H.
  rewrite df_get_set_same in H. cbn [bind] in H.
  destruct (dict_get weights "topics") as [wt|e]; [|discriminate].
  cbn [bind col_mul col_floats] in H.
  set (frame := df_set (df_set (df_set looped "topic_score" (FloatCol total))
                               "topic_score" (FloatCol (minmax_float total)))
                       "topic_score" (FloatCol (scale wt (minmax_float total)))) in *.
  destruct (df_get frame "cite_score") as [cs|e]; [|discriminate]. cbn [bind] in H.
  destruct (df_get frame "recency_score") as [rs|e]; [|discriminate]. cbn [bind] in H.
  unfold frame at 1 in H. rewrite df_get_set_same in H. cbn [bind] in H.
  destruct (col_add cs rs) as [cr|e]; [|discriminate]. cbn [bind] in H.
  unfold col_add in H.
  destruct (col_floats cr) as [x|e]; [|discriminate]. cbn [bind col_floats] in H.
  injection H as <- <-.
  rewrite df_get_set_same in Hscore. injection Hscore as <-.
  pose proof (weight_loop_nrows _ _ _ _ _ Eloop) as Hrows.
  assert (Hsel : nrows selected = nrows looped).
  { unfold df_select in Esel. destruct (select_cols _ _); [|discriminate].
    now injection Esel as <-. }
  assert (Htotal : List.length total = nrows output).
  { unfold sum_axis1 in Esum. destruct (mapM _ _); [|discriminate].
    injection Esum as <-. rewrite length_map, length_seq. congruence. }
  split; [|split].
  - unfold frame. now rewrite !df_set_nrows.
  - etransitivity; [apply add_lists_length|].
    unfold scale, minmax_float. rewrite !length_map. lia.
  - intros key Hw Hkey. cbn [In] in Hkey.
    unfold frame. rewrite !df_get_set_other by (intros <-; tauto).
    apply (weight_loop_get_other _ _ _ _ _ _ Eloop); [| |exact Hw];
      intros ->; tauto.
Qed.

Lemma inclusion_criteria_traced {S : ArgSort} (corpus out : DataFrame)
      (model : TopicModel) (weights : list (string * Float64.float))
      (include_scores : bool) (titles sources docs : list obj) (n : nat) :
  traced titles sources n corpus ->
  df_get corpus "Abstract" = Ok (ObjCol docs) ->
  (List.length (mat_rows (approximate_distribution model docs)) <= nrows corpus)%nat ->
  inclusion_criteria corpus model weights include_scores = Ok out ->
  traced titles sources n out.
Proof.
  intros Htr HA Hrows H.
  destruct (inclusion_criteria_unfold _ _ _ _ _ H)
    as [output [scored [score_list [unsorted [H1 [H2 [H3 [H4 _]]]]]]]].
  pose proof (integrate_traced _ _ _ _ _ _ _ Htr HA Hrows H1) as Hout.
  destruct (score_frame_keeps _ _ _ _ _ H2 H3) as [Hn [Hlen Hkeep]].
  destruct (score_frame_score _ _ _ _ H2) as [_ Hnames].
  assert (Hscored : traced titles sources n scored).
  { apply (traced_same _ _ _ output); [exact Hout|exact Hn| |];
      apply Hkeep;
      try exact title_not_weighted; try exact source_not_weighted;
      cbn [In]; intros [Heq|[Heq|[Heq|[Heq|[]]]]]; discriminate. }
  assert (Hsorted : traced titles sources n (df_take scored (nargsort unsorted false))).
  { apply traced_take; [exact Hscored|].
    apply Forall_forall. intros i Hi.
    apply (Permutation_in _ (nargsort_perm unsorted false)) in Hi.
    apply in_seq in Hi. lia. }
  destruct include_scores.
  - now injection H4 as <-.
  - apply (traced_same _ _ _ _ _ Hsorted).
    + now apply df_drop_nrows in H4.
    + apply (df_get_drop _ _ _ _ H4). intros Hin.
      exact (title_not_weighted (proj1 (Forall_forall _ _) Hnames _ Hin)).
    + apply (df_get_drop _ _ _ _ H4). intros Hin.
      exact (source_not_weighted (proj1 (Forall_forall _ _) Hnames _ Hin)).
Qed.

Lemma df_head_traced (titles sources : list obj) (n : nat) (df : DataFrame) (k : Z) :
  traced titles sources n df -> traced titles sources n (df_head df k).
Proof.
  intros H. unfold df_head. apply traced_take; [exact H|].
  apply Forall_forall. intros i Hi. apply in_seq in Hi.
  destruct (0 <=? k)%Z; lia.
Qed.

(** Every row of a traced frame has a raw entry of its title and source. *)
Lemma traced_matched (titles sources : list obj) (df : DataFrame) (rkeys : list column) :
  traced titles sources (List.length titles) df ->
  mapM (df_get df) ["Title"; "Source"] = Ok rkeys ->
  forall j, (j < nrows df)%nat ->
    same_paper [ObjCol titles; ObjCol sources] rkeys (List.length titles) j <> [].
Proof.
  intros (origin & Hlen & Hin & HT & HS) Hr j Hj.
  cbn [mapM] in Hr. rewrite HT, HS in Hr. cbn [bind] in Hr. injection Hr as <-.
  rewrite <- Hlen in Hj.
  assert (Hi : (nth j origin O < List.length titles)%nat)
    by (apply (proj1 (Forall_forall _ _) Hin); now apply nth_In).
  assert (Hmem : In (nth j origin O)
                    (same_paper [ObjCol titles; ObjCol sources]
                                [ObjCol (take ONaN titles origin);
                                 ObjCol (take ONaN sources origin)]
                                (List.length titles) j)).
  { unfold same_paper. apply filter_In. split; [apply in_seq; lia|].
    cbn [combine forallb fst snd]. unfold cell_at. cbn [cells].
    rewrite !nth_take by exact Hj. now rewrite !obj_eqb_refl. }
  intros Hnil. rewrite Hnil in Hmem. contradiction.
Qed.

Lemma join_pairs_matched (lkeys rkeys : list column) (nleft nright : nat) :
  (forall j, (j < nright)%nat -> same_paper lkeys rkeys nleft j <> []) ->
  Forall (fun p => exists i, fst p = Some i /\ (i < nleft)%nat)
         (join_pairs lkeys rkeys nleft nright).
Proof.
  intros H. apply Forall_forall. intros p Hp. unfold join_pairs in Hp.
  apply in_flat_map in Hp as [j [Hj Hp]]. apply in_seq in Hj.
  specialize (H j ltac:(lia)). unfold same_paper in H.
  destruct (filter _ (seq 0 nleft)) as [|i0 rest] eqn:E; [contradiction|].
  apply in_map_iff in Hp as [i [<- Hi]]. exists i. split; [reflexivity|].
  rewrite <- E in Hi. apply filter_In in Hi as [Hi _]. apply in_seq in Hi. lia.
Qed.

Section RoundTrip.

Variable parse_numeric : list obj -> result column.

(** From the RIS file and back. When the corpus is what [file_loader] read
    from a RIS file and [fit_topic_model] kept of it, the topic distribution
    has one row per document and the raw entries use none of the six merged
    column names, handing the same entries to [return_included_papers] finds
    every paper of the shortlist again: each row of the shortlist has a raw
    entry of its title and source, so every entry of the export is joined
    with a raw entry and none is written from the scores alone. *)
Theorem loaded_papers_are_found {S : ArgSort}
        (entries : list (list (string * obj))) (source : string)
        (loaded corpus : DataFrame) (model : TopicModel)
        (topics : list Z) (probabilities : list Float64.float)
        (n : option Z) (weights : list (string * Float64.float))
        (ranked_df : DataFrame) (out : list (list (string * obj))) :
  (forall name, In name score_fields ->
                ~ In name (column_names (DataFrame_of_records entries))) ->
  (forall docs, List.length (mat_rows (approximate_distribution model docs))
                = List.length docs) ->
  file_loader parse_numeric entries source = Ok loaded ->
  fit_topic_model loaded model = Ok (corpus, topics, probabilities) ->
  return_included_papers n corpus model weights (Some entries)
  = Ok (ranked_df, Some out) ->
  exists lkeys rkeys,
    mapM (df_get (DataFrame_of_records entries)) ["title"; "secondary_title"] = Ok lkeys /\
    mapM (df_get ranked_df) ["Title"; "Source"] = Ok rkeys /\
    let pairs := join_pairs lkeys rkeys (List.length entries) (nrows ranked_df) in
    (forall j, (j < nrows ranked_df)%nat ->
               same_paper lkeys rkeys (List.length entries) j <> []) /\
    Forall (fun p => exists i, fst p = Some i /\ (i < List.length entries)%nat) pairs /\
    List.length out = List.length pairs.
Proof.
  intros Hdisj Hmodel Hload Hfit Hrun.
  destruct (file_loader_keeps parse_numeric _ _ _ Hload)
    as (titles & sources & abstracts & Ht & Hs & HT & HS & HA & Lt & Ls & La & Hrows).
  destruct (fit_topic_model_traced _ _ _ _ _ _ _ _ HT HS HA ltac:(congruence) Hfit)
    as [Htr [docs [Hdocs Hlen]]].
  destruct (return_included_papers_export _ _ _ _ _ _ _ Hrun) as [Hround [sv Hsv]].
  assert (Hranked : traced titles sources (List.length titles) ranked_df).
  { unfold return_included_papers in Hrun.
    destruct (inclusion_criteria corpus model weights false) as [full|e] eqn:E;
      [|discriminate].
    cbn [bind] in Hrun.
    assert (Hfull : traced titles sources (List.length titles) full).
    { apply (inclusion_criteria_traced corpus full model weights false
               titles sources docs _ Htr Hdocs); [|exact E].
      rewrite Hmodel. lia. }
    destruct (roundtrip _ entries); [|discriminate]. cbn [bind] in Hrun.
    injection Hrun as <- _.
    destruct n as [k|]; [now apply df_head_traced|exact Hfull]. }
  destruct (roundtrip_export _ entries out sv Hdisj Hsv Hround)
    as [lkeys [rkeys [indexer [Hl [Hr [_ [Hout _]]]]]]].
  exists lkeys, rkeys. split; [exact Hl|]. split; [exact Hr|].
  cbn zeta.
  change (nrows (DataFrame_of_records entries)) with (List.length entries) in Hout.
  assert (Hkeys : lkeys = [ObjCol titles; ObjCol sources]).
  { cbn [mapM] in Hl. rewrite Ht, Hs in Hl. cbn [bind] in Hl. now injection Hl as <-. }
  assert (Hmatch : forall j, (j < nrows ranked_df)%nat ->
                             same_paper lkeys rkeys (List.length entries) j <> []).
  { rewrite Hkeys, <- Lt. now apply traced_matched. }
  split; [exact Hmatch|]. split; [|exact Hout].
  now apply join_pairs_matched.
Qed.

End RoundTrip.

Lemma names_apart (names cols : list string) :
  forallb (fun k => negb (mem_string k cols)) names = true ->
  forall name, In name names -> ~ In name cols.
Proof.
  intros H name Hin Hcol. rewrite forallb_forall in H.
  specialize (H name Hin). apply negb_true_iff in H.
  apply mem_string_In in Hcol. congruence.
Qed.

(** The corpus loaded from the two Scopus entries, and what
    [fit_topic_model] keeps of it. *)
Definition scopus_loaded : DataFrame :=
  match file_loader parse_integers scopus_entries "scopus" with
  | Ok loaded => loaded
  | Raise _ => corpus4
  end.

Definition scopus_corpus : DataFrame :=
  match fit_topic_model scopus_loaded flat_model with
  | Ok (corpus, _, _) => corpus
  | Raise _ => corpus4
  end.

Lemma loaded_papers_are_found_witness :
  exists ranked_df out lkeys rkeys,
    return_included_papers (S := stable_sort) None scopus_corpus flat_model
                           weights_with_topics (Some scopus_entries)
    = Ok (ranked_df, Some out) /\
    mapM (df_get ranked_df) ["Title"; "Source"] = Ok rkeys /\
    (forall j, (j < nrows ranked_df)%nat ->
               same_paper lkeys rkeys (List.length scopus_entries) j <> []).
Proof.
  assert (Hload : file_loader parse_integers scopus_entries "scopus" = Ok scopus_loaded)
    by (vm_compute; reflexivity).
  pose (topics := match fit_topic_model scopus_loaded flat_model with
                  | Ok (_, t, _) => t
                  | Raise _ => []
                  end).
  pose (probabilities := match fit_topic_model scopus_loaded flat_model with
                         | Ok (_, _, p) => p
                         | Raise _ => []
                         end).
  assert (Hfit : fit_topic_model scopus_loaded flat_model
                 = Ok (scopus_corpus, topics, probabilities))
    by (vm_compute; reflexivity).
  pose (result := return_included_papers (S := stable_sort) None scopus_corpus flat_model
                    weights_with_topics (Some scopus_entries)).
  pose (ranked_df := match result with Ok (r, _) => r | Raise _ => corpus4 end).
  pose (out := match result with Ok (_, Some o) => o | _ => [] end).
  assert (Hrun : return_included_papers (S := stable_sort) None scopus_corpus flat_model
                   weights_with_topics (Some scopus_entries)
                 = Ok (ranked_df, Some out))
    by (vm_compute; reflexivity).
  assert (Hdisj : forall name, In name score_fields ->
                    ~ In name (column_names (DataFrame_of_records scopus_entries)))
    by (apply names_apart; vm_compute; reflexivity).
  assert (Hmodel : forall docs,
             List.length (mat_rows (approximate_distribution flat_model docs))
             = List.length docs)
    by (intros docs; unfold flat_model; cbn [approximate_distribution mat_rows];
        apply length_map).
  destruct (loaded_papers_are_found parse_integers (S := stable_sort)
              scopus_entries "scopus" scopus_loaded scopus_corpus flat_model
              topics probabilities None weights_with_topics ranked_df out
              Hdisj Hmodel Hload Hfit Hrun)
    as [lkeys [rkeys [_ [Hr [Hmatch _]]]]].
  exists ranked_df, out, lkeys, rkeys.
  split; [exact Hrun|]. split; [exact Hr|]. exact Hmatch.
Defined.

Open Scope Z_scope.

(** ** The h-index of [corpus_eda] *)

(** [lambda x: (x >= x.count()).sum()] on the [int64] citation counts of one
    group (an author or a source): the number of counts that reach the size
    of the group. *)
Definition at_least (k : Z) (x : list Z) : list Z := filter (fun c => k <=? c) x.

Definition hindex_lambda (x : list Z) : Z :=
  let count := Z.of_nat (List.length x) in
  Z.of_nat (List.length (at_least count x)).

Lemma at_least_length (k : Z) (x : list Z) :
  (List.length (at_least k x) <= List.length x)%nat.
Proof. apply filter_length_le. Qed.

Lemma at_least_mono (k k' : Z) (x : list Z) :
  k <= k' -> (List.length (at_least k' x) <= List.length (at_least k x))%nat.
Proof.
  intros Hk. induction x as [|c x IH]; [apply Nat.le_refl|].
  unfold at_least in *. cbn [filter].
  destruct (k' <=? c) eqn:E1; destruct (k <=? c) eqn:E2; cbn [List.length]; lia.
Qed.

Lemma at_least_app (k : Z) (x y : list Z) :
  at_least k (x ++ y) = (at_least k x ++ at_least k y)%list.
Proof. apply filter_app. Qed.

Lemma at_least_all (k : Z) (x : list Z) :
  List.length (at_least k x) = List.length x <-> Forall (fun c => k <= c) x.
Proof.
  induction x as [|c x IH]; [split; [constructor|reflexivity]|].
  unfold at_least in *. cbn [filter]. destruct (k <=? c) eqn:E; cbn [List.length].
  - apply Z.leb_le in E. split.
    + intros H. constructor; [exact E|]. apply IH. lia.
    + intros H. inversion H; subst. f_equal. now apply IH.
  - apply Z.leb_gt in E. split.
    + intros H. pose proof (filter_length_le (fun c => k <=? c) x). lia.
    + intros H. inversion H; subst. lia.
Qed.

(** The value the h-index charts show for a group is a lower bound of its
    h-index, and no more: it lies between 0 and the size of the group, that
    many papers of the group have at least that many citations, it reaches the
    size of the group only when every paper has as many citations as the
    group has papers, and one more paper with no more citations than the
    group then has papers never raises it. *)
Theorem hindex_lambda_lower_bound (x : list Z) :
  let h := hindex_lambda x in
  0 <= h <= Z.of_nat (List.length x) /\
  h <= Z.of_nat (List.length (at_least h x)) /\
  (h = Z.of_nat (List.length x) <-> Forall (fun c => Z.of_nat (List.length x) <= c) x) /\
  (forall (before after : list Z) (c : Z),
      x = (before ++ c :: after)%list -> c < Z.of_nat (List.length x) ->
      h <= hindex_lambda (before ++ after)).
Proof.
  cbn zeta. unfold hindex_lambda. cbn zeta.
  pose proof (at_least_length (Z.of_nat (List.length x)) x) as Hle.
  split; [lia|]. split; [|split].
  - apply inj_le. apply at_least_mono. lia.
  - rewrite <- at_least_all. lia.
  - intros before after c -> Hc. apply inj_le.
    rewrite !at_least_app. unfold at_least at 2. cbn [filter].
    fold (at_least (Z.of_nat (List.length (before ++ c :: after))) after).
    destruct (Z.of_nat (List.length (before ++ c :: after)) <=? c) eqn:E;
      [apply Z.leb_le in E; lia|].
    assert (Hk : Z.of_nat (List.length (before ++ after))
                 <= Z.of_nat (List.length (before ++ c :: after)))
      by (rewrite !length_app; cbn [List.length]; lia).
    pose proof (at_least_mono _ _ before Hk).
    pose proof (at_least_mono _ _ after Hk).
    set (k := Z.of_nat (List.length (before ++ after))) in *.
    set (k' := Z.of_nat (List.length (before ++ c :: after))) in *.
    rewrite !length_app. lia.
Qed.

(** Three papers of three citations each have the h-index 3; one further
    paper that was never cited brings the value of the chart to 0. *)
Example hindex_lambda_uncited :
  hindex_lambda [3; 3; 3] = 3 /\ hindex_lambda [3; 3; 3; 0] = 0.
Proof. split; reflexivity. Qed.

Open Scope string_scope.

(** ** The selection of the outputs in [corpus_eda] and [topic_outputs]

    Every block of the two functions stands under a test of the shape
    [viz == "all" or "name"]. Python reads it as [(viz == "all") or "name"]:
    the comparison when it holds, the string otherwise, and a string counts
    as true unless it is empty. *)
Inductive pyval : Type :=
| PyBool (b : bool)
| PyString (s : string).

Definition truthy (v : pyval) : bool :=
  match v with
  | PyBool b => b
  | PyString s => negb (String.eqb s "")
  end.

Definition py_or (a b : pyval) : pyval := if truthy a then a else b.

Definition chosen (viz name : string) : bool :=
  truthy (py_or (PyBool (String.eqb viz "all")) (PyString name)).

(** What a call leaves behind: the dictionary it returns and the names of the
    files it writes into the working directory, in order. *)
Record charts (Figure : Type) : Type := mkCharts {
  return_dict : list (string * Figure);
  written : list string
}.
Arguments mkCharts {Figure} _ _.
Arguments return_dict {Figure} _.
Arguments written {Figure} _.

Section Visualisations.

Variable Figure : Type.

(** The table and the plotly figure of one block of [corpus_eda], by the key
    under which the figure is returned; a block may raise. *)
Variable eda_figure : DataFrame -> string -> result Figure.

(** [model.visualize_topics()], [model.visualize_barchart(...)] and
    [model.visualize_heatmap()], by the key of the figure. *)
Variable visualize : TopicModel -> string -> result Figure.

(** [topic_report(model, corpus)], by the files it writes. *)
Variable topic_report : TopicModel -> DataFrame -> result (list string).

(** One block: the figure goes into the dictionary and, with [save], is
    written with each of the extensions. *)
Definition chart_block (figure : string -> result Figure) (viz name key : string)
           (extensions : list string) (save : bool) (acc : charts Figure)
  : result (charts Figure) :=
  if chosen viz name then
    fig <- figure key ;;
    Ok (mkCharts (dict_set (return_dict acc) key fig)
                 (written acc ++ (if save then map (fun ext => (key ++ ext)%string) extensions
                                  else []))%list)
  else Ok acc.

Definition eda_extensions : list string := [".html"; ".png"; ".csv"].

Definition corpus_eda (file : DataFrame) (viz : string) (save : bool)
  : result (charts Figure) :=
  let block := chart_block (eda_figure file) viz in
  d <- block "pubs_by_year" "pubs_by_year" eda_extensions save (mkCharts [] []) ;;
  d <- block "cites_by_year" "cites_by_year" eda_extensions save d ;;
  d <- block "top_paper_cites" "top_paper_cites" eda_extensions save d ;;
  d <- block "top_author_cites" "top_author_cites" eda_extensions save d ;;
  d <- block "top_author_hindex" "top_author_hindex" eda_extensions save d ;;
  d <- block "top_sources_cites" "top_source_cites" eda_extensions save d ;;
  block "top_source_hindex" "top_source_hindex" eda_extensions save d.

Definition output_extensions : list string := [".png"; ".html"].

(** The last two blocks of [topic_outputs] return no figure, and write
    whatever [save] holds: the table of the topic proportions beside the
    corpus goes to [topics_df.csv], and the report is built. *)
Definition topic_outputs (corpus : DataFrame) (model : TopicModel) (viz : string)
           (save : bool) : result (charts Figure) :=
  let block := chart_block (visualize model) viz in
  d <- block "distance_map" "distance_map" output_extensions save (mkCharts [] []) ;;
  d <- block "topic_bar" "topic_bar" output_extensions save d ;;
  d <- block "similarity_matrix" "similarity_matrix" output_extensions save d ;;
  d <- (if chosen viz "topics_df" then
          _ <- integrate corpus model ;;
          Ok (mkCharts (return_dict d) (written d ++ ["topics_df.csv"])%list)
        else Ok d) ;;
  if chosen viz "topic_report" then
    files <- topic_report model corpus ;;
    Ok (mkCharts (return_dict d) (written d ++ files)%list)
  else Ok d.

Lemma chosen_nonempty (viz name : string) : name <> "" -> chosen viz name = true.
Proof.
  intros H. unfold chosen, py_or. cbn [truthy].
  destruct (String.eqb viz "all"); [reflexivity|]. cbn [truthy].
  destruct (String.eqb_spec name ""); [contradiction|reflexivity].
Qed.

Lemma chart_block_all (figure : string -> result Figure) (viz name key : string)
      (extensions : list string) (save : bool) (acc : charts Figure) :
  name <> "" ->
  chart_block figure viz name key extensions save acc
  = (fig <- figure key ;;
     Ok (mkCharts (dict_set (return_dict acc) key fig)
                  (written acc ++ (if save then map (fun ext => (key ++ ext)%string) extensions
                                   else []))%list)).
Proof. intros H. unfold chart_block. now rewrite chosen_nonempty. Qed.

Lemma chart_block_viz (figure : string -> result Figure) (viz name key : string)
      (extensions : list string) (save : bool) (acc : charts Figure) :
  name <> "" ->
  chart_block figure viz name key extensions save acc
  = chart_block figure "all" name key extensions save acc.
Proof. intros H. now rewrite !chart_block_all. Qed.

Ltac same_block :=
  rewrite chart_block_viz by discriminate;
  match goal with
  | |- bind ?c _ = _ => destruct c; cbn [bind]; [|reflexivity]
  end.

Ltac run_block figure H :=
  rewrite chart_block_all in H by discriminate;
  match type of H with
  | context [figure ?k] => destruct (figure k); [|discriminate]; cbn [bind] in H
  end.

(** [corpus_eda] does not look at [viz]: whatever name is passed, it builds
    all seven figures. When it returns, the dictionary holds the seven keys in
    the order of the blocks, and with [save] the three files of every block
    are written, without [save] none. *)
Theorem corpus_eda_ignores_viz (file : DataFrame) (viz : string) (save : bool) :
  corpus_eda file viz save = corpus_eda file "all" save /\
  forall out, corpus_eda file viz save = Ok out ->
    map fst (return_dict out)
    = ["pubs_by_year"; "cites_by_year"; "top_paper_cites"; "top_author_cites";
       "top_author_hindex"; "top_source_cites"; "top_source_hindex"] /\
    written out
    = (if save then
         flat_map (fun key => map (fun ext => (key ++ ext)%string) eda_extensions)
                  ["pubs_by_year"; "cites_by_year"; "top_paper_cites"; "top_author_cites";
                   "top_author_hindex"; "top_source_cites"; "top_source_hindex"]
       else []).
Proof.
  unfold corpus_eda. cbn zeta. split.
  { do 6 same_block. apply chart_block_viz. discriminate. }
  intros out H. do 7 (run_block (eda_figure file) H).
  injection H as <-. cbn [return_dict written].
  split; [reflexivity|]. destruct save; reflexivity.
Qed.

(** [topic_outputs] does not look at [viz] either, and [save] only governs the
    three figures: when it returns, the dictionary holds the three figures,
    the table of topic proportions could be built and [topics_df.csv] and the
    files of the report are written even without [save]. *)
Theorem topic_outputs_ignores_viz (corpus : DataFrame) (model : TopicModel)
        (viz : string) (save : bool) :
  topic_outputs corpus model viz save = topic_outputs corpus model "all" save /\
  forall out, topic_outputs corpus model viz save = Ok out ->
    map fst (return_dict out) = ["distance_map"; "topic_bar"; "similarity_matrix"] /\
    exists output report,
      integrate corpus model = Ok output /\
      topic_report model corpus = Ok report /\
      written out
      = ((if save then
            flat_map (fun key => map (fun ext => (key ++ ext)%string) output_extensions)
                     ["distance_map"; "topic_bar"; "similarity_matrix"]
          else []) ++ "topics_df.csv" :: report)%list.
Proof.
  unfold topic_outputs. cbn zeta. split.
  { do 3 same_block. now rewrite !chosen_nonempty by discriminate. }
  intros out H. do 3 (run_block (visualize model) H).
  rewrite !chosen_nonempty in H by discriminate.
  destruct (integrate corpus model) as [output|e] eqn:E1; [|discriminate].
  cbn [bind] in H.
  destruct (topic_report model corpus) as [report|e] eqn:E2; [|discriminate].
  cbn [bind] in H. injection H as <-. cbn [return_dict written].
  split; [reflexivity|]. exists output, report.
  split; [reflexivity|]. split; [reflexivity|].
  destruct save; reflexivity.
Qed.

End Visualisations.

Open Scope string_scope.

(** * Min-max normalisation inside the scoring *)

(** Positions [lo] and [hi] hold the smallest and the largest number of a
    batch, the two numbers differ and their difference is a finite number. A
    batch is a column of [int64] values, whose differences are always finite,
    or a column of binary64 values, among which the missing ones are passed
    over. *)
Definition extremes (c : column) (lo hi : nat) : Prop :=
  match c with
  | IntCol l =>
      (lo < List.length l)%nat /\ (hi < List.length l)%nat /\
      Forall (fun z => in_int64 z = true) l /\
      (forall k, (k < List.length l)%nat -> nth lo l 0 <= nth k l 0 <= nth hi l 0) /\
      nth lo l 0 < nth hi l 0
  | FloatCol l =>
      (lo < List.length l)%nat /\ (hi < List.length l)%nat /\
      Forall (fun x => Float64.valid x = true) l /\
      (forall k, (k < List.length l)%nat ->
                 Float64.is_nan (nth k l Float64.nan) = false ->
                 Float64.leb (nth lo l Float64.nan) (nth k l Float64.nan) = true /\
                 Float64.leb (nth k l Float64.nan) (nth hi l Float64.nan) = true) /\
      Float64.ltb (nth lo l Float64.nan) (nth hi l Float64.nan) = true /\
      Float64.is_finite (Float64.sub (nth hi l Float64.nan) (nth lo l Float64.nan)) = true
  | ObjCol _ => False
  end.

Lemma leb_antisym (x y : Float64.float) :
  Float64.leb x y = true -> Float64.leb y x = true -> Float64.eqb x y = true.
Proof.
  unfold Float64.leb, Float64.eqb, SFleb, SFeqb.
  destruct (SFcompare x y) as [c|] eqn:E; [|discriminate].
  rewrite (SFcompare_antisym _ _ _ E). destruct c; cbn; congruence.
Qed.

Lemma eqb_leb (x y : Float64.float) :
  Float64.eqb x y = true -> Float64.leb x y = true /\ Float64.leb y x = true.
Proof.
  unfold Float64.leb, Float64.eqb, SFleb, SFeqb.
  destruct (SFcompare x y) as [c|] eqn:E; [|discriminate].
  rewrite (SFcompare_antisym _ _ _ E). destruct c; cbn; auto; discriminate.
Qed.

Lemma ltb_not_leb (x y : Float64.float) :
  Float64.ltb x y = true -> Float64.leb y x = false.
Proof.
  unfold Float64.leb, Float64.ltb, SFleb, SFltb.
  destruct (SFcompare x y) as [c|] eqn:E; [|discriminate].
  rewrite (SFcompare_antisym _ _ _ E). destruct c; cbn; congruence.
Qed.

Lemma leb_not_nan (x y : Float64.float) :
  Float64.leb x y = true -> Float64.is_nan x = false /\ Float64.is_nan y = false.
Proof. destruct x, y; cbn; auto; discriminate. Qed.

Lemma is_finite_sub_eqb (a a' b b' : Float64.float) :
  Float64.eqb a a' = true -> Float64.eqb b b' = true ->
  Float64.is_finite (Float64.sub a b) = true ->
  Float64.is_finite (Float64.sub a' b') = true.
Proof.
  intros Ha Hb H.
  destruct (eqb_true_cases _ _ Ha) as [<-|[Za Za']];
    destruct (eqb_true_cases _ _ Hb) as [<-|[Zb Zb']]; [exact H| | |].
  - destruct (sub_finite_args _ _ H) as [Fa _].
    destruct b as [sb| | |], b' as [[]| | |]; try discriminate;
      destruct a as [[]|sa| |[] ma ea]; try discriminate; reflexivity.
  - destruct (sub_finite_args _ _ H) as [_ Fb].
    destruct a as [sa| | |], a' as [[]| | |]; try discriminate;
      destruct b as [[]|sb| |[] mb eb]; try discriminate; reflexivity.
  - destruct a as [sa| | |], a' as [[]| | |]; try discriminate;
      destruct b as [sb| | |], b' as [[]| | |]; try discriminate; reflexivity.
Qed.

(** At the extremes of a batch the normalised values are 1.0 and 0.0. *)
Lemma minmax_at_extremes (c : column) (lo hi : nat) (n : list Float64.float) :
  extremes c lo hi -> minmax c = Ok n ->
  nth hi n Float64.nan = Float64.one /\
  Float64.eqb (nth lo n Float64.nan) Float64.zero = true.
Proof.
  destruct c as [l|l|l]; cbn [extremes minmax]; [| |contradiction].
  - intros (Hlo & Hhi & Hall & Hbound & Hlt) H. injection H as <-.
    destruct l as [|x rest]; [cbn in Hlo; lia|].
    assert (Emax : nth hi (x :: rest) 0 = int_max x rest).
    { destruct (In_nth _ _ 0 (int_max_in x rest)) as [k [Hk Ek]].
      pose proof (Hbound k Hk) as Hb. rewrite Ek in Hb.
      pose proof (proj1 (Forall_forall _ _) (int_max_upper x rest) _
                        (nth_In _ 0 Hhi)) as Hu. cbv beta in Hu. lia. }
    assert (Emin : nth lo (x :: rest) 0 = int_min x rest).
    { destruct (In_nth _ _ 0 (int_min_in x rest)) as [k [Hk Ek]].
      pose proof (Hbound k Hk) as Hb. rewrite Ek in Hb.
      pose proof (proj1 (Forall_forall _ _) (int_min_lower x rest) _
                        (nth_In _ 0 Hlo)) as Hl. cbv beta in Hl. lia. }
    assert (Hne : int_min x rest <> int_max x rest) by lia.
    split.
    + now apply (minmax_int_extremes x rest hi Hall Hne Hhi).
    + now apply (minmax_int_extremes x rest lo Hall Hne Hlo).
  - intros (Hlo & Hhi & Hall & Hbound & Hlt & Hfin) H. injection H as <-.
    set (a := nth lo l Float64.nan) in *. set (b := nth hi l Float64.nan) in *.
    destruct (leb_not_nan _ _ (ltb_leb _ _ Hlt)) as [Na Nb].
    assert (Hub : Float64.leb b (nanmax l) = true).
    { destruct (proj1 (Forall_forall _ _) (nanmax_upper l) b (nth_In _ _ Hhi));
        [congruence|assumption]. }
    assert (Hlb : Float64.leb (nanmin l) a = true).
    { destruct (proj1 (Forall_forall _ _) (nanmin_lower l) a (nth_In _ _ Hlo));
        [congruence|assumption]. }
    assert (Emax : Float64.eqb b (nanmax l) = true).
    { apply leb_antisym; [exact Hub|].
      destruct (leb_not_nan _ _ Hub) as [_ Nm].
      destruct (nanmax_in l) as [E|Hin]; [rewrite E in Nm; discriminate|].
      destruct (In_nth _ _ Float64.nan Hin) as [k [Hk Ek]].
      destruct (Hbound k Hk) as [_ Hle]; [now rewrite Ek|]. now rewrite Ek in Hle. }
    assert (Emin : Float64.eqb a (nanmin l) = true).
    { apply leb_antisym; [|exact Hlb].
      destruct (leb_not_nan _ _ Hlb) as [Nm _].
      destruct (nanmin_in l) as [E|Hin]; [rewrite E in Nm; discriminate|].
      destruct (In_nth _ _ Float64.nan Hin) as [k [Hk Ek]].
      destruct (Hbound k Hk) as [Hle _]; [now rewrite Ek|]. now rewrite Ek in Hle. }
    assert (Hrange : Float64.is_finite (Float64.sub (nanmax l) (nanmin l)) = true)
      by exact (is_finite_sub_eqb _ _ _ _ Emax Emin Hfin).
    assert (Hne : Float64.eqb (nanmin l) (nanmax l) = false).
    { destruct (Float64.eqb (nanmin l) (nanmax l)) eqn:E; [|reflexivity].
      apply eqb_leb in E as [_ Hge].
      pose proof (leb_trans _ _ _ (leb_trans _ _ _ Hub Hge) Hlb) as Hba.
      rewrite (ltb_not_leb _ _ Hlt) in Hba. discriminate. }
    split.
    + now apply (minmax_float_extremes l hi Hall Hrange Hne Hhi).
    + now apply (minmax_float_extremes l lo Hall Hrange Hne Hlo).
Qed.

Lemma citations_not_weighted : ~ weighted_name "Citations".
Proof.
  apply (weighted_name_not "Citations" (list_ascii_of_string "Citation") "s"%char);
    [reflexivity|discriminate].
Qed.

Lemma year_not_weighted : ~ weighted_name "Year".
Proof.
  apply (weighted_name_not "Year" (list_ascii_of_string "Yea") "r"%char);
    [reflexivity|discriminate].
Qed.

(** The loop writes [cite_score] at the key [cites], [recency_score] at the
    key [recency] and a name that ends in [W] at any other key but [topics];
    every other column stays as it is. *)
Lemma weight_loop_keeps (weights : list (string * Float64.float))
      (output reached : DataFrame) (score_list names : list string) (key : string) :
  weight_loop weights output score_list = Ok (reached, names) ->
  (key = "cite_score" -> ~ In "cites" (map fst weights)) ->
  (key = "recency_score" -> ~ In "recency" (map fst weights)) ->
  ~ weighted_name key ->
  df_get reached key = df_get output key.
Proof.
  intros H Hc Hr Hw. revert output score_list H.
  induction weights as [|[k w] rest IH]; intros output sl H; cbn [weight_loop] in H.
  - now injection H as <- _.
  - assert (Hc' : key = "cite_score" -> ~ In "cites" (map fst rest))
      by (intros E Hin; apply (Hc E); now right).
    assert (Hr' : key = "recency_score" -> ~ In "recency" (map fst rest))
      by (intros E Hin; apply (Hr E); now right).
    specialize (IH Hc' Hr').
    destruct (String.eqb_spec k "cites") as [->|Hk1].
    { repeat invert_bind H. rewrite (IH _ _ H).
      rewrite !df_get_set_other; [reflexivity| |];
        intros <-; apply (Hc eq_refl); now left. }
    destruct (String.eqb_spec k "recency") as [->|Hk2].
    { repeat invert_bind H. rewrite (IH _ _ H).
      rewrite !df_get_set_other; [reflexivity| |];
        intros <-; apply (Hr eq_refl); now left. }
    destruct (negb (String.eqb k "topics")).
    + cbv zeta in H. repeat invert_bind H. rewrite (IH _ _ H).
      apply df_get_set_other. intros Heq. apply Hw. now exists k.
    + exact (IH _ _ H).
Qed.

Lemma weights_head (k : string) (w v : Float64.float)
      (rest : list (string * Float64.float)) :
  NoDup (map fst ((k, w) :: rest)) -> In (k, v) ((k, w) :: rest) -> v = w.
Proof.
  intros Hnd [Heq|Hin]; [now injection Heq|].
  cbn [map fst] in Hnd. apply NoDup_cons_iff in Hnd as [Hnot _].
  exfalso. apply Hnot. apply in_map_iff. now exists (k, v).
Qed.

(** What the loop leaves in [cite_score]: the normalised citation counts
    times the weight of [cites]. *)
Lemma weight_loop_cite_score (weights : list (string * Float64.float))
      (output reached : DataFrame) (score_list names : list string)
      (w : Float64.float) (c : column) :
  weight_loop weights output score_list = Ok (reached, names) ->
  NoDup (map fst weights) -> In ("cites", w) weights ->
  df_get output "Citations" = Ok c ->
  exists n, minmax c = Ok n /\
            df_get reached "cite_score" = Ok (FloatCol (scale w n)).
Proof.
  revert output score_list.
  induction weights as [|[k v] rest IH]; intros output sl H Hnd Hin Hget;
    [contradiction|].
  cbn [weight_loop] in H.
  assert (Hnd' : NoDup (map fst rest)) by (cbn [map fst] in Hnd; now inversion Hnd).
  destruct (String.eqb_spec k "cites") as [->|Hk1].
  { rewrite (weights_head _ _ _ _ Hnd Hin). clear Hin.
    rewrite Hget in H. cbn [bind] in H.
    destruct (minmax c) as [n|e]; [|discriminate]. cbn [bind] in H.
    rewrite df_get_set_same in H. cbn [bind col_mul col_floats] in H.
    exists n. split; [reflexivity|].
    rewrite (weight_loop_keeps _ _ _ _ _ "cite_score" H).
    - apply df_get_set_same.
    - intros _. cbn [map fst] in Hnd. now inversion Hnd.
    - discriminate.
    - exact cite_score_not_weighted. }
  assert (Hin' : In ("cites", w) rest).
  { destruct Hin as [Heq|Hin]; [|exact Hin]. injection Heq as -> _. contradiction. }
  destruct (String.eqb_spec k "recency") as [->|Hk2].
  { repeat invert_bind H. apply (IH _ _ H Hnd' Hin').
    now rewrite !df_get_set_other by discriminate. }
  destruct (negb (String.eqb k "topics")).
  - cbv zeta in H. repeat invert_bind H. apply (IH _ _ H Hnd' Hin').
    rewrite df_get_set_other; [exact Hget|].
    intros Heq. apply citations_not_weighted. now exists k.
  - exact (IH _ _ H Hnd' Hin' Hget).
Qed.

Lemma weight_loop_recency_score (weights : list (string * Float64.float))
      (output reached : DataFrame) (score_list names : list string)
      (w : Float64.float) (c : column) :
  weight_loop weights output score_list = Ok (reached, names) ->
  NoDup (map fst weights) -> In ("recency", w) weights ->
  df_get output "Year" = Ok c ->
  exists n, minmax c = Ok n /\
            df_get reached "recency_score" = Ok (FloatCol (scale w n)).
Proof.
  revert output score_list.
  induction weights as [|[k v] rest IH]; intros output sl H Hnd Hin Hget;
    [contradiction|].
  cbn [weight_loop] in H.
  assert (Hnd' : NoDup (map fst rest)) by (cbn [map fst] in Hnd; now inversion Hnd).
  destruct (String.eqb_spec k "cites") as [->|Hk1].
  { assert (Hin' : In ("recency", w) rest).
    { destruct Hin as [Heq|Hin]; [discriminate|exact Hin]. }
    repeat invert_bind H. apply (IH _ _ H Hnd' Hin').
    now rewrite !df_get_set_other by discriminate. }
  destruct (String.eqb_spec k "recency") as [->|Hk2].
  { rewrite (weights_head _ _ _ _ Hnd Hin). clear Hin.
    rewrite Hget in H. cbn [bind] in H.
    destruct (minmax c) as [n|e]; [|discriminate]. cbn [bind] in H.
    rewrite df_get_set_same in H. cbn [bind col_mul col_floats] in H.
    exists n. split; [reflexivity|].
    rewrite (weight_loop_keeps _ _ _ _ _ "recency_score" H).
    - apply df_get_set_same.
    - discriminate.
    - intros _. cbn [map fst] in Hnd. now inversion Hnd.
    - exact recency_score_not_weighted. }
  assert (Hin' : In ("recency", w) rest).
  { destruct Hin as [Heq|Hin]; [|exact Hin]. injection Heq as -> _. contradiction. }
  destruct (negb (String.eqb k "topics")).
  - cbv zeta in H. repeat invert_bind H. apply (IH _ _ H Hnd' Hin').
    rewrite df_get_set_other; [exact Hget|].
    intros Heq. apply year_not_weighted. now exists k.
  - exact (IH _ _ H Hnd' Hin' Hget).
Qed.

Lemma select_cols_ext (keys : list string) (l l' : list (string * column)) :
  (forall k, In k keys -> lookup k l' = lookup k l) ->
  select_cols keys l' = select_cols keys l.
Proof.
  induction keys as [|k keys IH]; intros H; cbn [select_cols]; [reflexivity|].
  rewrite (H k (or_introl eq_refl)), IH; [reflexivity|].
  intros k' Hk'. apply H. now right.
Qed.

Lemma df_get_lookup (df df' : DataFrame) (key : string) :
  df_get df' key = df_get df key -> lookup key (columns df') = lookup key (columns df).
Proof.
  unfold df_get.
  destruct (lookup key (columns df')), (lookup key (columns df)); congruence.
Qed.

(** The three components in the frame [score_frame] returns: each score
    column is the min-max normalisation of its batch times its weight. The
    batches are the citation counts, the years, and the sums over the
    weighted topic columns. *)
Lemma score_frame_normalised (output scored : DataFrame)
      (weights : list (string * Float64.float)) (score_list : list string) :
  score_frame output weights = Ok (scored, score_list) ->
  NoDup (map fst weights) ->
  (forall w c, In ("cites", w) weights -> df_get output "Citations" = Ok c ->
     exists n, minmax c = Ok n /\
               df_get scored "cite_score" = Ok (FloatCol (scale w n))) /\
  (forall w c, In ("recency", w) weights -> df_get output "Year" = Ok c ->
     exists n, minmax c = Ok n /\
               df_get scored "recency_score" = Ok (FloatCol (scale w n))) /\
  (forall w, In ("topics", w) weights ->
     exists selected total,
       df_select scored score_list = Ok selected /\
       sum_axis1 selected = Ok total /\
       df_get scored "topic_score" = Ok (FloatCol (scale w (minmax_float total)))).
Proof.
  unfold score_frame. intros H Hnd.
  destruct (weight_loop weights output []) as [[looped names]|e] eqn:Eloop;
    [|discriminate].
  cbn [bind] in H.
  destruct (df_select looped names) as [selected|e] eqn:Esel; [|discriminate].
  cbn [bind] in H.
  destruct (sum_axis1 selected) as [total|e] eqn:Esum; [|discriminate].
  cbn [bind] in H. rewrite df_get_set_same in H. cbn [bind minmax] in H.
  rewrite df_get_set_same in H. cbn [bind] in H.
  destruct (dict_get weights "topics") as [wt|e] eqn:Ewt; [|discriminate].
  cbn [bind col_mul col_floats] in H.
  set (frame := df_set (df_set (df_set looped "topic_score" (FloatCol total))
                               "topic_score" (FloatCol (minmax_float total)))
                       "topic_score" (FloatCol (scale wt (minmax_float total)))) in *.
  destruct (df_get frame "cite_score") as [cs|e]; [|discriminate]. cbn [bind] in H.
  destruct (df_get frame "recency_score") as [rs|e]; [|discriminate]. cbn [bind] in H.
  destruct (df_get frame "topic_score") as [ts|e]; [|discriminate]. cbn [bind] in H.
  destruct (col_add cs rs) as [cr|e]; [|discriminate]. cbn [bind] in H.
  destruct (col_add cr ts) as [sc|e]; [|discriminate]. cbn [bind] in H.
  injection H as <- <-.
  assert (Hkeep : forall key, key <> "topic_score" -> key <> "score" ->
                  df_get (df_set frame "score" sc) key = df_get looped key).
  { intros key H1 H2. unfold frame. now rewrite !df_get_set_other by congruence. }
  split; [|split].
  - intros w c Hin Hget.
    destruct (weight_loop_cite_score _ _ _ _ _ w c Eloop Hnd Hin Hget) as [n [Hn Hcs]].
    exists n. split; [exact Hn|]. now rewrite Hkeep by discriminate.
  - intros w c Hin Hget.
    destruct (weight_loop_recency_score _ _ _ _ _ w c Eloop Hnd Hin Hget) as [n [Hn Hrs]].
    exists n. split; [exact Hn|]. now rewrite Hkeep by discriminate.
  - intros w Hin. exists selected, total.
    assert (Hw : wt = w).
    { unfold dict_get in Ewt. rewrite (lookup_NoDup_In _ _ _ Hnd Hin) in Ewt.
      now injection Ewt. }
    subst wt. split; [|split; [exact Esum|]].
    + pose proof (weight_loop_names _ _ _ _ _ Eloop (Forall_nil _)) as Hnames.
      unfold df_select in *.
      rewrite (select_cols_ext names (columns looped)).
      * unfold frame. now rewrite !df_set_nrows.
      * intros k Hk. apply df_get_lookup. apply Hkeep; intros ->.
        -- exact (topic_score_not_weighted (proj1 (Forall_forall _ _) Hnames _ Hk)).
        -- exact (score_not_weighted (proj1 (Forall_forall _ _) Hnames _ Hk)).
    + rewrite df_get_set_other by discriminate. unfold frame. apply df_get_set_same.
Qed.

Lemma minmax_length (c : column) (n : list Float64.float) :
  minmax c = Ok n -> List.length n = col_length c.
Proof.
  destruct c as [l|l|l]; cbn [minmax col_length]; intros H.
  - injection H as <-. destruct l; [reflexivity|]. unfold minmax_int. apply length_map.
  - injection H as <-. unfold minmax_float. apply length_map.
  - invert_bind H. injection H as <-. unfold minmax_float. rewrite length_map.
    now apply mapM_length in E.
Qed.

(** C7. Min-max normalisation in [inclusion_criteria], for a dict of
    weights. Whenever the function returns, the frame it has scored holds,
    for each of the three components, the normalised batch times the weight
    of the component: the batch of [cite_score] are the citation counts, that
    of [recency_score] the years, that of [topic_score] the sums over the
    weighted topic columns. In a batch whose smallest and largest number
    differ by a finite amount, the normalised value is exactly [1.0] at every
    record that holds the largest number and compares equal to [0.0] at
    every record that holds the smallest. *)
Theorem normalised_extremes {S : ArgSort}
        (corpus : DataFrame) (model : TopicModel)
        (weights : list (string * Float64.float)) (include_scores : bool)
        (output out : DataFrame) :
  integrate corpus model = Ok output ->
  inclusion_criteria corpus model weights include_scores = Ok out ->
  NoDup (map fst weights) ->
  exists scored score_list,
    score_frame output weights = Ok (scored, score_list) /\
    (forall w citations lo hi,
        In ("cites", w) weights -> df_get output "Citations" = Ok citations ->
        extremes citations lo hi ->
        exists n,
          df_get scored "cite_score" = Ok (FloatCol (scale w n)) /\
          List.length n = col_length citations /\
          nth hi n Float64.nan = Float64.one /\
          Float64.eqb (nth lo n Float64.nan) Float64.zero = true) /\
    (forall w years lo hi,
        In ("recency", w) weights -> df_get output "Year" = Ok years ->
        extremes years lo hi ->
        exists n,
          df_get scored "recency_score" = Ok (FloatCol (scale w n)) /\
          List.length n = col_length years /\
          nth hi n Float64.nan = Float64.one /\
          Float64.eqb (nth lo n Float64.nan) Float64.zero = true) /\
    (forall w selected total lo hi,
        In ("topics", w) weights ->
        df_select scored score_list = Ok selected -> sum_axis1 selected = Ok total ->
        extremes (FloatCol total) lo hi ->
        exists n,
          df_get scored "topic_score" = Ok (FloatCol (scale w n)) /\
          List.length n = List.length total /\
          nth hi n Float64.nan = Float64.one /\
          Float64.eqb (nth lo n Float64.nan) Float64.zero = true).
Proof.
  intros Hint Hrun Hnd.
  destruct (inclusion_criteria_unfold _ _ _ _ _ Hrun)
    as [output' [scored [score_list [unsorted [H1 [H2 _]]]]]].
  rewrite Hint in H1. injection H1 as <-.
  destruct (score_frame_normalised _ _ _ _ H2 Hnd) as [Hc [Hr Ht]].
  exists scored, score_list. split; [exact H2|]. split; [|split].
  - intros w citations lo hi Hin Hget Hex.
    destruct (Hc w citations Hin Hget) as [n [Hn Hcol]].
    exists n. split; [exact Hcol|]. split; [exact (minmax_length _ _ Hn)|].
    exact (minmax_at_extremes _ _ _ _ Hex Hn).
  - intros w years lo hi Hin Hget Hex.
    destruct (Hr w years Hin Hget) as [n [Hn Hcol]].
    exists n. split; [exact Hcol|]. split; [exact (minmax_length _ _ Hn)|].
    exact (minmax_at_extremes _ _ _ _ Hex Hn).
  - intros w selected total lo hi Hin Hsel Hsum Hex.
    destruct (Ht w Hin) as [selected' [total' [Hsel' [Hsum' Hcol]]]].
    rewrite Hsel in Hsel'. injection Hsel' as <-.
    rewrite Hsum in Hsum'. injection Hsum' as <-.
    exists (minmax_float total). split; [exact Hcol|].
    split; [unfold minmax_float; apply length_map|].
    now apply (minmax_at_extremes (FloatCol total)).
Qed.

(** The four-record corpus with every weight that multiplies a normalised
    column set to 1.0: the first record holds the largest citation count and
    gets 1.0, the second holds the smallest and gets 0.0. *)
Lemma normalised_extremes_witness :
  exists scored score_list n,
    (output <- integrate corpus4 model4 ;; score_frame output weights_all_one)
    = Ok (scored, score_list) /\
    df_get scored "cite_score" = Ok (FloatCol (scale Float64.one n)) /\
    nth 0 n Float64.nan = Float64.one /\
    Float64.eqb (nth 1 n Float64.nan) Float64.zero = true.
Proof.
  pose (output := match integrate corpus4 model4 with
                  | Ok o => o
                  | Raise _ => corpus4
                  end).
  assert (Hint : integrate corpus4 model4 = Ok output) by (vm_compute; reflexivity).
  pose (out := match inclusion_criteria (S := stable_sort) corpus4 model4
                       weights_all_one false with
               | Ok o => o
               | Raise _ => corpus4
               end).
  assert (Hrun : inclusion_criteria (S := stable_sort) corpus4 model4 weights_all_one false
                 = Ok out) by (vm_compute; reflexivity).
  assert (Hnd : NoDup (map fst weights_all_one))
    by (apply NoDup_by_computation; vm_compute; reflexivity).
  destruct (normalised_extremes (S := stable_sort) corpus4 model4 weights_all_one false
              output out Hint Hrun Hnd)
    as [scored [score_list [Hscored [Hcites _]]]].
  destruct (Hcites Float64.one (IntCol [10; 0; 5; 5]) 1%nat 0%nat)
    as [n [Hcol [_ [Hhi Hlo]]]].
  - cbn. tauto.
  - vm_compute. reflexivity.
  - cbn [extremes List.length].
    split; [lia|]. split; [lia|]. split; [repeat constructor|]. split; [|cbn; lia].
    intros k Hk. destruct k as [|[|[|[|k]]]]; cbn; lia.
  - exists scored, score_list, n.
    split; [rewrite Hint; exact Hscored|]. split; [exact Hcol|]. split; assumption.
Defined.

(** Two records, one in each topic, and weights of opposite sign at the
    largest binary64 number. *)
Definition corpus2 : DataFrame :=
  sample_corpus ["a"; "b"] [2020; 2021]%Z [OStr "text a"; OStr "text b"] [1; 2]%Z.

Definition model2 : TopicModel :=
  mkModel (fun docs => (map (fun _ => 0%Z) docs, map (fun _ => Float64.one) docs))
          (fun _ => mkMatrix 2 [[Float64.one; Float64.zero]; [Float64.zero; Float64.one]])
          ["-1_outlier"; "0_graphs"; "1_proofs"].

Definition largest : Float64.float := S754_finite false 9007199254740991 971.
Definition lowest : Float64.float := S754_finite true 9007199254740991 971.

Definition weights_opposed : list (string * Float64.float) :=
  [("cites", Float64.one); ("recency", Float64.one); ("topics", Float64.one);
   ("0_graphs", largest); ("1_proofs", lowest)].

(** C7, against the claim: the topic totals of the two records are the
    largest binary64 number and its opposite, two finite numbers that differ.
    Their difference overflows, and the record that holds the larger total
    gets a missing value where the claim has 1.0; the weight of [topics] is
    1.0, so the column is the normalised component itself. *)
Lemma overflowing_range_is_nan :
  exists scored score_list selected out,
    (output <- integrate corpus2 model2 ;; score_frame output weights_opposed)
    = Ok (scored, score_list) /\
    df_select scored score_list = Ok selected /\
    sum_axis1 selected = Ok [largest; lowest] /\
    Float64.valid largest = true /\ Float64.valid lowest = true /\
    Float64.ltb lowest largest = true /\
    Float64.sub largest lowest = S754_infinity false /\
    df_get scored "topic_score" = Ok (FloatCol [Float64.nan; Float64.zero]) /\
    inclusion_criteria (S := stable_sort) corpus2 model2 weights_opposed true = Ok out /\
    df_get out "Title" = Ok (ObjCol [OStr "b"; OStr "a"]) /\
    df_get out "topic_score" = Ok (FloatCol [Float64.zero; Float64.nan]).
Proof.
  do 4 eexists.
  split; [vm_compute; reflexivity|].
  split; [vm_compute; reflexivity|].
  split; [vm_compute; reflexivity|].
  split; [vm_compute; reflexivity|].
  split; [vm_compute; reflexivity|].
  split; [vm_compute; reflexivity|].
  split; [vm_compute; reflexivity|].
  split; [vm_compute; reflexivity|].
  split; [vm_compute; reflexivity|].
  split; vm_compute; reflexivity.
Qed.
